(* ===== verification/_CoqProject ===== *)
-Q . S2P
Prelude.v
Text.v
Extern.v
Models.v
Errors.v
Effects.v
Spec.v
Redb.v
RedbSpec.v
Wp.v
Sql.v
Rows.v
Postgres.v
PostgresSpec.v
Config.v
Crypto.v
Concrete.v
PgConcrete.v
Manager.v
Mem.v
Invariant.v
ManagerInv.v
ManagerSpec.v
Auth.v
Enroll.v
EnrollSpec.v
Cdc.v
CdcSpec.v
Watcher.v
WatcherSpec.v
Migrate.v
MeshIngest.v
MeshIngestSpec.v
Formations.v
Api.v
ApiSpec.v
Loadtest.v
FloatSpec.v
LoadtestSpec.v
LoadtestRoutes.v
Main.v
Concurrency.v
ConcurrencySpec.v
RateLimit.v
Calls.v
WatcherEquiv.v
Typing.v
Quota.v
Requests.v
System.v
Isolation.v
RedbIsolation.v
EndToEnd.v
Examples.v
Harness.v
ManagerTests.v
ComponentTests.v
Witnesses.v
