(* ===== verification/Prelude.v ===== *)
(** * peat-gateway: a verification development

    peat-gateway is the multi-tenant control plane of PEAT mesh networks.  An
    organization owns formations (mesh applications), each with a genesis (the
    key material of the mesh), enrollment tokens, identity providers and policy
    rules that decide who may join, and sinks that receive change events (CDC)
    of the formations' documents.  This library models the program under
    src/src/ and proves its behaviour.

    ** The program and the files

    A request passes through the HTTP surface (src/src/api/) to the tenant
    manager (src/src/tenant/manager.rs), which validates, checks and then calls a
    storage backend (src/src/storage/) and, for genesis bytes, the envelope
    encryption (src/src/crypto/).  Beside the requests run the formation watchers
    (src/src/cdc/watcher.rs) and the pollers of remote brokers
    (src/src/mesh_ingest.rs); both publish through the CDC engine
    (src/src/cdc/engine.rs).  src/src/main.rs reads the configuration, assembles
    these parts and serves them, or runs a command: migrate-keys (src/src/cli.rs) or
    a load test (src/src/loadtest.rs), which drives a gateway over HTTP.

    - [Prelude]: results, notations, automation, generic lemmas.
    - [Text]: Rust's string and number formatting operations, on byte strings.
    - [Extern]: the code the gateway calls and does not contain, as classes of
      operations and of laws (redb tables, serde, hex, AES-GCM, base64, the HTTP
      client, the peat-mesh genesis, the hash map's iteration order).
    - [Models]: tenant/models.rs.  [Errors]: every error message of the code.
    - [Effects]: the trait [StorageBackend] of storage/mod.rs as a type of
      operations [StoreOp], and programs: an [async fn] is a [prog], a function
      that returns [Result] is an [M].  [run] executes a program on a world (a
      store, the time, the random numbers drawn, the trace of requests and
      sleeps); an [oracle] gives the clock, the random bytes and the network's
      answers.
    - [Spec]: what a backend promises: [db], nine finite maps with structured
      keys, and [spec], the meaning of each operation on them; [StorageSpec] is
      the interface between the backends and their clients.
    - [Redb]: storage/redb_backend.rs, method by method, on tables with composite
      keys.  [RedbSpec]: it implements [Spec].
    - [Sql]: the SQL statements the Postgres backend sends, their text, and the
      server that runs them, as a class with laws (keys, foreign keys, cascades).
      [Postgres]: storage/postgres.rs, the migrations and a statement a method.
      [Rows]: tables that stand for finite maps.  [PostgresSpec]: it implements
      [Spec].  [PgConcrete]: a server with the laws.
    - [Mem]: an executable backend, [Spec] itself, for running the model.
    - [Wp]: a weakest precondition for programs against [Spec]; [wp_adequate]
      carries it to every backend.
    - [Config]: config.rs.  [Crypto]: crypto/mod.rs, local.rs, kms.rs, vault.rs.
    - [Manager]: tenant/manager.rs, one definition a method.  [Invariant],
      [ManagerInv]: the invariant of the content and the isolation of tenants.
      [ManagerSpec]: what each operation does on every branch.
    - [Auth]: api/auth.rs.  [Enroll], [EnrollSpec]: api/enroll.rs.
    - [Cdc], [CdcSpec]: cdc/engine.rs, nats_sink.rs, webhook_sink.rs.
      [Watcher], [WatcherSpec]: cdc/watcher.rs.
    - [Migrate]: migrate_keys of cli.rs.
    - [MeshIngest], [MeshIngestSpec]: mesh_ingest.rs.  [Formations]:
      api/formations.rs.
    - [Api], [ApiSpec]: the handlers of api/orgs.rs, tokens.rs, sinks.rs,
      identity.rs, cdc_test.rs and the routers of api/mod.rs.
    - [Loadtest]: loadtest.rs, the workers, the scenarios and the report.
      [FloatSpec]: how far the rounding of [SpecFloat] moves a value.
      [LoadtestSpec]: what the report says.  [LoadtestRoutes]: the workers' requests
      and the routes of [Api].
    - [Main]: main.rs and the commands of cli.rs: start-up from the environment.
    - [Concurrency], [ConcurrencySpec]: several operations whose storage steps
      interleave.  [Calls]: which storage calls a program makes, at most, and the
      rights they need.
      [Typing]: numbers in storage at the width of their fields.
    - [RateLimit]: enrollments of an hour.  [Quota]: formations and sinks of an
      organization.  [WatcherEquiv]: the watcher against a reference with a memory.
    - [Requests]: the admin routes as calls of the manager.  [System]: requests,
      watchers, pollers and migrations as tasks with their rights, and what holds of
      any pool of them.  [Isolation]: tenants apart from one another, on every backend
      whose methods are blind to other tenants.  [RedbIsolation]: the redb backend is.
    - [EndToEnd]: the manager on the redb backend and on the Postgres backend.
    - [Concrete], [Examples], [Witnesses]: instances of the classes of [Extern], a
      small content, and the theorems at concrete inputs.
    - [Harness], [ManagerTests], [ComponentTests]: the unit tests of the source
      files, as programs run on the model.

    ** State and operations

    The gateway keeps its state in the storage; the manager is stateless.  A
    storage method is one transaction, so it is one step of a program
    ([Effects.Store]); everything between two steps is pure.  The watchers' table
    is [Watcher.Watchers], a remote broker's state is
    [MeshIngest.RemoteBrokerState], the registry of brokers is
    [Formations.MeshStateRegistry].

    ** What the theorems show

    - Storage: both backends refine the abstract contract, method by method, with
      their failures ([redb_refines_spec], [pg_refines_spec]).  A method of the contract is
      promised for arguments that are free of NUL where they become part of a key, and
      for numbers that fit the width of their Rust type ([Spec.op_ok]); theorems about
      the programs ask the same of the arguments the code passes on unchecked (the
      paths of requests among them), and of nothing the code checks itself.
      [delete_org_nul] shows what a NUL does on redb.
    - Tenants: any sequence of calls keeps the content well formed and touches
      the named organizations only, on every backend and under every storage
      failure ([gateway_on_redb], [gateway_on_postgres]); each operation's errors,
      in order, and its effect ([create_org_spec] to [revoke_then_consume]); a
      formation's genesis loads back ([create_then_load]).
    - The whole gateway: whatever requests, watchers, pollers and migrations run at
      once, every interleaving keeps the rows well formed and, with encryption on,
      makes every genesis record an envelope or leaves it byte for byte as it was
      ([gateway_invariant]); the audit log only grows ([audit_append_only]).  For
      manager calls alone: [concurrent_calls_rows_wf]; on Postgres without orphans
      ([concurrent_calls_on_postgres]).
    - Tenants apart: an organization that no task works for keeps its rows
      ([tenant_isolated]), and what the requests of some organizations are answered,
      send and store does not depend on the rows of the others, on redb
      ([tenant_noninterference]; [Isolation.requests_noninterference] and
      [Isolation.tasks_noninterference], of whole pools, on every backend that is
      [Isolation.Blind]).  Nothing of this kind is claimed of Postgres, where the order
      of rows that an ORDER BY leaves open is the server's.  The rights that
      [System.task_rights] gives a task are those its programs are shown to need.
    - What interleaving breaks: [concurrent_redemptions], [revocation_lost],
      [orphan_token], [rate_limit_race], [quota_race].
    - Limits: calls one after another stay within an organization's quotas
      ([quotas_kept]), accepted enrollments within its hourly limit while storage answers
      ([rate_limit_kept]),
      redemptions within a token's maximum ([redeem_at_most_max_uses]).
    - Enrollment: what an accepted enrollment had to pass (the answer of the
      provider's introspection endpoint included), what it stores, and when one is
      refused ([enroll_spec]), which rule decides ([evaluate_policy_spec]).
    - Encryption: round trip ([seal_roundtrip]), no confusion of sealed and plain
      bytes ([open_envelope_guard]), migration of existing records
      ([migrate_store_spec]).
    - Events: who receives what ([publish_spec], [publish_cdc_diffs_spec]),
      retries ([webhook_publish_spec]), their bound ([publish_bounded]), cursors
      ([update_advances_cursor], [repeated_update_once], [watch_loop_remembers]), watchers ([watchers_unique], [rewatch_after_end]),
      polling: a poll reads what the broker answers, publishes what changed and keeps
      the new state, step by step as its specification does ([refresh_once_spec]), a
      failed poll keeps the old one ([refresh_tick_spec], [emit_diffs_spec]).
    - HTTP: admin routes are guarded ([admin_routes_guarded]), unambiguous
      ([routes_unambiguous]), and show no client secret ([secrets_unobservable]).
    - Configuration and start-up: the broker list's round trip and its errors
      ([parse_render], [parse_brokers_spec]); what a gateway that starts takes from
      its environment ([startup_spec]).
    - Load test: the report accounts for every sample ([aggregate_spec]), by ranks
      computed in floating point that are the nearest ones ([rank_close]); the workers of a run
      ([plan_spec]), the turn of their operations ([rolls_cycle]), and that the
      gateway has a route for each request ([worker_requests_routed]).
    - As a check of the model rather than a property of the program, the unit tests of
      the source files pass on it, by evaluation ([ComponentTests.unit_tests]).
    - Behaviour the code has and does not seem to intend: [enroll_fails_on_postgres],
      [delete_org_nul], [list_audit_zero], [lost_collection_republished], and the
      five theorems on what interleaving breaks.

    ** Bounds, fuel and failure

    Nothing here needs fuel: the code's loops run over lists, or a fixed number
    of times (the webhook's attempts), and are structural recursions, so every
    program ends.  Endless loops (a watcher on its stream, the polling loop) are
    modelled turn by turn, a watcher's also on every finite prefix of its stream, a
    poller's for any number of turns ([System.poll]).
    Machine integers are [Z] with their wrap-around and saturation written out
    ([as_u32], [wrap_u64], [saturating_sub], [Postgres.as_i64], [Loadtest.wrap_u8]);
    an [f64] is a [SpecFloat] at 53 bits.  Storage may fail at any step: the
    parameter [fl] of [Wp.wp] says whether a theorem allows it.

    ** What is not modelled

    The unit tests that exercise std, chrono, serde or the cipher only or need the std
    hasher to separate or to repeat its inputs, and the integration tests under tests/; the
    wait between two polls.  The parsing of command-line arguments, the log lines and the metrics counters;
    the network listeners and the accept loop of main.rs; the printing of the load
    test's report and its JSON file; the timing of its workers, whose clock readings
    and stop signal are inputs ([Loadtest.tick]); the front end, and the files of its
    directory; axum's own answers (404, 405, HEAD, malformed bodies), which are
    parameters; the Kafka sink, which the source leaves empty.  The redb and Postgres
    engines, serde, the cryptographic crates, the HTTP, NATS and AWS clients and
    peat-mesh are not under src/ and are parameters with laws.  A panic of the code
    ([unwrap] on a clock before 1970, on a failing random source) is outside the
    model, except where it is said: the oracle's clock and random bytes always
    answer. *)
From Stdlib Require Import ZArith Ascii.
From Stdlib.Strings Require Import Byte.
From Stdlib Require String.
From stdpp Require Export prelude gmap strings list sorting pretty.

#[global] Set Default Goal Selector "!".
#[global] Arguments String.append !_ _ : simpl nomatch.

Declare Scope gw_scope.
Delimit Scope gw_scope with gw.

(** ** Results: Rust's [Result<T, E>] *)
Section Result.
Context {E : Type}.

Inductive result (A : Type) : Type :=
| Ok (a : A)
| Err (e : E).

End Result.
Arguments result E A : clear implicits.
Arguments Ok {E A} a.
Arguments Err {E A} e.

Definition is_ok {E A} (r : result E A) : bool :=
  match r with Ok _ => true | Err _ => false end.

(** [Result::map], [Result::ok], [Option::ok_or] and the [?] chaining. *)
Definition result_map {E A B} (f : A → B) (r : result E A) : result E B :=
  match r with Ok a => Ok (f a) | Err e => Err e end.

Definition result_bind {E A B} (r : result E A) (f : A → result E B) : result E B :=
  match r with Ok a => f a | Err e => Err e end.

Definition map_err {E F A} (f : E → F) (r : result E A) : result F A :=
  match r with Ok a => Ok a | Err e => Err (f e) end.

Definition ok_or {E A} (o : option A) (e : E) : result E A :=
  match o with Some a => Ok a | None => Err e end.

Notation "'let?' x := r 'in' k" := (result_bind r (fun x => k))
  (at level 10, x binder, r at level 100, k at level 200) : gw_scope.

(** ** Filters of finite maps and of lists *)
Lemma map_to_list_filter `{Countable K} {V} (P : K * V → Prop) `{∀ kv, Decision (P kv)}
    (m : gmap K V) (kvs : list (K * V)) :
  kvs ≡ₚ map_to_list m → filter P kvs ≡ₚ map_to_list (filter P m).
Proof.
  intros Hk. rewrite Hk. apply NoDup_Permutation.
  - apply NoDup_filter, NoDup_map_to_list.
  - apply NoDup_map_to_list.
  - intros [i v]. rewrite list_elem_of_filter, !elem_of_map_to_list, map_lookup_filter_Some.
    naive_solver.
Qed.

Lemma length_filter_snd {A B} (P : B → Prop) `{∀ b, Decision (P b)} (l : list (A * B)) :
  length (filter P l.*2) = length (filter (λ ab, P ab.2) l).
Proof.
  induction l as [|[a b] l IH]; [done|]. rewrite fmap_cons, !filter_cons. cbn [snd].
  destruct (decide (P b)); cbn; congruence.
Qed.
