(* ===== verification/Text.v ===== *)
(** Rust's standard string and number formatting operations, as the gateway
    uses them, on strings of bytes: prefix tests, [trim], ASCII classes, the
    width-padded decimal and hexadecimal formats, and the byte-wise order on
    [&str].  The lemmas here carry the key encodings of the storage layer: NUL
    as a separator, and fixed-width decimals whose byte order is the numeric
    order. *)
From S2P Require Import Prelude.
From Stdlib Require Import ZArith Ascii.
From Stdlib.Strings Require Import Byte.

#[local] Open Scope Z_scope.

(** ** Characters *)
Definition code (c : ascii) : Z := Z.of_N (N_of_ascii c).

Definition is_ascii_digit (c : ascii) : bool := (48 <=? code c) && (code c <=? 57).
Definition is_ascii_alphabetic (c : ascii) : bool :=
  ((65 <=? code c) && (code c <=? 90)) || ((97 <=? code c) && (code c <=? 122)).
Definition is_ascii_alphanumeric (c : ascii) : bool :=
  is_ascii_digit c || is_ascii_alphabetic c.

(** [iter().all(p)] over the bytes of a string. *)
Fixpoint all_chars (p : ascii → bool) (s : string) : bool :=
  match s with
  | EmptyString => true
  | String c s => p c && all_chars p s
  end.

(** [str::len] counts bytes. *)
Definition str_len (s : string) : Z := Z.of_nat (String.length s).

Definition is_empty (s : string) : bool :=
  match s with EmptyString => true | String _ _ => false end.

(** ** Prefixes *)
Definition starts_with (s p : string) : bool := String.prefix p s.

Fixpoint strip_prefix (p s : string) : option string :=
  match p, s with
  | EmptyString, _ => Some s
  | String a p, String b s => if decide (a = b) then strip_prefix p s else None
  | String _ _, EmptyString => None
  end.

(** ** [str::trim]: Unicode [White_Space], on the UTF-8 bytes *)
Definition ws1 (a : Z) : bool := ((9 <=? a) && (a <=? 13)) || (a =? 32).
Definition ws2 (a b : Z) : bool := (a =? 0xC2) && ((b =? 0x85) || (b =? 0xA0)).
Definition ws3 (a b c : Z) : bool :=
  ((a =? 0xE1) && (b =? 0x9A) && (c =? 0x80))
  || ((a =? 0xE2) && (b =? 0x80)
      && (((0x80 <=? c) && (c <=? 0x8A)) || (c =? 0xA8) || (c =? 0xA9) || (c =? 0xAF)))
  || ((a =? 0xE2) && (b =? 0x81) && (c =? 0x9F))
  || ((a =? 0xE3) && (b =? 0x80) && (c =? 0x80)).

(** Drops leading white space; [w2] and [w3] test a two- and three-byte
    character in the order the bytes are met. *)
Fixpoint trim_with (w2 : Z → Z → bool) (w3 : Z → Z → Z → bool) (s : list ascii) : list ascii :=
  match s with
  | [] => []
  | a :: s1 =>
      if ws1 (code a) then trim_with w2 w3 s1 else
      match s1 with
      | [] => s
      | b :: s2 =>
          if w2 (code a) (code b) then trim_with w2 w3 s2 else
          match s2 with
          | [] => s
          | c :: s3 =>
              if w3 (code a) (code b) (code c) then trim_with w2 w3 s3 else s
          end
      end
  end.

Definition trim_start : list ascii → list ascii := trim_with ws2 ws3.
Definition trim_end (s : list ascii) : list ascii :=
  rev (trim_with (λ b a, ws2 a b) (λ c b a, ws3 a b c) (rev s)).

Definition trim (s : string) : string :=
  String.string_of_list_ascii (trim_end (trim_start (String.list_ascii_of_string s))).

(** [trim_end_matches(c)] for one character. *)
Fixpoint drop_char (c : ascii) (s : list ascii) : list ascii :=
  match s with
  | a :: s' => if decide (a = c) then drop_char c s' else s
  | [] => []
  end.
Definition trim_end_matches (c : ascii) (s : string) : string :=
  String.string_of_list_ascii (rev (drop_char c (rev (String.list_ascii_of_string s)))).

(** [str::split] at one character: the pieces between its occurrences. *)
Fixpoint split (c : ascii) (s : string) : list string :=
  match s with
  | EmptyString => [EmptyString]
  | String a s =>
      if decide (a = c) then EmptyString :: split c s else
      match split c s with
      | x :: xs => String a x :: xs
      | [] => [String a EmptyString]
      end
  end.

(** [str::parse::<u64>]: an optional plus sign, then digits; overflow fails. *)
Fixpoint parse_digits (acc : Z) (s : string) : option Z :=
  match s with
  | EmptyString => Some acc
  | String a s =>
      if is_ascii_digit a then
        let n := acc * 10 + (code a - 48) in
        if n <? 2 ^ 64 then parse_digits n s else None
      else None
  end.
Definition parse_u64 (s : string) : option Z :=
  let ds := match s with String "+" s' => s' | _ => s end in
  if is_empty ds then None else parse_digits 0 ds.

(** ** Number formats: [{:020}], [{:016x}] and [{:x}] *)
Definition digit (d : Z) : ascii :=
  ascii_of_N (Z.to_N (if d <? 10 then 48 + d else 87 + d)).

(** The [w] low digits of [n] in base [b], most significant first. *)
Fixpoint radix_fixed (b : Z) (w : nat) (n : Z) : string :=
  match w with
  | O => EmptyString
  | S w => String (digit (n / b ^ Z.of_nat w mod b)) (radix_fixed b w n)
  end.

Fixpoint strip_zeros (s : string) : string :=
  match s with
  | String c (String _ _ as s') => if decide (c = digit 0) then strip_zeros s' else s
  | _ => s
  end.

Definition fmt_020 (n : Z) : string := radix_fixed 10 20 n.
Definition fmt_016x (n : Z) : string := radix_fixed 16 16 n.
Definition fmt_x (n : Z) : string := strip_zeros (fmt_016x n).
#[global] Arguments fmt_020 : simpl never.
#[global] Arguments fmt_016x : simpl never.
#[global] Arguments fmt_x : simpl never.

(** [to_string] of an unsigned integer. *)
Definition fmt_dec (n : Z) : string := pretty (Z.to_N n).

(** ** Byte-wise order on strings *)
Definition str_lt (a b : string) : Prop := String.compare a b = Lt.
Definition str_le (a b : string) : Prop := String.compare a b ≠ Gt.

#[export] Instance str_lt_dec a b : Decision (str_lt a b).
Proof. unfold str_lt. solve_decision. Defined.
#[export] Instance str_le_dec a b : Decision (str_le a b).
Proof. unfold str_le. solve_decision. Defined.

(** ** NUL, the separator of composite keys *)
Definition NUL : string := String Ascii.zero EmptyString.

Fixpoint nuls (s : string) : nat :=
  match s with
  | EmptyString => 0
  | String c s => (if decide (c = Ascii.zero) then 1 else 0) + nuls s
  end.
Definition nul_free (s : string) : Prop := nuls s = 0%nat.
#[export] Instance nul_free_dec s : Decision (nul_free s).
Proof. unfold nul_free. solve_decision. Defined.

(** ** Lemmas: prefixes and appending *)
Create HintDb gw_str.

Lemma str_app_assoc a b c : (a +:+ b) +:+ c = a +:+ (b +:+ c).
Proof. induction a as [|x a IH]; simpl; [done|by rewrite IH]. Qed.

Lemma str_app_nil_r a : a +:+ EmptyString = a.
Proof. induction a as [|x a IH]; simpl; [done|by rewrite IH]. Qed.

Lemma str_app_inv_l p a b : p +:+ a = p +:+ b → a = b.
Proof. induction p as [|x p IH]; simpl; [done|]. intros [= ?]; auto. Qed.

Lemma starts_with_iff s p : starts_with s p = true ↔ ∃ r, s = p +:+ r.
Proof.
  revert s; induction p as [|x p IH]; intros [|y s];
    try (unfold starts_with; simpl; naive_solver).
  assert (starts_with (String y s) (String x p)
          = if ascii_dec x y then starts_with s p else false) as -> by done.
  destruct (ascii_dec x y) as [->|Hne]; [rewrite IH|]; naive_solver.
Qed.

Lemma strip_prefix_Some p s r : strip_prefix p s = Some r ↔ s = p +:+ r.
Proof.
  revert s; induction p as [|x p IH]; intros [|y s]; simpl; try naive_solver.
  case_decide as E; [subst; rewrite IH; naive_solver|naive_solver].
Qed.

Lemma strip_prefix_app p r : strip_prefix p (p +:+ r) = Some r.
Proof. by apply strip_prefix_Some. Qed.

(** ** Lemmas: NUL separators *)
Lemma nuls_app a b : nuls (a +:+ b) = (nuls a + nuls b)%nat.
Proof. induction a as [|x a IH]; simpl; [done|]. rewrite IH. lia. Qed.

Lemma nuls_sep a b : nuls (a +:+ NUL +:+ b) = (S (nuls a + nuls b))%nat.
Proof. rewrite !nuls_app. change (nuls NUL) with 1%nat. lia. Qed.

Lemma all_chars_nul_free p s :
  p Ascii.zero = false → all_chars p s = true → nul_free s.
Proof.
  intros Hp. unfold nul_free. induction s as [|c s IH]; simpl; [done|].
  intros [Hc Hs]%andb_prop. case_decide; [congruence|]. by rewrite IH.
Qed.

(** The text before the first NUL is determined by the whole. *)
Lemma nul_split a b x y :
  nul_free a → nul_free b → a +:+ NUL +:+ x = b +:+ NUL +:+ y → a = b ∧ x = y.
Proof.
  unfold nul_free. revert b; induction a as [|c a IH]; intros [|d b] Ha Hb; simpl in *.
  - by intros [= ->].
  - intros [= <- _]. by rewrite decide_True in Hb.
  - intros [= -> _]. by rewrite decide_True in Ha.
  - intros [= -> E]. repeat case_decide; try done.
    destruct (IH b) as [-> ->]; [done..|]. done.
Qed.

(** A two-part key with exactly one NUL splits one way only, whatever text it
    is compared with. *)
Lemma nul_split_1 a x b y :
  nul_free a → nul_free x → a +:+ NUL +:+ x = b +:+ NUL +:+ y → a = b ∧ x = y.
Proof.
  intros Ha Hx E. apply nul_split; [done| |done].
  apply (f_equal nuls) in E. rewrite !nuls_sep in E. unfold nul_free in *. lia.
Qed.

(** ** Lemmas: the byte order *)
Lemma ascii_compare_lt_trans a b c :
  Ascii.compare a b = Lt → Ascii.compare b c = Lt → Ascii.compare a c = Lt.
Proof. unfold Ascii.compare. rewrite !N.compare_lt_iff. lia. Qed.

Lemma ascii_compare_eq a b : Ascii.compare a b = Eq ↔ a = b.
Proof.
  unfold Ascii.compare. rewrite N.compare_eq_iff. split; [|by intros ->].
  intros E. by rewrite <-(ascii_N_embedding a), <-(ascii_N_embedding b), E.
Qed.

Lemma str_compare_eq a b : String.compare a b = Eq ↔ a = b.
Proof.
  revert b; induction a as [|x a IH]; intros [|y b]; simpl; [naive_solver..|].
  destruct (Ascii.compare x y) eqn:E.
  - apply ascii_compare_eq in E as ->. rewrite IH. naive_solver.
  - split; [done|]. intros [= -> _]. by rewrite (proj2 (ascii_compare_eq y y)) in E.
  - split; [done|]. intros [= -> _]. by rewrite (proj2 (ascii_compare_eq y y)) in E.
Qed.

Lemma str_compare_refl a : String.compare a a = Eq.
Proof. by apply str_compare_eq. Qed.

Lemma str_lt_cons x a y b :
  str_lt (String x a) (String y b) ↔ Ascii.compare x y = Lt ∨ (x = y ∧ str_lt a b).
Proof.
  unfold str_lt; simpl. destruct (Ascii.compare x y) eqn:E.
  - apply ascii_compare_eq in E as ->. naive_solver.
  - naive_solver.
  - split; [done|]. intros [?|[-> _]]; [done|].
    by rewrite (proj2 (ascii_compare_eq y y)) in E.
Qed.

#[export] Instance str_lt_trans : Transitive str_lt.
Proof.
  intros a; induction a as [|x a IH]; intros [|y b] [|z c]; try done.
  rewrite !str_lt_cons. intros [?|[-> ?]] [?|[-> ?]]; eauto using ascii_compare_lt_trans.
Qed.

#[export] Instance str_lt_irrefl : Irreflexive str_lt.
Proof. intros a. red. unfold str_lt. by rewrite str_compare_refl. Qed.

Lemma str_lt_app p a b : str_lt (p +:+ a) (p +:+ b) ↔ str_lt a b.
Proof.
  induction p as [|x p IH]; simpl; [done|]. rewrite str_lt_cons, <-IH.
  split; [intros [E|[_ ?]]; [|done]|by right].
  by rewrite (proj2 (ascii_compare_eq x x)) in E.
Qed.

(** Strings of one length keep their order under any suffixes. *)
Lemma str_lt_suffix a b u v :
  String.length a = String.length b → str_lt a b → str_lt (a +:+ u) (b +:+ v).
Proof.
  revert b; induction a as [|x a IH]; intros [|y b] Hl; simpl in *; try done.
  rewrite !str_lt_cons. injection Hl as Hl. intros [?|[-> ?]]; [by left|].
  right; auto.
Qed.

Lemma str_lt_le a b : str_lt a b → str_le a b.
Proof. unfold str_lt, str_le. congruence. Qed.

Lemma str_lt_total a b : str_lt a b ∨ a = b ∨ str_lt b a.
Proof.
  unfold str_lt. rewrite (String.compare_antisym b a).
  destruct (String.compare a b) eqn:E; [|by left|by right; right].
  right; left. by apply str_compare_eq.
Qed.

Lemma str_le_alt a b : str_le a b ↔ str_lt a b ∨ a = b.
Proof.
  unfold str_le, str_lt. rewrite <-str_compare_eq.
  destruct (String.compare a b); naive_solver.
Qed.

#[export] Instance str_le_trans : Transitive str_le.
Proof.
  intros a b c. rewrite !str_le_alt. intros [?| ->] [?| ->]; eauto.
  left. by etrans.
Qed.

#[export] Instance str_le_total : Total str_le.
Proof. intros a b. rewrite !str_le_alt. destruct (str_lt_total a b); naive_solver. Qed.

(** ** Lemmas: the fixed-width formats *)
Section Radix.
Variable b : Z.
Hypothesis Hb : 2 ≤ b ≤ 16.

Lemma digit_code d : 0 ≤ d < 16 → code (digit d) = if d <? 10 then 48 + d else 87 + d.
Proof.
  intros Hd. unfold code, digit.
  rewrite N_ascii_embedding; destruct (Z.ltb_spec d 10); lia.
Qed.

Lemma digit_lt d e :
  0 ≤ d < 16 → 0 ≤ e < 16 → d < e → Ascii.compare (digit d) (digit e) = Lt.
Proof.
  intros Hd He Hlt. pose proof (digit_code d Hd). pose proof (digit_code e He).
  unfold code in *. unfold Ascii.compare. apply N.compare_lt_iff.
  destruct (Z.ltb_spec d 10), (Z.ltb_spec e 10); lia.
Qed.

Lemma digit_not_nul d : 0 ≤ d < 16 → digit d ≠ Ascii.zero.
Proof.
  intros Hd E. pose proof (digit_code d Hd) as H. rewrite E in H.
  change (code Ascii.zero) with 0 in H. destruct (Z.ltb_spec d 10); lia.
Qed.

Lemma radix_fixed_length w n : String.length (radix_fixed b w n) = w.
Proof. revert n; induction w as [|w IH]; intros n; simpl; [done|]. by rewrite IH. Qed.

Lemma radix_fixed_nul_free w n : nul_free (radix_fixed b w n).
Proof.
  unfold nul_free. induction w as [|w IH]; simpl; [done|].
  rewrite decide_False; [done|]. apply digit_not_nul.
  pose proof (Z.mod_pos_bound (n / b ^ Z.of_nat w) b). lia.
Qed.

(** Only the low [w] digits matter. *)
Lemma radix_fixed_mod w n k :
  (w ≤ k)%nat → radix_fixed b w (n mod b ^ Z.of_nat k) = radix_fixed b w n.
Proof.
  induction w as [|w IH]; intros Hk; simpl; [done|]. rewrite IH by lia.
  do 2 f_equal. replace (Z.of_nat k) with (Z.of_nat w + (1 + Z.of_nat (k - S w))) by lia.
  rewrite !Z.pow_add_r, Z.pow_1_r by lia.
  rewrite Z.rem_mul_r, (Z.mul_comm (b ^ Z.of_nat w)), Z.div_add by lia.
  rewrite (Z.div_small (n mod _)) by (apply Z.mod_pos_bound; lia).
  rewrite Z.add_0_l, Z.rem_mul_r by lia.
  rewrite (Z.mul_comm b), Z.mod_add, Z.mod_mod; lia.
Qed.

(** Fixed-width numerals order like the numbers they print. *)
Lemma radix_fixed_lt w m n :
  0 ≤ m → m < n → n < b ^ Z.of_nat w → str_lt (radix_fixed b w m) (radix_fixed b w n).
Proof.
  revert m n; induction w as [|w IH]; intros m n Hm Hmn Hn; [simpl in Hn; lia|].
  simpl. rewrite str_lt_cons.
  set (p := b ^ Z.of_nat w) in *.
  assert (0 < p) by (apply Z.pow_pos_nonneg; lia).
  replace (b ^ Z.of_nat (S w)) with (b * p) in Hn
    by (rewrite Nat2Z.inj_succ, Z.pow_succ_r; lia).
  assert (∀ x, 0 ≤ x < b * p → 0 ≤ x / p < b ∧ (x / p) mod b = x / p) as Hq.
  { intros x Hx. assert (0 ≤ x / p < b).
    - split; [apply Z.div_pos; lia|apply Z.div_lt_upper_bound; lia].
    - split; [done|]. by apply Z.mod_small. }
  destruct (Hq m) as [? ->]; [lia|]. destruct (Hq n) as [? ->]; [lia|].
  assert (m / p ≤ n / p) by (apply Z.div_le_mono; lia).
  destruct (decide (m / p = n / p)) as [E|]; [right|left; apply digit_lt; lia].
  split; [by rewrite E|].
  rewrite <-(radix_fixed_mod w m w), <-(radix_fixed_mod w n w) by lia. fold p.
  pose proof (Z.div_mod m p). pose proof (Z.div_mod n p).
  pose proof (Z.mod_pos_bound m p). pose proof (Z.mod_pos_bound n p).
  apply IH; [lia| |lia]. rewrite E in *. lia.
Qed.

Lemma radix_fixed_inj w m n :
  0 ≤ m < b ^ Z.of_nat w → 0 ≤ n < b ^ Z.of_nat w →
  radix_fixed b w m = radix_fixed b w n → m = n.
Proof.
  intros Hm Hn E. destruct (Z.lt_trichotomy m n) as [?|[?|?]]; [|done|]; exfalso.
  - apply (irreflexivity str_lt (radix_fixed b w m)). rewrite E at 2.
    apply radix_fixed_lt; lia.
  - apply (irreflexivity str_lt (radix_fixed b w n)). rewrite <-E at 2.
    apply radix_fixed_lt; lia.
Qed.
End Radix.

(** ** Entries in key order *)
Definition key_le {V} (x y : string * V) : Prop := str_le x.1 y.1.
#[export] Instance key_le_dec {V} (x y : string * V) : Decision (key_le x y).
Proof. unfold key_le. apply _. Defined.
#[export] Instance key_le_trans {V} : Transitive (key_le (V:=V)).
Proof. intros x y z. unfold key_le. apply transitivity. Qed.
#[export] Instance key_le_total {V} : Total (key_le (V:=V)).
Proof. intros x y. unfold key_le. apply total. apply _. Qed.

Definition sorted_entries {V} (m : gmap string V) : list (string * V) :=
  merge_sort key_le (map_to_list m).
