(* ===== verification/Extern.v ===== *)
(** The code the gateway calls and does not contain: the redb key-value tables,
    serde's JSON codec, the standard hasher and hash map, the [hex], [aes-gcm]
    and [base64] crates, the HTTP client, and the peat-mesh genesis.  Each is a
    class of operations, with the documented behaviour the gateway relies on as a
    class of laws; [Concrete.v] gives instances of all of them.  The JSON value
    type is serde_json's, whose constructors the gateway matches on. *)
From S2P Require Import Prelude Text.
From Stdlib Require Import ZArith.
From Stdlib.Strings Require Import Byte.

#[local] Open Scope Z_scope.
#[local] Set Warnings "-register-all".

(** ** Bytes *)
Abbreviation byte := Byte.byte.
Abbreviation bytes := (list byte).

#[export] Instance byte_eqdec : EqDecision byte := Byte.byte_eq_dec.

Definition u8_val (b : byte) : Z := Z.of_N (Byte.to_N b).
Definition u8 (z : Z) : byte := default x00 (Byte.of_N (Z.to_N (z mod 256))).

Definition as_bytes (s : string) : bytes := String.list_byte_of_string s.
Definition from_utf8_bytes (b : bytes) : string := String.string_of_list_byte b.

Lemma u8_val_range b : 0 ≤ u8_val b < 256.
Proof. unfold u8_val. pose proof (Byte.to_N_bounded b). lia. Qed.

Lemma u8_val_inj a b : u8_val a = u8_val b → a = b.
Proof.
  unfold u8_val. intros E. assert (Byte.to_N a = Byte.to_N b) as E' by lia.
  pose proof (Byte.of_to_N a) as Ha. pose proof (Byte.of_to_N b) as Hb. congruence.
Qed.

Lemma u8_val_u8 z : u8_val (u8 z) = z mod 256.
Proof.
  pose proof (Z.mod_pos_bound z 256). unfold u8.
  destruct (Byte.of_N _) as [b|] eqn:E; simpl.
  - apply Byte.to_of_N in E. unfold u8_val. lia.
  - apply Byte.of_N_None_iff in E. lia.
Qed.

(** [std::str::from_utf8]: the well-formed byte sequences *)
Definition cont (b : byte) : bool := (0x80 <=? u8_val b) && (u8_val b <=? 0xBF).
Definition between (lo : Z) (b : byte) (hi : Z) : bool := (lo <=? u8_val b) && (u8_val b <=? hi).

Fixpoint utf8_valid (s : bytes) : bool :=
  match s with
  | [] => true
  | a :: s1 =>
      if u8_val a <? 0x80 then utf8_valid s1 else
      match s1 with
      | [] => false
      | b :: s2 =>
          if between 0xC2 a 0xDF then cont b && utf8_valid s2 else
          match s2 with
          | [] => false
          | c :: s3 =>
              if between 0xE0 a 0xE0 then between 0xA0 b 0xBF && cont c && utf8_valid s3
              else if between 0xED a 0xED then between 0x80 b 0x9F && cont c && utf8_valid s3
              else if between 0xE1 a 0xEF then cont b && cont c && utf8_valid s3
              else
                match s3 with
                | [] => false
                | d :: s4 =>
                    if between 0xF0 a 0xF0
                    then between 0x90 b 0xBF && cont c && cont d && utf8_valid s4
                    else if between 0xF4 a 0xF4
                    then between 0x80 b 0x8F && cont c && cont d && utf8_valid s4
                    else between 0xF1 a 0xF3 && cont b && cont c && cont d && utf8_valid s4
                end
          end
      end
  end.

Definition from_utf8 (b : bytes) : option string :=
  if utf8_valid b then Some (from_utf8_bytes b) else None.

(** [u16::to_le_bytes] and [u16::from_le_bytes] *)
Definition to_le_bytes (n : Z) : bytes := [u8 n; u8 (n / 256)].
Definition from_le_bytes (a b : byte) : Z := u8_val a + 256 * u8_val b.

Lemma from_to_le_bytes n :
  0 ≤ n < 2 ^ 16 → from_le_bytes (u8 n) (u8 (n / 256)) = n.
Proof.
  intros Hn. unfold from_le_bytes. rewrite !u8_val_u8.
  rewrite (Z.mod_small (n / 256)); [pose proof (Z.div_mod n 256); lia|].
  split; [apply Z.div_pos; lia|apply Z.div_lt_upper_bound; lia].
Qed.

(** ** serde_json's [Value]; a number is a [u64], an [i64] or a float, the last
    given by its printed form *)
Inductive jnumber : Type :=
| PosInt (n : Z)
| NegInt (n : Z)
| Float (repr : string).

Inductive Value : Type :=
| JNull
| JBool (b : bool)
| JNumber (n : jnumber)
| JString (s : string)
| JArray (vs : list Value)
| JObject (fields : list (string * Value)).

Definition Map : Type := list (string * Value).

Definition jnumber_to_string (n : jnumber) : string :=
  match n with
  | PosInt z => fmt_dec z
  | NegInt z => "-" +:+ fmt_dec (- z)
  | Float r => r
  end.

(** [Map::get], [Value::get], [as_str], [as_u64], [as_object]. *)
Fixpoint map_get (m : Map) (k : string) : option Value :=
  match m with
  | [] => None
  | (k', v) :: m => if decide (k = k') then Some v else map_get m k
  end.
Definition value_get (v : Value) (k : string) : option Value :=
  match v with JObject m => map_get m k | _ => None end.
Definition as_str (v : Value) : option string :=
  match v with JString s => Some s | _ => None end.
Definition as_u64 (v : Value) : option Z :=
  match v with JNumber (PosInt n) => Some n | _ => None end.

(** ** serde: encoding a value as JSON bytes and back *)
Class Serde (A : Type) := {
  to_vec : A → result string bytes;
  from_slice : bytes → result string A;
}.
Class SerdeLaws (A : Type) `{Serde A} : Prop := {
  (** serialising succeeds, and deserialising gives the value back *)
  to_vec_from_slice a : ∃ b, to_vec a = Ok b ∧ from_slice b = Ok a;
}.

(** A [HashMap<String, Value>] becomes an object with sorted keys. *)
Definition fields_to_value (fields : gmap string Value) : Value := JObject (sorted_entries fields).

(** [std::hash]: the default hasher, whose algorithm is not specified *)
Class StdHasher := {
  hasher_state : Type;
  hasher_new : hasher_state;
  hash_str : string → hasher_state → hasher_state;
  hash_u64 : Z → hasher_state → hasher_state;
  hasher_finish : hasher_state → Z;
}.

(** ** Iterating over a [HashMap] or a [HashSet]: every entry once, in an
    unspecified order *)
Class HashIter := {
  hm_iter {V : Type} : gmap string V → list (string * V);
  hs_iter : gset string → list string;
}.
Class HashIterLaws `{HashIter} : Prop := {
  hm_iter_perm {V} (m : gmap string V) : hm_iter m ≡ₚ map_to_list m;
  hs_iter_perm (s : gset string) : hs_iter s ≡ₚ elements s;
}.

(** ** redb: a table maps string keys to values; iteration is in key order *)
Class RedbTable (T : Type → Type) := {
  t_empty {V} : T V;
  t_get {V} : T V → string → option V;
  t_insert {V} : T V → string → V → T V;
  t_remove {V} : T V → string → T V;
  t_iter {V} : T V → list (string * V);
}.
Class RedbTableLaws (T : Type → Type) `{RedbTable T} : Prop := {
  t_get_empty {V} k : t_get (t_empty (V:=V)) k = None;
  t_get_insert {V} (t : T V) k v k' :
    t_get (t_insert t k v) k' = if decide (k = k') then Some v else t_get t k';
  t_get_remove {V} (t : T V) k k' :
    t_get (t_remove t k) k' = if decide (k = k') then None else t_get t k';
  t_iter_get {V} (t : T V) k v : (k, v) ∈ t_iter t ↔ t_get t k = Some v;
  t_iter_sorted {V} (t : T V) : StronglySorted str_lt (t_iter t).*1;
}.

(** ** hex *)
Class HexLib := {
  hex_encode : bytes → string;
  hex_decode : string → result string bytes;
}.
Class HexLaws `{HexLib} : Prop := {
  hex_decode_encode b : hex_decode (hex_encode b) = Ok b;
  (** the output is lower-case hexadecimal, two digits a byte *)
  hex_encode_alnum b : all_chars is_ascii_alphanumeric (hex_encode b) = true;
  hex_encode_length b : String.length (hex_encode b) = (2 * length b)%nat;
}.

(** ** aes-gcm: AES-256-GCM with a 32-byte key and a 12-byte nonce *)
Class AeadLib := {
  aead_new_from_slice : bytes → result string unit;
  aead_encrypt : bytes → bytes → bytes → result string bytes;
  aead_decrypt : bytes → bytes → bytes → result string bytes;
}.
Class AeadLaws `{AeadLib} : Prop := {
  aead_new_ok k : length k = 32%nat → aead_new_from_slice k = Ok tt;
  (** encryption fails only above the plaintext limit *)
  aead_encrypt_ok k n p :
    length k = 32%nat → length n = 12%nat → Z.of_nat (length p) < 2 ^ 36 →
    ∃ c, aead_encrypt k n p = Ok c;
  (** decryption under the same key and nonce inverts encryption *)
  aead_decrypt_encrypt k n p c : aead_encrypt k n p = Ok c → aead_decrypt k n c = Ok p;
  (** the ciphertext is the plaintext and a 16-byte tag *)
  aead_encrypt_length k n p c : aead_encrypt k n p = Ok c → length c = (length p + 16)%nat;
}.

(** ** base64 and the HTTP client *)
Class Base64Lib := {
  b64_encode_std : bytes → string;
  b64_decode_std : string → result string bytes;
}.
Class HttpLib := {
  (** building a client, with its TLS set-up *)
  client_build : result string unit;
  (** the displayed form of a status code, and a body read as text *)
  status_display : Z → string;
  body_text : bytes → string;
  (** a header value as text, the value of a basic-authentication header, and a
      form body *)
  header_to_str : string → option string;
  basic_auth : string → string → string;
  form_urlencode : list (string * string) → bytes;
  (** the text of the error [error_for_status] gives for a URL and a status *)
  status_error : string → Z → string;
}.
Class HttpLaws `{HttpLib} : Prop := {
  (** a value of visible ASCII is its own text *)
  header_to_str_Some v s : header_to_str v = Some s → s = v;
}.

Definition is_success (status : Z) : bool := (200 <=? status) && (status <? 300).

(** ** peat-mesh: the formation genesis and its certificates *)
Inductive MembershipPolicy := MpOpen | MpControlled | MpStrict.
Inductive WireTier := Enterprise | Regional | Tactical.

Record root_cert := {
  rc_node_id : string;
  rc_subject_public_key : bytes;
  rc_issued_at_ms : Z;
  rc_expires_at_ms : Z;
}.

Class MeshLib := {
  MeshGenesis : Type;
  MeshCertificate : Type;
  genesis_create : string → MembershipPolicy → bytes → MeshGenesis;
  genesis_mesh_id : MeshGenesis → string;
  genesis_encode : MeshGenesis → bytes;
  genesis_decode : bytes → result string MeshGenesis;
  genesis_authority_public_key : MeshGenesis → bytes;
  genesis_root_certificate : MeshGenesis → string → root_cert;
  (** subject key, node id, tier, permissions, validity in ms, time of issue *)
  genesis_issue_certificate :
    MeshGenesis → bytes → string → WireTier → Z → Z → Z → MeshCertificate;
  cert_encode : MeshCertificate → bytes;
  (** the certificate permission bits [RELAY], [EMERGENCY], [ENROLL], [ADMIN] *)
  mp_RELAY : Z; mp_EMERGENCY : Z; mp_ENROLL : Z; mp_ADMIN : Z;
}.
Class MeshLaws `{MeshLib} : Prop := {
  genesis_decode_encode g : genesis_decode (genesis_encode g) = Ok g;
  mp_values : mp_RELAY = 0x01 ∧ mp_EMERGENCY = 0x02 ∧ mp_ENROLL = 0x04 ∧ mp_ADMIN = 0x80;
}.
