(* ===== verification/Models.v ===== *)
(** tenant/models.rs: the records and enumerations of the tenant model, the
    quota defaults, the tier mapping and the permission bits.  A [u32] or [u64]
    field is a [Z]; [u32] and [u64] are the range predicates. *)
From S2P Require Import Prelude Text Extern.
From Stdlib Require Import ZArith.

#[local] Open Scope Z_scope.

Definition u32 (z : Z) : Prop := 0 ≤ z < 2 ^ 32.
Definition u64 (z : Z) : Prop := 0 ≤ z < 2 ^ 64.
(** [x as u32], [x as u64] *)
Definition as_u32 (z : Z) : Z := z mod 2 ^ 32.
Definition wrap_u64 (z : Z) : Z := z mod 2 ^ 64.
Definition saturating_sub (a b : Z) : Z := Z.max 0 (a - b).
Definition usize_max : Z := 2 ^ 64 - 1.

(** ** Organizations and formations *)
Record OrgQuotas := {
  max_formations : Z;
  max_peers_per_formation : Z;
  max_documents_per_formation : Z;
  max_cdc_sinks : Z;
  max_enrollments_per_hour : Z;
}.

Definition default_max_enrollments_per_hour : Z := 1000.

Definition default_quotas : OrgQuotas := {|
  max_formations := 10;
  max_peers_per_formation := 100;
  max_documents_per_formation := 10000;
  max_cdc_sinks := 5;
  max_enrollments_per_hour := 1000;
|}.

Record Organization := {
  o_org_id : string;
  o_display_name : string;
  o_quotas : OrgQuotas;
  o_created_at : Z;
}.

Inductive EnrollmentPolicy := Open | Controlled | Strict.

Record FormationConfig := {
  f_app_id : string;
  f_mesh_id : string;
  f_enrollment_policy : EnrollmentPolicy;
}.

(** ** Enrollment tokens *)
Record EnrollmentToken := {
  t_token_id : string;
  t_org_id : string;
  t_app_id : string;
  t_label : string;
  t_max_uses : option Z;
  t_uses : Z;
  t_expires_at : option Z;
  t_created_at : Z;
  t_revoked : bool;
}.

(** [token.revoked = true] and [token.uses += 1] on the local copy. *)
Definition with_revoked (t : EnrollmentToken) : EnrollmentToken := {|
  t_token_id := t_token_id t; t_org_id := t_org_id t; t_app_id := t_app_id t;
  t_label := t_label t; t_max_uses := t_max_uses t; t_uses := t_uses t;
  t_expires_at := t_expires_at t; t_created_at := t_created_at t;
  t_revoked := true |}.
Definition with_uses (t : EnrollmentToken) (n : Z) : EnrollmentToken := {|
  t_token_id := t_token_id t; t_org_id := t_org_id t; t_app_id := t_app_id t;
  t_label := t_label t; t_max_uses := t_max_uses t; t_uses := n;
  t_expires_at := t_expires_at t; t_created_at := t_created_at t;
  t_revoked := t_revoked t |}.

(** ** CDC sinks, events and peers *)
Inductive CdcSinkType :=
| Nats (subject_prefix : string)
| Kafka (topic : string)
| Webhook (url : string).

Record CdcSinkConfig := {
  s_sink_id : string;
  s_org_id : string;
  s_sink_type : CdcSinkType;
  s_enabled : bool;
  s_created_at : Z;
}.
Definition with_sink_enabled (s : CdcSinkConfig) (b : bool) : CdcSinkConfig := {|
  s_sink_id := s_sink_id s; s_org_id := s_org_id s; s_sink_type := s_sink_type s;
  s_enabled := b; s_created_at := s_created_at s |}.

Record CdcEvent := {
  e_org_id : string;
  e_app_id : string;
  e_document_id : string;
  e_change_hash : string;
  e_actor_id : string;
  e_timestamp_ms : Z;
  e_patches : Value;
}.

Inductive PeerStatus := Connected | Disconnected | Pending.
Record PeerInfo := {
  p_peer_id : string;
  p_app_id : string;
  p_status : PeerStatus;
  p_last_seen : Z;
}.

(** ** Identity federation *)
Record IdpConfig := {
  i_idp_id : string;
  i_org_id : string;
  i_issuer_url : string;
  i_client_id : string;
  i_client_secret : string;
  i_enabled : bool;
  i_created_at : Z;
}.
Definition with_idp_enabled (i : IdpConfig) (b : bool) : IdpConfig := {|
  i_idp_id := i_idp_id i; i_org_id := i_org_id i; i_issuer_url := i_issuer_url i;
  i_client_id := i_client_id i; i_client_secret := i_client_secret i;
  i_enabled := b; i_created_at := i_created_at i |}.

Record IdpConfigResponse := {
  ir_idp_id : string;
  ir_org_id : string;
  ir_issuer_url : string;
  ir_client_id : string;
  ir_enabled : bool;
  ir_created_at : Z;
}.
Definition idp_response (idp : IdpConfig) : IdpConfigResponse := {|
  ir_idp_id := i_idp_id idp;
  ir_org_id := i_org_id idp;
  ir_issuer_url := i_issuer_url idp;
  ir_client_id := i_client_id idp;
  ir_enabled := i_enabled idp;
  ir_created_at := i_created_at idp;
|}.

Inductive MeshTier := Authority | Infrastructure | Endpoint.

Record PolicyRule := {
  r_rule_id : string;
  r_org_id : string;
  r_claim_key : string;
  r_claim_value : string;
  r_tier : MeshTier;
  r_permissions : Z;
  r_priority : Z;
}.

Definition to_mesh_tier (t : MeshTier) : WireTier :=
  match t with
  | Authority => Enterprise
  | Infrastructure => Regional
  | Endpoint => Tactical
  end.

Inductive EnrollmentDecision :=
| Approved (tier : MeshTier) (permissions : Z)
| Denied (reason : string).

Record EnrollmentAuditEntry := {
  a_audit_id : string;
  a_org_id : string;
  a_app_id : string;
  a_idp_id : string;
  a_subject : string;
  a_decision : EnrollmentDecision;
  a_timestamp_ms : Z;
}.

(** ** Permission bits *)
Module permissions.
Definition RELAY : Z := 0x01.
Definition EMERGENCY : Z := 0x02.
Definition ENROLL : Z := 0x04.
Definition ADMIN : Z := 0x08.

(** [out |= bit], guarded by [perms & flag != 0]; [out] is a [u8]. *)
Definition or_if (perms flag bit out : Z) : Z :=
  if Z.land perms flag =? 0 then out else Z.lor out bit.

Definition to_mesh `{MeshLib} (perms : Z) : Z :=
  let out := 0 in
  let out := or_if perms RELAY mp_RELAY out in
  let out := or_if perms EMERGENCY mp_EMERGENCY out in
  let out := or_if perms ENROLL mp_ENROLL out in
  or_if perms ADMIN mp_ADMIN out.
End permissions.

#[export] Instance EnrollmentPolicy_eqdec : EqDecision EnrollmentPolicy.
Proof. solve_decision. Defined.
#[export] Instance MeshTier_eqdec : EqDecision MeshTier.
Proof. solve_decision. Defined.
#[export] Instance OrgQuotas_eqdec : EqDecision OrgQuotas.
Proof. solve_decision. Defined.
#[export] Instance Organization_eqdec : EqDecision Organization.
Proof. solve_decision. Defined.
#[export] Instance EnrollmentToken_eqdec : EqDecision EnrollmentToken.
Proof. solve_decision. Defined.
#[export] Instance EnrollmentDecision_eqdec : EqDecision EnrollmentDecision.
Proof. solve_decision. Defined.
