(* ===== verification/Errors.v ===== *)
(** The error values of the gateway: one constructor for each [bail!],
    [anyhow!] and [context] of the modelled code, with the values the message
    interpolates, and [to_string], the text [anyhow::Error] displays (for a
    [context], the outermost message). *)
From S2P Require Import Prelude Text Extern Models.
From Stdlib Require Import ZArith.

#[local] Open Scope Z_scope.

Inductive error : Type :=
(* tenant/manager.rs: input validation *)
| MustNotBeEmpty (field : string)
| ExceedsMaxLength (field : string) (len max : Z)
| MustStartAlphanumeric (field : string)
| InvalidCharacters (field : string)
| MustUseHttp (field : string)
| IssuerMustUseHttps
(* tenant/manager.rs: operations *)
| OrgAlreadyExists (org_id : string)
| OrgNotFound (org_id : string)
| FormationQuotaReached (org_id : string) (quota : Z)
| FormationAlreadyExists (app_id org_id : string)
| FormationNotFound (app_id org_id : string)
| GenesisNotFound (app_id org_id : string)
| GenesisDecodeFailed (e : string)
| TokenNotFound (token_id org_id : string)
| TokenAlreadyRevoked (token_id : string)
| TokenWrongFormation (app_id : string)
| TokenIsRevoked (token_id : string)
| TokenHasExpired (token_id : string)
| TokenMaxUsesReached (token_id : string) (max_uses : Z)
| SinkQuotaReached (org_id : string) (quota : Z)
| SinkNotFound (sink_id org_id : string)
| IdpNotFound (idp_id org_id : string)
| PolicyRuleNotFound (rule_id org_id : string)
(* storage: the backend's or serde's own message *)
| StorageError (msg : string)
(* crypto *)
| PlaintextNoWrap
| PlaintextNoUnwrap
| WrappedDekTooLong
| CipherInit (ctx : string)
| AeadFailed (ctx e : string)
| UnsupportedVersion (v : Z)
| EnvelopeTooShort
| BadDekLength (n : Z)
| WrappedDekTooShort (n : Z)
| KekNotHex
| KekWrongLength (n : Z)
| FeatureMissing (var feature : string)
| VaultTokenMissing
(* config.rs, storage/mod.rs *)
| MissingBrokerField (field entry : string)
| PostgresNotEnabled
(* cli.rs *)
| NoKeyProvider
| RoundtripNotEnvelope
| RoundtripMismatch (org_id app_id : string)
(* a message of the HTTP client or of a remote service *)
| Remote (msg : string).

Definition to_string (e : error) : string :=
  match e with
  | MustNotBeEmpty f => f +:+ " must not be empty"
  | ExceedsMaxLength f len max =>
      f +:+ " exceeds maximum length (" +:+ fmt_dec len +:+ " > " +:+ fmt_dec max +:+ ")"
  | MustStartAlphanumeric f => f +:+ " must start with an alphanumeric character"
  | InvalidCharacters f => f +:+ " contains invalid characters (allowed: a-zA-Z0-9._-)"
  | MustUseHttp f => f +:+ " must use http:// or https:// scheme"
  | IssuerMustUseHttps => "issuer_url must use https:// scheme"
  | OrgAlreadyExists o => "Organization '" +:+ o +:+ "' already exists"
  | OrgNotFound o => "Organization '" +:+ o +:+ "' not found"
  | FormationQuotaReached o q =>
      "Organization '" +:+ o +:+ "' has reached its formation quota (" +:+ fmt_dec q +:+ ")"
  | FormationAlreadyExists a o =>
      "Formation '" +:+ a +:+ "' already exists in org '" +:+ o +:+ "'"
  | FormationNotFound a o => "Formation '" +:+ a +:+ "' not found in org '" +:+ o +:+ "'"
  | GenesisNotFound a o =>
      "Genesis not found for formation '" +:+ a +:+ "' in org '" +:+ o +:+ "'"
  | GenesisDecodeFailed e => "Failed to decode genesis: " +:+ e
  | TokenNotFound t o => "Token '" +:+ t +:+ "' not found in org '" +:+ o +:+ "'"
  | TokenAlreadyRevoked t => "Token '" +:+ t +:+ "' is already revoked"
  | TokenWrongFormation a => "Token does not belong to formation '" +:+ a +:+ "'"
  | TokenIsRevoked t => "Token '" +:+ t +:+ "' has been revoked"
  | TokenHasExpired t => "Token '" +:+ t +:+ "' has expired"
  | TokenMaxUsesReached t m =>
      "Token '" +:+ t +:+ "' has reached its maximum uses (" +:+ fmt_dec m +:+ ")"
  | SinkQuotaReached o q =>
      "Organization '" +:+ o +:+ "' has reached its CDC sink quota (" +:+ fmt_dec q +:+ ")"
  | SinkNotFound s o => "Sink '" +:+ s +:+ "' not found in org '" +:+ o +:+ "'"
  | IdpNotFound i o => "IdP '" +:+ i +:+ "' not found in org '" +:+ o +:+ "'"
  | PolicyRuleNotFound r o => "Policy rule '" +:+ r +:+ "' not found in org '" +:+ o +:+ "'"
  | StorageError m => m
  | PlaintextNoWrap => "PlaintextProvider does not wrap DEKs — configure a key provider"
  | PlaintextNoUnwrap => "PlaintextProvider does not unwrap DEKs — configure a key provider"
  | WrappedDekTooLong =>
      "Wrapped DEK exceeds 65535 bytes — provider returned unreasonable output"
  | CipherInit c => c
  | AeadFailed c e => c +:+ ": " +:+ e
  | UnsupportedVersion v => "Unsupported envelope version: " +:+ fmt_dec v
  | EnvelopeTooShort => "Envelope too short: truncated ciphertext"
  | BadDekLength n => "KeyProvider.unwrap_dek must return 32 bytes, got " +:+ fmt_dec n
  | WrappedDekTooShort n => "Wrapped DEK too short: " +:+ fmt_dec n
  | KekNotHex => "PEAT_KEK must be valid hex"
  | KekWrongLength n =>
      "PEAT_KEK must be exactly 32 bytes (64 hex chars), got " +:+ fmt_dec n
  | FeatureMissing v f => v +:+ " is set but the `" +:+ f +:+ "` feature is not compiled in"
  | VaultTokenMissing => "PEAT_VAULT_ADDR is set but PEAT_VAULT_TOKEN is missing"
  | MissingBrokerField f e => "missing " +:+ f +:+ " in PEAT_MESH_BROKERS entry '" +:+ e +:+ "'"
  | PostgresNotEnabled =>
      "Postgres backend requested but the 'postgres' feature is not enabled. "
      +:+ "Rebuild with --features postgres or use PEAT_STORAGE_BACKEND=redb."
  | NoKeyProvider =>
      "No key provider configured. Set PEAT_KEK, PEAT_KMS_KEY_ARN, or PEAT_VAULT_ADDR."
  | RoundtripNotEnvelope =>
      "Roundtrip verification failed: seal produced non-envelope output"
  | RoundtripMismatch o a =>
      "Roundtrip verification failed for org=" +:+ o +:+ " app=" +:+ a
      +:+ ": decrypted bytes don't match original"
  | Remote m => m
  end.

(** [anyhow::Result] *)
Abbreviation Result := (result error).
