(* ===== verification/Effects.v ===== *)
(** Programs of the gateway: what an [async fn] does to the outside world.

    [StoreOp] is the trait [StorageBackend] of storage/mod.rs, one constructor a
    method.  [eff] adds the other effects the code performs: the clock, the
    operating system's random numbers, network requests and sleeping.  A [prog]
    is a finite sequence of effects, each chosen from the answers to the ones
    before; an [async fn ... -> Result<A>] is an [M A], whose bind is the [?]
    operator.  [run] executes a program on a [world]; the interleavings of
    several programs are in [Concurrency.v]. *)
From S2P Require Import Prelude Text Extern Models Errors.
From Stdlib Require Import ZArith.

#[local] Open Scope Z_scope.

(** ** The trait [StorageBackend] *)
Inductive StoreOp : Type → Type :=
| CreateOrg (org : Organization) : StoreOp unit
| GetOrg (org_id : string) : StoreOp (option Organization)
| ListOrgs : StoreOp (list Organization)
| UpdateOrg (org : Organization) : StoreOp unit
| DeleteOrg (org_id : string) : StoreOp bool
| CreateFormation (org_id : string) (formation : FormationConfig) : StoreOp unit
| GetFormation (org_id app_id : string) : StoreOp (option FormationConfig)
| ListFormations (org_id : string) : StoreOp (list FormationConfig)
| DeleteFormation (org_id app_id : string) : StoreOp bool
| CreateToken (token : EnrollmentToken) : StoreOp unit
| GetToken (org_id token_id : string) : StoreOp (option EnrollmentToken)
| ListTokens (org_id app_id : string) : StoreOp (list EnrollmentToken)
| UpdateToken (token : EnrollmentToken) : StoreOp unit
| DeleteToken (org_id token_id : string) : StoreOp bool
| CreateSink (sink : CdcSinkConfig) : StoreOp unit
| GetSink (org_id sink_id : string) : StoreOp (option CdcSinkConfig)
| ListSinks (org_id : string) : StoreOp (list CdcSinkConfig)
| UpdateSink (sink : CdcSinkConfig) : StoreOp unit
| DeleteSink (org_id sink_id : string) : StoreOp bool
| CreateIdp (idp : IdpConfig) : StoreOp unit
| GetIdp (org_id idp_id : string) : StoreOp (option IdpConfig)
| ListIdps (org_id : string) : StoreOp (list IdpConfig)
| UpdateIdp (idp : IdpConfig) : StoreOp unit
| DeleteIdp (org_id idp_id : string) : StoreOp bool
| CreatePolicyRule (rule : PolicyRule) : StoreOp unit
| ListPolicyRules (org_id : string) : StoreOp (list PolicyRule)
| DeletePolicyRule (org_id rule_id : string) : StoreOp bool
| AppendAudit (entry : EnrollmentAuditEntry) : StoreOp unit
| ListAudit (org_id : string) (app_id : option string) (limit : Z) :
    StoreOp (list EnrollmentAuditEntry)
| StoreGenesis (org_id app_id : string) (encoded : bytes) : StoreOp unit
| GetGenesis (org_id app_id : string) : StoreOp (option bytes)
| DeleteGenesis (org_id app_id : string) : StoreOp bool
| GetCursor (org_id app_id document_id : string) : StoreOp (option string)
| SetCursor (org_id app_id document_id change_hash : string) : StoreOp unit.

(** A backend: how a state of type [S] answers each method. *)
Class Backend (S : Type) := handle : ∀ {R : Type}, StoreOp R → S → Result R * S.

(** ** Network requests and their answers *)
Inductive request : Type :=
| HttpGet (url : string) (headers : list (string * string))
| HttpPost (url : string) (headers : list (string * string)) (body : bytes)
| HttpPatch (url : string) (headers : list (string * string)) (body : bytes)
| HttpDelete (url : string) (headers : list (string * string))
| NatsPublish (subject msg_id : string) (payload : bytes)
| NatsFlush.

(** An HTTP answer has a status and a body; a NATS call answers [NetResp 0 []]
    when it succeeds. *)
Inductive reply : Type :=
| NetErr (e : string)
| NetResp (status : Z) (body : bytes).

(** ** Effects and programs *)
Inductive eff : Type → Type :=
| Store {R : Type} (op : StoreOp R) : eff (Result R)
| SystemTime : eff Z
| OsRng (n : nat) : eff bytes
| Net (rq : request) : eff reply
| Sleep (ms : Z) : eff unit.

Inductive prog (A : Type) : Type :=
| Ret (a : A)
| Do {X : Type} (e : eff X) (k : X → prog A).
Arguments Ret {A} a.
Arguments Do {A X} e k.

Fixpoint pbind {A B} (p : prog A) (f : A → prog B) : prog B :=
  match p with
  | Ret a => f a
  | Do e k => Do e (λ x, pbind (k x) f)
  end.

Abbreviation M A := (prog (Result A)).

Definition ok {E A} (a : A) : prog (result E A) := Ret (Ok a).
Definition bail {E A} (e : E) : prog (result E A) := Ret (Err e).
Definition lift {E A} (r : result E A) : prog (result E A) := Ret r.

(** [c.await?] followed by [f]. *)
Definition mbind {E A B} (c : prog (result E A)) (f : A → prog (result E B)) :
    prog (result E B) :=
  pbind c (λ r, match r with Ok a => f a | Err e => Ret (Err e) end).

(** [c.await.map_err(f)] *)
Definition mmap_err {E F A} (f : E → F) (c : prog (result E A)) : prog (result F A) :=
  pbind c (λ r, Ret (map_err f r)).

Definition perform {X} (e : eff X) : prog X := Do e Ret.
Definition call {R} (op : StoreOp R) : M R := Do (Store op) Ret.

Notation "'let!' x := c 'in' k" := (mbind c (λ x, k))
  (at level 10, x binder, c at level 100, k at level 200) : gw_scope.
(** The value of [c.await] itself, a [Result]. *)
Notation "'try!' r := c 'in' k" := (pbind c (λ r, k))
  (at level 10, r binder, c at level 100, k at level 200) : gw_scope.
Open Scope gw_scope.

(** [SystemTime::now()...as_millis() as u64] *)
Definition now_ms : prog Z := Do SystemTime (λ t, Ret (wrap_u64 t)).
(** [OsRng.fill_bytes(&mut [0u8; n])] *)
Definition random_bytes (n : nat) : prog bytes := perform (OsRng n).

(** ** Worlds *)
Inductive event : Type :=
| Sent (rq : request) (rp : reply)
| Slept (ms : Z).

(** The outside answers of one execution: the successive clock readings, the
    stream of random bytes, the replies to the successive requests. *)
Record oracle := {
  o_clock : nat → Z;
  o_rng : nat → byte;
  o_net : nat → request → reply;
}.

Definition rng_bytes (o : oracle) (pos n : nat) : bytes := o_rng o <$> seq pos n.
#[global] Arguments rng_bytes : simpl never.
Lemma length_rng_bytes o pos n : length (rng_bytes o pos n) = n.
Proof. unfold rng_bytes. by rewrite length_fmap, length_seq. Qed.

Record world (S : Type) := World {
  w_store : S;
  w_tick : nat;
  w_rpos : nat;
  w_sent : nat;
  w_trace : list event;
}.
Arguments World {S} _ _ _ _ _.
Arguments w_store {S} _.
Arguments w_tick {S} _.
Arguments w_rpos {S} _.
Arguments w_sent {S} _.
Arguments w_trace {S} _.

(** The world after one effect. *)
Definition set_store {S S'} (s : S') (w : world S) : world S' :=
  World s (w_tick w) (w_rpos w) (w_sent w) (w_trace w).

Definition ticked {S} (w : world S) : world S :=
  World (w_store w) (Datatypes.S (w_tick w)) (w_rpos w) (w_sent w) (w_trace w).
Definition drawn {S} (n : nat) (w : world S) : world S :=
  World (w_store w) (w_tick w) (w_rpos w + n)%nat (w_sent w) (w_trace w).
Definition sent {S} (o : oracle) (rq : request) (w : world S) : world S :=
  World (w_store w) (w_tick w) (w_rpos w) (Datatypes.S (w_sent w))
    (w_trace w ++ [Sent rq (o_net o (w_sent w) rq)]).
Definition slept {S} (ms : Z) (w : world S) : world S :=
  World (w_store w) (w_tick w) (w_rpos w) (w_sent w) (w_trace w ++ [Slept ms]).

Section Run.
Context {S : Type} `{Backend S} (o : oracle).

Definition exec {X : Type} (e : eff X) (w : world S) : X * world S :=
  match e in eff X return X * world S with
  | Store op => let '(r, s) := handle op (w_store w) in (r, set_store s w)
  | SystemTime => (o_clock o (w_tick w), ticked w)
  | OsRng n => (rng_bytes o (w_rpos w) n, drawn n w)
  | Net rq => (o_net o (w_sent w) rq, sent o rq w)
  | Sleep ms => (tt, slept ms w)
  end.

Fixpoint run {A : Type} (p : prog A) (w : world S) : A * world S :=
  match p with
  | Ret a => (a, w)
  | Do e k => let '(x, w) := exec e w in run (k x) w
  end.
End Run.

(** ** Lemmas *)
Section RunLemmas.
Context {S : Type} `{Backend S} (o : oracle).

Lemma run_pbind {A B} (p : prog A) (f : A → prog B) w :
  run o (pbind p f) w = let '(a, w) := run o p w in run o (f a) w.
Proof.
  revert w; induction p as [a|X e k IH]; intros w; simpl; [done|].
  destruct (exec o e w) as [x w']. apply IH.
Qed.

Lemma run_mbind {E A B} (c : prog (result E A)) (f : A → prog (result E B)) w :
  run o (mbind c f) w =
  match run o c w with
  | (Ok a, w) => run o (f a) w
  | (Err e, w) => (Err e, w)
  end.
Proof. unfold mbind. rewrite run_pbind. by destruct (run o c w) as [[a|e] w']. Qed.

(** A store call changes the store and nothing else. *)
Lemma run_call {R} (op : StoreOp R) w :
  run o (call op) w =
  let '(r, s) := handle op (w_store w) in (r, set_store s w).
Proof. simpl. by destruct (handle op (w_store w)). Qed.
End RunLemmas.

(** The methods of [self.store], as programs. *)
Module store.
Definition create_org o := call (CreateOrg o).
Definition get_org o := call (GetOrg o).
Definition list_orgs := call ListOrgs.
Definition update_org o := call (UpdateOrg o).
Definition delete_org o := call (DeleteOrg o).
Definition create_formation o f := call (CreateFormation o f).
Definition get_formation o a := call (GetFormation o a).
Definition list_formations o := call (ListFormations o).
Definition delete_formation o a := call (DeleteFormation o a).
Definition create_token t := call (CreateToken t).
Definition get_token o t := call (GetToken o t).
Definition list_tokens o a := call (ListTokens o a).
Definition update_token t := call (UpdateToken t).
Definition delete_token o t := call (DeleteToken o t).
Definition create_sink s := call (CreateSink s).
Definition get_sink o s := call (GetSink o s).
Definition list_sinks o := call (ListSinks o).
Definition update_sink s := call (UpdateSink s).
Definition delete_sink o s := call (DeleteSink o s).
Definition create_idp i := call (CreateIdp i).
Definition get_idp o i := call (GetIdp o i).
Definition list_idps o := call (ListIdps o).
Definition update_idp i := call (UpdateIdp i).
Definition delete_idp o i := call (DeleteIdp o i).
Definition create_policy_rule r := call (CreatePolicyRule r).
Definition list_policy_rules o := call (ListPolicyRules o).
Definition delete_policy_rule o r := call (DeletePolicyRule o r).
Definition append_audit e := call (AppendAudit e).
Definition list_audit o a n := call (ListAudit o a n).
Definition store_genesis o a b := call (StoreGenesis o a b).
Definition get_genesis o a := call (GetGenesis o a).
Definition delete_genesis o a := call (DeleteGenesis o a).
Definition get_cursor o a d := call (GetCursor o a d).
Definition set_cursor o a d h := call (SetCursor o a d h).
End store.
