(* ===== verification/Spec.v ===== *)
(** What a storage backend promises.

    [db] is the abstract content of the gateway's database: nine finite maps
    with structured keys.  [spec op m r m'] says that the method [op] may answer
    [r] on content [m] and leave content [m'].  It is a relation because the two
    backends of storage/ differ where the trait leaves room: the order of a
    listing, an update of a missing row, a limit of zero, a time beyond 2^63.
    [StorageSpec] is the interface the tenant manager's theorems use: a successful
    call follows [spec], a failed one leaves the content alone. *)
From S2P Require Import Prelude Text Extern Models Errors Effects.
From Stdlib Require Import ZArith.

#[local] Open Scope Z_scope.

(** ** The abstract database *)
Record db := Db {
  d_orgs : gmap string Organization;
  d_formations : gmap (string * string) FormationConfig;
  d_tokens : gmap (string * string) EnrollmentToken;
  d_sinks : gmap (string * string) CdcSinkConfig;
  d_idps : gmap (string * string) IdpConfig;
  d_rules : gmap (string * string) PolicyRule;
  d_audit : gmap (string * Z * string) EnrollmentAuditEntry;
  d_genesis : gmap (string * string) bytes;
  d_cursors : gmap (string * string * string) string;
}.

Definition db_empty : db := Db ∅ ∅ ∅ ∅ ∅ ∅ ∅ ∅ ∅.

Definition upd_orgs f (m : db) : db :=
  Db (f (d_orgs m)) (d_formations m) (d_tokens m) (d_sinks m) (d_idps m) (d_rules m)
    (d_audit m) (d_genesis m) (d_cursors m).
Definition upd_formations f (m : db) : db :=
  Db (d_orgs m) (f (d_formations m)) (d_tokens m) (d_sinks m) (d_idps m) (d_rules m)
    (d_audit m) (d_genesis m) (d_cursors m).
Definition upd_tokens f (m : db) : db :=
  Db (d_orgs m) (d_formations m) (f (d_tokens m)) (d_sinks m) (d_idps m) (d_rules m)
    (d_audit m) (d_genesis m) (d_cursors m).
Definition upd_sinks f (m : db) : db :=
  Db (d_orgs m) (d_formations m) (d_tokens m) (f (d_sinks m)) (d_idps m) (d_rules m)
    (d_audit m) (d_genesis m) (d_cursors m).
Definition upd_idps f (m : db) : db :=
  Db (d_orgs m) (d_formations m) (d_tokens m) (d_sinks m) (f (d_idps m)) (d_rules m)
    (d_audit m) (d_genesis m) (d_cursors m).
Definition upd_rules f (m : db) : db :=
  Db (d_orgs m) (d_formations m) (d_tokens m) (d_sinks m) (d_idps m) (f (d_rules m))
    (d_audit m) (d_genesis m) (d_cursors m).
Definition upd_audit f (m : db) : db :=
  Db (d_orgs m) (d_formations m) (d_tokens m) (d_sinks m) (d_idps m) (d_rules m)
    (f (d_audit m)) (d_genesis m) (d_cursors m).
Definition upd_genesis f (m : db) : db :=
  Db (d_orgs m) (d_formations m) (d_tokens m) (d_sinks m) (d_idps m) (d_rules m)
    (d_audit m) (f (d_genesis m)) (d_cursors m).
Definition upd_cursors f (m : db) : db :=
  Db (d_orgs m) (d_formations m) (d_tokens m) (d_sinks m) (d_idps m) (d_rules m)
    (d_audit m) (d_genesis m) (f (d_cursors m)).

(** The organization a row belongs to. *)
Class OrgKey (K : Type) := org_of : K → string.
#[export] Instance org_key_2 : OrgKey (string * string) := fst.
#[export] Instance org_key_audit : OrgKey (string * Z * string) := λ k, k.1.1.
#[export] Instance org_key_cursor : OrgKey (string * string * string) := λ k, k.1.1.

(** The rows of an organization, and the rows of the others. *)
Section Rows.
Context `{Countable K} `{OrgKey K} {V : Type}.

Definition rows_of (o : string) (m : gmap K V) : gmap K V :=
  filter (λ kv, org_of kv.1 = o) m.
Definition rows_not_of (o : string) (m : gmap K V) : gmap K V :=
  filter (λ kv, org_of kv.1 ≠ o) m.

(** A listing of an organization's rows, in some order. *)
Definition listing (o : string) (m : gmap K V) (l : list V) : Prop :=
  l ≡ₚ (map_to_list (rows_of o m)).*2.
End Rows.

(** Everything an organization owns is dropped with it. *)
Definition drop_org (o : string) (m : db) : db :=
  Db (delete o (d_orgs m)) (rows_not_of o (d_formations m)) (rows_not_of o (d_tokens m))
    (rows_not_of o (d_sinks m)) (rows_not_of o (d_idps m)) (rows_not_of o (d_rules m))
    (rows_not_of o (d_audit m)) (rows_not_of o (d_genesis m)) (rows_not_of o (d_cursors m)).

(** The audit entries a query asks for, newest first as long as their times fit a
    signed 64-bit integer, which is what Postgres stores. *)
Definition audit_match (o : string) (app : option string)
    (kv : (string * Z * string) * EnrollmentAuditEntry) : Prop :=
  org_of kv.1 = o ∧ from_option (λ a, a_app_id kv.2 = a) True app.
#[export] Instance audit_match_dec o app kv : Decision (audit_match o app kv).
Proof. destruct app; simpl; unfold audit_match; simpl; solve_decision. Defined.

Definition newer (x y : (string * Z * string) * EnrollmentAuditEntry) : Prop :=
  y.1.1.2 ≤ x.1.1.2.

Definition audit_rows (o : string) (app : option string) (m : db)
    (kvs : list ((string * Z * string) * EnrollmentAuditEntry)) : Prop :=
  kvs ≡ₚ map_to_list (filter (audit_match o app) (d_audit m)) ∧
  (Forall (λ kv, kv.1.1.2 < 2 ^ 63) kvs → StronglySorted newer kvs).

(** ** The contract of each method *)
Definition spec {R : Type} (op : StoreOp R) (m : db) : R → db → Prop :=
  match op in StoreOp R return R → db → Prop with
  | CreateOrg org => λ _ m', m' = upd_orgs <[o_org_id org := org]> m
  | GetOrg o => λ r m', r = d_orgs m !! o ∧ m' = m
  | ListOrgs => λ r m', r ≡ₚ (map_to_list (d_orgs m)).*2 ∧ m' = m
  | UpdateOrg org => λ _ m',
      m' = upd_orgs <[o_org_id org := org]> m ∨ (d_orgs m !! o_org_id org = None ∧ m' = m)
  | DeleteOrg o => λ r m', r = bool_decide (is_Some (d_orgs m !! o)) ∧ m' = drop_org o m
  | CreateFormation o f => λ _ m', m' = upd_formations <[(o, f_app_id f) := f]> m
  | GetFormation o a => λ r m', r = d_formations m !! (o, a) ∧ m' = m
  | ListFormations o => λ r m', listing o (d_formations m) r ∧ m' = m
  | DeleteFormation o a => λ r m',
      r = bool_decide (is_Some (d_formations m !! (o, a))) ∧ m' = upd_formations (delete (o, a)) m
  | CreateToken t => λ _ m', m' = upd_tokens <[(t_org_id t, t_token_id t) := t]> m
  | GetToken o t => λ r m', r = d_tokens m !! (o, t) ∧ m' = m
  | ListTokens o a => λ r m',
      (∃ l, listing o (d_tokens m) l ∧ r = filter (λ t, t_app_id t = a) l) ∧ m' = m
  | UpdateToken t => λ _ m',
      m' = upd_tokens <[(t_org_id t, t_token_id t) := t]> m
      ∨ (d_tokens m !! (t_org_id t, t_token_id t) = None ∧ m' = m)
  | DeleteToken o t => λ r m',
      r = bool_decide (is_Some (d_tokens m !! (o, t))) ∧ m' = upd_tokens (delete (o, t)) m
  | CreateSink s => λ _ m', m' = upd_sinks <[(s_org_id s, s_sink_id s) := s]> m
  | GetSink o s => λ r m', r = d_sinks m !! (o, s) ∧ m' = m
  | ListSinks o => λ r m', listing o (d_sinks m) r ∧ m' = m
  | UpdateSink s => λ _ m',
      m' = upd_sinks <[(s_org_id s, s_sink_id s) := s]> m
      ∨ (d_sinks m !! (s_org_id s, s_sink_id s) = None ∧ m' = m)
  | DeleteSink o s => λ r m',
      r = bool_decide (is_Some (d_sinks m !! (o, s))) ∧ m' = upd_sinks (delete (o, s)) m
  | CreateIdp i => λ _ m', m' = upd_idps <[(i_org_id i, i_idp_id i) := i]> m
  | GetIdp o i => λ r m', r = d_idps m !! (o, i) ∧ m' = m
  | ListIdps o => λ r m', listing o (d_idps m) r ∧ m' = m
  | UpdateIdp i => λ _ m',
      m' = upd_idps <[(i_org_id i, i_idp_id i) := i]> m
      ∨ (d_idps m !! (i_org_id i, i_idp_id i) = None ∧ m' = m)
  | DeleteIdp o i => λ r m',
      r = bool_decide (is_Some (d_idps m !! (o, i))) ∧ m' = upd_idps (delete (o, i)) m
  | CreatePolicyRule r => λ _ m', m' = upd_rules <[(r_org_id r, r_rule_id r) := r]> m
  | ListPolicyRules o => λ r m', listing o (d_rules m) r ∧ m' = m
  | DeletePolicyRule o k => λ r m',
      r = bool_decide (is_Some (d_rules m !! (o, k))) ∧ m' = upd_rules (delete (o, k)) m
  | AppendAudit e => λ _ m',
      m' = upd_audit <[(a_org_id e, a_timestamp_ms e, a_audit_id e) := e]> m
  | ListAudit o app limit => λ r m',
      (∃ kvs, audit_rows o app m kvs ∧
              (r = (take (Z.to_nat limit) kvs).*2 ∨ (limit = 0 ∧ r = (take 1 kvs).*2)))
      ∧ m' = m
  | StoreGenesis o a b => λ _ m', m' = upd_genesis <[(o, a) := b]> m
  | GetGenesis o a => λ r m', r = d_genesis m !! (o, a) ∧ m' = m
  | DeleteGenesis o a => λ r m',
      r = bool_decide (is_Some (d_genesis m !! (o, a))) ∧ m' = upd_genesis (delete (o, a)) m
  | GetCursor o a d => λ r m', r = d_cursors m !! (o, a, d) ∧ m' = m
  | SetCursor o a d h => λ _ m', m' = upd_cursors <[(o, a, d) := h]> m
  end.

(** The arguments for which the contract holds: text that becomes part of a
    composite key holds no NUL. *)
Definition op_ok {R : Type} (op : StoreOp R) : Prop :=
  match op with
  | DeleteOrg o => nul_free o
  | CreateFormation o f => nul_free o ∧ nul_free (f_app_id f)
  | CreateToken t | UpdateToken t => nul_free (t_org_id t) ∧ nul_free (t_token_id t)
  | CreateSink s | UpdateSink s => nul_free (s_org_id s) ∧ nul_free (s_sink_id s)
  | CreateIdp i | UpdateIdp i => nul_free (i_org_id i) ∧ nul_free (i_idp_id i)
  | CreatePolicyRule r => nul_free (r_org_id r) ∧ nul_free (r_rule_id r)
  | AppendAudit e =>
      nul_free (a_org_id e) ∧ nul_free (a_audit_id e) ∧ u64 (a_timestamp_ms e)
  | ListAudit o _ limit => nul_free o ∧ u64 limit
  | StoreGenesis o a _ => nul_free o ∧ nul_free a
  | GetCursor o a _ | SetCursor o a _ _ => nul_free o ∧ nul_free a
  | _ => True
  end.

(** ** The interface *)
Class StorageSpec (S : Type) `{Backend S} (rep : S → db → Prop) : Prop :=
  handle_spec : ∀ {R} (op : StoreOp R) s m r s',
    rep s m → op_ok op → handle op s = (r, s') →
    match r with
    | Ok x => ∃ m', spec op m x m' ∧ rep s' m'
    | Err _ => rep s' m
    end.
