(* ===== verification/Redb.v ===== *)
(** storage/redb_backend.rs: the embedded backend.

    Nine redb tables hold serialised rows under composite keys whose parts are
    separated by NUL.  Every method is one redb transaction.  A transaction
    either commits all its writes or, when any redb call in it or its decoding
    fails, none: [db_faults] lists which of the coming transactions redb fails,
    and with what message.  [delete_org] skips an entry whose read fails, which
    is the same: after a failed read redb refuses the commit. *)
From S2P Require Import Prelude Text Extern Models Errors Effects.
From Stdlib Require Import ZArith.

#[local] Open Scope Z_scope.

Inductive table_def : Type :=
| ORGS_TABLE | FORMATIONS_TABLE | TOKENS_TABLE | SINKS_TABLE | IDPS_TABLE
| POLICY_RULES_TABLE | AUDIT_TABLE | GENESIS_TABLE.
#[export] Instance table_def_eqdec : EqDecision table_def.
Proof. solve_decision. Defined.

(** The tables with byte values, and the cursor table with text values. *)
Record tables (T : Type → Type) := Tables {
  open_table : table_def → T bytes;
  CURSORS_TABLE : T string;
}.
Arguments Tables {T} _ _.
Arguments open_table {T} _ _.
Arguments CURSORS_TABLE {T} _.

Record Database (T : Type → Type) := RedbDatabase {
  db_tables : tables T;
  db_faults : list (option string);
}.
Arguments RedbDatabase {T} _ _.
Arguments db_tables {T} _.
Arguments db_faults {T} _.

(** ** Composite keys *)
Definition formation_key (org_id app_id : string) : string := org_id +:+ NUL +:+ app_id.
Definition formation_prefix (org_id : string) : string := org_id +:+ NUL.
Definition token_key (org_id token_id : string) : string := org_id +:+ NUL +:+ token_id.
Definition token_prefix (org_id : string) : string := org_id +:+ NUL.
Definition sink_key (org_id sink_id : string) : string := org_id +:+ NUL +:+ sink_id.
Definition sink_prefix (org_id : string) : string := org_id +:+ NUL.
Definition cursor_key (org_id app_id document_id : string) : string :=
  org_id +:+ NUL +:+ app_id +:+ NUL +:+ document_id.
Definition idp_key (org_id idp_id : string) : string := org_id +:+ NUL +:+ idp_id.
Definition policy_rule_key (org_id rule_id : string) : string := org_id +:+ NUL +:+ rule_id.
Definition audit_key (org_id : string) (timestamp_ms : Z) (audit_id : string) : string :=
  org_id +:+ NUL +:+ fmt_020 timestamp_ms +:+ NUL +:+ audit_id.

Section Backend.
Context {T : Type → Type} `{RedbTable T}.
Context `{Serde Organization} `{Serde FormationConfig} `{Serde EnrollmentToken}
  `{Serde CdcSinkConfig} `{Serde IdpConfig} `{Serde PolicyRule}
  `{Serde EnrollmentAuditEntry}.

Definition put_table (d : table_def) (t : T bytes) (ts : tables T) : tables T :=
  Tables (λ d', if decide (d = d') then t else open_table ts d') (CURSORS_TABLE ts).
Definition put_cursors (t : T string) (ts : tables T) : tables T :=
  Tables (open_table ts) t.

(** [serde_json::to_vec(x)?] and [serde_json::from_slice(v)?] *)
Definition serialize {A} `{Serde A} (a : A) : Result bytes := map_err StorageError (to_vec a).
Definition deserialize {A} `{Serde A} (b : bytes) : Result A :=
  map_err StorageError (from_slice b).

(** ** Transactions *)
Definition begin_write {A} (body : tables T → Result A * tables T) (db : Database T) :
    Result A * Database T :=
  let fs := tail (db_faults db) in
  match head (db_faults db) with
  | Some (Some e) => (Err (StorageError e), RedbDatabase (db_tables db) fs)
  | _ =>
      match body (db_tables db) with
      | (Ok a, ts) => (Ok a, RedbDatabase ts fs)
      | (Err e, _) => (Err e, RedbDatabase (db_tables db) fs)
      end
  end.

Definition begin_read {A} (body : tables T → Result A) (db : Database T) :
    Result A * Database T :=
  begin_write (λ ts, (body ts, ts)) db.

(** One insert, one removal, one lookup, one scan: the bodies of the methods. *)
Definition insert_row (d : table_def) (key : string) (v : Result bytes) (db : Database T) :
    Result unit * Database T :=
  match v with
  | Err e => (Err e, db)
  | Ok b => begin_write (λ ts, (Ok tt, put_table d (t_insert (open_table ts d) key b) ts)) db
  end.

Definition remove_row (d : table_def) (key : string) (db : Database T) :
    Result bool * Database T :=
  begin_write (λ ts,
    let removed := bool_decide (is_Some (t_get (open_table ts d) key)) in
    (Ok removed, put_table d (t_remove (open_table ts d) key) ts)) db.

Definition get_row {A} `{Serde A} (d : table_def) (key : string) (db : Database T) :
    Result (option A) * Database T :=
  begin_read (λ ts,
    match t_get (open_table ts d) key with
    | Some v => result_map Some (deserialize v)
    | None => Ok None
    end) db.

Fixpoint collect_prefix {A} `{Serde A} (prefix : string) (entries : list (string * bytes)) :
    Result (list A) :=
  match entries with
  | [] => Ok []
  | (key, value) :: entries =>
      if starts_with key prefix then
        let? a := deserialize value in
        let? l := collect_prefix prefix entries in
        Ok (a :: l)
      else collect_prefix prefix entries
  end.

Definition scan_rows {A} `{Serde A} (d : table_def) (prefix : string) (db : Database T) :
    Result (list A) * Database T :=
  begin_read (λ ts, collect_prefix prefix (t_iter (open_table ts d))) db.

(** [keys_to_remove], then the removals *)
Definition remove_prefixed {V} (prefix : string) (t : T V) : T V :=
  foldl t_remove t (filter (λ k, starts_with k prefix = true) (t_iter t).*1).

(** ** The methods *)
Definition create_org (org : Organization) : Database T → Result unit * Database T :=
  insert_row ORGS_TABLE (o_org_id org) (serialize org).
Definition get_org (org_id : string) : Database T → Result (option Organization) * Database T :=
  get_row ORGS_TABLE org_id.
Definition list_orgs : Database T → Result (list Organization) * Database T :=
  scan_rows ORGS_TABLE EmptyString.
Definition update_org (org : Organization) : Database T → Result unit * Database T :=
  create_org org.

Definition delete_org (org_id : string) : Database T → Result bool * Database T :=
  let prefix := formation_prefix org_id in
  begin_write (λ ts,
    let removed := bool_decide (is_Some (t_get (open_table ts ORGS_TABLE) org_id)) in
    let ts := put_table ORGS_TABLE (t_remove (open_table ts ORGS_TABLE) org_id) ts in
    let ts :=
      foldl (λ ts d, put_table d (remove_prefixed prefix (open_table ts d)) ts) ts
        [FORMATIONS_TABLE; TOKENS_TABLE; SINKS_TABLE; IDPS_TABLE; POLICY_RULES_TABLE;
         AUDIT_TABLE; GENESIS_TABLE] in
    let ts := put_cursors (remove_prefixed prefix (CURSORS_TABLE ts)) ts in
    (Ok removed, ts)).

Definition create_formation (org_id : string) (formation : FormationConfig) :=
  insert_row FORMATIONS_TABLE (formation_key org_id (f_app_id formation)) (serialize formation).
Definition get_formation (org_id app_id : string) :
    Database T → Result (option FormationConfig) * Database T :=
  get_row FORMATIONS_TABLE (formation_key org_id app_id).
Definition list_formations (org_id : string) :
    Database T → Result (list FormationConfig) * Database T :=
  scan_rows FORMATIONS_TABLE (formation_prefix org_id).
Definition delete_formation (org_id app_id : string) :=
  remove_row FORMATIONS_TABLE (formation_key org_id app_id).

Definition create_token (token : EnrollmentToken) :=
  insert_row TOKENS_TABLE (token_key (t_org_id token) (t_token_id token)) (serialize token).
Definition get_token (org_id token_id : string) :
    Database T → Result (option EnrollmentToken) * Database T :=
  get_row TOKENS_TABLE (token_key org_id token_id).
(** Every token of the organization is decoded; those of the formation are kept. *)
Definition list_tokens (org_id app_id : string) :
    Database T → Result (list EnrollmentToken) * Database T :=
  begin_read (λ ts,
    let? l := collect_prefix (token_prefix org_id) (t_iter (open_table ts TOKENS_TABLE)) in
    Ok (filter (λ t, t_app_id t = app_id) l)).
Definition update_token (token : EnrollmentToken) := create_token token.
Definition delete_token (org_id token_id : string) :=
  remove_row TOKENS_TABLE (token_key org_id token_id).

Definition create_sink (sink : CdcSinkConfig) :=
  insert_row SINKS_TABLE (sink_key (s_org_id sink) (s_sink_id sink)) (serialize sink).
Definition get_sink (org_id sink_id : string) :
    Database T → Result (option CdcSinkConfig) * Database T :=
  get_row SINKS_TABLE (sink_key org_id sink_id).
Definition list_sinks (org_id : string) : Database T → Result (list CdcSinkConfig) * Database T :=
  scan_rows SINKS_TABLE (sink_prefix org_id).
Definition update_sink (sink : CdcSinkConfig) := create_sink sink.
Definition delete_sink (org_id sink_id : string) :=
  remove_row SINKS_TABLE (sink_key org_id sink_id).

Definition create_idp (idp : IdpConfig) :=
  insert_row IDPS_TABLE (idp_key (i_org_id idp) (i_idp_id idp)) (serialize idp).
Definition get_idp (org_id idp_id : string) : Database T → Result (option IdpConfig) * Database T :=
  get_row IDPS_TABLE (idp_key org_id idp_id).
Definition list_idps (org_id : string) : Database T → Result (list IdpConfig) * Database T :=
  scan_rows IDPS_TABLE (org_id +:+ NUL).
Definition update_idp (idp : IdpConfig) := create_idp idp.
Definition delete_idp (org_id idp_id : string) :=
  remove_row IDPS_TABLE (idp_key org_id idp_id).

Definition create_policy_rule (rule : PolicyRule) :=
  insert_row POLICY_RULES_TABLE (policy_rule_key (r_org_id rule) (r_rule_id rule))
    (serialize rule).
Definition list_policy_rules (org_id : string) :
    Database T → Result (list PolicyRule) * Database T :=
  scan_rows POLICY_RULES_TABLE (org_id +:+ NUL).
Definition delete_policy_rule (org_id rule_id : string) :=
  remove_row POLICY_RULES_TABLE (policy_rule_key org_id rule_id).

Definition append_audit (entry : EnrollmentAuditEntry) :=
  insert_row AUDIT_TABLE
    (audit_key (a_org_id entry) (a_timestamp_ms entry) (a_audit_id entry)) (serialize entry).

(** The scan of [list_audit]: keep an entry, stop once [limit] are kept. *)
Fixpoint audit_scan (prefix : string) (app_id : option string) (limit : Z)
    (rows : list (string * bytes)) (entries : list EnrollmentAuditEntry) :
    Result (list EnrollmentAuditEntry) :=
  match rows with
  | [] => Ok entries
  | (key, value) :: rows =>
      if negb (starts_with key prefix) then audit_scan prefix app_id limit rows entries else
      let? e := deserialize value in
      if from_option (λ a, bool_decide (a_app_id e ≠ a)) false app_id
      then audit_scan prefix app_id limit rows entries
      else
        let entries := entries ++ [e] in
        if limit <=? Z.of_nat (length entries) then Ok entries
        else audit_scan prefix app_id limit rows entries
  end.

Definition list_audit (org_id : string) (app_id : option string) (limit : Z) :
    Database T → Result (list EnrollmentAuditEntry) * Database T :=
  begin_read (λ ts,
    audit_scan (org_id +:+ NUL) app_id limit (reverse (t_iter (open_table ts AUDIT_TABLE))) []).

Definition store_genesis (org_id app_id : string) (encoded : bytes) :=
  insert_row GENESIS_TABLE (formation_key org_id app_id) (Ok encoded).
Definition get_genesis (org_id app_id : string) (db : Database T) :
    Result (option bytes) * Database T :=
  begin_read (λ ts, Ok (t_get (open_table ts GENESIS_TABLE) (formation_key org_id app_id))) db.
Definition delete_genesis (org_id app_id : string) :=
  remove_row GENESIS_TABLE (formation_key org_id app_id).

Definition get_cursor (org_id app_id document_id : string) (db : Database T) :
    Result (option string) * Database T :=
  begin_read (λ ts, Ok (t_get (CURSORS_TABLE ts) (cursor_key org_id app_id document_id))) db.
Definition set_cursor (org_id app_id document_id change_hash : string) (db : Database T) :
    Result unit * Database T :=
  begin_write (λ ts,
    (Ok tt, put_cursors (t_insert (CURSORS_TABLE ts)
                           (cursor_key org_id app_id document_id) change_hash) ts)) db.

(** [RedbBackend::open] on a new file: every table exists and is empty. *)
Definition open (faults : list (option string)) : Database T :=
  RedbDatabase (Tables (λ _, t_empty) t_empty) faults.

(** [impl StorageBackend for RedbBackend] *)
#[export] Instance redb_backend : Backend (Database T) := λ R op,
  match op in StoreOp R return Database T → Result R * Database T with
  | CreateOrg org => create_org org
  | GetOrg o => get_org o
  | ListOrgs => list_orgs
  | UpdateOrg org => update_org org
  | DeleteOrg o => delete_org o
  | CreateFormation o f => create_formation o f
  | GetFormation o a => get_formation o a
  | ListFormations o => list_formations o
  | DeleteFormation o a => delete_formation o a
  | CreateToken t => create_token t
  | GetToken o t => get_token o t
  | ListTokens o a => list_tokens o a
  | UpdateToken t => update_token t
  | DeleteToken o t => delete_token o t
  | CreateSink s => create_sink s
  | GetSink o s => get_sink o s
  | ListSinks o => list_sinks o
  | UpdateSink s => update_sink s
  | DeleteSink o s => delete_sink o s
  | CreateIdp i => create_idp i
  | GetIdp o i => get_idp o i
  | ListIdps o => list_idps o
  | UpdateIdp i => update_idp i
  | DeleteIdp o i => delete_idp o i
  | CreatePolicyRule r => create_policy_rule r
  | ListPolicyRules o => list_policy_rules o
  | DeletePolicyRule o r => delete_policy_rule o r
  | AppendAudit e => append_audit e
  | ListAudit o a n => list_audit o a n
  | StoreGenesis o a b => store_genesis o a b
  | GetGenesis o a => get_genesis o a
  | DeleteGenesis o a => delete_genesis o a
  | GetCursor o a d => get_cursor o a d
  | SetCursor o a d h => set_cursor o a d h
  end.
End Backend.
