(* ===== verification/RedbSpec.v ===== *)
(** The redb backend implements the storage contract of [Spec.v].

    [Keyed] relates a key-value table to a finite map with structured keys, for
    any injective key encoding; the sections after it instantiate it with the
    keys of storage/redb_backend.rs, and [redb_storage_spec] assembles the
    refinement of the whole trait. *)
From S2P Require Import Prelude Text Extern Models Errors Effects Spec Redb.
From Stdlib Require Import ZArith.

#[local] Open Scope Z_scope.

Create HintDb gw_rep.

(** ** A table that stores a map *)
Section Keyed.
Context `{RedbTableLaws T} `{Countable K} {B V : Type}.
Context (kf : K → string) (okk okq : K → Prop) (dec : B → V → Prop).
(** The keys stored satisfy [okk]; the keys asked for satisfy [okq]. *)
Hypothesis kf_inj : ∀ i j, okk i → okq j → kf i = kf j → i = j.
Hypothesis okk_okq : ∀ i, okk i → okq i.

Definition table_rep (t : T B) (m : gmap K V) : Prop :=
  (∀ k b, t_get t k = Some b → ∃ i v, kf i = k ∧ m !! i = Some v ∧ dec b v) ∧
  (∀ i v, m !! i = Some v → okk i ∧ ∃ b, t_get t (kf i) = Some b ∧ dec b v).

Definition row_rep (row : string * B) (kv : K * V) : Prop :=
  row.1 = kf kv.1 ∧ dec row.2 kv.2 ∧ okk kv.1.

Lemma rep_empty : table_rep t_empty ∅.
Proof.
  split; [intros k b; by rewrite t_get_empty|intros i v; by rewrite lookup_empty].
Qed.

Lemma rep_get t m i :
  table_rep t m → okq i →
  match t_get t (kf i) with
  | Some b => ∃ v, m !! i = Some v ∧ dec b v
  | None => m !! i = None
  end.
Proof.
  intros [Hto Hof] Hi. destruct (t_get t (kf i)) as [b|] eqn:E.
  - destruct (Hto _ _ E) as (j & v & Ej & Ev & Hd). destruct (Hof _ _ Ev) as [Hj _].
    rewrite <-(kf_inj j i); eauto.
  - destruct (m !! i) as [v|] eqn:Ev; [|done].
    destruct (Hof _ _ Ev) as (_ & b & ? & _). congruence.
Qed.

Lemma rep_insert t m i b v :
  table_rep t m → okk i → dec b v → table_rep (t_insert t (kf i) b) (<[i:=v]> m).
Proof.
  intros [Hto Hof] Hi Hd. split.
  - intros k b'. rewrite t_get_insert. case_decide as E.
    + intros [= <-]. exists i, v. by rewrite lookup_insert_eq.
    + intros Eb. destruct (Hto _ _ Eb) as (j & v' & <- & Ev & ?). exists j, v'.
      rewrite lookup_insert_ne; [done|]. naive_solver.
  - intros j v'. rewrite t_get_insert. destruct (decide (i = j)) as [<-|Hne].
    + rewrite lookup_insert_eq, decide_True by done. intros [= <-]. eauto.
    + rewrite lookup_insert_ne by done. intros Ev. destruct (Hof _ _ Ev) as [Hj ?].
      rewrite decide_False; [done|]. intros E. apply Hne, kf_inj; auto.
Qed.

Lemma rep_remove t m i :
  table_rep t m → okq i → table_rep (t_remove t (kf i)) (delete i m).
Proof.
  intros [Hto Hof] Hi. split.
  - intros k b. rewrite t_get_remove. case_decide as E; [done|].
    intros Eb. destruct (Hto _ _ Eb) as (j & v & <- & Ev & ?). exists j, v.
    rewrite lookup_delete_ne; [done|]. naive_solver.
  - intros j v. rewrite lookup_delete_Some, t_get_remove. intros [Hne Ev].
    destruct (Hof _ _ Ev) as [Hj ?]. rewrite decide_False; [done|].
    intros E. apply Hne. symmetry. apply kf_inj; auto.
Qed.

Lemma rep_present t m i :
  table_rep t m → okq i →
  bool_decide (is_Some (t_get t (kf i))) = bool_decide (is_Some (m !! i)).
Proof.
  intros Hr Hi. pose proof (rep_get t m i Hr Hi) as Hg. apply bool_decide_ext.
  destruct (t_get t (kf i)); [|by rewrite Hg]. destruct Hg as (v & -> & _). split; eauto.
Qed.

(** The rows in key order are the map's entries, each under its key. *)
Lemma rep_iter t m :
  table_rep t m →
  ∃ kvs, kvs ≡ₚ map_to_list m ∧ Forall2 row_rep (t_iter t) kvs.
Proof.
  intros [Hto Hof].
  assert (∃ kvs, Forall2 (λ row kv, row_rep row kv ∧ m !! kv.1 = Some kv.2) (t_iter t) kvs)
    as [kvs Hk].
  { apply Forall_exists_Forall2_l, Forall_forall. intros [k b] Hin%t_iter_get.
    destruct (Hto _ _ Hin) as (i & v & <- & Ev & ?). exists (i, v).
    destruct (Hof _ _ Ev) as [? _]. done. }
  exists kvs. split; [|eapply Forall2_impl; [exact Hk|naive_solver]].
  apply NoDup_Permutation; [|apply NoDup_map_to_list|].
  - apply (NoDup_fmap_1 (λ kv : K * V, kf kv.1)).
    replace ((λ kv : K * V, kf kv.1) <$> kvs) with (t_iter t).*1.
    + assert (NoDup (t_iter t).*1) as Hn; [|done].
      pose proof (t_iter_sorted t) as Hs. induction Hs as [|x l Hs IH Hx]; constructor; [|done].
      rewrite Forall_forall in Hx. intros Hin. by apply (irreflexivity str_lt x), Hx.
    + clear -Hk. induction Hk as [|[k b] kv rows kvs [[E ?] ?] _ IH]; simpl; [done|].
      simpl in *. by f_equal.
  - intros [i v]. rewrite elem_of_map_to_list. split.
    + intros [n En]%list_elem_of_lookup.
      eapply Forall2_lookup_r in Hk as (row & _ & _ & Ev); [|done]. done.
    + intros Ev. destruct (Hof _ _ Ev) as (Hi & b & Eb & Hd). apply t_iter_get in Eb.
      apply list_elem_of_lookup in Eb as [n En].
      eapply Forall2_lookup_l in Hk as ([j v'] & Ej & (E & Hd' & Hj) & Ev'); [|done].
      simpl in *. assert (i = j) as -> by (apply kf_inj; auto).
      assert (v = v') as -> by congruence. by apply list_elem_of_lookup_2 in Ej.
Qed.
End Keyed.

(** ** Scans by key prefix *)
Lemma filter_iff_Forall {A} (P Q : A → Prop) `{∀ x, Decision (P x), ∀ x, Decision (Q x)} l :
  Forall (λ x, P x ↔ Q x) l → filter P l = filter Q l.
Proof.
  intros Hl. induction Hl as [|x l Hx _ IH]; [done|]. rewrite !filter_cons, IH.
  repeat case_decide; naive_solver.
Qed.

(** A row whose bytes decode to the value. *)
Definition decodes {A} `{Serde A} (b : bytes) (a : A) : Prop := from_slice b = Ok a.

Lemma serialize_ok {A} `{SerdeLaws A} (a : A) : ∃ b, serialize a = Ok b ∧ decodes b a.
Proof.
  destruct (to_vec_from_slice a) as (b & E & ?). exists b. unfold serialize. by rewrite E.
Qed.

Lemma deserialize_ok {A} `{Serde A} b (a : A) : decodes b a → deserialize b = Ok a.
Proof. unfold decodes, deserialize. by intros ->. Qed.

Lemma remove_prefixed_get `{RedbTableLaws T} {B} p (t : T B) k :
  t_get (remove_prefixed p t) k = if starts_with k p then None else t_get t k.
Proof.
  assert (∀ ks (t' : T B), t_get (foldl t_remove t' ks) k
                    = if decide (k ∈ ks) then None else t_get t' k) as Hf.
  { intros ks. induction ks as [|k' ks IH]; intros t'; simpl.
    - done.
    - rewrite IH, t_get_remove. repeat case_decide; set_solver. }
  unfold remove_prefixed. rewrite Hf.
  case_decide as Hin; rewrite list_elem_of_filter in Hin.
  - by destruct Hin as [-> _].
  - destruct (starts_with k p) eqn:E; [|done].
    destruct (t_get t k) as [v|] eqn:Ev; [|done]. destruct Hin. split; [done|].
    apply t_iter_get in Ev. by apply (list_elem_of_fmap_2 fst) in Ev.
Qed.

Section Scan.
Context `{RedbTableLaws T} `{Countable K} `{OrgKey K}.
Context (kf : K → string) (okk : K → Prop) (p o : string).
(** The prefix [p] selects exactly the rows of organization [o]. *)
Hypothesis prefix_org : ∀ i, okk i → starts_with (kf i) p = true ↔ org_of i = o.

Lemma collect_prefix_ok {A} `{Serde A} rows (kvs : list (K * A)) :
  Forall2 (row_rep kf okk decodes) rows kvs →
  collect_prefix p rows = Ok (filter (λ kv, org_of kv.1 = o) kvs).*2.
Proof.
  intros Hr. induction Hr as [|[k b] [i a] rows kvs (E & Hd & Hi) _ IH]; simpl in *; [done|].
  subst k. rewrite filter_cons. simpl. pose proof (prefix_org i Hi) as Hp.
  rewrite IH, (deserialize_ok b a Hd). simpl.
  destruct (starts_with (kf i) p); case_decide; naive_solver.
Qed.

Lemma rep_remove_prefixed {B V} (dec : B → V → Prop) t (m : gmap K V) :
  table_rep kf okk dec t m → table_rep kf okk dec (remove_prefixed p t) (rows_not_of o m).
Proof.
  intros [Hto Hof]. unfold rows_not_of. split.
  - intros k b. rewrite remove_prefixed_get. destruct (starts_with k p) eqn:E; [done|].
    intros Eb. destruct (Hto _ _ Eb) as (i & v & <- & Ev & ?). exists i, v.
    split_and!; [done| |done]. apply map_lookup_filter_Some. split; [done|].
    destruct (Hof _ _ Ev) as [Hi _]. simpl. rewrite <-(prefix_org i Hi). congruence.
  - intros i v [Ev Ho]%map_lookup_filter_Some. destruct (Hof _ _ Ev) as (Hi & b & Eb & ?).
    split; [done|]. exists b. rewrite remove_prefixed_get.
    destruct (starts_with (kf i) p) eqn:E; [|done]. by apply prefix_org in E.
Qed.

(** A scan lists the organization's rows. *)
Lemma rep_scan {A} `{Serde A} (okq : K → Prop) t (m : gmap K A) :
  (∀ i j, okk i → okq j → kf i = kf j → i = j) → (∀ i, okk i → okq i) →
  table_rep kf okk decodes t m →
  ∃ l, collect_prefix p (t_iter t) = Ok l ∧ listing o m l.
Proof.
  intros Hinj Hokq Hr. destruct (rep_iter kf okk okq decodes Hinj Hokq t m Hr) as (kvs & Hp & Hrows).
  eexists. split; [by apply collect_prefix_ok|]. unfold listing, rows_of.
  by rewrite (map_to_list_filter _ m kvs).
Qed.
End Scan.

(** ** The composite keys *)
Definition key2 (k : string * string) : string := k.1 +:+ NUL +:+ k.2.
Definition ok2 (k : string * string) : Prop := nul_free k.1 ∧ nul_free k.2.
Definition akey (k : string * Z * string) : string := audit_key k.1.1 k.1.2 k.2.
Definition oka (k : string * Z * string) : Prop := nul_free k.1.1 ∧ nul_free k.2 ∧ u64 k.1.2.
Definition ckey (k : string * string * string) : string := cursor_key k.1.1 k.1.2 k.2.
Definition okc (k : string * string * string) : Prop := nul_free k.1.1 ∧ nul_free k.1.2.
Definition any {A} (_ : A) : Prop := True.

Lemma id_inj (i j : string) : any i → any j → id i = id j → i = j.
Proof. done. Qed.

Lemma key2_inj i j : ok2 i → any j → key2 i = key2 j → i = j.
Proof.
  destruct i as [o a], j as [o' a']. unfold key2. simpl. intros [??] _ E.
  by destruct (nul_split_1 o a o' a' ltac:(done) ltac:(done) E) as [-> ->].
Qed.

Lemma ckey_inj i j : okc i → okc j → ckey i = ckey j → i = j.
Proof.
  destruct i as [[o a] d], j as [[o' a'] d']. unfold ckey, cursor_key, okc. simpl.
  intros [??] [??] E. apply nul_split in E as [-> E]; [|done..].
  by apply nul_split in E as [-> ->].
Qed.

Lemma fmt_020_inj m n : u64 m → u64 n → fmt_020 m = fmt_020 n → m = n.
Proof.
  unfold u64, fmt_020. intros ?? E. apply (radix_fixed_inj 10) with (w := 20%nat) in E; lia.
Qed.

Lemma fmt_020_lt m n : u64 m → u64 n → m < n → str_lt (fmt_020 m) (fmt_020 n).
Proof. unfold u64, fmt_020. intros ???. apply radix_fixed_lt; lia. Qed.

Lemma fmt_020_nul_free n : nul_free (fmt_020 n).
Proof. apply radix_fixed_nul_free. lia. Qed.
#[export] Hint Resolve fmt_020_nul_free : gw_str.

Lemma akey_inj i j : oka i → oka j → akey i = akey j → i = j.
Proof.
  destruct i as [[o t] a], j as [[o' t'] a']. unfold akey, audit_key, oka. cbn [fst snd].
  intros (?&?&?) (?&?&?) E. apply nul_split in E as [-> E]; [|done..].
  apply nul_split in E as [E ->]; [|auto with gw_str..]. by apply fmt_020_inj in E as ->.
Qed.

(** Within an organization audit keys are in time order. *)
Lemma akey_lt o i j : oka i → oka j → org_of i = o → org_of j = o →
  i.1.2 < j.1.2 → str_lt (akey i) (akey j).
Proof.
  destruct i as [[oi ti] a], j as [[oj tj] b]. unfold oka, org_of, org_key_audit. simpl.
  intros (?&?&?) (?&?&?) -> -> Hlt. unfold akey, audit_key. cbn [fst snd].
  rewrite !str_lt_app. apply str_lt_suffix.
  - unfold fmt_020. by rewrite !radix_fixed_length.
  - by apply fmt_020_lt.
Qed.

Lemma org_prefix o x r :
  nul_free x → (nul_free o ∨ nul_free r) →
  starts_with (x +:+ NUL +:+ r) (o +:+ NUL) = true ↔ x = o.
Proof.
  intros Hx Ho. rewrite starts_with_iff. split.
  - intros [r' E]. rewrite str_app_assoc in E.
    destruct Ho; [apply nul_split in E|apply nul_split_1 in E]; naive_solver.
  - intros ->. exists r. by rewrite str_app_assoc.
Qed.

Lemma key2_prefix o i : ok2 i → starts_with (key2 i) (o +:+ NUL) = true ↔ org_of i = o.
Proof. intros [??]. apply org_prefix; auto. Qed.
Lemma akey_prefix o i :
  nul_free o → oka i → starts_with (akey i) (o +:+ NUL) = true ↔ org_of i = o.
Proof. intros ? (?&?&?). apply org_prefix; auto. Qed.
Lemma ckey_prefix o i :
  nul_free o → okc i → starts_with (ckey i) (o +:+ NUL) = true ↔ org_of i = o.
Proof. intros ? (?&?). apply org_prefix; auto. Qed.

(** ** The audit scan *)
Lemma StronglySorted_reverse {A} (R : relation A) l :
  StronglySorted R l → StronglySorted (flip R) (reverse l).
Proof.
  intros Hs. induction Hs as [|x l _ IH Hx]; [constructor|]. rewrite reverse_cons.
  apply StronglySorted_app_2; [|done|repeat constructor].
  intros y z Hy Hz%list_elem_of_singleton. subst z. rewrite Forall_forall in Hx.
  apply Hx. by apply elem_of_reverse.
Qed.

Section Audit.
Context `{Serde EnrollmentAuditEntry} (o : string) (app : option string).
Hypothesis nul_free_o : nul_free o.
Abbreviation audit_row := (row_rep akey oka (decodes (A:=EnrollmentAuditEntry))).

Lemma audit_app_filter i e :
  org_of i = o →
  from_option (λ a, bool_decide (a_app_id e ≠ a)) false app
  = bool_decide (¬ audit_match o app (i, e)).
Proof.
  intros Ho. unfold audit_match. destruct app as [a|]; cbn.
  - apply bool_decide_ext. tauto.
  - symmetry. apply bool_decide_eq_false_2. tauto.
Qed.

Lemma audit_scan_ok limit rows kvs entries (n := Z.to_nat (Z.max 1 limit)) :
  Forall2 audit_row rows kvs → (length entries < n)%nat →
  audit_scan (o +:+ NUL) app limit rows entries
  = Ok (take n (entries ++ (filter (audit_match o app) kvs).*2)).
Proof.
  intros Hr. revert entries.
  induction Hr as [|[k b] [i e] rows kvs (E & Hd & Hi) _ IH]; intros entries Hl; simpl in *.
  { rewrite app_nil_r, take_ge by lia. done. }
  subst k. pose proof (akey_prefix o i nul_free_o Hi) as Hp.
  rewrite filter_cons, (deserialize_ok b e Hd).
  cbn [result_bind fst snd].
  destruct (starts_with (akey i) (o +:+ NUL)) eqn:Es; cbn [negb].
  2: { rewrite decide_False by (intros [Ho _]; apply Hp in Ho; congruence). by apply IH. }
  rewrite (audit_app_filter i e) by (by apply Hp).
  case_decide as Hm.
  - rewrite bool_decide_eq_false_2 by (intros Hn; by destruct Hn). cbn [fmap list_fmap snd].
    replace (entries ++ e :: (filter (audit_match o app) kvs).*2)
      with ((entries ++ [e]) ++ (filter (audit_match o app) kvs).*2) by (by rewrite <-app_assoc).
    assert (length (entries ++ [e]) = S (length entries)) as Hn by (rewrite length_app; simpl; lia).
    destruct (Z.leb_spec limit (Z.of_nat (length (entries ++ [e])))) as [Hge|Hlt].
    + rewrite take_app_le, take_ge by lia. done.
    + apply IH. lia.
  - rewrite bool_decide_eq_true_2 by done. by apply IH.
Qed.

Lemma audit_sorted rows kvs :
  Forall2 audit_row rows kvs → StronglySorted str_lt rows.*1 →
  StronglySorted (flip newer) (filter (audit_match o app) kvs).
Proof.
  intros Hr. induction Hr as [|[k b] [i e] rows kvs (E & _ & Hi) Hr IH]; simpl in *.
  { constructor. }
  subst k. intros [Hhd Hs]%StronglySorted_cons. rewrite filter_cons.
  case_decide as Hm; [|by apply IH]. constructor; [by apply IH|].
  apply Forall_forall. intros [j e'] [Hm' Hin]%list_elem_of_filter.
  destruct Hm as [Ho _], Hm' as [Ho' _]. simpl in *.
  apply list_elem_of_lookup in Hin as [m Hin].
  eapply Forall2_lookup_r in Hr as ([k b'] & Hrow & (E & _ & Hj)); [|done]. simpl in *. subst k.
  rewrite Forall_forall in Hhd.
  assert (str_lt (akey i) (akey j)) as Hlt.
  { apply Hhd. apply list_elem_of_lookup. exists m. by rewrite list_lookup_fmap, Hrow. }
  unfold newer. simpl. destruct (Z.le_gt_cases i.1.2 j.1.2) as [|Hgt]; [done|].
  pose proof (akey_lt o j i Hj Hi Ho' Ho ltac:(lia)).
  exfalso. apply (irreflexivity str_lt (akey i)). by etrans.
Qed.
End Audit.

(** ** The table operations under the composite keys *)
Section Keys.
Context `{RedbTableLaws T} {B V : Type} (dec : B → V → Prop).
Implicit Types (t : T B).

Lemma rep_insert_org t (m : gmap string V) o b v :
  table_rep id any dec t m → dec b v →
  table_rep id any dec (t_insert t o b) (<[o:=v]> m).
Proof. intros. by apply (rep_insert id any any dec id_inj (λ _ H, H)). Qed.

Lemma rep_get_org t (m : gmap string V) o :
  table_rep id any dec t m →
  match t_get t o with Some b => ∃ v, m !! o = Some v ∧ dec b v | None => m !! o = None end.
Proof. intros. by apply (rep_get id any any dec id_inj). Qed.

Lemma rep_present_org t (m : gmap string V) o :
  table_rep id any dec t m →
  bool_decide (is_Some (t_get t o)) = bool_decide (is_Some (m !! o)).
Proof. intros. by apply (rep_present id any any dec id_inj). Qed.

Lemma rep_remove_org t (m : gmap string V) o :
  table_rep id any dec t m → table_rep id any dec (t_remove t o) (delete o m).
Proof. intros. by apply (rep_remove id any any dec id_inj). Qed.

Lemma rep_insert2 t m o a b v :
  table_rep key2 ok2 dec t m → dec b v → nul_free o → nul_free a →
  table_rep key2 ok2 dec (t_insert t (o +:+ NUL +:+ a) b) (<[(o, a):=v]> m).
Proof. intros. by apply (rep_insert key2 ok2 any dec key2_inj (λ _ _, I) t m (o, a)). Qed.

Lemma rep_get2 t m o a :
  table_rep key2 ok2 dec t m →
  match t_get t (o +:+ NUL +:+ a) with
  | Some b => ∃ v, m !! (o, a) = Some v ∧ dec b v
  | None => m !! (o, a) = None
  end.
Proof. intros. by apply (rep_get key2 ok2 any dec key2_inj t m (o, a)). Qed.

Lemma rep_present2 t m o a :
  table_rep key2 ok2 dec t m →
  bool_decide (is_Some (t_get t (o +:+ NUL +:+ a))) = bool_decide (is_Some (m !! (o, a))).
Proof. intros. by apply (rep_present key2 ok2 any dec key2_inj t m (o, a)). Qed.

Lemma rep_remove2 t m o a :
  table_rep key2 ok2 dec t m →
  table_rep key2 ok2 dec (t_remove t (o +:+ NUL +:+ a)) (delete (o, a) m).
Proof. intros. by apply (rep_remove key2 ok2 any dec key2_inj t m (o, a)). Qed.

Lemma rep_insert_audit t m o ts a b v :
  table_rep akey oka dec t m → dec b v → nul_free o ∧ nul_free a ∧ u64 ts →
  table_rep akey oka dec (t_insert t (audit_key o ts a) b) (<[(o, ts, a):=v]> m).
Proof. intros. by apply (rep_insert akey oka oka dec akey_inj (λ _ H, H) t m (o, ts, a)). Qed.

Lemma rep_insert_cursor t m o a d b v :
  table_rep ckey okc dec t m → dec b v → nul_free o ∧ nul_free a →
  table_rep ckey okc dec (t_insert t (cursor_key o a d) b) (<[(o, a, d):=v]> m).
Proof. intros. by apply (rep_insert ckey okc okc dec ckey_inj (λ _ H, H) t m (o, a, d)). Qed.

(** Tables whose values are stored as they are *)
Lemma rep_get_eq `{Countable K} kf (okk okq : K → Prop) t (m : gmap K B) i :
  (∀ i j, okk i → okq j → kf i = kf j → i = j) →
  table_rep kf okk eq t m → okq i → t_get t (kf i) = m !! i.
Proof.
  intros Hinj Hr Hi. pose proof (rep_get kf okk okq eq Hinj t m i Hr Hi) as Hg.
  destruct (t_get t (kf i)); [|done]. by destruct Hg as (v & -> & ->).
Qed.
End Keys.
#[export] Hint Resolve rep_insert_org rep_remove_org rep_insert2 rep_remove2
  rep_insert_audit rep_insert_cursor rep_present2 rep_present_org : gw_rep.

(** ** The refinement *)
Section Refinement.
Context `{RedbTableLaws T}.
Context `{SerdeLaws Organization} `{SerdeLaws FormationConfig} `{SerdeLaws EnrollmentToken}
  `{SerdeLaws CdcSinkConfig} `{SerdeLaws IdpConfig} `{SerdeLaws PolicyRule}
  `{SerdeLaws EnrollmentAuditEntry}.

(** The nine tables hold the nine maps. *)
Record tables_rep (ts : tables T) (m : db) : Prop := {
  tr_orgs : table_rep id any decodes (open_table ts ORGS_TABLE) (d_orgs m);
  tr_formations : table_rep key2 ok2 decodes (open_table ts FORMATIONS_TABLE) (d_formations m);
  tr_tokens : table_rep key2 ok2 decodes (open_table ts TOKENS_TABLE) (d_tokens m);
  tr_sinks : table_rep key2 ok2 decodes (open_table ts SINKS_TABLE) (d_sinks m);
  tr_idps : table_rep key2 ok2 decodes (open_table ts IDPS_TABLE) (d_idps m);
  tr_rules : table_rep key2 ok2 decodes (open_table ts POLICY_RULES_TABLE) (d_rules m);
  tr_audit : table_rep akey oka decodes (open_table ts AUDIT_TABLE) (d_audit m);
  tr_genesis : table_rep key2 ok2 eq (open_table ts GENESIS_TABLE) (d_genesis m);
  tr_cursors : table_rep ckey okc eq (CURSORS_TABLE ts) (d_cursors m);
}.
Definition redb_rep (s : Database T) (m : db) : Prop := tables_rep (db_tables s) m.

Lemma redb_rep_open faults : redb_rep (open faults) db_empty.
Proof. constructor; apply rep_empty. Qed.

(** What a method's contract asks of its outcome. *)
Definition outcome {A} (Q : A → db → Prop) (m : db) (out : Result A * Database T) : Prop :=
  match out.1 with
  | Ok x => ∃ m', Q x m' ∧ redb_rep out.2 m'
  | Err _ => redb_rep out.2 m
  end.

Lemma begin_write_outcome {A} (Q : A → db → Prop) m body s :
  redb_rep s m →
  (∀ a ts, body (db_tables s) = (Ok a, ts) → ∃ m', Q a m' ∧ tables_rep ts m') →
  outcome Q m (begin_write body s).
Proof.
  intros Hr Hb. unfold begin_write, outcome.
  destruct (head (db_faults s)) as [[e|]|]; [done|..];
    (destruct (body (db_tables s)) as [[a|e] ts] eqn:E; simpl; [eauto|done]).
Qed.

Lemma insert_row_outcome {A} `{SerdeLaws A} (Q : unit → db → Prop) d key (x : A) m s :
  redb_rep s m →
  (∀ b, decodes b x →
    ∃ m', Q tt m' ∧
    tables_rep (put_table d (t_insert (open_table (db_tables s) d) key b) (db_tables s)) m') →
  outcome Q m (insert_row d key (serialize x) s).
Proof.
  intros Hr Hb. unfold insert_row. destruct (serialize_ok x) as (b & -> & Hd).
  apply begin_write_outcome; [done|]. intros [] ts [= <-]. by apply Hb.
Qed.

Lemma remove_row_outcome (Q : bool → db → Prop) d key m s :
  redb_rep s m →
  (∃ m', Q (bool_decide (is_Some (t_get (open_table (db_tables s) d) key))) m' ∧
    tables_rep (put_table d (t_remove (open_table (db_tables s) d) key) (db_tables s)) m') →
  outcome Q m (remove_row d key s).
Proof.
  intros Hr Hb. apply begin_write_outcome; [done|]. by intros a ts [= <- <-].
Qed.

(** A read leaves the content alone. *)
Lemma begin_read_outcome {A} (P : A → Prop) m body s :
  redb_rep s m → (∀ a, body (db_tables s) = Ok a → P a) →
  outcome (λ a m', P a ∧ m' = m) m (begin_read body s).
Proof.
  intros Hr Hb. apply begin_write_outcome; [done|]. intros a ts [= E <-]. eauto.
Qed.

Lemma get_row_outcome {A} `{Serde A} d key (mv : option A) m s :
  redb_rep s m →
  match t_get (open_table (db_tables s) d) key with
  | Some b => ∃ v, mv = Some v ∧ decodes b v
  | None => mv = None
  end →
  outcome (λ r m', r = mv ∧ m' = m) m (get_row d key s).
Proof.
  intros Hr Hg. apply begin_read_outcome; [done|]. intros a.
  destruct (t_get _ key) as [b|]; [|subst mv; by intros [= <-]].
  destruct Hg as (v & -> & Hd). rewrite (deserialize_ok b v Hd). by intros [= <-].
Qed.

Lemma scan_row_outcome {A} `{Serde A} d p (P : list A → Prop) m s :
  redb_rep s m →
  (∃ l, collect_prefix p (t_iter (open_table (db_tables s) d)) = Ok l ∧ P l) →
  outcome (λ r m', P r ∧ m' = m) m (scan_rows d p s).
Proof.
  intros Hr (l & E & HP). apply begin_read_outcome; [done|]. intros a. rewrite E.
  by intros [= <-].
Qed.

Lemma get_row_outcome2 {A} `{Serde A} (d : table_def) (o a : string) (mm : gmap (string * string) A) m s :
  redb_rep s m → table_rep key2 ok2 decodes (open_table (db_tables s) d) mm →
  outcome (λ r m', r = mm !! (o, a) ∧ m' = m) m (get_row d (o +:+ NUL +:+ a) s).
Proof. intros Hr Ht. apply get_row_outcome; [done|]. by apply rep_get2. Qed.

Lemma scan_row_outcome2 {A} `{Serde A} (d : table_def) (o : string) (mm : gmap (string * string) A) m s :
  redb_rep s m → table_rep key2 ok2 decodes (open_table (db_tables s) d) mm →
  outcome (λ r m', listing o mm r ∧ m' = m) m (scan_rows d (o +:+ NUL) s).
Proof.
  intros Hr Ht. apply scan_row_outcome; [done|].
  by apply (rep_scan key2 ok2 _ o (key2_prefix o) any) with (m := mm) in Ht; [|apply key2_inj|].
Qed.

(** One changed table; the other eight are as before. *)
Local Ltac one_table Hr := destruct Hr; constructor; simpl; try assumption; eauto with gw_rep.
Local Ltac insert_op Hr :=
  apply insert_row_outcome; [exact Hr|]; intros b Hb; eexists; split; [first [done|by left]|];
  one_table Hr.
Local Ltac remove_op Hr :=
  apply remove_row_outcome; [exact Hr|]; eexists; split;
  [split; [destruct Hr; eauto with gw_rep|reflexivity]|one_table Hr].

(** [delete_org]: one prefix deletion in each of eight tables. *)
Lemma delete_org_outcome o m s :
  redb_rep s m → nul_free o → outcome (spec (DeleteOrg o) m) m (delete_org o s).
Proof.
  intros Hr Ho. apply begin_write_outcome; [done|]. intros a ts [= <- <-].
  eexists. split; [split; [|reflexivity]|].
  - destruct Hr. eauto with gw_rep.
  - destruct Hr; constructor; simpl; eauto with gw_rep;
      (apply rep_remove_prefixed; [|done]; intros i Hi;
       first [by apply key2_prefix|by apply akey_prefix|by apply ckey_prefix]).
Qed.

Lemma list_tokens_outcome o a m s :
  redb_rep s m → outcome (spec (ListTokens o a) m) m (list_tokens o a s).
Proof.
  intros Hr. unfold list_tokens. apply begin_read_outcome; [done|]. intros l.
  destruct (rep_scan key2 ok2 (o +:+ NUL) o (key2_prefix o) any _ (d_tokens m) key2_inj
              (λ _ _, I) (tr_tokens _ _ Hr)) as (l' & E & Hl).
  unfold token_prefix. rewrite E. intros [= <-]. eauto.
Qed.

Lemma list_orgs_outcome m s :
  redb_rep s m → outcome (spec ListOrgs m) m (list_orgs s).
Proof.
  intros Hr. apply scan_row_outcome; [done|].
  destruct (rep_iter id any any decodes id_inj (λ _ H, H) _ _ (tr_orgs _ _ Hr))
    as (kvs & Hp & Hrows).
  exists kvs.*2. split; [|by rewrite Hp]. clear Hp.
  induction Hrows as [|[k b] [i a] rows kvs (E & Hd & _) _ IH]; simpl in *; [done|].
  assert (starts_with k EmptyString = true) as -> by (apply starts_with_iff; by exists k).
  by rewrite (deserialize_ok b a Hd), IH.
Qed.

Lemma list_audit_outcome o app limit m s :
  redb_rep s m → nul_free o → u64 limit →
  outcome (spec (ListAudit o app limit) m) m (list_audit o app limit s).
Proof.
  intros Hr Ho [Hlim _]. apply begin_read_outcome; [done|]. intros l.
  destruct (rep_iter akey oka oka decodes akey_inj (λ _ H, H) _ _ (tr_audit _ _ Hr))
    as (kvs & Hp & Hrows).
  rewrite (audit_scan_ok o app Ho limit _ (reverse kvs) []);
    [|by apply Forall2_reverse|simpl; lia].
  intros [= <-]. exists (filter (audit_match o app) (reverse kvs)). split; [split|].
  - apply map_to_list_filter. by rewrite reverse_Permutation.
  - intros _. rewrite filter_reverse. apply (StronglySorted_reverse (flip newer)).
    eapply audit_sorted; [done|apply t_iter_sorted].
  - simpl. rewrite <-fmap_take. destruct (decide (limit = 0)) as [->|]; [by right|left].
    by rewrite Z.max_r by lia.
Qed.

Lemma get_genesis_outcome o a m s :
  redb_rep s m → outcome (spec (GetGenesis o a) m) m (get_genesis o a s).
Proof.
  intros Hr. apply begin_read_outcome; [done|]. intros r [= <-].
  apply (rep_get_eq key2 ok2 any _ _ (o, a) key2_inj (tr_genesis _ _ Hr) I).
Qed.

Lemma get_cursor_outcome o a d m s :
  redb_rep s m → nul_free o ∧ nul_free a →
  outcome (spec (GetCursor o a d) m) m (get_cursor o a d s).
Proof.
  intros Hr Ho. apply begin_read_outcome; [done|]. intros r [= <-].
  apply (rep_get_eq ckey okc okc _ _ (o, a, d) ckey_inj (tr_cursors _ _ Hr) Ho).
Qed.

Lemma set_cursor_outcome o a d h m s :
  redb_rep s m → nul_free o ∧ nul_free a →
  outcome (spec (SetCursor o a d h) m) m (set_cursor o a d h s).
Proof.
  intros Hr Ho. apply begin_write_outcome; [done|]. intros [] ts [= <-].
  eexists. split; [done|]. one_table Hr.
Qed.

Lemma store_genesis_outcome o a b m s :
  redb_rep s m → nul_free o ∧ nul_free a →
  outcome (spec (StoreGenesis o a b) m) m (store_genesis o a b s).
Proof.
  intros Hr [??]. apply begin_write_outcome; [done|]. intros [] ts [= <-].
  eexists. split; [done|]. one_table Hr.
Qed.

Lemma redb_outcome {R} (op : StoreOp R) m s :
  redb_rep s m → op_ok op → outcome (spec op m) m (handle op s).
Proof.
  intros Hr Ho. destruct op; simpl in Ho; destruct_and?;
    try (insert_op Hr; fail); try (remove_op Hr; fail);
    try (apply get_row_outcome2; [done|apply Hr]);
    try (apply scan_row_outcome2; [done|apply Hr]).
  - apply get_row_outcome; [done|]. by apply rep_get_org, Hr.
  - by apply list_orgs_outcome.
  - by apply delete_org_outcome.
  - by apply list_tokens_outcome.
  - by apply list_audit_outcome.
  - by apply store_genesis_outcome.
  - by apply get_genesis_outcome.
  - by apply get_cursor_outcome.
  - by apply set_cursor_outcome.
Qed.

(** C3: A method of the redb backend answers and changes the tables as its
    contract says; one that fails leaves the content alone; a new file holds nothing.
    *)
Theorem redb_refines_spec {R} (op : StoreOp R) s m :
  (redb_rep s m → op_ok op →
   let (r, s') := handle op s in
   match r with
   | Ok x => ∃ m', spec op m x m' ∧ redb_rep s' m'
   | Err _ => redb_rep s' m
   end) ∧
  ∀ faults, redb_rep (open faults) db_empty.
Proof.
  split; [|apply redb_rep_open]. intros Hr Ho. pose proof (redb_outcome op m s Hr Ho) as Hout.
  by destruct (handle op s) as [[x|e] s'].
Qed.

Lemma redb_storage_spec : StorageSpec (Database T) redb_rep.
Proof.
  intros R op s m r s' Hr Ho E. pose proof (redb_outcome op m s Hr Ho) as Hout.
  by rewrite E in Hout.
Qed.
End Refinement.
