(* ===== verification/Wp.v ===== *)
(** Reasoning about programs against the storage contract.

    [wp fl p Q w] holds when every execution of [p] from the world [w] whose
    store follows [spec] ends in an answer and a world satisfying [Q].  The
    store of [w] is the abstract database; the clock, the random bytes and the
    network answers are those of the oracle.  With [fl = true] any storage call
    may also fail and leave the content alone; with [fl = false] storage is
    reliable.  [wp_adequate] carries a [wp] to the executions against every backend
    that implements the contract, the redb one among them. *)
From S2P Require Import Prelude Text Extern Models Errors Effects Spec.
From Stdlib Require Import ZArith.

#[local] Open Scope Z_scope.

(** The effects other than storage. *)
Definition exec_env {S X} (o : oracle) (e : eff X) : world S → option (X * world S) :=
  match e in eff X return world S → option (X * world S) with
  | Store _ => λ _, None
  | SystemTime => λ w, Some (o_clock o (w_tick w), ticked w)
  | OsRng n => λ w, Some (rng_bytes o (w_rpos w) n, drawn n w)
  | Net rq => λ w, Some (o_net o (w_sent w) rq, sent o rq w)
  | Sleep ms => λ w, Some (tt, slept ms w)
  end.

Section Wp.
Context (o : oracle) (fl : bool).

Definition wp_store {R} (op : StoreOp R) (Q : Result R → world db → Prop) (w : world db) : Prop :=
  op_ok op ∧
  (∀ r m', spec op (w_store w) r m' → Q (Ok r) (set_store m' w)) ∧
  (fl = true → ∀ e, Q (Err e) w).

Definition wp_eff {X} (e : eff X) : (X → world db → Prop) → world db → Prop :=
  match e in eff X return (X → world db → Prop) → world db → Prop with
  | Store op => wp_store op
  | SystemTime => λ Q w, from_option (λ xw, Q xw.1 xw.2) True (exec_env o SystemTime w)
  | OsRng n => λ Q w, from_option (λ xw, Q xw.1 xw.2) True (exec_env o (OsRng n) w)
  | Net rq => λ Q w, from_option (λ xw, Q xw.1 xw.2) True (exec_env o (Net rq) w)
  | Sleep ms => λ Q w, from_option (λ xw, Q xw.1 xw.2) True (exec_env o (Sleep ms) w)
  end.

Fixpoint wp {A} (p : prog A) (Q : A → world db → Prop) (w : world db) : Prop :=
  match p with
  | Ret a => Q a w
  | Do e k => wp_eff e (λ x w, wp (k x) Q w) w
  end.

(** *** Structural rules *)
Lemma wp_eff_mono {X} (e : eff X) (Q Q' : X → world db → Prop) w :
  (∀ x w, Q x w → Q' x w) → wp_eff e Q w → wp_eff e Q' w.
Proof. intros HQ. destruct e; simpl; auto. unfold wp_store. naive_solver. Qed.

Lemma wp_mono {A} (p : prog A) (Q Q' : A → world db → Prop) w :
  wp p Q w → (∀ a w, Q a w → Q' a w) → wp p Q' w.
Proof.
  intros Hp HQ. revert w Hp; induction p as [a|X e k IH]; intros w; simpl; [auto|].
  apply wp_eff_mono. eauto.
Qed.

Lemma wp_and {A} (p : prog A) (Q Q' : A → world db → Prop) w :
  wp p Q w → wp p Q' w → wp p (λ a w', Q a w' ∧ Q' a w') w.
Proof.
  revert w; induction p as [a|X e k IH]; intros w; simpl; [done|].
  destruct e; simpl; auto. unfold wp_store. intros (?&?&?) (?&?&?). split_and!; eauto.
Qed.

Lemma wp_pbind {A B} (p : prog A) (f : A → prog B) Q w :
  wp (pbind p f) Q w ↔ wp p (λ a w, wp (f a) Q w) w.
Proof.
  revert w; induction p as [a|X e k IH]; intros w; simpl; [done|].
  split; apply wp_eff_mono; intros x w'; by rewrite IH.
Qed.

Lemma wp_mbind {E A B} (c : prog (result E A)) (f : A → prog (result E B)) Q w :
  wp (mbind c f) Q w ↔
  wp c (λ r w, match r with Ok a => wp (f a) Q w | Err e => Q (Err e) w end) w.
Proof.
  unfold mbind. rewrite wp_pbind.
  split; intros Hp; eapply wp_mono; [exact Hp| |exact Hp|]; by intros [].
Qed.

Lemma wp_bind_intro {E A B} (c : prog (result E A)) (f : A → prog (result E B)) R Q w :
  wp c R w →
  (∀ a w, R (Ok a) w → wp (f a) Q w) → (∀ e w, R (Err e) w → Q (Err e) w) →
  wp (mbind c f) Q w.
Proof.
  intros Hc Hok Herr. apply wp_mbind. eapply wp_mono; [exact Hc|]. intros [a|e] w'; auto.
Qed.

Lemma wp_call {R} (op : StoreOp R) Q w :
  op_ok op →
  (∀ r m', spec op (w_store w) r m' → Q (Ok r) (set_store m' w)) →
  (fl = true → ∀ e, Q (Err e) w) → wp (call op) Q w.
Proof. simpl. unfold wp_store. eauto. Qed.

(** *** The basic programs *)
Lemma wrap_u64_u64 z : u64 (wrap_u64 z).
Proof. unfold u64, wrap_u64. apply Z.mod_pos_bound. lia. Qed.
Lemma wp_ret {A} (a : A) Q w : Q a w → wp (Ret a) Q w.
Proof. done. Qed.
Lemma wp_now_ms Q w :
  Q (wrap_u64 (o_clock o (w_tick w))) (ticked w) → wp now_ms Q w.
Proof. done. Qed.
Lemma wp_random_bytes n Q w :
  Q (rng_bytes o (w_rpos w) n) (drawn n w) → wp (random_bytes n) Q w.
Proof. done. Qed.
Lemma wp_net rq Q w :
  Q (o_net o (w_sent w) rq) (sent o rq w) → wp (perform (Net rq)) Q w.
Proof. done. Qed.
Lemma wp_sleep ms Q w : Q tt (slept ms w) → wp (perform (Sleep ms)) Q w.
Proof. done. Qed.
End Wp.

(** Clock readings are used up in order. *)
Lemma wp_tick {A} o fl (p : prog A) Q w :
  wp o fl p Q w → wp o fl p (λ a w', Q a w' ∧ (w_tick w ≤ w_tick w')%nat) w.
Proof.
  revert w; induction p as [a|X e k IH]; intros w; simpl; [auto|].
  assert (∀ x w1, (w_tick w ≤ w_tick w1)%nat → wp o fl (k x) Q w1 →
    wp o fl (k x) (λ a w', Q a w' ∧ (w_tick w ≤ w_tick w')%nat) w1) as Hk.
  { intros x w1 Hle Hp. eapply wp_mono; [by apply IH|]. intros a w' [??]. split; [done|lia]. }
  destruct e; cbn [wp_eff exec_env from_option]; try (apply Hk; cbn; lia).
  unfold wp_store. intros (?&?&?). split_and!; [done|..]; intros; apply Hk; auto.
Qed.

(** ** Executions satisfy [wp] *)
Class Reliable (S : Type) `{Backend S} (rep : S → db → Prop) : Prop :=
  handle_ok : ∀ {R} (op : StoreOp R) s m, rep s m → op_ok op → is_ok (handle op s).1 = true.

Section Adequacy.
Context `{StorageSpec St rep} (o : oracle).

Lemma exec_env_exec {X} (e : eff X) (w : world St) xw :
  exec_env o e w = Some xw → exec o e w = xw.
Proof. destruct e; simpl; congruence. Qed.

Lemma exec_env_set_store {X S'} (e : eff X) (w : world St) (s : S') x w' :
  exec_env o e w = Some (x, w') → exec_env o e (set_store s w) = Some (x, set_store s w').
Proof. destruct e; simpl; by intros [= <- <-]. Qed.

(** An execution against a backend, from a store that represents [m]. *)
Lemma wp_adequate {A} fl (p : prog A) Q w m :
  (fl = false → Reliable St rep) →
  rep (w_store w) m → wp o fl p Q (set_store m w) →
  ∃ m', rep (w_store (run o p w).2) m' ∧
        Q (run o p w).1 (set_store m' (run o p w).2).
Proof.
  intros Hrel. revert w m; induction p as [a|X e k IH]; intros w m Hr Hp; simpl in *.
  { eauto. }
  destruct (exec o e w) as [x w'] eqn:E.
  destruct e as [R op| |n|rq|ms]; simpl in *;
    try (injection E as <- <-; eapply IH; [exact Hr|exact Hp]).
  destruct Hp as (Hok & Hspec & Herr).
  destruct (handle op (w_store w)) as [r s'] eqn:Eh. injection E as <- <-.
  pose proof (handle_spec op (w_store w) m r s' Hr Hok Eh) as Hs.
  destruct r as [r|err].
  - destruct Hs as (m' & Hm' & Hr'). eapply (IH (Ok r)); [exact Hr'|]. by apply Hspec.
  - eapply (IH (Err err)); [exact Hs|]. apply Herr. destruct fl; [done|].
    pose proof (Hrel eq_refl R op (w_store w) m Hr Hok) as Hcontra. by rewrite Eh in Hcontra.
Qed.
End Adequacy.

(** ** Programs that leave storage alone *)
Definition eff_no_store {X} (e : eff X) : Prop :=
  match e with Store _ => False | _ => True end.

Fixpoint no_store {A} (p : prog A) : Prop :=
  match p with
  | Ret _ => True
  | Do e k => eff_no_store e ∧ ∀ x, no_store (k x)
  end.

Lemma no_store_pbind {A B} (p : prog A) (f : A → prog B) :
  no_store p → (∀ a, no_store (f a)) → no_store (pbind p f).
Proof. intros Hp Hf. induction p as [a|X e k IH]; simpl in *; naive_solver. Qed.

Lemma no_store_mbind {E A B} (c : prog (result E A)) (f : A → prog (result E B)) :
  no_store c → (∀ a, no_store (f a)) → no_store (mbind c f).
Proof. intros Hc Hf. apply no_store_pbind; [done|]. by intros []. Qed.

Lemma wp_no_store {A} o fl (p : prog A) Q w :
  no_store p → (∀ a w', w_store w' = w_store w → Q a w') → wp o fl p Q w.
Proof.
  intros Hp HQ. revert w HQ; induction p as [a|X e k IH]; intros w HQ; simpl in *.
  { by apply HQ. }
  destruct Hp as [He Hk]. destruct e; simpl in *; [done|..]; by apply IH.
Qed.

Lemma wp_no_store_and {A} o fl (p : prog A) Q w :
  no_store p → wp o fl p Q w → wp o fl p (λ a w', Q a w' ∧ w_store w' = w_store w) w.
Proof.
  revert w; induction p as [a|X e k IH]; intros w Hp Hw; simpl in *; [done|].
  destruct Hp as [He Hk]. destruct e; simpl in *; [done|..];
    (eapply wp_mono; [by apply IH|]); cbn; by intros ? ? [? ->].
Qed.

Lemma wp_no_store_fl {A} o fl fl' (p : prog A) Q w :
  no_store p → wp o fl p Q w → wp o fl' p Q w.
Proof.
  revert w; induction p as [a|X e k IH]; intros w Hp Hw; simpl in *; [done|].
  destruct Hp as [He Hk]. destruct e; simpl in *; [done|..]; by apply IH.
Qed.

(** Such a program does in [wp] what it does when run on the content itself. *)
Lemma wp_no_store_run `{Backend db} {A} o fl (p : prog A) w :
  no_store p → wp o fl p (λ r _, r = (run o p w).1) w.
Proof.
  revert w; induction p as [a|X e k IH]; intros w Hp; simpl in *; [done|].
  destruct Hp as [He Hk]. destruct e; simpl in *; [done|..]; by apply IH.
Qed.
