(* ===== verification/Sql.v ===== *)
(** The SQL of storage/postgres.rs, and the server that runs it.

    [statement] has one constructor for each form of SQL statement the backend
    sends, and [sql] prints it.  The server is a parameter ([PgServer]): its
    state, of any type, and what it answers to a statement.  [PgLaws] is what the
    PostgreSQL manual says of these statements: each is one transaction, a failed
    one changes nothing, a primary key is unique, a foreign key has its row, and a
    deletion cascades.  Nothing is said about which statements succeed.
    [PgConcrete.v] gives a server with these laws. *)
From S2P Require Import Prelude Text Extern.
From Stdlib Require Import ZArith.

#[local] Open Scope Z_scope.

(** ** Values and rows *)
Inductive sql_type := TEXT | JSONB | BYTEA | BIGINT.
#[export] Instance sql_type_eqdec : EqDecision sql_type.
Proof. solve_decision. Defined.

Inductive sql_value : Type :=
| VText (s : string)
| VJson (v : Value)
| VBytes (b : bytes)
| VInt (z : Z).

(** A row: the values of its columns. *)
Abbreviation row := (gmap string sql_value).
(** The rows of a table, each under the texts of its primary key. *)
Abbreviation rows := (gmap (list string) row).

Definition column_text (r : row) (column : string) : option string :=
  match r !! column with Some (VText s) => Some s | _ => None end.

(** ** Schemas and statements *)
(** [FOREIGN KEY (column) REFERENCES table(key) ON DELETE CASCADE] *)
Record foreign_key := { fk_column : string; fk_table : string; fk_key : string }.

Record table_schema := {
  columns : list (string * sql_type);
  primary_key : list string;
  foreign_key_of : option foreign_key;
}.

(** The parameters are numbered from left to right in INSERT and SELECT; in UPDATE
    those of the condition come first. *)
Inductive statement : Type :=
| CREATE_TABLE (table : string) (s : table_schema)
| INSERT (table : string) (cols : list string)
| UPSERT (table : string) (cols key : list string) (set : string)
| SELECT (column table : string) (cond : list string) (order_by : option (string * bool))
    (limit : bool)
| UPDATE (table set : string) (cond : list string)
| DELETE (table : string) (cond : list string).

(** ** The text of a statement, with single spaces *)
Fixpoint sep (c : string) (xs : list string) : string :=
  match xs with
  | [] => EmptyString
  | [x] => x
  | x :: xs => x +:+ c +:+ sep c xs
  end.
Definition commas (xs : list string) : string := sep ", " xs.
Definition param (n : nat) : string := "$" +:+ fmt_dec (Z.of_nat n).
Definition params (from n : nat) : list string := param <$> seq from n.

Definition type_sql (t : sql_type) : string :=
  match t with TEXT => "TEXT" | JSONB => "JSONB" | BYTEA => "BYTEA" | BIGINT => "BIGINT" end.
(** The key of a table with one key column is declared in the column. *)
Definition column_sql (single_key : bool) (c : string * sql_type) : string :=
  c.1 +:+ " " +:+ type_sql c.2 +:+
  if single_key && bool_decide (c.2 = TEXT) then " PRIMARY KEY" else " NOT NULL".
Definition foreign_key_sql (f : foreign_key) : string :=
  "FOREIGN KEY (" +:+ fk_column f +:+ ") REFERENCES " +:+ fk_table f +:+ "(" +:+ fk_key f +:+
  ") ON DELETE CASCADE".
Definition schema_sql (s : table_schema) : string :=
  let single := bool_decide (length (primary_key s) = 1%nat) in
  commas ((column_sql single <$> columns s) ++
    (if single then [] else ["PRIMARY KEY (" +:+ commas (primary_key s) +:+ ")"]) ++
    option_list (foreign_key_sql <$> foreign_key_of s)).

Definition cond_sql (cond : list string) : string :=
  match cond with
  | [] => EmptyString
  | _ => " WHERE " +:+
      sep " AND " (zip_with (λ c p, c +:+ " = " +:+ p) cond (params 1 (length cond)))
  end.
Definition insert_sql (table : string) (cols : list string) : string :=
  "INSERT INTO " +:+ table +:+ " (" +:+ commas cols +:+ ") VALUES (" +:+
  commas (params 1 (length cols)) +:+ ")".

Definition sql (s : statement) : string :=
  match s with
  | CREATE_TABLE t s => "CREATE TABLE IF NOT EXISTS " +:+ t +:+ " ( " +:+ schema_sql s +:+ " )"
  | INSERT t cols => insert_sql t cols
  | UPSERT t cols key set =>
      insert_sql t cols +:+ " ON CONFLICT (" +:+ commas key +:+ ") DO UPDATE SET " +:+
      set +:+ " = EXCLUDED." +:+ set
  | SELECT c t cond order limit =>
      "SELECT " +:+ c +:+ " FROM " +:+ t +:+ cond_sql cond +:+
      match order with
      | Some (o, desc) => " ORDER BY " +:+ o +:+ if (desc : bool) then " DESC" else EmptyString
      | None => EmptyString
      end +:+
      if limit then " LIMIT " +:+ param (S (length cond)) else EmptyString
  | UPDATE t set cond =>
      "UPDATE " +:+ t +:+ " SET " +:+ set +:+ " = " +:+ param (S (length cond)) +:+ cond_sql cond
  | DELETE t cond => "DELETE FROM " +:+ t +:+ cond_sql cond
  end.

(** Text with its white space made single spaces, for texts that span lines. *)
Definition is_blank (c : Ascii.ascii) : bool := (code c =? 32) || (code c =? 10).
Fixpoint squeeze (blank : bool) (s : string) : string :=
  match s with
  | EmptyString => EmptyString
  | String c s =>
      if is_blank c then (if blank then squeeze true s else String (Ascii.ascii_of_nat 32) (squeeze true s))
      else String c (squeeze false s)
  end.

(** ** What a statement selects *)
(** [WHERE c1 = $1 AND ...]; the conditions are on text columns. *)
Fixpoint matches (cond ws : list string) (r : row) : bool :=
  match cond, ws with
  | [], [] => true
  | c :: cond, w :: ws => bool_decide (column_text r c = Some w) && matches cond ws r
  | _, _ => false
  end.

Definition key_of (pk : list string) (r : row) : option (list string) := mapM (column_text r) pk.

(** The row an INSERT makes; a JSONB column keeps [jsonb v] of a document [v]. *)
Definition stored (jsonb : Value → Value) (v : sql_value) : sql_value :=
  match v with VJson v => VJson (jsonb v) | _ => v end.
Definition new_row (jsonb : Value → Value) (cols : list string) (vs : list sql_value) : row :=
  list_to_map (zip cols (stored jsonb <$> vs)).

(** The order [ORDER BY column] puts integers in; that of texts depends on the
    database's collation. *)
Definition by_column (order : string * bool) (x y : row) : Prop :=
  ∀ a b, x !! order.1 = Some (VInt a) → y !! order.1 = Some (VInt b) →
    if order.2 then b ≤ a else a ≤ b.

(** ** The server *)
Inductive reply : Type :=
| Affected (n : Z)
| Selected (vs : list sql_value).

Class PgServer (Db : Type) := {
  pg_run : statement → list sql_value → Db → result string reply * Db;
  (** the form in which a JSONB column keeps a document *)
  pg_jsonb : Value → Value;
  (** the tables that exist, and their rows *)
  pg_schema : Db → string → option table_schema;
  pg_rows : Db → string → rows;
}.

Section Laws.
Context {Db : Type} `{PgServer Db}.

Definition unchanged (c c' : Db) : Prop :=
  ∀ t, pg_schema c' t = pg_schema c t ∧ pg_rows c' t = pg_rows c t.
(** The schemas are as before, and so are the rows of every table but [t]. *)
Definition changes_rows (t : string) (f : rows → rows) (c c' : Db) : Prop :=
  ∀ t', pg_schema c' t' = pg_schema c t' ∧
        pg_rows c' t' = if decide (t' = t) then f (pg_rows c t) else pg_rows c t'.

(** The row a foreign key refers to. *)
Definition has_parent (c : Db) (s : table_schema) (r : row) : Prop :=
  match foreign_key_of s with
  | Some f => ∃ o k p, column_text r (fk_column f) = Some o ∧
      pg_rows c (fk_table f) !! k = Some p ∧ column_text p (fk_key f) = Some o
  | None => True
  end.

(** [t'] has a foreign key to [t]. *)
Definition refers (c : Db) (t' t : string) (f : foreign_key) : Prop :=
  ∃ s, pg_schema c t' = Some s ∧ foreign_key_of s = Some f ∧ fk_table f = t.

(** The row [r] refers to a row of [t] that the condition selects. *)
Definition orphaned (c : Db) (t : string) (cond ws : list string) (f : foreign_key) (r : row) :
    Prop :=
  ∃ o k p, column_text r (fk_column f) = Some o ∧ pg_rows c t !! k = Some p ∧
    matches cond ws p = true ∧ column_text p (fk_key f) = Some o.
End Laws.

Class PgLaws (Db : Type) `{PgServer Db} : Prop := {
  (** a statement that fails changes nothing *)
  pg_failed st ps c e c' : pg_run st ps c = (Err e, c') → unchanged c c';
  pg_create t s c rp c' : pg_run (CREATE_TABLE t s) [] c = (Ok rp, c') →
    match pg_schema c t with
    | Some _ => unchanged c c'
    | None => ∀ t', pg_schema c' t' = (if decide (t' = t) then Some s else pg_schema c t') ∧
                    pg_rows c' t' = if decide (t' = t) then ∅ else pg_rows c t'
    end;
  pg_insert t s cols vs c rp c' :
    pg_run (INSERT t cols) vs c = (Ok rp, c') → pg_schema c t = Some s →
    ∃ k, let r := new_row pg_jsonb cols vs in
      key_of (primary_key s) r = Some k ∧ pg_rows c t !! k = None ∧ has_parent c s r ∧
      changes_rows t <[k := r]> c c';
  pg_upsert t s cols set vs c rp c' :
    pg_run (UPSERT t cols (primary_key s) set) vs c = (Ok rp, c') → pg_schema c t = Some s →
    ∃ k v, let r := new_row pg_jsonb cols vs in
      key_of (primary_key s) r = Some k ∧ r !! set = Some v ∧
      (pg_rows c t !! k = None → has_parent c s r) ∧
      changes_rows t <[k := match pg_rows c t !! k with
                            | Some old => <[set := v]> old
                            | None => r
                            end]> c c';
  pg_select col t cond order ws lim c rp c' :
    pg_run (SELECT col t cond order (bool_decide (is_Some lim)))
      ((VText <$> ws) ++ option_list (VInt <$> lim)) c = (Ok rp, c') →
    unchanged c c' ∧
    ∃ hits, hits ≡ₚ (map_to_list (filter (λ kr, matches cond ws kr.2 = true) (pg_rows c t))).*2 ∧
      from_option (λ o, StronglySorted (by_column o) hits) True order ∧
      match lim with
      | Some n => 0 ≤ n ∧ rp = Selected (omap (.!! col) (take (Z.to_nat n) hits))
      | None => rp = Selected (omap (.!! col) hits)
      end;
  pg_update t s set cond ws v c rp c' :
    pg_run (UPDATE t set cond) ((VText <$> ws) ++ [v]) c = (Ok rp, c') →
    pg_schema c t = Some s → set ∉ primary_key s →
    changes_rows t
      (fmap (λ r, if matches cond ws r then <[set := stored pg_jsonb v]> r else r)) c c';
  (** a deletion, with its cascade to the tables that refer to the deleted rows
      and that no table refers to *)
  pg_delete t cond ws c rp c' :
    pg_run (DELETE t cond) (VText <$> ws) c = (Ok rp, c') →
    (∀ t1 t2 f g, refers c t1 t f → ¬ refers c t2 t1 g) →
    rp = Affected (Z.of_nat (size (filter (λ kr, matches cond ws kr.2 = true) (pg_rows c t)))) ∧
    ∀ t', pg_schema c' t' = pg_schema c t' ∧ ∀ k r,
      pg_rows c' t' !! k = Some r ↔
      pg_rows c t' !! k = Some r ∧ (t' = t → matches cond ws r = false) ∧
      (∀ f, refers c t' t f → ¬ orphaned c t cond ws f r);
}.

(** ** serde_json's [to_value] and [from_value] *)
Class SerdeValue (A : Type) := {
  to_value : A → result string Value;
  from_value : Value → result string A;
}.
Class SerdeValueLaws (A : Type) `{SerdeValue A} (jsonb : Value → Value) : Prop := {
  (** a value survives being written as a document and kept in a JSONB column *)
  to_value_from_value a : ∃ v, to_value a = Ok v ∧ from_value (jsonb v) = Ok a;
}.
