(* ===== verification/Rows.v ===== *)
(** Tables and finite maps.

    [rows_rep] relates the rows of a table of [Sql.v] to a finite map, for any
    primary key and data column: each entry of the map has a row under the encoded
    key whose column stands for the value.  The lemmas say what becomes of it when
    rows are inserted, rewritten, deleted and selected.  [under] says that every
    entry belongs to an organization that exists. *)
From S2P Require Import Prelude Text Extern Models Spec Sql.
From Stdlib Require Import ZArith.

#[local] Open Scope Z_scope.

Lemma key_of_insert pk col x r : col ∉ pk → key_of pk (<[col := x]> r) = key_of pk r.
Proof.
  intros Hcol. unfold key_of. induction pk as [|c cs IH]; simpl; [done|].
  apply not_elem_of_cons in Hcol as [Hc Hcs]. rewrite (IH Hcs).
  unfold column_text. by rewrite lookup_insert_ne.
Qed.

(** The entry of a key, and the others. *)
Lemma filter_key `{Countable K} {V} (k : K) (m : gmap K V) :
  filter (λ kv, kv.1 = k) m = match m !! k with Some v => {[k := v]} | None => ∅ end.
Proof.
  apply map_eq. intros i. apply option_eq. intros v. rewrite map_lookup_filter_Some. cbn.
  destruct (m !! k) as [w|] eqn:E.
  - rewrite lookup_singleton_Some. split; [intros [Ei ->]|intros [<- <-]]; [|done].
    split; [done|congruence].
  - rewrite lookup_empty. split; [|done]. intros [Ei ->]. congruence.
Qed.
Lemma filter_not_key `{Countable K} {V} (k : K) (m : gmap K V) :
  filter (λ kv, kv.1 ≠ k) m = delete k m.
Proof.
  apply map_eq. intros i. apply option_eq. intros v.
  rewrite map_lookup_filter_Some, lookup_delete_Some. naive_solver.
Qed.

(** ** Rows that store a map *)
Section Table.
Context `{Countable K} {V : Type}.
Context (pk : list string) (enc : K → list string) (col : string).
Context (dec : sql_value → V → Prop) (extra : K → V → row → Prop).

Definition row_ok (k : K) (v : V) (r : row) : Prop :=
  key_of pk r = Some (enc k) ∧ (∃ x, r !! col = Some x ∧ dec x v) ∧ extra k v r.

(** Two keys of the map may have the same primary key in general, but not two that
    are stored. *)
Record rows_rep (tbl : rows) (m : gmap K V) : Prop := {
  rr_of k v : m !! k = Some v → ∃ r, tbl !! enc k = Some r ∧ row_ok k v r;
  rr_to ks r : tbl !! ks = Some r → ∃ k v, enc k = ks ∧ m !! k = Some v;
  rr_inj i j : is_Some (m !! i) → is_Some (m !! j) → enc i = enc j → i = j;
}.

Lemma rows_empty : rows_rep ∅ ∅.
Proof.
  split; intros *; rewrite ?lookup_empty; [done|done|]. by intros [? [=]].
Qed.

Lemma rows_find tbl m ks r :
  rows_rep tbl m → tbl !! ks = Some r → ∃ k v, enc k = ks ∧ m !! k = Some v ∧ row_ok k v r.
Proof.
  intros Hr Er. destruct (rr_to _ _ Hr _ _ Er) as (k & v & <- & Ev).
  destruct (rr_of _ _ Hr _ _ Ev) as (r' & Er' & ?). exists k, v.
  split_and!; [done|done|]. congruence.
Qed.

Lemma rows_put tbl m k v r :
  rows_rep tbl m → row_ok k v r → (∀ j, is_Some (m !! j) → enc j = enc k → j = k) →
  rows_rep (<[enc k := r]> tbl) (<[k := v]> m).
Proof.
  intros Hr Hk Hinj. split.
  - intros i w. destruct (decide (i = k)) as [->|Hne].
    + rewrite lookup_insert_eq. intros [= <-]. exists r. by rewrite lookup_insert_eq.
    + rewrite lookup_insert_ne by done. intros Ei.
      destruct (rr_of _ _ Hr _ _ Ei) as (r' & Er' & ?). exists r'.
      rewrite lookup_insert_ne; [done|]. intros E. by apply Hne, Hinj.
  - intros ks r'. destruct (decide (enc k = ks)) as [<-|Hne].
    + intros _. exists k, v. by rewrite lookup_insert_eq.
    + rewrite lookup_insert_ne by done. intros Er'.
      destruct (rr_to _ _ Hr _ _ Er') as (j & w & <- & Ej). exists j, w.
      rewrite lookup_insert_ne; [done|]. naive_solver.
  - intros i j. rewrite !lookup_insert_is_Some'. intros [<-|Hi] [<-|Hj] E; [done|..].
    + symmetry. by apply Hinj.
    + by apply Hinj.
    + by apply (rr_inj _ _ Hr).
Qed.

Lemma rows_put_fresh tbl m k v r :
  rows_rep tbl m → tbl !! enc k = None → row_ok k v r →
  rows_rep (<[enc k := r]> tbl) (<[k := v]> m).
Proof.
  intros Hr Hnone Hk. apply rows_put; [done..|]. intros j [w Ej] E.
  destruct (rr_of _ _ Hr _ _ Ej) as (r' & Er' & _). congruence.
Qed.

(** The rows a filter keeps. *)
Lemma rows_filter tbl tbl' m (keep : row → Prop) (P : K * V → Prop) `{∀ kv, Decision (P kv)} :
  rows_rep tbl m →
  (∀ ks r, tbl' !! ks = Some r ↔ tbl !! ks = Some r ∧ keep r) →
  (∀ k v r, m !! k = Some v → row_ok k v r → keep r ↔ P (k, v)) →
  rows_rep tbl' (filter P m).
Proof.
  intros Hr Ht HP. split.
  - intros k v [Ev HPk]%map_lookup_filter_Some.
    destruct (rr_of _ _ Hr _ _ Ev) as (r & Er & Hk). exists r. split; [|done].
    apply Ht. split; [done|]. by eapply HP.
  - intros ks r [Er Hkeep]%Ht. destruct (rows_find _ _ _ _ Hr Er) as (k & v & <- & Ev & Hk).
    exists k, v. split; [done|]. apply map_lookup_filter_Some. split; [done|]. by eapply HP.
  - intros i j [v Hi] [w Hj]. apply map_lookup_filter_Some in Hi as [Hi _], Hj as [Hj _].
    apply (rr_inj _ _ Hr); eauto.
Qed.

(** An UPDATE of the data of one row. *)
Lemma rows_update tbl m cond ws k x v :
  rows_rep tbl m → col ∉ pk → dec x v →
  (∀ i w r, m !! i = Some w → row_ok i w r → matches cond ws r = true ↔ i = k) →
  (∀ w r, extra k w r → extra k v (<[col := x]> r)) →
  rows_rep ((λ r, if matches cond ws r then <[col := x]> r else r) <$> tbl) (alter (λ _, v) k m).
Proof.
  intros Hr Hcol Hd Hm Hx.
  split.
  - intros i w Hi. destruct (decide (i = k)) as [->|Hne].
    + rewrite lookup_alter_eq in Hi. destruct (m !! k) as [w0|] eqn:Ek; [|done].
      injection Hi as <-. destruct (rr_of _ _ Hr _ _ Ek) as (r & Er & Hk).
      exists (<[col := x]> r). rewrite lookup_fmap, Er. cbn.
      rewrite (proj2 (Hm _ _ _ Ek Hk) eq_refl). split; [done|].
      destruct Hk as (Hk1 & _ & Hk3). split_and!.
      * by rewrite key_of_insert.
      * exists x. by rewrite lookup_insert_eq.
      * eauto.
    + rewrite lookup_alter_ne in Hi by done. destruct (rr_of _ _ Hr _ _ Hi) as (r & Er & Hk).
      exists r. rewrite lookup_fmap, Er. cbn.
      destruct (matches cond ws r) eqn:E; [|done]. by apply (Hm _ _ _ Hi Hk) in E.
  - intros ks r (r0 & _ & Er)%lookup_fmap_Some.
    destruct (rr_to _ _ Hr _ _ Er) as (i & w & <- & Hi). exists i.
    destruct (decide (i = k)) as [->|Hne]; [rewrite lookup_alter_eq, Hi; by eexists|].
    exists w. by rewrite lookup_alter_ne.
  - intros i j Hi Hj. apply (rr_inj _ _ Hr); by rewrite lookup_alter_is_Some in *.
Qed.

(** The rows are the map's entries, each once. *)
Lemma rows_list tbl m :
  rows_rep tbl m →
  ∃ kvs, kvs ≡ₚ map_to_list m ∧ Forall2 (λ r kv, row_ok kv.1 kv.2 r) (map_to_list tbl).*2 kvs.
Proof.
  intros Hr.
  assert (∃ kvs, Forall2 (λ kr kv, enc kv.1 = kr.1 ∧ m !! kv.1 = Some kv.2 ∧
                                    row_ok kv.1 kv.2 kr.2) (map_to_list tbl) kvs) as [kvs Hk].
  { apply Forall_exists_Forall2_l, Forall_forall. intros [ks r] Hin%elem_of_map_to_list.
    destruct (rows_find _ _ _ _ Hr Hin) as (k & v & ? & ? & ?). by exists (k, v). }
  exists kvs. split.
  2: { apply Forall2_fmap_l. eapply Forall2_impl; [exact Hk|]. naive_solver. }
  apply NoDup_Permutation; [|apply NoDup_map_to_list|].
  - apply (NoDup_fmap_1 (λ kv, enc kv.1)).
    replace ((λ kv : K * V, enc kv.1) <$> kvs) with (map_to_list tbl).*1.
    + apply NoDup_fst_map_to_list.
    + clear -Hk. induction Hk as [|kr kv krs kvs (E & _) _ IH]; [done|]. cbn. by rewrite E, IH.
  - intros [k v]. rewrite elem_of_map_to_list. split.
    + intros [n En]%list_elem_of_lookup.
      by eapply Forall2_lookup_r in Hk as (? & _ & _ & ? & _); [|done].
    + intros Ev. destruct (rr_of _ _ Hr _ _ Ev) as (r & Er & _).
      apply elem_of_map_to_list, list_elem_of_lookup in Er as [n En].
      eapply Forall2_lookup_l in Hk as ([j w] & Ej & E & Ew & _); [|done]. cbn in *.
      assert (j = k) as -> by (apply (rr_inj _ _ Hr); eauto).
      assert (w = v) as -> by congruence. by eapply list_elem_of_lookup_2.
Qed.

(** What a SELECT finds. *)
Lemma rows_select tbl m cond ws (P : K * V → Prop) `{∀ kv, Decision (P kv)} hits :
  rows_rep tbl m →
  (∀ k v r, m !! k = Some v → row_ok k v r → matches cond ws r = true ↔ P (k, v)) →
  hits ≡ₚ (map_to_list (filter (λ kr, matches cond ws kr.2 = true) tbl)).*2 →
  ∃ kvs, kvs ≡ₚ map_to_list (filter P m) ∧ Forall2 (λ r kv, row_ok kv.1 kv.2 r) hits kvs.
Proof.
  intros Hr HP Hh.
  destruct (rows_list (filter (λ kr, matches cond ws kr.2 = true) tbl) (filter P m))
    as (kvs & Hk & Hf).
  { eapply rows_filter; [exact Hr| |exact HP]. intros ks r. by rewrite map_lookup_filter_Some. }
  symmetry in Hh. destruct (Permutation_Forall2 Hh Hf) as (kvs' & Hk' & Hf').
  exists kvs'. split; [by rewrite <-Hk', Hk|done].
Qed.
End Table.

(** Conditions on the primary key, and on its first column. *)
Lemma matches_key pk ws r : matches pk ws r = bool_decide (key_of pk r = Some ws).
Proof.
  unfold key_of. revert ws. induction pk as [|c cs IH]; intros [|w ws]; cbn; try done.
  - symmetry. apply bool_decide_eq_false_2. destruct (column_text r c); [|done]. cbn.
    by destruct (mapM _ _).
  - rewrite IH. destruct (column_text r c) as [s|] eqn:E; cbn.
    2: { by rewrite (bool_decide_eq_false_2 (None = Some w)), (bool_decide_eq_false_2 (None = Some (w :: ws))). }
    destruct (mapM (column_text r) cs) as [ss|] eqn:Es; cbn.
    2: { by rewrite (bool_decide_eq_false_2 (None = Some ws)), andb_false_r. }
    apply eq_true_iff_eq. rewrite andb_true_iff, !bool_decide_eq_true.
    split; [by intros [[= <-] [= <-]]|by intros [= <- <-]].
Qed.

Lemma key_of_head pk c r ks : key_of (c :: pk) r = Some ks → column_text r c = head ks.
Proof.
  unfold key_of. cbn. destruct (column_text r c); [|done]. cbn.
  destruct (mapM _ _); [|done]. by intros [= <-].
Qed.

(** ** Rows under an organization *)
Section Under.
Context `{Countable K} `{OrgKey K} {V : Type}.
Implicit Types (orgs : gmap string Organization) (m : gmap K V).

Definition under orgs m : Prop := map_Forall (λ k _, is_Some (orgs !! org_of k)) m.

Lemma under_empty orgs : under orgs ∅.
Proof. apply map_Forall_empty. Qed.
Lemma under_put orgs m k v : is_Some (orgs !! org_of k) → under orgs m → under orgs (<[k := v]> m).
Proof. intros. by apply map_Forall_insert_2. Qed.
Lemma under_present orgs m k : is_Some (m !! k) → under orgs m → is_Some (orgs !! org_of k).
Proof. intros [v Ev] Hu. by eapply Hu. Qed.
Lemma under_more orgs m o org : under orgs m → under (<[o := org]> orgs) m.
Proof.
  intros Hu k v Ev. rewrite lookup_insert_is_Some'. right. by eapply Hu.
Qed.
Lemma under_filter orgs m (P : K * V → Prop) `{∀ kv, Decision (P kv)} :
  under orgs m → under orgs (filter P m).
Proof. intros Hu k v [Ev _]%map_lookup_filter_Some. by eapply Hu. Qed.
Lemma under_alter orgs m f k : under orgs m → under orgs (alter f k m).
Proof.
  intros Hu i v Ev. assert (is_Some (m !! i)) as [w Ew] by (rewrite <-lookup_alter_is_Some; eauto).
  by eapply Hu.
Qed.
Lemma under_drop orgs m o : under orgs m → under (delete o orgs) (rows_not_of o m).
Proof.
  intros Hu k v [Ev Ho]%map_lookup_filter_Some. cbn in Ho.
  rewrite lookup_delete_ne by done. by eapply Hu.
Qed.
End Under.
