(* ===== verification/Postgres.v ===== *)
(** storage/postgres.rs: the Postgres backend.

    Nine tables, created by [connect]; eight refer to the table of organizations
    and lose their rows with it.  Every method is one statement, run by the server
    of [Sql.v]; the statements are values of [statement], and [statements_text]
    gives their texts in the source.  A document that a column holds is read with
    [from_value]; [row.get] panics on a column of another type, which the schema
    rules out, and is an error here. *)
From S2P Require Import Prelude Text Extern Models Errors Effects Sql.
From Stdlib Require Import ZArith.

#[local] Open Scope Z_scope.

(** ** The schema *)
Definition org_reference : option foreign_key :=
  Some {| fk_column := "org_id"; fk_table := "orgs"; fk_key := "org_id" |}.

(** A table of rows under an organization and an identifier. *)
Definition owned_schema (id : string) (data : sql_type) : table_schema := {|
  columns := [("org_id", TEXT); (id, TEXT); ("data", data)]%string;
  primary_key := ["org_id"; id]%string;
  foreign_key_of := org_reference;
|}.

Definition orgs_schema : table_schema := {|
  columns := [("org_id", TEXT); ("data", JSONB)]%string;
  primary_key := ["org_id"]%string;
  foreign_key_of := None;
|}.
Definition cursors_schema : table_schema := {|
  columns := [("org_id", TEXT); ("app_id", TEXT); ("document_id", TEXT); ("change_hash", TEXT)]%string;
  primary_key := ["org_id"; "app_id"; "document_id"]%string;
  foreign_key_of := org_reference;
|}.
Definition audit_schema : table_schema := {|
  columns := [("org_id", TEXT); ("audit_id", TEXT); ("app_id", TEXT); ("timestamp_ms", BIGINT);
              ("data", JSONB)]%string;
  primary_key := ["org_id"; "audit_id"]%string;
  foreign_key_of := org_reference;
|}.

(** The migrations, in their order. *)
Definition schemas : list (string * table_schema) := [
  ("orgs", orgs_schema);
  ("formations", owned_schema "app_id" JSONB);
  ("enrollment_tokens", owned_schema "token_id" JSONB);
  ("cdc_sinks", owned_schema "sink_id" JSONB);
  ("cdc_cursors", cursors_schema);
  ("idp_configs", owned_schema "idp_id" JSONB);
  ("policy_rules", owned_schema "rule_id" JSONB);
  ("genesis", owned_schema "app_id" BYTEA);
  ("enrollment_audit", audit_schema)]%string.

(** [n as i64] *)
Definition as_i64 (n : Z) : Z := (n + 2 ^ 63) mod 2 ^ 64 - 2 ^ 63.

Section Backend.
Context {Db : Type} `{PgServer Db}.
Context `{SerdeValue Organization} `{SerdeValue FormationConfig} `{SerdeValue EnrollmentToken}
  `{SerdeValue CdcSinkConfig} `{SerdeValue IdpConfig} `{SerdeValue PolicyRule}
  `{SerdeValue EnrollmentAuditEntry}.

(** ** Running statements *)
(** [sqlx::query(..).bind(..)...await?] and what is done with the reply *)
Definition query {A} (st : statement) (ps : list sql_value) (k : reply → Result A) (c : Db) :
    Result A * Db :=
  match pg_run st ps c with
  | (Ok r, c') => (k r, c')
  | (Err e, c') => (Err (StorageError e), c')
  end.

Definition execute (st : statement) (ps : list sql_value) : Db → Result unit * Db :=
  query st ps (λ _, Ok tt).
(** [result.rows_affected() > 0] *)
Definition execute_affected (st : statement) (ps : list sql_value) : Db → Result bool * Db :=
  query st ps (λ r, match r with
                    | Affected n => Ok (0 <? n)
                    | Selected _ => Err (StorageError "unexpected rows")
                    end).
Definition rows_of_reply (r : reply) : list sql_value :=
  match r with Selected vs => vs | Affected _ => [] end.

(** [row.get("data")], then [serde_json::from_value(data)?] *)
Definition get_document {A} `{SerdeValue A} (v : sql_value) : Result A :=
  match v with
  | VJson v => map_err StorageError (from_value v)
  | _ => Err (StorageError "column type mismatch")
  end.
Definition get_bytes (v : sql_value) : Result bytes :=
  match v with VBytes b => Ok b | _ => Err (StorageError "column type mismatch") end.
Definition get_text (v : sql_value) : Result string :=
  match v with VText s => Ok s | _ => Err (StorageError "column type mismatch") end.

(** [fetch_optional]: the first row *)
Definition fetch_optional {A} (get : sql_value → Result A) (st : statement)
    (ps : list sql_value) : Db → Result (option A) * Db :=
  query st ps (λ r, match rows_of_reply r with
                    | v :: _ => result_map Some (get v)
                    | [] => Ok None
                    end).

Fixpoint get_all {A} (get : sql_value → Result A) (vs : list sql_value) : Result (list A) :=
  match vs with
  | [] => Ok []
  | v :: vs => let? a := get v in let? l := get_all get vs in Ok (a :: l)
  end.
Definition fetch_all {A} `{SerdeValue A} (st : statement) (ps : list sql_value) :
    Db → Result (list A) * Db :=
  query st ps (λ r, get_all get_document (rows_of_reply r)).

(** [let data = serde_json::to_value(x)?; ...] *)
Definition with_document {A B} `{SerdeValue A} (x : A) (k : sql_value → Db → Result B * Db)
    (c : Db) : Result B * Db :=
  match to_value x with
  | Ok data => k (VJson data) c
  | Err e => (Err (StorageError e), c)
  end.

(** ** [connect]: the migrations on a database that has been reached *)
Fixpoint migrations (ss : list (string * table_schema)) (c : Db) : Result unit * Db :=
  match ss with
  | [] => (Ok tt, c)
  | (t, s) :: ss =>
      match execute (CREATE_TABLE t s) [] c with
      | (Ok _, c) => migrations ss c
      | (Err e, c) => (Err e, c)
      end
  end.
Definition connect : Db → Result unit * Db := migrations schemas.

(** ** Organizations *)
Definition create_org (org : Organization) : Db → Result unit * Db :=
  with_document org (λ data,
    execute (INSERT "orgs" ["org_id"; "data"]) [VText (o_org_id org); data]).
Definition get_org (org_id : string) : Db → Result (option Organization) * Db :=
  fetch_optional get_document (SELECT "data" "orgs" ["org_id"] None false) [VText org_id].
Definition list_orgs : Db → Result (list Organization) * Db :=
  fetch_all (SELECT "data" "orgs" [] (Some ("org_id"%string, false)) false) [].
Definition update_org (org : Organization) : Db → Result unit * Db :=
  with_document org (λ data,
    execute (UPDATE "orgs" "data" ["org_id"]) [VText (o_org_id org); data]).
Definition delete_org (org_id : string) : Db → Result bool * Db :=
  execute_affected (DELETE "orgs" ["org_id"]) [VText org_id].

(** ** Formations *)
Definition create_formation (org_id : string) (formation : FormationConfig) :
    Db → Result unit * Db :=
  with_document formation (λ data,
    execute (INSERT "formations" ["org_id"; "app_id"; "data"])
      [VText org_id; VText (f_app_id formation); data]).
Definition get_formation (org_id app_id : string) : Db → Result (option FormationConfig) * Db :=
  fetch_optional get_document (SELECT "data" "formations" ["org_id"; "app_id"] None false)
    [VText org_id; VText app_id].
Definition list_formations (org_id : string) : Db → Result (list FormationConfig) * Db :=
  fetch_all (SELECT "data" "formations" ["org_id"] (Some ("app_id"%string, false)) false)
    [VText org_id].
Definition delete_formation (org_id app_id : string) : Db → Result bool * Db :=
  execute_affected (DELETE "formations" ["org_id"; "app_id"]) [VText org_id; VText app_id].

(** ** Enrollment tokens *)
Definition create_token (token : EnrollmentToken) : Db → Result unit * Db :=
  with_document token (λ data,
    execute (INSERT "enrollment_tokens" ["org_id"; "token_id"; "data"])
      [VText (t_org_id token); VText (t_token_id token); data]).
Definition get_token (org_id token_id : string) : Db → Result (option EnrollmentToken) * Db :=
  fetch_optional get_document
    (SELECT "data" "enrollment_tokens" ["org_id"; "token_id"] None false)
    [VText org_id; VText token_id].
Definition list_tokens (org_id app_id : string) : Db → Result (list EnrollmentToken) * Db :=
  query (SELECT "data" "enrollment_tokens" ["org_id"] (Some ("token_id"%string, false)) false)
    [VText org_id]
    (λ r, let? tokens := get_all get_document (rows_of_reply r) in
          Ok (filter (λ t, t_app_id t = app_id) tokens)).
Definition update_token (token : EnrollmentToken) : Db → Result unit * Db :=
  with_document token (λ data,
    execute (UPDATE "enrollment_tokens" "data" ["org_id"; "token_id"])
      [VText (t_org_id token); VText (t_token_id token); data]).
Definition delete_token (org_id token_id : string) : Db → Result bool * Db :=
  execute_affected (DELETE "enrollment_tokens" ["org_id"; "token_id"])
    [VText org_id; VText token_id].

(** ** CDC sinks *)
Definition create_sink (sink : CdcSinkConfig) : Db → Result unit * Db :=
  with_document sink (λ data,
    execute (INSERT "cdc_sinks" ["org_id"; "sink_id"; "data"])
      [VText (s_org_id sink); VText (s_sink_id sink); data]).
Definition get_sink (org_id sink_id : string) : Db → Result (option CdcSinkConfig) * Db :=
  fetch_optional get_document (SELECT "data" "cdc_sinks" ["org_id"; "sink_id"] None false)
    [VText org_id; VText sink_id].
Definition list_sinks (org_id : string) : Db → Result (list CdcSinkConfig) * Db :=
  fetch_all (SELECT "data" "cdc_sinks" ["org_id"] (Some ("sink_id"%string, false)) false)
    [VText org_id].
Definition update_sink (sink : CdcSinkConfig) : Db → Result unit * Db :=
  with_document sink (λ data,
    execute (UPDATE "cdc_sinks" "data" ["org_id"; "sink_id"])
      [VText (s_org_id sink); VText (s_sink_id sink); data]).
Definition delete_sink (org_id sink_id : string) : Db → Result bool * Db :=
  execute_affected (DELETE "cdc_sinks" ["org_id"; "sink_id"]) [VText org_id; VText sink_id].

(** ** Identity providers and policy rules *)
Definition create_idp (idp : IdpConfig) : Db → Result unit * Db :=
  with_document idp (λ data,
    execute (INSERT "idp_configs" ["org_id"; "idp_id"; "data"])
      [VText (i_org_id idp); VText (i_idp_id idp); data]).
Definition get_idp (org_id idp_id : string) : Db → Result (option IdpConfig) * Db :=
  fetch_optional get_document (SELECT "data" "idp_configs" ["org_id"; "idp_id"] None false)
    [VText org_id; VText idp_id].
Definition list_idps (org_id : string) : Db → Result (list IdpConfig) * Db :=
  fetch_all (SELECT "data" "idp_configs" ["org_id"] (Some ("idp_id"%string, false)) false)
    [VText org_id].
Definition update_idp (idp : IdpConfig) : Db → Result unit * Db :=
  with_document idp (λ data,
    execute (UPDATE "idp_configs" "data" ["org_id"; "idp_id"])
      [VText (i_org_id idp); VText (i_idp_id idp); data]).
Definition delete_idp (org_id idp_id : string) : Db → Result bool * Db :=
  execute_affected (DELETE "idp_configs" ["org_id"; "idp_id"]) [VText org_id; VText idp_id].

Definition create_policy_rule (rule : PolicyRule) : Db → Result unit * Db :=
  with_document rule (λ data,
    execute (INSERT "policy_rules" ["org_id"; "rule_id"; "data"])
      [VText (r_org_id rule); VText (r_rule_id rule); data]).
Definition list_policy_rules (org_id : string) : Db → Result (list PolicyRule) * Db :=
  fetch_all (SELECT "data" "policy_rules" ["org_id"] (Some ("rule_id"%string, false)) false)
    [VText org_id].
Definition delete_policy_rule (org_id rule_id : string) : Db → Result bool * Db :=
  execute_affected (DELETE "policy_rules" ["org_id"; "rule_id"]) [VText org_id; VText rule_id].

(** ** The audit log *)
Definition append_audit (entry : EnrollmentAuditEntry) : Db → Result unit * Db :=
  with_document entry (λ data,
    execute (INSERT "enrollment_audit" ["org_id"; "audit_id"; "app_id"; "timestamp_ms"; "data"])
      [VText (a_org_id entry); VText (a_audit_id entry); VText (a_app_id entry);
       VInt (as_i64 (a_timestamp_ms entry)); data]).
Definition list_audit (org_id : string) (app_id : option string) (limit : Z) :
    Db → Result (list EnrollmentAuditEntry) * Db :=
  match app_id with
  | Some app_id =>
      fetch_all (SELECT "data" "enrollment_audit" ["org_id"; "app_id"]
                   (Some ("timestamp_ms"%string, true)) true)
        [VText org_id; VText app_id; VInt (as_i64 limit)]
  | None =>
      fetch_all (SELECT "data" "enrollment_audit" ["org_id"]
                   (Some ("timestamp_ms"%string, true)) true)
        [VText org_id; VInt (as_i64 limit)]
  end.

(** ** Genesis key material and CDC cursors *)
Definition store_genesis (org_id app_id : string) (encoded : bytes) : Db → Result unit * Db :=
  execute (UPSERT "genesis" ["org_id"; "app_id"; "data"] ["org_id"; "app_id"] "data")
    [VText org_id; VText app_id; VBytes encoded].
Definition get_genesis (org_id app_id : string) : Db → Result (option bytes) * Db :=
  fetch_optional get_bytes (SELECT "data" "genesis" ["org_id"; "app_id"] None false)
    [VText org_id; VText app_id].
Definition delete_genesis (org_id app_id : string) : Db → Result bool * Db :=
  execute_affected (DELETE "genesis" ["org_id"; "app_id"]) [VText org_id; VText app_id].

Definition get_cursor (org_id app_id document_id : string) : Db → Result (option string) * Db :=
  fetch_optional get_text
    (SELECT "change_hash" "cdc_cursors" ["org_id"; "app_id"; "document_id"] None false)
    [VText org_id; VText app_id; VText document_id].
Definition set_cursor (org_id app_id document_id change_hash : string) : Db → Result unit * Db :=
  execute (UPSERT "cdc_cursors" ["org_id"; "app_id"; "document_id"; "change_hash"]
             ["org_id"; "app_id"; "document_id"] "change_hash")
    [VText org_id; VText app_id; VText document_id; VText change_hash].

(** ** [impl StorageBackend for PostgresBackend] *)
#[export] Instance postgres_backend : Backend Db := λ R op,
  match op in StoreOp R return Db → Result R * Db with
  | CreateOrg org => create_org org
  | GetOrg o => get_org o
  | ListOrgs => list_orgs
  | UpdateOrg org => update_org org
  | DeleteOrg o => delete_org o
  | CreateFormation o f => create_formation o f
  | GetFormation o a => get_formation o a
  | ListFormations o => list_formations o
  | DeleteFormation o a => delete_formation o a
  | CreateToken t => create_token t
  | GetToken o t => get_token o t
  | ListTokens o a => list_tokens o a
  | UpdateToken t => update_token t
  | DeleteToken o t => delete_token o t
  | CreateSink s => create_sink s
  | GetSink o s => get_sink o s
  | ListSinks o => list_sinks o
  | UpdateSink s => update_sink s
  | DeleteSink o s => delete_sink o s
  | CreateIdp i => create_idp i
  | GetIdp o i => get_idp o i
  | ListIdps o => list_idps o
  | UpdateIdp i => update_idp i
  | DeleteIdp o i => delete_idp o i
  | CreatePolicyRule r => create_policy_rule r
  | ListPolicyRules o => list_policy_rules o
  | DeletePolicyRule o r => delete_policy_rule o r
  | AppendAudit e => append_audit e
  | ListAudit o a n => list_audit o a n
  | StoreGenesis o a b => store_genesis o a b
  | GetGenesis o a => get_genesis o a
  | DeleteGenesis o a => delete_genesis o a
  | GetCursor o a d => get_cursor o a d
  | SetCursor o a d h => set_cursor o a d h
  end.
End Backend.

(** ** The texts of the statements, in the order of the source *)
Definition statements : list (statement * string) := [
  (CREATE_TABLE "orgs" orgs_schema,
    squeeze false "CREATE TABLE IF NOT EXISTS orgs (
      org_id TEXT PRIMARY KEY,
      data JSONB NOT NULL
      )");
  (CREATE_TABLE "formations" (owned_schema "app_id" JSONB),
    squeeze false "CREATE TABLE IF NOT EXISTS formations (
      org_id TEXT NOT NULL,
      app_id TEXT NOT NULL,
      data JSONB NOT NULL,
      PRIMARY KEY (org_id, app_id),
      FOREIGN KEY (org_id) REFERENCES orgs(org_id) ON DELETE CASCADE
      )");
  (CREATE_TABLE "enrollment_tokens" (owned_schema "token_id" JSONB),
    squeeze false "CREATE TABLE IF NOT EXISTS enrollment_tokens (
      org_id TEXT NOT NULL,
      token_id TEXT NOT NULL,
      data JSONB NOT NULL,
      PRIMARY KEY (org_id, token_id),
      FOREIGN KEY (org_id) REFERENCES orgs(org_id) ON DELETE CASCADE
      )");
  (CREATE_TABLE "cdc_sinks" (owned_schema "sink_id" JSONB),
    squeeze false "CREATE TABLE IF NOT EXISTS cdc_sinks (
      org_id TEXT NOT NULL,
      sink_id TEXT NOT NULL,
      data JSONB NOT NULL,
      PRIMARY KEY (org_id, sink_id),
      FOREIGN KEY (org_id) REFERENCES orgs(org_id) ON DELETE CASCADE
      )");
  (CREATE_TABLE "cdc_cursors" cursors_schema,
    squeeze false "CREATE TABLE IF NOT EXISTS cdc_cursors (
      org_id TEXT NOT NULL,
      app_id TEXT NOT NULL,
      document_id TEXT NOT NULL,
      change_hash TEXT NOT NULL,
      PRIMARY KEY (org_id, app_id, document_id),
      FOREIGN KEY (org_id) REFERENCES orgs(org_id) ON DELETE CASCADE
      )");
  (CREATE_TABLE "idp_configs" (owned_schema "idp_id" JSONB),
    squeeze false "CREATE TABLE IF NOT EXISTS idp_configs (
      org_id TEXT NOT NULL,
      idp_id TEXT NOT NULL,
      data JSONB NOT NULL,
      PRIMARY KEY (org_id, idp_id),
      FOREIGN KEY (org_id) REFERENCES orgs(org_id) ON DELETE CASCADE
      )");
  (CREATE_TABLE "policy_rules" (owned_schema "rule_id" JSONB),
    squeeze false "CREATE TABLE IF NOT EXISTS policy_rules (
      org_id TEXT NOT NULL,
      rule_id TEXT NOT NULL,
      data JSONB NOT NULL,
      PRIMARY KEY (org_id, rule_id),
      FOREIGN KEY (org_id) REFERENCES orgs(org_id) ON DELETE CASCADE
      )");
  (CREATE_TABLE "genesis" (owned_schema "app_id" BYTEA),
    squeeze false "CREATE TABLE IF NOT EXISTS genesis (
      org_id TEXT NOT NULL,
      app_id TEXT NOT NULL,
      data BYTEA NOT NULL,
      PRIMARY KEY (org_id, app_id),
      FOREIGN KEY (org_id) REFERENCES orgs(org_id) ON DELETE CASCADE
      )");
  (CREATE_TABLE "enrollment_audit" audit_schema,
    squeeze false "CREATE TABLE IF NOT EXISTS enrollment_audit (
      org_id TEXT NOT NULL,
      audit_id TEXT NOT NULL,
      app_id TEXT NOT NULL,
      timestamp_ms BIGINT NOT NULL,
      data JSONB NOT NULL,
      PRIMARY KEY (org_id, audit_id),
      FOREIGN KEY (org_id) REFERENCES orgs(org_id) ON DELETE CASCADE
      )");
  (INSERT "orgs" ["org_id"; "data"],
    squeeze false "INSERT INTO orgs (org_id, data) VALUES ($1, $2)");
  (SELECT "data" "orgs" ["org_id"] None false,
    squeeze false "SELECT data FROM orgs WHERE org_id = $1");
  (SELECT "data" "orgs" [] (Some ("org_id"%string, false)) false,
    squeeze false "SELECT data FROM orgs ORDER BY org_id");
  (UPDATE "orgs" "data" ["org_id"],
    squeeze false "UPDATE orgs SET data = $2 WHERE org_id = $1");
  (DELETE "orgs" ["org_id"],
    squeeze false "DELETE FROM orgs WHERE org_id = $1");
  (INSERT "formations" ["org_id"; "app_id"; "data"],
    squeeze false "INSERT INTO formations (org_id, app_id, data) VALUES ($1, $2, $3)");
  (SELECT "data" "formations" ["org_id"; "app_id"] None false,
    squeeze false "SELECT data FROM formations WHERE org_id = $1 AND app_id = $2");
  (SELECT "data" "formations" ["org_id"] (Some ("app_id"%string, false)) false,
    squeeze false "SELECT data FROM formations WHERE org_id = $1 ORDER BY app_id");
  (DELETE "formations" ["org_id"; "app_id"],
    squeeze false "DELETE FROM formations WHERE org_id = $1 AND app_id = $2");
  (INSERT "enrollment_tokens" ["org_id"; "token_id"; "data"],
    squeeze false "INSERT INTO enrollment_tokens (org_id, token_id, data) VALUES ($1, $2, $3)");
  (SELECT "data" "enrollment_tokens" ["org_id"; "token_id"] None false,
    squeeze false "SELECT data FROM enrollment_tokens WHERE org_id = $1 AND token_id = $2");
  (SELECT "data" "enrollment_tokens" ["org_id"] (Some ("token_id"%string, false)) false,
    squeeze false "SELECT data FROM enrollment_tokens WHERE org_id = $1 ORDER BY token_id");
  (UPDATE "enrollment_tokens" "data" ["org_id"; "token_id"],
    squeeze false "UPDATE enrollment_tokens SET data = $3 WHERE org_id = $1 AND token_id = $2");
  (DELETE "enrollment_tokens" ["org_id"; "token_id"],
    squeeze false "DELETE FROM enrollment_tokens WHERE org_id = $1 AND token_id = $2");
  (INSERT "cdc_sinks" ["org_id"; "sink_id"; "data"],
    squeeze false "INSERT INTO cdc_sinks (org_id, sink_id, data) VALUES ($1, $2, $3)");
  (SELECT "data" "cdc_sinks" ["org_id"; "sink_id"] None false,
    squeeze false "SELECT data FROM cdc_sinks WHERE org_id = $1 AND sink_id = $2");
  (SELECT "data" "cdc_sinks" ["org_id"] (Some ("sink_id"%string, false)) false,
    squeeze false "SELECT data FROM cdc_sinks WHERE org_id = $1 ORDER BY sink_id");
  (UPDATE "cdc_sinks" "data" ["org_id"; "sink_id"],
    squeeze false "UPDATE cdc_sinks SET data = $3 WHERE org_id = $1 AND sink_id = $2");
  (DELETE "cdc_sinks" ["org_id"; "sink_id"],
    squeeze false "DELETE FROM cdc_sinks WHERE org_id = $1 AND sink_id = $2");
  (INSERT "idp_configs" ["org_id"; "idp_id"; "data"],
    squeeze false "INSERT INTO idp_configs (org_id, idp_id, data) VALUES ($1, $2, $3)");
  (SELECT "data" "idp_configs" ["org_id"; "idp_id"] None false,
    squeeze false "SELECT data FROM idp_configs WHERE org_id = $1 AND idp_id = $2");
  (SELECT "data" "idp_configs" ["org_id"] (Some ("idp_id"%string, false)) false,
    squeeze false "SELECT data FROM idp_configs WHERE org_id = $1 ORDER BY idp_id");
  (UPDATE "idp_configs" "data" ["org_id"; "idp_id"],
    squeeze false "UPDATE idp_configs SET data = $3 WHERE org_id = $1 AND idp_id = $2");
  (DELETE "idp_configs" ["org_id"; "idp_id"],
    squeeze false "DELETE FROM idp_configs WHERE org_id = $1 AND idp_id = $2");
  (INSERT "policy_rules" ["org_id"; "rule_id"; "data"],
    squeeze false "INSERT INTO policy_rules (org_id, rule_id, data) VALUES ($1, $2, $3)");
  (SELECT "data" "policy_rules" ["org_id"] (Some ("rule_id"%string, false)) false,
    squeeze false "SELECT data FROM policy_rules WHERE org_id = $1 ORDER BY rule_id");
  (DELETE "policy_rules" ["org_id"; "rule_id"],
    squeeze false "DELETE FROM policy_rules WHERE org_id = $1 AND rule_id = $2");
  (INSERT "enrollment_audit" ["org_id"; "audit_id"; "app_id"; "timestamp_ms"; "data"],
    squeeze false "INSERT INTO enrollment_audit (org_id, audit_id, app_id, timestamp_ms, data) VALUES
      ($1, $2, $3, $4, $5)");
  (SELECT "data" "enrollment_audit" ["org_id"; "app_id"] (Some ("timestamp_ms"%string, true)) true,
    squeeze false "SELECT data FROM enrollment_audit WHERE org_id = $1 AND app_id = $2 ORDER BY
      timestamp_ms DESC LIMIT $3");
  (SELECT "data" "enrollment_audit" ["org_id"] (Some ("timestamp_ms"%string, true)) true,
    squeeze false "SELECT data FROM enrollment_audit WHERE org_id = $1 ORDER BY timestamp_ms DESC
      LIMIT $2");
  (UPSERT "genesis" ["org_id"; "app_id"; "data"] ["org_id"; "app_id"] "data",
    squeeze false "INSERT INTO genesis (org_id, app_id, data) VALUES ($1, $2, $3)
      ON CONFLICT (org_id, app_id) DO UPDATE SET data = EXCLUDED.data");
  (SELECT "data" "genesis" ["org_id"; "app_id"] None false,
    squeeze false "SELECT data FROM genesis WHERE org_id = $1 AND app_id = $2");
  (DELETE "genesis" ["org_id"; "app_id"],
    squeeze false "DELETE FROM genesis WHERE org_id = $1 AND app_id = $2");
  (SELECT "change_hash" "cdc_cursors" ["org_id"; "app_id"; "document_id"] None false,
    squeeze false "SELECT change_hash FROM cdc_cursors WHERE org_id = $1 AND app_id = $2 AND
      document_id = $3");
  (UPSERT "cdc_cursors" ["org_id"; "app_id"; "document_id"; "change_hash"] ["org_id"; "app_id"; "document_id"] "change_hash",
    squeeze false "INSERT INTO cdc_cursors (org_id, app_id, document_id, change_hash)
      VALUES ($1, $2, $3, $4)
      ON CONFLICT (org_id, app_id, document_id)
      DO UPDATE SET change_hash = EXCLUDED.change_hash")]%string.

Lemma statements_text : Forall (λ st, sql st.1 = st.2) statements.
Proof. repeat (constructor; [vm_compute; reflexivity|]). constructor. Qed.
