(* ===== verification/PostgresSpec.v ===== *)
(** The Postgres backend implements the storage contract of [Spec.v].

    [pg_rep] says that the nine tables represent a content, by [rows_rep] of
    [Rows.v], and besides that every row belongs to an organization that exists,
    which the foreign keys enforce. *)
From S2P Require Import Prelude Text Extern Models Errors Effects Spec Sql Rows Postgres.
From Stdlib Require Import ZArith.

#[local] Open Scope Z_scope.

(** ** What a column's value stands for *)
Definition json_dec {A} `{SerdeValue A} (x : sql_value) (a : A) : Prop :=
  ∃ v, x = VJson v ∧ from_value v = Ok a.
Definition bytes_dec (x : sql_value) (b : bytes) : Prop := x = VBytes b.
Definition text_dec (x : sql_value) (s : string) : Prop := x = VText s.

Lemma get_document_ok {A} `{SerdeValue A} x (a : A) : json_dec x a → get_document x = Ok a.
Proof. intros (v & -> & E). cbn. by rewrite E. Qed.
Lemma get_bytes_ok x b : bytes_dec x b → get_bytes x = Ok b.
Proof. by intros ->. Qed.
Lemma get_text_ok x s : text_dec x s → get_text x = Ok s.
Proof. by intros ->. Qed.

(** ** The primary keys of the tables *)
Definition enc1 (o : string) : list string := [o].
Definition enc2 (k : string * string) : list string := [k.1; k.2].
Definition enca (k : string * Z * string) : list string := [k.1.1; k.2].
Definition encc (k : string * string * string) : list string := [k.1.1; k.1.2; k.2].

#[export] Instance enc1_inj : Inj (=) (=) enc1.
Proof. by intros ?? [= ->]. Qed.
#[export] Instance enc2_inj : Inj (=) (=) enc2.
Proof. by intros [??] [??] [= -> ->]. Qed.
#[export] Instance encc_inj : Inj (=) (=) encc.
Proof. by intros [[??]?] [[??]?] [= -> -> ->]. Qed.

Definition no_extra {K V} (k : K) (v : V) (r : row) : Prop := True.
(** The audit table repeats two of an entry's fields in columns of their own. *)
Definition audit_extra (k : string * Z * string) (e : EnrollmentAuditEntry) (r : row) : Prop :=
  column_text r "app_id" = Some (a_app_id e) ∧
  r !! "timestamp_ms"%string = Some (VInt (as_i64 k.1.2)) ∧ 0 ≤ k.1.2.

Lemma as_i64_small n : 0 ≤ n < 2 ^ 63 → as_i64 n = n.
Proof. intros Hn. unfold as_i64. rewrite Z.mod_small; lia. Qed.
Lemma as_i64_nonneg n : u64 n → 0 ≤ as_i64 n → as_i64 n = n.
Proof.
  unfold u64. intros Hn Hi. apply as_i64_small. split; [lia|].
  destruct (Z.lt_ge_cases n (2 ^ 63)) as [|Hge]; [done|]. exfalso.
  unfold as_i64 in Hi. replace (n + 2 ^ 63) with (n - 2 ^ 63 + 1 * 2 ^ 64) in Hi by lia.
  rewrite Z.mod_add, Z.mod_small in Hi; lia.
Qed.

(** ** The representation *)
Definition declared : gmap string table_schema := list_to_map schemas.

Section Refinement.
Context {C : Type} `{PgLaws C}.
Context `{SerdeValueLaws Organization pg_jsonb} `{SerdeValueLaws FormationConfig pg_jsonb}
  `{SerdeValueLaws EnrollmentToken pg_jsonb} `{SerdeValueLaws CdcSinkConfig pg_jsonb}
  `{SerdeValueLaws IdpConfig pg_jsonb} `{SerdeValueLaws PolicyRule pg_jsonb}
  `{SerdeValueLaws EnrollmentAuditEntry pg_jsonb}.
Implicit Types (c : C) (m : db).

Definition owned_rep {V} (id : string) (dec : sql_value → V → Prop) :
    rows → gmap (string * string) V → Prop :=
  rows_rep ["org_id"%string; id] enc2 "data" dec no_extra.

Record pg_rep c m : Prop := {
  pr_schema t : pg_schema c t = declared !! t;
  pr_orgs : rows_rep ["org_id"%string] enc1 "data" json_dec no_extra (pg_rows c "orgs") (d_orgs m);
  pr_formations : owned_rep "app_id" json_dec (pg_rows c "formations") (d_formations m);
  pr_tokens : owned_rep "token_id" json_dec (pg_rows c "enrollment_tokens") (d_tokens m);
  pr_sinks : owned_rep "sink_id" json_dec (pg_rows c "cdc_sinks") (d_sinks m);
  pr_idps : owned_rep "idp_id" json_dec (pg_rows c "idp_configs") (d_idps m);
  pr_rules : owned_rep "rule_id" json_dec (pg_rows c "policy_rules") (d_rules m);
  pr_genesis : owned_rep "app_id" bytes_dec (pg_rows c "genesis") (d_genesis m);
  pr_audit : rows_rep ["org_id"; "audit_id"]%string enca "data" json_dec audit_extra
    (pg_rows c "enrollment_audit") (d_audit m);
  pr_cursors : rows_rep ["org_id"; "app_id"; "document_id"]%string encc "change_hash" text_dec
    no_extra (pg_rows c "cdc_cursors") (d_cursors m);
  pu_formations : under (d_orgs m) (d_formations m);
  pu_tokens : under (d_orgs m) (d_tokens m);
  pu_sinks : under (d_orgs m) (d_sinks m);
  pu_idps : under (d_orgs m) (d_idps m);
  pu_rules : under (d_orgs m) (d_rules m);
  pu_genesis : under (d_orgs m) (d_genesis m);
  pu_audit : under (d_orgs m) (d_audit m);
  pu_cursors : under (d_orgs m) (d_cursors m);
}.

Lemma unchanged_rep c c' m : unchanged c c' → pg_rep c m → pg_rep c' m.
Proof.
  intros Hu []. constructor; try done; intros *; try rewrite (proj1 (Hu _));
    try rewrite (proj2 (Hu _)); done.
Qed.

(** Table [t] now holds the rows [tbl]. *)
Definition holds (t : string) (tbl : rows) : C → C → Prop := changes_rows t (λ _, tbl).

(** *** The foreign keys *)
Lemma refers_orgs c m t' t f :
  pg_rep c m → refers c t' t f →
  t = "orgs"%string ∧ t' ≠ "orgs"%string ∧
  f = {| fk_column := "org_id"; fk_table := "orgs"; fk_key := "org_id" |}.
Proof.
  intros Hr (s & Es & Ef & <-). rewrite (pr_schema _ _ Hr) in Es.
  apply elem_of_list_to_map_2 in Es. unfold schemas in Es.
  repeat (apply elem_of_cons in Es as [[= -> ->]|Es];
    [vm_compute in Ef; first [discriminate Ef|injection Ef as <-; by split_and!]|]).
  by apply not_elem_of_nil in Es.
Qed.

Lemma parent_exists c m s r o :
  pg_rep c m → foreign_key_of s = org_reference → has_parent c s r →
  column_text r "org_id" = Some o → is_Some (d_orgs m !! o).
Proof.
  unfold has_parent. intros Hr -> (o' & k & p & Eo & Ep & Epo) Er. cbn in *.
  destruct (rows_find _ _ _ _ _ _ _ _ _ (pr_orgs _ _ Hr) Ep) as (i & v & _ & Ev & Hk & _).
  apply key_of_head in Hk. cbn in Hk. replace o with i by congruence. eauto.
Qed.

(** *** Statements, for any table *)
Section Statements.
Context `{Countable K} {V : Type} (t : string) (s : table_schema).
Context (enc : K → list string) (col : string) (dec : sql_value → V → Prop).
Context (extra : K → V → row → Prop).
Implicit Types mm : gmap K V.
#[local] Abbreviation rep := (rows_rep (primary_key s) enc col dec extra).
#[local] Abbreviation ok := (row_ok (primary_key s) enc col dec extra).

Lemma insert_holds cols vs k v rp c c' mm :
  pg_run (INSERT t cols) vs c = (Ok rp, c') → pg_schema c t = Some s → rep (pg_rows c t) mm →
  ok k v (new_row pg_jsonb cols vs) →
  ∃ tbl, holds t tbl c c' ∧ rep tbl (<[k := v]> mm) ∧ has_parent c s (new_row pg_jsonb cols vs).
Proof.
  intros E Es Hr Hk. destruct (pg_insert _ _ _ _ _ _ _ E Es) as (ks & Hks & Hnone & Hp & Hc).
  assert (ks = enc k) as -> by (destruct Hk as [Hk _]; congruence).
  eexists. split_and!; [exact Hc| |done]. by apply rows_put_fresh.
Qed.

Lemma upsert_holds `{!Inj (=) (=) enc} cols vs k v rp c c' mm :
  pg_run (UPSERT t cols (primary_key s) col) vs c = (Ok rp, c') → pg_schema c t = Some s →
  rep (pg_rows c t) mm → ok k v (new_row pg_jsonb cols vs) → col ∉ primary_key s →
  (∀ r, extra k v r) →
  ∃ tbl, holds t tbl c c' ∧ rep tbl (<[k := v]> mm) ∧
         (mm !! k = None → has_parent c s (new_row pg_jsonb cols vs)).
Proof.
  intros E Es Hr Hk Hcol Hx.
  destruct (pg_upsert _ _ _ _ _ _ _ _ E Es) as (ks & x & Hks & Hset & Hp & Hc).
  pose proof Hk as (Hkey & (x' & Hx' & Hd) & _).
  assert (ks = enc k) as -> by congruence. assert (x' = x) as -> by congruence.
  eexists. split_and!; [exact Hc| |].
  - apply rows_put; [done| |]; [|intros j _; apply inj; apply _].
    destruct (pg_rows c t !! enc k) as [old|] eqn:Eo; [|done].
    destruct (rows_find _ _ _ _ _ _ _ _ _ Hr Eo) as (j & w & Ej & _ & Hj & _).
    split_and!; [|exists x; by rewrite lookup_insert_eq|done].
    rewrite (key_of_insert _ _ _ _ Hcol). congruence.
  - intros Ek. apply Hp. destruct (pg_rows c t !! enc k) eqn:Eo; [|done].
    destruct (rows_find _ _ _ _ _ _ _ _ _ Hr Eo) as (j & w & Ej%(inj enc) & ? & _). congruence.
Qed.

Lemma update_holds `{!Inj (=) (=) enc} k x v rp c c' mm :
  pg_run (UPDATE t col (primary_key s)) ((VText <$> enc k) ++ [x]) c = (Ok rp, c') →
  pg_schema c t = Some s → rep (pg_rows c t) mm → col ∉ primary_key s →
  dec (stored pg_jsonb x) v → (∀ k v r, extra k v r) →
  ∃ tbl, holds t tbl c c' ∧
         rep tbl (if decide (is_Some (mm !! k)) then <[k := v]> mm else mm).
Proof.
  intros E Es Hr Hcol Hd Hx. pose proof (pg_update _ _ _ _ _ _ _ _ _ E Es Hcol) as Hc.
  eexists. split; [exact Hc|].
  replace (if decide _ then _ else _) with (alter (λ _, v) k mm).
  - apply rows_update; try done. intros i w r Ei (Hkey & _).
    rewrite matches_key, Hkey, bool_decide_eq_true. split; [|by intros ->].
    by intros [= ->%(inj enc)].
  - case_decide as Hk.
    + destruct Hk as [w Ew]. apply map_eq. intros i. destruct (decide (i = k)) as [->|].
      * by rewrite lookup_alter_eq, Ew, lookup_insert_eq.
      * by rewrite lookup_alter_ne, lookup_insert_ne.
    + apply alter_id. intros w Ew. destruct Hk. eauto.
Qed.

(** The rows a deletion selects. *)
Lemma selected_row `{!Inj (=) (=) enc} k tbl mm :
  rep tbl mm →
  (0 <? Z.of_nat (size (filter (λ kr, matches (primary_key s) (enc k) kr.2 = true) tbl)))
  = bool_decide (is_Some (mm !! k)).
Proof.
  intros Hr. apply eq_true_iff_eq. rewrite Z.ltb_lt, bool_decide_eq_true. split.
  - intros Hpos. set (hits := filter _ tbl) in Hpos.
    destruct (map_choose hits) as (ks & r & Hin). { intros ->. by rewrite map_size_empty in Hpos. }
    apply map_lookup_filter_Some in Hin as [Er Hm]. cbn in Hm.
    destruct (rows_find _ _ _ _ _ _ _ _ _ Hr Er) as (i & v & <- & Ei & Hkey & _).
    rewrite matches_key, Hkey, bool_decide_eq_true in Hm.
    injection Hm as ->%(inj enc). eauto.
  - intros [v Ev]. destruct (rr_of _ _ _ _ _ _ _ Hr _ _ Ev) as (r & Er & Hkey & _).
    destruct (decide (size (filter (λ kr, matches (primary_key s) (enc k) kr.2 = true) tbl) = 0%nat))
      as [E|]; [|lia].
    apply map_size_empty_inv in E. exfalso. apply (lookup_empty_Some (M := gmap _) (enc k) r).
    rewrite <-E. apply map_lookup_filter_Some. split; [done|]. cbn.
    by rewrite matches_key, Hkey, bool_decide_eq_true.
Qed.

(** A deletion from a table that no table refers to. *)
Lemma delete_holds `{!Inj (=) (=) enc} k rp c c' m mm :
  pg_run (DELETE t (primary_key s)) (VText <$> enc k) c = (Ok rp, c') → pg_rep c m →
  t ≠ "orgs"%string → rep (pg_rows c t) mm →
  (∃ n, rp = Affected n ∧ (0 <? n) = bool_decide (is_Some (mm !! k))) ∧
  ∃ tbl, holds t tbl c c' ∧ rep tbl (delete k mm).
Proof.
  intros E Hm Ht Hr. destruct (pg_delete _ _ _ _ _ _ E) as [-> Hc].
  { by intros t1 t2 f g (-> & _)%(refers_orgs _ _ _ _ _ Hm). }
  split. { eexists. split; [done|]. by apply selected_row. }
  exists (pg_rows c' t). split.
  - intros t'. destruct (Hc t') as [Es Hrows]. split; [done|].
    case_decide as Ht'; [by subst|]. apply map_eq. intros ks. apply option_eq. intros r.
    rewrite Hrows. split; [by intros (? & _)|]. intros Er. split_and!; [done|done|].
    by intros f (-> & _)%(refers_orgs _ _ _ _ _ Hm).
  - rewrite <-filter_not_key. eapply (rows_filter _ _ _ _ _ (pg_rows c t) _ mm
      (λ r, matches (primary_key s) (enc k) r = false)); [done| |].
    + intros ks r. rewrite (proj2 (Hc t)). split; [naive_solver|].
      intros [Er Hf]. split_and!; [done|done|].
      by intros f (-> & _)%(refers_orgs _ _ _ _ _ Hm).
    + intros i v r Ei (Hkey & _). rewrite matches_key, Hkey, bool_decide_eq_false.
      cbn. split; [by intros Hn ->; apply Hn|]. intros Hn [= ->%(inj enc)]. by apply Hn.
Qed.

Lemma select_hits cond ws order lim rp c c' mm (P : K * V → Prop) `{∀ kv, Decision (P kv)} :
  pg_run (SELECT col t cond order (bool_decide (is_Some lim)))
    ((VText <$> ws) ++ option_list (VInt <$> lim)) c = (Ok rp, c') →
  rep (pg_rows c t) mm →
  (∀ k v r, mm !! k = Some v → ok k v r → matches cond ws r = true ↔ P (k, v)) →
  unchanged c c' ∧ ∃ hits kvs, kvs ≡ₚ map_to_list (filter P mm) ∧
    Forall2 (λ r kv, ok kv.1 kv.2 r) hits kvs ∧
    from_option (λ o, StronglySorted (by_column o) hits) True order ∧
    match lim with
    | Some n => 0 ≤ n ∧ rp = Selected (omap (.!! col) (take (Z.to_nat n) hits))
    | None => rp = Selected (omap (.!! col) hits)
    end.
Proof.
  intros E Hr HP. destruct (pg_select _ _ _ _ _ _ _ _ _ E) as (Hu & hits & Hh & Hs & Hrp).
  destruct (rows_select _ _ _ _ _ _ _ _ _ P _ Hr HP Hh) as (kvs & Hk & Hf).
  split; [done|]. by exists hits, kvs.
Qed.

Lemma get_all_ok (get : sql_value → Result V) rs kvs :
  (∀ x v, dec x v → get x = Ok v) → Forall2 (λ r kv, ok kv.1 kv.2 r) rs kvs →
  get_all get (omap (.!! col) rs) = Ok kvs.*2.
Proof.
  intros Hg Hf. induction Hf as [|r [k v] rs kvs (_ & (x & Ex & Hd) & _) _ IH]; [done|].
  cbn in *. rewrite Ex. cbn. by rewrite (Hg _ _ Hd), IH.
Qed.
End Statements.

(** *** What a method's contract asks of its outcome *)
Definition outcome {A} (Q : A → db → Prop) m (out : Result A * C) : Prop :=
  match out.1 with
  | Ok x => ∃ m', Q x m' ∧ pg_rep out.2 m'
  | Err _ => pg_rep out.2 m
  end.

Lemma query_outcome {A} (Q : A → db → Prop) m st ps (k : reply → Result A) c :
  pg_rep c m →
  (∀ rp c', pg_run st ps c = (Ok rp, c') → outcome Q m (k rp, c')) →
  outcome Q m (query st ps k c).
Proof.
  intros Hr Hk. unfold query. destruct (pg_run st ps c) as [[rp|e] c'] eqn:E; [by apply Hk|].
  unfold outcome. cbn. eapply unchanged_rep; [|done]. by eapply pg_failed.
Qed.

Lemma with_document_outcome {A B} `{!SerdeValue A, !SerdeValueLaws A pg_jsonb}
    (Q : B → db → Prop) m (x : A) k c :
  (∀ v, json_dec (stored pg_jsonb (VJson v)) x → outcome Q m (k (VJson v) c)) →
  outcome Q m (with_document x k c).
Proof.
  intros Hk. unfold with_document.
  destruct (to_value_from_value (jsonb := pg_jsonb) x) as (v & -> & E). apply Hk. by exists (pg_jsonb v).
Qed.

Section Outcomes.
Context `{Countable K} {V : Type} (t : string) (s : table_schema).
Context (enc : K → list string) (col : string) (dec : sql_value → V → Prop).
Context (extra : K → V → row → Prop) (mm : gmap K V).
#[local] Abbreviation rep := (rows_rep (primary_key s) enc col dec extra).
#[local] Abbreviation ok := (row_ok (primary_key s) enc col dec extra).

Lemma insert_outcome (Q : unit → db → Prop) cols vs o k v c m :
  pg_rep c m → pg_schema c t = Some s → foreign_key_of s = org_reference → rep (pg_rows c t) mm →
  ok k v (new_row pg_jsonb cols vs) →
  column_text (new_row pg_jsonb cols vs) "org_id" = Some o →
  (∀ c' tbl, holds t tbl c c' → rep tbl (<[k := v]> mm) → is_Some (d_orgs m !! o) →
     ∃ m', Q tt m' ∧ pg_rep c' m') →
  outcome Q m (execute (INSERT t cols) vs c).
Proof.
  intros Hm Es Ef Hr Hk Ho HQ. apply query_outcome; [done|]. intros rp c' E.
  destruct (insert_holds _ _ _ _ _ _ _ _ _ _ _ _ _ _ E Es Hr Hk) as (tbl & Hc & Hr' & Hp).
  eapply HQ; [done..|]. by eapply parent_exists.
Qed.

Lemma upsert_outcome `{!Inj (=) (=) enc} (Q : unit → db → Prop) cols vs o k v c m :
  pg_rep c m → pg_schema c t = Some s → foreign_key_of s = org_reference → rep (pg_rows c t) mm →
  ok k v (new_row pg_jsonb cols vs) → col ∉ primary_key s → (∀ r, extra k v r) →
  column_text (new_row pg_jsonb cols vs) "org_id" = Some o →
  (is_Some (mm !! k) → is_Some (d_orgs m !! o)) →
  (∀ c' tbl, holds t tbl c c' → rep tbl (<[k := v]> mm) → is_Some (d_orgs m !! o) →
     ∃ m', Q tt m' ∧ pg_rep c' m') →
  outcome Q m (execute (UPSERT t cols (primary_key s) col) vs c).
Proof.
  intros Hm Es Ef Hr Hk Hcol Hx Ho Hu HQ. apply query_outcome; [done|]. intros rp c' E.
  destruct (upsert_holds _ _ _ _ _ _ _ _ _ _ _ _ _ _ E Es Hr Hk Hcol Hx) as (tbl & Hc & Hr' & Hp).
  eapply HQ; [done..|]. destruct (mm !! k) eqn:Ek; [by apply Hu|].
  eapply parent_exists; eauto.
Qed.

Lemma update_outcome `{!Inj (=) (=) enc} (Q : unit → db → Prop) k x v c m :
  pg_rep c m → pg_schema c t = Some s → rep (pg_rows c t) mm → col ∉ primary_key s →
  dec (stored pg_jsonb x) v → (∀ k v r, extra k v r) →
  (∀ c' tbl, holds t tbl c c' →
     (is_Some (mm !! k) → rep tbl (<[k := v]> mm) → ∃ m', Q tt m' ∧ pg_rep c' m') ∧
     (mm !! k = None → rep tbl mm → ∃ m', Q tt m' ∧ pg_rep c' m')) →
  outcome Q m (execute (UPDATE t col (primary_key s)) ((VText <$> enc k) ++ [x]) c).
Proof.
  intros Hm Es Hr Hcol Hd Hx HQ. apply query_outcome; [done|]. intros rp c' E.
  destruct (update_holds _ _ _ _ _ _ _ _ _ _ _ _ _ E Es Hr Hcol Hd Hx) as (tbl & Hc & Hr').
  destruct (HQ _ _ Hc) as [Hyes Hno]. case_decide as Hk; [by apply Hyes|].
  apply Hno; [|done]. by apply eq_None_not_Some.
Qed.

Lemma delete_outcome `{!Inj (=) (=) enc} (Q : bool → db → Prop) k c m :
  pg_rep c m → t ≠ "orgs"%string → rep (pg_rows c t) mm →
  (∀ c' tbl, holds t tbl c c' → rep tbl (delete k mm) →
     ∃ m', Q (bool_decide (is_Some (mm !! k))) m' ∧ pg_rep c' m') →
  outcome Q m (execute_affected (DELETE t (primary_key s)) (VText <$> enc k) c).
Proof.
  intros Hm Ht Hr HQ. apply query_outcome; [done|]. intros rp c' E.
  destruct (delete_holds _ _ _ _ _ _ _ _ _ _ _ _ E Hm Ht Hr) as [(n & -> & En) (tbl & Hc & Hr')].
  unfold outcome. cbn. rewrite En. by eapply HQ.
Qed.

Lemma get_outcome `{!Inj (=) (=) enc} (get : sql_value → Result V) k c m :
  pg_rep c m → rep (pg_rows c t) mm → (∀ x v, dec x v → get x = Ok v) →
  outcome (λ r m', r = mm !! k ∧ m' = m) m
    (fetch_optional get (SELECT col t (primary_key s) None false) (VText <$> enc k) c).
Proof.
  intros Hm Hr Hg. apply query_outcome; [done|]. intros rp c' E.
  destruct (select_hits t s enc col dec extra (primary_key s) (enc k) None None rp c c' mm
    (λ kv, kv.1 = k)) as (Hu & hits & kvs & Hk & Hf & _ & ->); [by rewrite app_nil_r|done| |].
  { intros i v r _ (Hkey & _). rewrite matches_key, Hkey, bool_decide_eq_true. cbn.
    split; [|by intros ->]. by intros [= ->%(inj enc)]. }
  rewrite filter_key in Hk. apply unchanged_rep with (m := m) in Hu; [|done].
  unfold outcome. cbn. destruct (mm !! k) as [v|].
  - rewrite map_to_list_singleton in Hk. apply Permutation_singleton_r in Hk. subst kvs.
    apply Forall2_cons_inv_r in Hf as (r & rs & (_ & (x & Ex & Hd) & _) & Hnil & ->). cbn in *.
    rewrite Ex. cbn. rewrite (Hg _ _ Hd). cbn. eauto.
  - rewrite map_to_list_empty in Hk. apply Permutation_nil_r in Hk. subst kvs.
    apply Forall2_nil_inv_r in Hf as ->. cbn. eauto.
Qed.

Lemma list_outcome {A} (f : list V → A) (get : sql_value → Result V) cond ws order
    (P : K * V → Prop) `{∀ kv, Decision (P kv)} c m :
  pg_rep c m → rep (pg_rows c t) mm → (∀ x v, dec x v → get x = Ok v) →
  (∀ k v r, mm !! k = Some v → ok k v r → matches cond ws r = true ↔ P (k, v)) →
  outcome (λ r m', (∃ l, l ≡ₚ (map_to_list (filter P mm)).*2 ∧ r = f l) ∧ m' = m) m
    (query (SELECT col t cond order false) (VText <$> ws)
      (λ r, result_map f (get_all get (rows_of_reply r))) c).
Proof.
  intros Hm Hr Hg HP. apply query_outcome; [done|]. intros rp c' E.
  destruct (select_hits t s enc col dec extra cond ws order None rp c c' mm P)
    as (Hu & hits & kvs & Hk & Hf & _ & ->); [by rewrite app_nil_r|done..|].
  unfold outcome. cbn. rewrite (get_all_ok _ _ _ _ _ _ _ _ Hg Hf). cbn. exists m.
  split; [|by eapply unchanged_rep]. split; [|done]. exists kvs.*2. split; [by apply Permutation_map|done].
Qed.
End Outcomes.

Lemma outcome_mono {A} (Q Q' : A → db → Prop) m out :
  (∀ x m', Q x m' → Q' x m') → outcome Q m out → outcome Q' m out.
Proof. intros HQ. unfold outcome. destruct out.1; naive_solver. Qed.

Lemma query_ext {A} st ps (k k' : reply → Result A) c :
  (∀ r, k r = k' r) → query st ps k c = query st ps k' c.
Proof. intros Hk. unfold query. by destruct (pg_run st ps c) as [[r|e] c']; rewrite ?Hk. Qed.

Lemma fetch_all_outcome `{Countable K} {A} `{!SerdeValue A} (t : string) s enc extra (mm : gmap K A) cond ws
    order (P : K * A → Prop) `{∀ kv, Decision (P kv)} c m :
  pg_rep c m → rows_rep (primary_key s) enc "data" json_dec extra (pg_rows c t) mm →
  (∀ k v r, mm !! k = Some v → row_ok (primary_key s) enc "data" json_dec extra k v r →
     matches cond ws r = true ↔ P (k, v)) →
  outcome (λ r m', r ≡ₚ (map_to_list (filter P mm)).*2 ∧ m' = m) m
    (fetch_all (SELECT "data" t cond order false) (VText <$> ws) c).
Proof.
  intros Hm Hr HP. unfold fetch_all. rewrite (query_ext _ _ _
    (λ r, result_map id (get_all get_document (rows_of_reply r)))).
  - eapply outcome_mono; [|by eapply (list_outcome t s enc "data" json_dec extra mm id
      get_document cond ws order P _ _ Hm Hr get_document_ok)].
    by intros x m' [(l & ? & ->) ->].
  - intros r. by destruct (get_all get_document _).
Qed.

(** The rows of an organization. *)
Lemma matches_org `{Countable K} {V} pk (enc : K → list string) col dec extra k (v : V) r o :
  row_ok ("org_id"%string :: pk) enc col dec extra k v r →
  matches ["org_id"%string] [o] r = true ↔ head (enc k) = Some o.
Proof.
  intros (Hk%key_of_head & _). cbn. rewrite Hk, andb_true_r. by rewrite bool_decide_eq_true.
Qed.

Lemma matches_owned {V} id col dec (k : string * string) (v : V) r o :
  row_ok ["org_id"%string; id] enc2 col dec no_extra k v r →
  matches ["org_id"%string] [o] r = true ↔ org_of k = o.
Proof.
  intros Hk%(matches_org _ _ _ _ _ _ _ _ o). rewrite Hk. cbn. unfold org_of, org_key_2.
  split; [by intros [= ->]|by intros ->].
Qed.

Lemma list_owned_outcome {A} `{!SerdeValue A} (t id : string) (ty : sql_type) (mm : gmap (string * string) A) order o c m :
  pg_rep c m → owned_rep id json_dec (pg_rows c t) mm →
  outcome (λ r m', listing o mm r ∧ m' = m) m
    (fetch_all (SELECT "data" t ["org_id"%string] order false) [VText o] c).
Proof.
  intros Hm Hr. apply (fetch_all_outcome t (owned_schema id ty) enc2 no_extra mm _ [o]); [done..|].
  intros k v r _. apply matches_owned.
Qed.

(** *** The trait *)
Lemma schema_of c m t s : pg_rep c m → declared !! t = Some s → pg_schema c t = Some s.
Proof. intros Hr <-. apply Hr. Qed.

(** One table changed by [Hc]; the other eight are as before. *)
Local Ltac field Hc :=
  first [ assumption
        | rewrite (proj2 (Hc _)), decide_True by done; assumption
        | rewrite (proj2 (Hc _)), decide_False by done; assumption
        | apply under_put; [first [assumption|eapply under_present; eassumption]|assumption]
        | apply under_more; assumption
        | rewrite <-filter_not_key; apply under_filter; assumption ].
Local Ltac one_table Hr Hc :=
  cbn [snd]; destruct Hr; constructor; [by intros t; rewrite (proj1 (Hc t))|cbn; field Hc..].
Local Ltac table Hr :=
  first [ refine (schema_of _ _ _ _ Hr _); reflexivity
        | exact (pr_orgs _ _ Hr) | exact (pr_formations _ _ Hr) | exact (pr_tokens _ _ Hr)
        | exact (pr_sinks _ _ Hr) | exact (pr_idps _ _ Hr) | exact (pr_rules _ _ Hr)
        | exact (pr_genesis _ _ Hr) | exact (pr_audit _ _ Hr) | exact (pr_cursors _ _ Hr) ].
Local Ltac new_row_ok :=
  split; [vm_compute; reflexivity|split; [eexists; split; [vm_compute; reflexivity|done]|try exact I]].

Local Ltac insert_op Hr S D K :=
  apply with_document_outcome; intros v Hv;
  eapply (insert_outcome _ S enc2 "data" D no_extra _ _ _ _ _ K);
  [exact Hr|table Hr|reflexivity|table Hr|new_row_ok|vm_compute; reflexivity|];
  intros c' tbl Hc Ht Ho; eexists; split; [reflexivity|one_table Hr Hc].
Local Ltac update_op Hr S E D K :=
  apply with_document_outcome; intros v Hv;
  eapply (update_outcome _ S E "data" D no_extra _ _ K);
  [exact Hr|table Hr|table Hr|cbn; set_solver|exact Hv|done|];
  intros c' tbl Hc; split; intros Hk Ht; eexists;
  [split; [by left|]|split; [by right|]].
Local Ltac delete_op Hr S D K :=
  eapply (delete_outcome _ S enc2 "data" D no_extra _ _ K);
  [exact Hr|done|table Hr|];
  intros c' tbl Hc Ht; eexists; split; [split; [reflexivity|reflexivity]|one_table Hr Hc].
Local Ltac get_op Hr S E D K :=
  eapply (get_outcome _ S E _ D no_extra _ _ K);
  [exact Hr|table Hr|first [apply get_document_ok|apply get_bytes_ok|apply get_text_ok]].

Lemma create_org_outcome org m c :
  pg_rep c m → outcome (spec (CreateOrg org) m) m (create_org org c).
Proof.
  intros Hr. apply with_document_outcome. intros v Hv.
  apply query_outcome; [done|]. intros rp c' E.
  destruct (insert_holds "orgs" orgs_schema enc1 "data" json_dec no_extra _ _ (o_org_id org) org
    _ _ _ _ E (schema_of c m "orgs" orgs_schema Hr eq_refl) (pr_orgs _ _ Hr)) as (tbl & Hc & Ht & _);
    [new_row_ok|].
  eexists. split; [reflexivity|one_table Hr Hc].
Qed.


Lemma update_org_outcome org m c :
  pg_rep c m → outcome (spec (UpdateOrg org) m) m (update_org org c).
Proof.
  intros Hr. update_op Hr orgs_schema enc1 (@json_dec Organization _) (o_org_id org);
    one_table Hr Hc.
Qed.

(** The methods on the rows of an organization that have one shape for every table. *)
Definition regular {R} (op : StoreOp R) : bool :=
  match op with
  | CreateOrg _ | GetOrg _ | ListOrgs | UpdateOrg _ | DeleteOrg _ | ListTokens _ _
  | AppendAudit _ | ListAudit _ _ _ | StoreGenesis _ _ _ | GetCursor _ _ _ | SetCursor _ _ _ _ =>
      false
  | _ => true
  end.
Lemma regular_outcome {R} (op : StoreOp R) m c :
  regular op = true → pg_rep c m → outcome (spec op m) m (handle op c).
Proof.
  intros Hop Hr. destruct op; try discriminate Hop; clear Hop.
  - insert_op Hr (owned_schema "app_id" JSONB) (@json_dec FormationConfig _) (org_id, f_app_id formation).
  - get_op Hr (owned_schema "app_id" JSONB) enc2 (@json_dec FormationConfig _) (org_id, app_id).
  - exact (list_owned_outcome _ "app_id" JSONB _ _ _ _ _ Hr (pr_formations _ _ Hr)).
  - delete_op Hr (owned_schema "app_id" JSONB) (@json_dec FormationConfig _) (org_id, app_id).
  - insert_op Hr (owned_schema "token_id" JSONB) (@json_dec EnrollmentToken _) (t_org_id token, t_token_id token).
  - get_op Hr (owned_schema "token_id" JSONB) enc2 (@json_dec EnrollmentToken _) (org_id, token_id).
  - update_op Hr (owned_schema "token_id" JSONB) enc2 (@json_dec EnrollmentToken _)
      (t_org_id token, t_token_id token); one_table Hr Hc.
  - delete_op Hr (owned_schema "token_id" JSONB) (@json_dec EnrollmentToken _) (org_id, token_id).
  - insert_op Hr (owned_schema "sink_id" JSONB) (@json_dec CdcSinkConfig _) (s_org_id sink, s_sink_id sink).
  - get_op Hr (owned_schema "sink_id" JSONB) enc2 (@json_dec CdcSinkConfig _) (org_id, sink_id).
  - exact (list_owned_outcome _ "sink_id" JSONB _ _ _ _ _ Hr (pr_sinks _ _ Hr)).
  - update_op Hr (owned_schema "sink_id" JSONB) enc2 (@json_dec CdcSinkConfig _)
      (s_org_id sink, s_sink_id sink); one_table Hr Hc.
  - delete_op Hr (owned_schema "sink_id" JSONB) (@json_dec CdcSinkConfig _) (org_id, sink_id).
  - insert_op Hr (owned_schema "idp_id" JSONB) (@json_dec IdpConfig _) (i_org_id idp, i_idp_id idp).
  - get_op Hr (owned_schema "idp_id" JSONB) enc2 (@json_dec IdpConfig _) (org_id, idp_id).
  - exact (list_owned_outcome _ "idp_id" JSONB _ _ _ _ _ Hr (pr_idps _ _ Hr)).
  - update_op Hr (owned_schema "idp_id" JSONB) enc2 (@json_dec IdpConfig _)
      (i_org_id idp, i_idp_id idp); one_table Hr Hc.
  - delete_op Hr (owned_schema "idp_id" JSONB) (@json_dec IdpConfig _) (org_id, idp_id).
  - insert_op Hr (owned_schema "rule_id" JSONB) (@json_dec PolicyRule _) (r_org_id rule, r_rule_id rule).
  - exact (list_owned_outcome _ "rule_id" JSONB _ _ _ _ _ Hr (pr_rules _ _ Hr)).
  - delete_op Hr (owned_schema "rule_id" JSONB) (@json_dec PolicyRule _) (org_id, rule_id).
  - get_op Hr (owned_schema "app_id" BYTEA) enc2 bytes_dec (org_id, app_id).
  - delete_op Hr (owned_schema "app_id" BYTEA) bytes_dec (org_id, app_id).
Qed.

Lemma append_audit_outcome e m c :
  pg_rep c m → u64 (a_timestamp_ms e) → outcome (spec (AppendAudit e) m) m (append_audit e c).
Proof.
  intros Hr Ht. apply with_document_outcome. intros v Hv.
  eapply (insert_outcome _ audit_schema enca "data" json_dec audit_extra _ _ _ _ _
    (a_org_id e, a_timestamp_ms e, a_audit_id e));
    [exact Hr|table Hr|reflexivity|table Hr| |vm_compute; reflexivity|].
  - unfold row_ok, audit_extra. cbn [fst snd]. generalize (as_i64 (a_timestamp_ms e)) as ts.
    intros ts. new_row_ok. split; [vm_compute; reflexivity|split; [vm_compute; reflexivity|apply Ht]].
  - intros c' tbl Hc Htbl Ho. eexists. split; [reflexivity|one_table Hr Hc].
Qed.

Lemma pg_store_genesis_outcome o a b m c :
  pg_rep c m → outcome (spec (StoreGenesis o a b) m) m (store_genesis o a b c).
Proof.
  intros Hr. eapply (upsert_outcome _ (owned_schema "app_id" BYTEA) enc2 "data" bytes_dec no_extra
    _ _ _ _ _ (o, a));
    [exact Hr|table Hr|reflexivity|table Hr|new_row_ok|cbn; set_solver|done
    |vm_compute; reflexivity| |].
  - intros Hk. exact (under_present _ _ (o, a) Hk (pu_genesis _ _ Hr)).
  - intros c' tbl Hc Ht Ho. eexists. split; [reflexivity|one_table Hr Hc].
Qed.

Lemma pg_set_cursor_outcome o a d h m c :
  pg_rep c m → outcome (spec (SetCursor o a d h) m) m (set_cursor o a d h c).
Proof.
  intros Hr. eapply (upsert_outcome _ cursors_schema encc "change_hash" text_dec no_extra
    _ _ _ _ _ (o, a, d));
    [exact Hr|table Hr|reflexivity|table Hr|new_row_ok|cbn; set_solver|done
    |vm_compute; reflexivity| |].
  - intros Hk. exact (under_present _ _ (o, a, d) Hk (pu_cursors _ _ Hr)).
  - intros c' tbl Hc Ht Ho. eexists. split; [reflexivity|one_table Hr Hc].
Qed.

Lemma pg_list_orgs_outcome m c : pg_rep c m → outcome (spec ListOrgs m) m (list_orgs c).
Proof.
  intros Hr.
  pose proof (fetch_all_outcome "orgs" orgs_schema enc1 no_extra (d_orgs m) [] []
    (Some ("org_id"%string, false)) (λ _, True) _ _ Hr (pr_orgs _ _ Hr)) as Hout.
  eapply outcome_mono, Hout; [|done]. intros r m' [Hp ->]. split; [|done].
  rewrite Hp. by rewrite (map_filter_id (λ _, True)).
Qed.

Lemma pg_list_tokens_outcome o a m c :
  pg_rep c m → outcome (spec (ListTokens o a) m) m (list_tokens o a c).
Proof.
  intros Hr. unfold list_tokens. rewrite (query_ext _ _ _ (λ r, result_map
    (filter (λ t, t_app_id t = a)) (get_all get_document (rows_of_reply r)))).
  2: { intros r. by destruct (get_all get_document _). }
  exact (list_outcome _ (owned_schema "token_id" JSONB) enc2 "data" json_dec no_extra (d_tokens m)
    (filter (λ t, t_app_id t = a)) get_document ["org_id"%string] [o] _
    (λ kv, org_of kv.1 = o) _ _ Hr (pr_tokens _ _ Hr) get_document_ok
    (λ k v r _ Hk, matches_owned _ _ _ _ _ _ o Hk)).
Qed.

(** *** The audit log *)
Lemma newer_rows hits kvs :
  Forall2 (λ r kv, audit_extra kv.1 kv.2 r) hits kvs → Forall (λ kv, kv.1.1.2 < 2 ^ 63) kvs →
  StronglySorted (by_column ("timestamp_ms"%string, true)) hits → StronglySorted newer kvs.
Proof.
  intros Hf Hs Hsort. induction Hf as [|r kv rs kvs (_ & Hr & Hpos) Hf IH]; [constructor|].
  apply Forall_cons in Hs as [Hlt Hs]. apply StronglySorted_inv in Hsort as [Hsort Hall].
  constructor; [by apply IH|]. rewrite Forall_forall in Hs. apply Forall_forall.
  intros kv' Hin. pose proof (Hs _ Hin) as Hlt'.
  apply list_elem_of_lookup in Hin as [i Hi].
  destruct (Forall2_lookup_r _ _ _ _ _ Hf Hi) as (r' & Er' & _ & Hr' & Hpos').
  pose proof (proj1 (Forall_forall _ _) Hall r' (list_elem_of_lookup_2 _ _ _ Er') _ _ Hr Hr') as Hts.
  cbn in Hts, Hlt'.
  unfold newer. rewrite !as_i64_small in Hts by lia. lia.
Qed.

Lemma audit_select_outcome o app cond ws limit m c :
  pg_rep c m → u64 limit →
  (∀ k v r, row_ok ["org_id"; "audit_id"]%string enca "data" json_dec audit_extra k v r →
     matches cond ws r = true ↔ audit_match o app (k, v)) →
  outcome (spec (ListAudit o app limit) m) m
    (fetch_all (SELECT "data" "enrollment_audit" cond (Some ("timestamp_ms"%string, true)) true)
       ((VText <$> ws) ++ [VInt (as_i64 limit)]) c).
Proof.
  intros Hr Hlim HP. apply query_outcome; [done|]. intros rp c' E.
  destruct (select_hits "enrollment_audit" audit_schema enca "data" json_dec audit_extra cond ws
    _ (Some (as_i64 limit)) rp c c' (d_audit m) (audit_match o app) E (pr_audit _ _ Hr))
    as (Hu & hits & kvs & Hk & Hf & Hs & Hn & ->); [by eauto|].
  rewrite (as_i64_nonneg limit) in * by done.
  unfold outcome. cbn [fst snd rows_of_reply].
  rewrite (get_all_ok _ _ _ _ _ _ _ _ get_document_ok (Forall2_take _ _ _ (Z.to_nat limit) Hf)).
  exists m. split; [|by eapply unchanged_rep]. split; [|done]. exists kvs. split; [split|by left].
  - done.
  - intros Hlt. eapply newer_rows; [|done|exact Hs].
    eapply Forall2_impl; [exact Hf|]. by intros r kv (_ & _ & ?).
Qed.

Lemma pg_list_audit_outcome o app limit m c :
  pg_rep c m → u64 limit → outcome (spec (ListAudit o app limit) m) m (list_audit o app limit c).
Proof.
  intros Hr Hlim. unfold list_audit. destruct app as [a|].
  - apply (audit_select_outcome o (Some a) ["org_id"; "app_id"]%string [o; a]); [done..|].
    intros k v r Hk. pose proof Hk as (_ & _ & Ha & _). apply matches_org with (o := o) in Hk.
    cbn in Hk |- *. rewrite Ha. unfold audit_match. cbn. rewrite !andb_true_iff in *.
    rewrite !bool_decide_eq_true in *. naive_solver.
  - apply (audit_select_outcome o None ["org_id"]%string [o]); [done..|].
    intros k v r Hk%(matches_org _ _ _ _ _ _ _ _ o). rewrite Hk. unfold audit_match. cbn.
    unfold org_of, org_key_audit. split; [by intros [= ->]|by intros [-> _]].
Qed.

(** *** Deletion of an organization, with its cascade *)
Section Cascade.
Context c c' m (o : string).
Hypothesis Hm : pg_rep c m.
Hypothesis Hc : ∀ t', pg_schema c' t' = pg_schema c t' ∧ ∀ k r,
  pg_rows c' t' !! k = Some r ↔
  pg_rows c t' !! k = Some r ∧ (t' = "orgs"%string → matches ["org_id"%string] [o] r = false) ∧
  (∀ f, refers c t' "orgs" f → ¬ orphaned c "orgs" ["org_id"%string] [o] f r).

Lemma cascade_rows `{Countable K, OrgKey K} {V} t s pk (enc : K → list string) col dec extra
    (mm : gmap K V) :
  t ≠ "orgs"%string → declared !! t = Some s → foreign_key_of s = org_reference →
  (∀ k, head (enc k) = Some (org_of k)) →
  rows_rep ("org_id"%string :: pk) enc col dec extra (pg_rows c t) mm → under (d_orgs m) mm →
  rows_rep ("org_id"%string :: pk) enc col dec extra (pg_rows c' t) (rows_not_of o mm).
Proof.
  intros Ht Es Ef Henc Hr Hu. eapply rows_filter; [exact Hr| |].
  { intros ks r. rewrite (proj2 (Hc t)). split; [intros (? & _ & HP); split; [done|exact HP]|].
    intros [? HP]. by split_and!. }
  intros k v r Ev (Hk%key_of_head & _). rewrite Henc in Hk. cbn. split.
  - intros Hno E. destruct (Hu _ _ Ev) as [org Eorg]. rewrite E in *.
    destruct (rr_of _ _ _ _ _ _ _ (pr_orgs _ _ Hm) _ _ Eorg) as (p & Ep & Hp & _).
    apply (Hno {| fk_column := "org_id"; fk_table := "orgs"; fk_key := "org_id" |}).
    + exists s. rewrite (pr_schema _ _ Hm). by split_and!.
    + exists o, (enc1 o), p. split_and!; [done|done| |by apply key_of_head in Hp].
      by rewrite matches_key, Hp, bool_decide_eq_true.
  - intros Hne f (_ & _ & ->)%(refers_orgs _ _ _ _ _ Hm) (o' & k' & p & Eo & _ & Hmt & Epo).
    cbn in Eo, Epo, Hmt. rewrite Epo, andb_true_r, bool_decide_eq_true in Hmt. congruence.
Qed.

Lemma cascade_orgs :
  rows_rep ["org_id"%string] enc1 "data" json_dec no_extra (pg_rows c' "orgs") (delete o (d_orgs m)).
Proof.
  rewrite <-filter_not_key. eapply rows_filter; [exact (pr_orgs _ _ Hm)| |].
  { intros ks r. rewrite (proj2 (Hc _)). split; [intros (? & HP & _); split; [done|by apply HP]|].
    intros [? HP]. split_and!; [done|by intros _|].
    by intros f (_ & ? & _)%(refers_orgs _ _ _ _ _ Hm). }
  intros k v r _ (Hk & _). rewrite matches_key, Hk, bool_decide_eq_false. cbn.
  split; [by intros Hn ->; apply Hn|]. intros Hn [= ->]. by apply Hn.
Qed.

Lemma cascade_rep : pg_rep c' (drop_org o m).
Proof.
  pose proof cascade_orgs. destruct Hm; constructor.
  { intros t. by rewrite (proj1 (Hc t)). }
  all: try (apply under_drop; assumption). all: try assumption.
  all: eapply cascade_rows; [discriminate|reflexivity|reflexivity|done|eassumption|assumption].
Qed.
End Cascade.

Lemma pg_delete_org_outcome o m c : pg_rep c m → outcome (spec (DeleteOrg o) m) m (delete_org o c).
Proof.
  intros Hr. apply query_outcome; [done|]. intros rp c' E.
  destruct (pg_delete "orgs" ["org_id"%string] [o] _ _ _ E) as [-> Hc].
  { intros t1 t2 f g (_ & Ht & _)%(refers_orgs _ _ _ _ _ Hr) (-> & _)%(refers_orgs _ _ _ _ _ Hr). done. }
  unfold outcome. cbn [fst snd]. exists (drop_org o m). split; [|by eapply cascade_rep].
  split; [|done]. exact (selected_row orgs_schema enc1 _ _ _ o _ _ (pr_orgs _ _ Hr)).
Qed.

(** *** Start-up *)
Definition pg_empty c : Prop := ∀ t, pg_schema c t = None.

Lemma migrations_rep ss c r c' :
  NoDup ss.*1 → (∀ t, t ∈ ss.*1 → pg_schema c t = None) → migrations ss c = (Ok r, c') →
  ∀ t, pg_schema c' t = (match (list_to_map ss : gmap string table_schema) !! t with
                         | Some s => Some s
                         | None => pg_schema c t
                         end) ∧
       pg_rows c' t = if decide (t ∈ ss.*1) then ∅ else pg_rows c t.
Proof.
  revert c. induction ss as [|[t0 s0] ss IH]; intros c Hnd Hfresh E.
  { injection E as <- <-. intros t. split; [reflexivity|]. by rewrite decide_False by set_solver. }
  cbn in E, Hnd, Hfresh. apply NoDup_cons in Hnd as [Hni Hnd].
  unfold execute, query in E.
  destruct (pg_run (CREATE_TABLE t0 s0) [] c) as [[rp|e] c1] eqn:E1; [|discriminate].
  pose proof (pg_create _ _ _ _ _ E1) as Hc. rewrite (Hfresh t0) in Hc by set_solver.
  intros t. destruct (IH c1 Hnd) with (t := t) as [Hs Hrow]; [|exact E|].
  { intros t' Ht'. rewrite (proj1 (Hc t')), decide_False by naive_solver. apply Hfresh. set_solver. }
  rewrite Hs, Hrow, (proj1 (Hc t)), (proj2 (Hc t)). cbn [list_to_map fmap list_fmap].
  destruct (decide (t = t0)) as [->|Hne].
  - cbn. rewrite lookup_insert_eq, (decide_False _ _ Hni), (decide_True (P := t0 ∈ t0 :: _)) by set_solver.
    rewrite not_elem_of_list_to_map_1 by done. done.
  - cbn. rewrite lookup_insert_ne by done. split; [done|]. repeat case_decide; set_solver.
Qed.

(** A first start makes an empty database; a later one keeps the content. *)
Lemma connect_empty c r c' : pg_empty c → connect c = (Ok r, c') → pg_rep c' db_empty.
Proof.
  intros He E. assert (NoDup schemas.*1) as Hnd by (apply (bool_decide_unpack _); vm_compute; done).
  pose proof (migrations_rep schemas c r c' Hnd (λ t _, He t) E) as Hc.
  assert (∀ t, t ∈ schemas.*1 → pg_rows c' t = ∅) as Hrows.
  { intros t Ht. by rewrite (proj2 (Hc t)), decide_True. }
  constructor; try apply under_empty.
  { intros t. rewrite (proj1 (Hc t)). unfold declared. by destruct (_ !! t). }
  all: rewrite Hrows by (apply (bool_decide_unpack _); vm_compute; done); apply rows_empty.
Qed.

Lemma connect_keeps c m r c' : pg_rep c m → connect c = (r, c') → pg_rep c' m.
Proof.
  intros Hr. unfold connect.
  assert (∀ ss c, (∀ t s, (t, s) ∈ ss → is_Some (declared !! t)) → pg_rep c m →
    migrations ss c = (r, c') → pg_rep c' m) as Hgen.
  2: { apply Hgen; [|done]. intros t s Hin. unfold declared. rewrite <-elem_of_dom, dom_list_to_map.
       apply elem_of_list_to_set, list_elem_of_fmap. by exists (t, s). }
  clear c Hr. intros ss. induction ss as [|[t s] ss IH]; intros c Hin Hr E.
  { by injection E as <- <-. }
  cbn in E. unfold execute, query in E.
  destruct (pg_run (CREATE_TABLE t s) [] c) as [[rp|e] c1] eqn:E1.
  - apply (IH c1); [set_solver| |exact E]. pose proof (pg_create _ _ _ _ _ E1) as Hc.
    rewrite (pr_schema _ _ Hr) in Hc. destruct (Hin t s) as [s' Es]; [set_solver|].
    rewrite Es in Hc. by eapply unchanged_rep.
  - injection E as <- <-. eapply unchanged_rep; [by eapply pg_failed|done].
Qed.

(** *** The refinement *)
Lemma pg_outcome {R} (op : StoreOp R) m c :
  pg_rep c m → op_ok op → outcome (spec op m) m (handle op c).
Proof.
  intros Hr Ho. destruct (regular op) eqn:Hreg; [by apply regular_outcome|].
  destruct op; try discriminate Hreg; cbn in Ho; destruct_and?.
  - by apply create_org_outcome.
  - get_op Hr orgs_schema enc1 (@json_dec Organization _) org_id.
  - by apply pg_list_orgs_outcome.
  - by apply update_org_outcome.
  - by apply pg_delete_org_outcome.
  - by apply pg_list_tokens_outcome.
  - by apply append_audit_outcome.
  - by apply pg_list_audit_outcome.
  - by apply pg_store_genesis_outcome.
  - get_op Hr cursors_schema encc text_dec (org_id, app_id, document_id).
  - by apply pg_set_cursor_outcome.
Qed.

(** C4: A method of the Postgres backend answers and changes the tables as its
    contract says, and one that fails leaves the content alone; a first start makes an
    empty database and a later one keeps its content. *)
Theorem pg_refines_spec {R} (op : StoreOp R) c m :
  (pg_rep c m → op_ok op →
   let (r, c') := handle op c in
   match r with
   | Ok x => ∃ m', spec op m x m' ∧ pg_rep c' m'
   | Err _ => pg_rep c' m
   end) ∧
  (pg_empty c → is_ok (connect c).1 = true → pg_rep (connect c).2 db_empty) ∧
  (pg_rep c m → pg_rep (connect c).2 m).
Proof.
  split_and!.
  - intros Hr Ho. pose proof (pg_outcome op m c Hr Ho) as Hout.
    by destruct (handle op c) as [[x|e] c'].
  - intros He Hok. destruct (connect c) as [[r|e] c'] eqn:E; [|done]. by eapply connect_empty.
  - intros Hr. destruct (connect c) as [r c'] eqn:E. by eapply connect_keeps.
Qed.

Lemma pg_storage_spec : StorageSpec C pg_rep.
Proof.
  intros R op s m r s' Hr Ho E. pose proof (pg_outcome op m s Hr Ho) as Hout.
  by rewrite E in Hout.
Qed.
End Refinement.
