(* ===== verification/Crypto.v ===== *)
(** crypto/: envelope encryption of the stored genesis bytes.

    A [KeyProvider] wraps data keys; the four implementations are
    [PlaintextProvider], [LocalKeyProvider] (crypto/local.rs), [AwsKmsProvider]
    (crypto/kms.rs, over the [KmsOps] the AWS client implements) and
    [VaultTransitProvider] (crypto/vault.rs).  [seal] and [open] are the envelope
    format of crypto/mod.rs. *)
From S2P Require Import Prelude Text Extern Models Errors Effects Spec Wp Config.
From Stdlib Require Import ZArith Ascii.
From Stdlib.Strings Require Import Byte.

#[local] Open Scope Z_scope.

(** ** The trait [KeyProvider] *)
Record KeyProvider := {
  wrap_dek : bytes → M bytes;
  unwrap_dek : bytes → M bytes;
}.

(** [result.context(msg)?] *)
Definition context {E A} (r : result E A) (e : error) : M A := lift (map_err (λ _, e) r).

Definition PlaintextProvider : KeyProvider := {|
  wrap_dek := λ _dek, bail PlaintextNoWrap;
  unwrap_dek := λ _wrapped, bail PlaintextNoUnwrap;
|}.

(** ** crypto/local.rs *)
Module local.
Section Local.
Context `{HexLib} `{AeadLib}.

Definition new (kek : bytes) : bytes := kek.

Definition from_hex (hex_str : string) : Result bytes :=
  let? bs := map_err (λ _, KekNotHex) (hex_decode hex_str) in
  if negb (Z.of_nat (length bs) =? 32) then Err (KekWrongLength (Z.of_nat (length bs)))
  else Ok bs.

Definition cipher (kek : bytes) : M unit :=
  context (aead_new_from_slice kek) (CipherInit "Failed to create KEK cipher").

Definition wrap_dek (kek dek : bytes) : M bytes :=
  try! nonce_bytes := random_bytes 12 in
  let! _ := cipher kek in
  let! ct := lift (map_err (AeadFailed "DEK wrapping failed") (aead_encrypt kek nonce_bytes dek)) in
  ok (nonce_bytes ++ ct).

Definition unwrap_dek (kek wrapped : bytes) : M bytes :=
  if Z.of_nat (length wrapped) <? 12 + 16
  then bail (WrappedDekTooShort (Z.of_nat (length wrapped))) else
  let! _ := cipher kek in
  lift (map_err (AeadFailed "DEK unwrapping failed (wrong KEK?)")
          (aead_decrypt kek (take 12 wrapped) (drop 12 wrapped))).

Definition LocalKeyProvider (kek : bytes) : KeyProvider := {|
  Crypto.wrap_dek := wrap_dek kek;
  Crypto.unwrap_dek := unwrap_dek kek;
|}.
End Local.
End local.

(** ** crypto/kms.rs *)
Module kms.
Record KmsOps := {
  encrypt : string → bytes → M bytes;
  decrypt : bytes → M bytes;
}.

(** The SDK's [Encrypt] and [Decrypt] calls, each with an optional blob. *)
Record Client := {
  client_encrypt : string → bytes → prog (result string (option bytes));
  client_decrypt : bytes → prog (result string (option bytes));
}.

Definition RealKmsOps (client : Client) : KmsOps := {|
  encrypt := λ key_id plaintext,
    try! resp := client_encrypt client key_id plaintext in
    let! blob := context resp (Remote "KMS Encrypt call failed") in
    lift (ok_or blob (Remote "KMS Encrypt returned no ciphertext"));
  decrypt := λ ciphertext,
    try! resp := client_decrypt client ciphertext in
    let! blob := context resp (Remote "KMS Decrypt call failed") in
    lift (ok_or blob (Remote "KMS Decrypt returned no plaintext"));
|}.

Definition AwsKmsProvider (ops : KmsOps) (key_id : string) : KeyProvider := {|
  wrap_dek := λ dek, encrypt ops key_id dek;
  unwrap_dek := λ wrapped, decrypt ops wrapped;
|}.
End kms.

(** ** crypto/vault.rs *)
Module vault.
Record EncryptRequest := { er_plaintext : string }.
Record EncryptResponse := { data_ciphertext : string }.
Record DecryptRequest := { dr_ciphertext : string }.
Record DecryptResponse := { data_plaintext : string }.

Section Vault.
Context `{Base64Lib} `{HttpLib} `{Serde EncryptRequest} `{Serde EncryptResponse}
  `{Serde DecryptRequest} `{Serde DecryptResponse}.

Record VaultTransitProvider := {
  encrypt_url : string;
  decrypt_url : string;
  token : string;
}.

Definition new (addr tok key_name : string) : Result VaultTransitProvider :=
  let addr := trim_end_matches "/" addr in
  let? _ := map_err (λ _, Remote "Failed to build Vault HTTP client") client_build in
  Ok {| encrypt_url := addr +:+ "/v1/transit/encrypt/" +:+ key_name;
        decrypt_url := addr +:+ "/v1/transit/decrypt/" +:+ key_name;
        token := tok |}.

Definition b64_encode (data : bytes) : string := b64_encode_std data.
Definition b64_decode (s : string) : M bytes :=
  context (b64_decode_std s) (Remote "Invalid base64 in Vault response").

(** [post(url).header(..).json(&body).send().await.context(msg)?] *)
Definition post_json {A} `{Serde A} (url tok : string) (body : A) (msg : string) :
    M (Z * bytes) :=
  let! b := context (to_vec body) (Remote msg) in
  try! rp := perform (Net (HttpPost url
      [("X-Vault-Token", tok); ("Content-Type", "application/json")]%string b)) in
  match rp with
  | NetErr _ => bail (Remote msg)
  | NetResp status b => ok (status, b)
  end.

Definition wrap_dek (v : VaultTransitProvider) (dek : bytes) : M bytes :=
  let body := {| er_plaintext := b64_encode dek |} in
  let! resp := post_json (encrypt_url v) (token v) body "Vault Transit encrypt request failed" in
  let '(status, body) := resp in
  if negb (is_success status) then
    bail (Remote ("Vault Transit encrypt returned " +:+ status_display status
                  +:+ ": " +:+ body_text body))
  else
    let! parsed := context (from_slice body)
                     (Remote "Failed to parse Vault Transit encrypt response") in
    ok (as_bytes (data_ciphertext parsed)).

Definition unwrap_dek (v : VaultTransitProvider) (wrapped : bytes) : M bytes :=
  let! ciphertext_str := lift (ok_or (from_utf8 wrapped)
      (Remote "Wrapped DEK is not valid UTF-8 (expected Vault ciphertext string)")) in
  let body := {| dr_ciphertext := ciphertext_str |} in
  let! resp := post_json (decrypt_url v) (token v) body "Vault Transit decrypt request failed" in
  let '(status, body) := resp in
  if negb (is_success status) then
    bail (Remote ("Vault Transit decrypt returned " +:+ status_display status
                  +:+ ": " +:+ body_text body))
  else
    let! parsed := context (from_slice body)
                     (Remote "Failed to parse Vault Transit decrypt response") in
    let! dek := b64_decode (data_plaintext parsed) in
    if negb (Z.of_nat (length dek) =? 32) then
      bail (Remote ("Vault Transit returned DEK of " +:+ fmt_dec (Z.of_nat (length dek))
                    +:+ " bytes, expected 32"))
    else ok dek.

Definition provider (v : VaultTransitProvider) : KeyProvider := {|
  Crypto.wrap_dek := wrap_dek v;
  Crypto.unwrap_dek := unwrap_dek v;
|}.
End Vault.
End vault.

(** ** The envelope *)
Definition MAGIC : bytes := [x50; x45; x4e; x56].
Definition VERSION : byte := x01.
Definition FIXED_HEADER : nat := 4 + 1 + 2.

Definition is_envelope (data : bytes) : bool :=
  bool_decide (FIXED_HEADER ≤ length data)%nat && bool_decide (take 4 data = MAGIC).

Section Envelope.
Context `{AeadLib}.

Definition seal (provider : KeyProvider) (plaintext : bytes) : M bytes :=
  try! dek := random_bytes 32 in
  try! data_nonce := random_bytes 12 in
  let! wrapped_dek := wrap_dek provider dek in
  let wrapped_len := Z.of_nat (length wrapped_dek) in
  if 2 ^ 16 <=? wrapped_len then bail WrappedDekTooLong else
  let! _ := context (aead_new_from_slice dek) (CipherInit "Failed to create AES-256-GCM cipher") in
  let! ciphertext := lift (map_err (AeadFailed "AES-GCM encryption failed")
                             (aead_encrypt dek data_nonce plaintext)) in
  ok (MAGIC ++ [VERSION] ++ to_le_bytes wrapped_len ++ wrapped_dek ++ data_nonce ++ ciphertext).

Definition open (provider : KeyProvider) (data : bytes) : M (option bytes) :=
  if bool_decide (length data < FIXED_HEADER)%nat || bool_decide (take 4 data ≠ MAGIC)
  then ok None else
  let at_ i := default x00 (data !! i) in
  if bool_decide (at_ 4%nat ≠ VERSION) then bail (UnsupportedVersion (u8_val (at_ 4%nat))) else
  let wrapped_len := Z.to_nat (from_le_bytes (at_ 5%nat) (at_ 6%nat)) in
  let wrapped_end := (FIXED_HEADER + wrapped_len)%nat in
  let nonce_end := (wrapped_end + 12)%nat in
  if bool_decide (length data < nonce_end + 16)%nat then bail EnvelopeTooShort else
  let wrapped_dek := take wrapped_len (drop FIXED_HEADER data) in
  let data_nonce := take 12 (drop wrapped_end data) in
  let ciphertext := drop nonce_end data in
  let! dek := unwrap_dek provider wrapped_dek in
  if negb (Z.of_nat (length dek) =? 32) then bail (BadDekLength (Z.of_nat (length dek))) else
  let! _ := context (aead_new_from_slice dek) (CipherInit "Failed to create AES-256-GCM cipher") in
  let! plaintext := lift (map_err (AeadFailed "AES-GCM decryption failed (wrong KEK?)")
                            (aead_decrypt dek data_nonce ciphertext)) in
  ok (Some plaintext).
End Envelope.

(** ** Choosing the provider *)
Record features := { aws_kms : bool; vault_feature : bool; postgres : bool }.

Section Build.
Context `{HexLib} `{AeadLib} `{Base64Lib} `{HttpLib}
  `{Serde vault.EncryptRequest} `{Serde vault.EncryptResponse}
  `{Serde vault.DecryptRequest} `{Serde vault.DecryptResponse}.
Context (feat : features) (aws_client : kms.Client).

Definition build_key_provider (config : GatewayConfig) : Result (KeyProvider * bool) :=
  match kms_key_arn config with
  | Some arn =>
      if aws_kms feat then Ok (kms.AwsKmsProvider (kms.RealKmsOps aws_client) arn, true)
      else Err (FeatureMissing "PEAT_KMS_KEY_ARN" "aws-kms")
  | None =>
  match vault_addr config with
  | Some addr =>
      if vault_feature feat then
        let? token := ok_or (vault_token config) VaultTokenMissing in
        let key_name := default "peat-gateway"%string (vault_transit_key config) in
        let? provider := vault.new addr token key_name in
        Ok (vault.provider provider, true)
      else Err (FeatureMissing "PEAT_VAULT_ADDR" "vault")
  | None =>
  match kek config with
  | Some kek_hex =>
      let? kek := local.from_hex kek_hex in
      Ok (local.LocalKeyProvider kek, true)
  | None => Ok (PlaintextProvider, false)
  end end end.
End Build.

(** ** What the envelope layer asks of a provider *)
Class KeyProviderLaws (kp : KeyProvider) : Prop := {
  wrap_no_store dek : no_store (wrap_dek kp dek);
  unwrap_no_store b : no_store (unwrap_dek kp b);
}.

(** The contract stated by the trait: [unwrap_dek(wrap_dek(dek))] is [dek]. *)
Class Unwraps (o : oracle) (kp : KeyProvider) : Prop :=
  unwrap_wrap fl dek w :
    length dek = 32%nat →
    wp o fl (wrap_dek kp dek)
      (λ r _, match r with
              | Ok b => ∀ w2, wp o fl (unwrap_dek kp b) (λ r2 _, r2 = Ok dek) w2
              | Err _ => True
              end) w.

(** A provider that also always succeeds, with a blob of at most 65535 bytes. *)
Class Wraps (o : oracle) (kp : KeyProvider) : Prop :=
  wrap_total fl dek w :
    length dek = 32%nat →
    wp o fl (wrap_dek kp dek)
      (λ r w', w_store w' = w_store w ∧ ∃ b, r = Ok b ∧ Z.of_nat (length b) < 2 ^ 16 ∧
         ∀ w2, wp o fl (unwrap_dek kp b) (λ r2 _, r2 = Ok dek) w2) w.

Lemma wraps_unwraps o kp : Wraps o kp → Unwraps o kp.
Proof.
  intros Hkp fl dek w Hdek. eapply wp_mono; [by apply Hkp|].
  by intros r w' (_ & b & -> & _ & Hun).
Qed.

(** ** Lemmas *)
Section EnvelopeLemmas.
Context `{AeadLib}.

Lemma is_envelope_open data :
  bool_decide (length data < FIXED_HEADER)%nat || bool_decide (take 4 data ≠ MAGIC)
  = negb (is_envelope data).
Proof.
  unfold is_envelope. rewrite negb_andb. f_equal; rewrite <-bool_decide_not;
    apply bool_decide_ext; [lia|done].
Qed.

(** The fields of an assembled envelope. *)
Definition envelope (wrapped nonce ct : bytes) : bytes :=
  MAGIC ++ [VERSION] ++ to_le_bytes (Z.of_nat (length wrapped)) ++ wrapped ++ nonce ++ ct.

Lemma envelope_length wrapped nonce ct :
  length (envelope wrapped nonce ct)
  = (FIXED_HEADER + length wrapped + length nonce + length ct)%nat.
Proof. unfold envelope, FIXED_HEADER. rewrite !length_app. simpl. lia. Qed.

Lemma is_envelope_envelope wrapped nonce ct : is_envelope (envelope wrapped nonce ct) = true.
Proof.
  unfold is_envelope. rewrite envelope_length, !bool_decide_eq_true_2; [done|done|lia].
Qed.

Lemma open_envelope kp wrapped nonce ct :
  Z.of_nat (length wrapped) < 2 ^ 16 → length nonce = 12%nat → (16 ≤ length ct)%nat →
  open kp (envelope wrapped nonce ct) =
  (let! dek := unwrap_dek kp wrapped in
   if negb (Z.of_nat (length dek) =? 32) then bail (BadDekLength (Z.of_nat (length dek))) else
   let! _ := context (aead_new_from_slice dek) (CipherInit "Failed to create AES-256-GCM cipher") in
   let! plaintext := lift (map_err (AeadFailed "AES-GCM decryption failed (wrong KEK?)")
                             (aead_decrypt dek nonce ct)) in
   ok (Some plaintext)).
Proof.
  intros Hw Hn Hc. unfold open. rewrite is_envelope_open, is_envelope_envelope. cbn [negb].
  assert (envelope wrapped nonce ct !! 4%nat = Some VERSION) as -> by done.
  assert (envelope wrapped nonce ct !! 5%nat = Some (u8 (Z.of_nat (length wrapped)))) as -> by done.
  assert (envelope wrapped nonce ct !! 6%nat = Some (u8 (Z.of_nat (length wrapped) / 256)))
    as -> by done.
  cbn [default from_option id]. rewrite from_to_le_bytes, Nat2Z.id by lia.
  rewrite bool_decide_eq_false_2 by (by intros []).
  rewrite envelope_length, Hn, bool_decide_eq_false_2 by lia.
  assert (drop FIXED_HEADER (envelope wrapped nonce ct) = wrapped ++ nonce ++ ct) as Hd by done.
  rewrite <-!drop_drop, Hd.
  rewrite take_app_length, drop_app_length.
  replace 12%nat with (length nonce). by rewrite take_app_length, drop_app_length.
Qed.
End EnvelopeLemmas.

(** ** Properties *)
Section Properties.
Context `{AeadLaws} (o : oracle) (fl : bool).

Lemma open_sealed kp wrapped dek nonce plaintext ct w2 :
  Z.of_nat (length wrapped) < 2 ^ 16 → length dek = 32%nat → length nonce = 12%nat →
  aead_encrypt dek nonce plaintext = Ok ct →
  wp o fl (unwrap_dek kp wrapped) (λ r2 _, r2 = Ok dek) w2 →
  wp o fl (open kp (envelope wrapped nonce ct)) (λ r2 _, r2 = Ok (Some plaintext)) w2.
Proof.
  intros Hw Hd Hn E Hun. rewrite open_envelope; [|done|done|].
  - apply wp_mbind. eapply wp_mono; [exact Hun|]. intros r2 w3 ->. rewrite Hd. cbn.
    unfold context. rewrite aead_new_ok by done. cbn. by rewrite (aead_decrypt_encrypt _ _ _ _ E).
  - rewrite (aead_encrypt_length _ _ _ _ E). lia.
Qed.

(** *** The envelope *)
Lemma seal_open kp plaintext w :
  Unwraps o kp →
  wp o fl (seal kp plaintext)
    (λ r _, match r with
            | Ok data => is_envelope data = true ∧
                ∀ w2, wp o fl (open kp data) (λ r2 _, r2 = Ok (Some plaintext)) w2
            | Err _ => True
            end) w.
Proof.
  intros Hkp. unfold seal. cbn -[open envelope]. apply wp_mbind.
  eapply wp_mono; [apply Hkp, length_rng_bytes|]. intros [wrapped|e] w1 Hun; [|done].
  destruct (Z.leb_spec (2 ^ 16) (Z.of_nat (length wrapped))) as [|Hlen]; [done|].
  unfold context. set (dek := rng_bytes o _ 32) in *. set (nonce := rng_bytes o _ 12).
  rewrite aead_new_ok by apply length_rng_bytes. cbn.
  destruct (aead_encrypt dek nonce plaintext) as [ct|e] eqn:E; cbn -[open]; [|done].
  change (_ :: _) with (envelope wrapped nonce ct).
  split; [apply is_envelope_envelope|]. intros w2.
  by eapply open_sealed; [|apply length_rng_bytes..| |].
Qed.

Lemma seal_total kp plaintext w :
  Wraps o kp → Z.of_nat (length plaintext) < 2 ^ 36 →
  wp o fl (seal kp plaintext)
    (λ r w', w_store w' = w_store w ∧ ∃ data, r = Ok data ∧ is_envelope data = true ∧
       ∀ w2, wp o fl (open kp data) (λ r2 _, r2 = Ok (Some plaintext)) w2) w.
Proof.
  intros Hkp Hlen. unfold seal. cbn -[open envelope]. apply wp_mbind.
  eapply wp_mono; [apply Hkp, length_rng_bytes|].
  intros r w1 (Hw1 & wrapped & -> & Hwl & Hun).
  destruct (Z.leb_spec (2 ^ 16) (Z.of_nat (length wrapped))) as [|_]; [lia|].
  unfold context. set (dek := rng_bytes o _ 32) in *. set (nonce := rng_bytes o _ 12).
  rewrite aead_new_ok by apply length_rng_bytes. cbn.
  destruct (aead_encrypt_ok dek nonce plaintext) as [ct E]; [apply length_rng_bytes..|done|].
  rewrite E. cbn -[open]. change (_ :: _) with (envelope wrapped nonce ct).
  split; [done|]. eexists. split_and!; [done|apply is_envelope_envelope|]. intros w2.
  by eapply open_sealed; [|apply length_rng_bytes..| |].
Qed.

(** C11: What is sealed opens to itself, with a provider that wraps and unwraps.
    *)
Theorem seal_roundtrip kp plaintext w :
  Wraps o kp → Z.of_nat (length plaintext) < 2 ^ 36 →
  wp o fl (let! data := seal kp plaintext in open kp data)
    (λ r _, r = Ok (Some plaintext)) w ∧
  wp o fl (seal kp plaintext)
    (λ r w', w_store w' = w_store w ∧ ∃ data, r = Ok data ∧ is_envelope data = true) w.
Proof.
  intros Hkp Hlen. split.
  - apply wp_mbind. eapply wp_mono; [by apply seal_total|]. intros r w' (_ & data & -> & _ & Hop).
    apply Hop.
  - eapply wp_mono; [by apply seal_total|]. naive_solver.
Qed.

Theorem open_not_envelope kp data w :
  is_envelope data = false → wp o fl (open kp data) (λ r w', r = Ok None ∧ w' = w) w.
Proof. intros He. unfold open. by rewrite is_envelope_open, He. Qed.

(** An envelope is never taken for plaintext, nor a damaged one opened. *)
Theorem open_envelope_guard kp data w :
  KeyProviderLaws kp → is_envelope data = true →
  wp o fl (open kp data)
    (λ r w', r ≠ Ok None ∧ w_store w' = w_store w ∧
      (data !! 4%nat ≠ Some VERSION → ∃ v, r = Err (UnsupportedVersion v) ∧ w' = w) ∧
      (data !! 4%nat = Some VERSION → (length data < FIXED_HEADER + 28)%nat →
         r = Err EnvelopeTooShort ∧ w' = w)) w.
Proof.
  intros Hkp He. unfold open. rewrite is_envelope_open, He. cbn [negb].
  assert (∃ v, data !! 4%nat = Some v) as [v Ev].
  { apply lookup_lt_is_Some. unfold is_envelope, FIXED_HEADER in He.
    apply andb_true_iff in He as [?%bool_decide_eq_true _]. lia. }
  rewrite Ev. cbn [default from_option id]. case_bool_decide as Hv.
  { cbn. split_and!; [done|done|eauto|congruence]. }
  subst v. case_bool_decide as Hlen.
  { cbn. split_and!; [done|done|congruence|done]. }
  apply wp_mbind, wp_no_store; [apply Hkp|]. intros r w1 Hw1.
  assert (¬ (length data < FIXED_HEADER + 28)%nat) as Hge by lia.
  destruct r as [dek|e]; [|split_and!; [done|done|congruence|done]].
  case_match; [split_and!; [done|done|congruence|done]|]. unfold context.
  destruct (aead_new_from_slice dek); cbn; [|split_and!; [done|done|congruence|done]].
  destruct (aead_decrypt _ _ _); cbn; split_and!; done || congruence.
Qed.
End Properties.

Section Local.
Context `{HexLaws} `{AeadLaws}.

#[export] Instance local_laws k : KeyProviderLaws (local.LocalKeyProvider k).
Proof.
  split; intros b; cbn.
  - repeat (split; [done|intros ?]). unfold local.cipher, context.
    destruct (aead_new_from_slice k); cbn; [|done]. by destruct (aead_encrypt _ _ _).
  - unfold local.unwrap_dek. case_match; [done|]. unfold local.cipher, context.
    by destruct (aead_new_from_slice k).
Qed.

(** The wrapped key of a local provider: a nonce, the key and a tag. *)
Lemma local_wrap_ok o fl k dek w :
  length k = 32%nat → length dek = 32%nat →
  wp o fl (wrap_dek (local.LocalKeyProvider k) dek)
    (λ r w', w_store w' = w_store w ∧ ∃ b, r = Ok b ∧ length b = 60%nat ∧
      ∀ w2, wp o fl (unwrap_dek (local.LocalKeyProvider k) b) (λ r2 w2', r2 = Ok dek ∧ w2' = w2) w2) w.
Proof.
  intros Hk Hd. cbn. unfold local.cipher, context. rewrite aead_new_ok by done. cbn.
  set (nonce := rng_bytes o _ 12).
  destruct (aead_encrypt_ok k nonce dek) as [ct Ect]; [done|apply length_rng_bytes|lia|].
  rewrite Ect. cbn. split; [done|]. eexists; split; [done|].
  pose proof (aead_encrypt_length _ _ _ _ Ect) as Hct.
  assert (length (nonce ++ ct) = 60%nat) as Hl.
  { rewrite length_app. unfold nonce. rewrite length_rng_bytes. lia. }
  split; [done|]. intros w2. unfold local.unwrap_dek. rewrite Hl. cbn.
  unfold local.cipher, context. rewrite aead_new_ok by done. cbn.
  replace 12%nat with (length nonce) by apply length_rng_bytes.
  rewrite take_app_length, drop_app_length. by rewrite (aead_decrypt_encrypt _ _ _ _ Ect).
Qed.

#[export] Instance local_wraps o k : length k = 32%nat → Wraps o (local.LocalKeyProvider k).
Proof.
  intros Hk fl dek w Hd. eapply wp_mono; [by apply local_wrap_ok|].
  intros r w' (Hw & b & -> & Hl & Hb). split; [done|]. exists b. split_and!; [done|lia|].
  intros w2. eapply wp_mono; [apply Hb|]. by intros ?? [? _].
Qed.

#[export] Instance local_unwraps o k : length k = 32%nat → Unwraps o (local.LocalKeyProvider k).
Proof.
  intros Hk fl dek w Hd. eapply wp_mono; [by apply local_wrap_ok|].
  intros r w' (_ & b & -> & _ & Hb) w2. eapply wp_mono; [apply Hb|]. by intros ?? [? _].
Qed.
End Local.
