(* ===== verification/Concrete.v ===== *)
(** Concrete instances of the classes of [Extern.v], for executing the model.

    redb tables are finite maps listed in key order, serde is an encoding of
    countable types, hex is the hexadecimal codec, and the cipher and the mesh
    genesis are simple functions with the documented laws.  They are not models
    of the crates: they show that the laws the theorems assume can hold, and run
    the examples. *)
From S2P Require Import Prelude Text Extern Models Crypto.
From Stdlib Require Import ZArith Ascii.
From Stdlib.Strings Require Import Byte.

#[local] Open Scope Z_scope.

(** ** Tables *)
Definition gmap_table (V : Type) : Type := gmap string V.

#[export] Instance gmap_redb : RedbTable gmap_table := {
  t_empty V := (∅ : gmap string V);
  t_get V (t : gmap string V) k := t !! k;
  t_insert V (t : gmap string V) k v := <[k:=v]> t;
  t_remove V (t : gmap string V) k := delete k t;
  t_iter V (t : gmap string V) := merge_sort key_le (map_to_list t);
}.

Lemma le_sorted_lt {V} (l : list (string * V)) :
  NoDup l.*1 → StronglySorted key_le l → StronglySorted str_lt l.*1.
Proof.
  intros Hnd Hs. induction Hs as [|x l Hs IH Hx]; [constructor|].
  apply NoDup_cons in Hnd as [Hnin Hnd]. constructor; [by apply IH|].
  apply Forall_fmap. rewrite Forall_forall in Hx |- *. intros y Hy. cbn.
  destruct (proj1 (str_le_alt _ _) (Hx y Hy)) as [?|E]; [done|].
  destruct Hnin. rewrite E. by apply (list_elem_of_fmap_2 fst).
Qed.

#[export] Instance gmap_redb_laws : RedbTableLaws gmap_table.
Proof.
  split; intros V; cbn; unfold gmap_table.
  - intros k. apply lookup_empty.
  - intros t k v k'. case_decide as E; [subst; apply lookup_insert_eq|by apply lookup_insert_ne].
  - intros t k k'. case_decide as E; [subst; apply lookup_delete_eq|by apply lookup_delete_ne].
  - intros t k v. rewrite merge_sort_Permutation. apply elem_of_map_to_list.
  - intros t. apply le_sorted_lt.
    + rewrite merge_sort_Permutation. apply NoDup_fst_map_to_list.
    + apply (StronglySorted_merge_sort _).
Qed.

(** ** serde *)
Fixpoint pos_bits (p : positive) : bytes :=
  match p with
  | xH => []
  | xO p => x30 :: pos_bits p
  | xI p => x31 :: pos_bits p
  end.
Fixpoint bits_pos (b : bytes) : option positive :=
  match b with
  | [] => Some xH
  | x30 :: b => xO <$> bits_pos b
  | x31 :: b => xI <$> bits_pos b
  | _ => None
  end.
Lemma bits_pos_bits p : bits_pos (pos_bits p) = Some p.
Proof. induction p as [p IH|p IH|]; simpl; by rewrite ?IH. Qed.

Definition countable_serde (A : Type) `{Countable A} : Serde A := {|
  to_vec a := Ok (pos_bits (encode a));
  from_slice b := ok_or (bits_pos b ≫= decode) "invalid JSON"%string;
|}.
Lemma countable_serde_laws A `{Countable A} : @SerdeLaws A (countable_serde A).
Proof.
  split. intros a. eexists. split; [done|]. simpl. rewrite bits_pos_bits. simpl.
  by rewrite decode_encode.
Qed.

(** A record is countable through the tuple of its fields. *)
Ltac by_tuple f g :=
  refine (inj_countable' f g _); by intros [].

#[export] Instance quotas_countable : Countable OrgQuotas.
Proof.
  by_tuple (λ q, (max_formations q, max_peers_per_formation q, max_documents_per_formation q,
                  max_cdc_sinks q, max_enrollments_per_hour q))
    (λ '(a, b, c, d, e), Build_OrgQuotas a b c d e).
Defined.
#[export] Instance org_countable : Countable Organization.
Proof.
  by_tuple (λ o, (o_org_id o, o_display_name o, o_quotas o, o_created_at o))
    (λ '(a, b, c, d), Build_Organization a b c d).
Defined.
#[export] Instance policy_countable : Countable EnrollmentPolicy.
Proof.
  refine (inj_countable' (λ p, match p with Open => 0 | Controlled => 1 | Strict => 2 end)
    (λ z, if z =? 0 then Open else if z =? 1 then Controlled else Strict) _). by intros [].
Defined.
#[export] Instance FormationConfig_eqdec : EqDecision FormationConfig.
Proof. solve_decision. Defined.
#[export] Instance formation_countable : Countable FormationConfig.
Proof.
  by_tuple (λ f, (f_app_id f, f_mesh_id f, f_enrollment_policy f))
    (λ '(a, b, c), Build_FormationConfig a b c).
Defined.
#[export] Instance token_countable : Countable EnrollmentToken.
Proof.
  by_tuple (λ t, (t_token_id t, t_org_id t, t_app_id t, t_label t, t_max_uses t, t_uses t,
                  t_expires_at t, t_created_at t, t_revoked t))
    (λ '(a, b, c, d, e, f, g, h, i), Build_EnrollmentToken a b c d e f g h i).
Defined.
#[export] Instance CdcSinkType_eqdec : EqDecision CdcSinkType.
Proof. solve_decision. Defined.
#[export] Instance sink_type_countable : Countable CdcSinkType.
Proof.
  refine (inj_countable'
    (λ t, match t with Nats s => inl s | Kafka s => inr (inl s) | Webhook s => inr (inr s) end)
    (λ s, match s with inl s => Nats s | inr (inl s) => Kafka s | inr (inr s) => Webhook s end) _).
  by intros [].
Defined.
#[export] Instance CdcSinkConfig_eqdec : EqDecision CdcSinkConfig.
Proof. solve_decision. Defined.
#[export] Instance sink_countable : Countable CdcSinkConfig.
Proof.
  by_tuple (λ s, (s_sink_id s, s_org_id s, s_sink_type s, s_enabled s, s_created_at s))
    (λ '(a, b, c, d, e), Build_CdcSinkConfig a b c d e).
Defined.
#[export] Instance IdpConfig_eqdec : EqDecision IdpConfig.
Proof. solve_decision. Defined.
#[export] Instance idp_countable : Countable IdpConfig.
Proof.
  by_tuple (λ i, (i_idp_id i, i_org_id i, i_issuer_url i, i_client_id i, i_client_secret i,
                  i_enabled i, i_created_at i))
    (λ '(a, b, c, d, e, f, g), Build_IdpConfig a b c d e f g).
Defined.
#[export] Instance tier_countable : Countable MeshTier.
Proof.
  refine (inj_countable' (λ p, match p with Authority => 0 | Infrastructure => 1 | Endpoint => 2 end)
    (λ z, if z =? 0 then Authority else if z =? 1 then Infrastructure else Endpoint) _).
  by intros [].
Defined.
#[export] Instance PolicyRule_eqdec : EqDecision PolicyRule.
Proof. solve_decision. Defined.
#[export] Instance rule_countable : Countable PolicyRule.
Proof.
  by_tuple (λ r, (r_rule_id r, r_org_id r, r_claim_key r, r_claim_value r, r_tier r,
                  r_permissions r, r_priority r))
    (λ '(a, b, c, d, e, f, g), Build_PolicyRule a b c d e f g).
Defined.
#[export] Instance decision_countable : Countable EnrollmentDecision.
Proof.
  refine (inj_countable' (λ d, match d with Approved t p => inl (t, p) | Denied r => inr r end)
    (λ s, match s with inl (t, p) => Approved t p | inr r => Denied r end) _).
  by intros [].
Defined.
#[export] Instance EnrollmentAuditEntry_eqdec : EqDecision EnrollmentAuditEntry.
Proof. solve_decision. Defined.
#[export] Instance audit_countable : Countable EnrollmentAuditEntry.
Proof.
  by_tuple (λ e, (a_audit_id e, a_org_id e, a_app_id e, a_idp_id e, a_subject e, a_decision e,
                  a_timestamp_ms e))
    (λ '(a, b, c, d, e, f, g), Build_EnrollmentAuditEntry a b c d e f g).
Defined.

#[export] Instance org_serde : Serde Organization := countable_serde _.
#[export] Instance formation_serde : Serde FormationConfig := countable_serde _.
#[export] Instance token_serde : Serde EnrollmentToken := countable_serde _.
#[export] Instance sink_serde : Serde CdcSinkConfig := countable_serde _.
#[export] Instance idp_serde : Serde IdpConfig := countable_serde _.
#[export] Instance rule_serde : Serde PolicyRule := countable_serde _.
#[export] Instance audit_serde : Serde EnrollmentAuditEntry := countable_serde _.
#[export] Instance org_serde_laws : SerdeLaws Organization := countable_serde_laws _.
#[export] Instance formation_serde_laws : SerdeLaws FormationConfig := countable_serde_laws _.
#[export] Instance token_serde_laws : SerdeLaws EnrollmentToken := countable_serde_laws _.
#[export] Instance sink_serde_laws : SerdeLaws CdcSinkConfig := countable_serde_laws _.
#[export] Instance idp_serde_laws : SerdeLaws IdpConfig := countable_serde_laws _.
#[export] Instance rule_serde_laws : SerdeLaws PolicyRule := countable_serde_laws _.
#[export] Instance audit_serde_laws : SerdeLaws EnrollmentAuditEntry := countable_serde_laws _.

(** ** hex *)
Definition hex_val (c : ascii) : option Z :=
  if is_ascii_digit c then Some (code c - 48)
  else if (97 <=? code c) && (code c <=? 102) then Some (code c - 87)
  else if (65 <=? code c) && (code c <=? 70) then Some (code c - 55)
  else None.

Fixpoint hex_enc (b : bytes) : string :=
  match b with
  | [] => EmptyString
  | x :: b => String (digit (u8_val x / 16)) (String (digit (u8_val x mod 16)) (hex_enc b))
  end.
Fixpoint hex_dec (s : string) : option bytes :=
  match s with
  | EmptyString => Some []
  | String a (String b s) =>
      h ← hex_val a; l ← hex_val b; bs ← hex_dec s; Some (u8 (16 * h + l) :: bs)
  | _ => None
  end.
#[export] Instance hex_lib : HexLib := {
  hex_encode := hex_enc;
  hex_decode s := ok_or (hex_dec s) "Invalid character"%string;
}.
#[export] Instance hex_laws : HexLaws.
Proof.
  assert (∀ x, hex_val (digit (u8_val x / 16)) = Some (u8_val x / 16) ∧
               hex_val (digit (u8_val x mod 16)) = Some (u8_val x mod 16) ∧
               u8 (16 * (u8_val x / 16) + u8_val x mod 16) = x) as Hx by (by intros []).
  assert (∀ x, is_ascii_alphanumeric (digit (u8_val x / 16)) = true ∧
               is_ascii_alphanumeric (digit (u8_val x mod 16)) = true) as Ha by (by intros []).
  split; intros b; cbn.
  - assert (hex_dec (hex_enc b) = Some b) as ->; [|done].
    induction b as [|x b IH]; [done|]. cbn [hex_enc hex_dec].
    destruct (Hx x) as (-> & -> & E). cbn. rewrite IH. cbn. by rewrite E.
  - induction b as [|x b IH]; [done|]. cbn [hex_enc all_chars].
    destruct (Ha x) as [-> ->]. exact IH.
  - induction b as [|x b IH]; [done|]. cbn [hex_enc String.length length]. rewrite IH. lia.
Qed.

(** ** The cipher: the plaintext and a tag that depends on the key *)
Definition toy_tag (k : bytes) : bytes := take 16 k.
#[export] Instance aead_lib : AeadLib := {
  aead_new_from_slice k :=
    if bool_decide (length k = 32%nat) then Ok tt else Err "Invalid Length"%string;
  aead_encrypt k n p :=
    if bool_decide (length k = 32%nat) then Ok (p ++ toy_tag k) else Err "aead::Error"%string;
  aead_decrypt k n c :=
    if bool_decide (drop (length c - 16) c = toy_tag k) then Ok (take (length c - 16) c)
    else Err "aead::Error"%string;
}.
#[export] Instance aead_laws : AeadLaws.
Proof.
  assert (∀ k : bytes, length k = 32%nat → length (toy_tag k) = 16%nat) as Ht.
  { intros k Hk. unfold toy_tag. rewrite length_take. lia. }
  split; cbn.
  - intros k Hk. by rewrite bool_decide_eq_true_2.
  - intros k n p Hk _ _. rewrite bool_decide_eq_true_2 by done. eauto.
  - intros k n p c. case_bool_decide as Hk; [|done]. intros [= <-].
    rewrite length_app, Ht by done. replace (length p + 16 - 16)%nat with (length p) by lia.
    by rewrite drop_app_length, take_app_length, bool_decide_eq_true_2.
  - intros k n p c. case_bool_decide as Hk; [|done]. intros [= <-].
    by rewrite length_app, Ht.
Qed.

(** ** The mesh genesis *)
#[export] Instance membership_eqdec : EqDecision MembershipPolicy.
Proof. solve_decision. Defined.
#[export] Instance membership_countable : Countable MembershipPolicy.
Proof.
  refine (inj_countable' (λ p, match p with MpOpen => 0 | MpControlled => 1 | MpStrict => 2 end)
    (λ z, if z =? 0 then MpOpen else if z =? 1 then MpControlled else MpStrict) _). by intros [].
Defined.
#[export] Instance byte_countable : Countable byte.
Proof.
  refine (inj_countable Byte.to_N Byte.of_N _). intros b. apply Byte.of_to_N.
Defined.

Record toy_certificate := {
  tc_mesh : string; tc_key : bytes; tc_node : string; tc_tier : WireTier; tc_perms : Z;
  tc_validity : Z; tc_issued : Z;
}.
#[export] Instance mesh_lib : MeshLib := {
  MeshGenesis := (string * MembershipPolicy * bytes);
  MeshCertificate := toy_certificate;
  genesis_create name p seed := (name, p, seed);
  genesis_mesh_id g := hex_encode (take 4 g.2);
  genesis_encode g := pos_bits (encode g);
  genesis_decode b := ok_or (bits_pos b ≫= decode) "truncated genesis"%string;
  genesis_authority_public_key g := take 32 g.2;
  genesis_root_certificate g node := {|
    rc_node_id := node; rc_subject_public_key := take 32 g.2;
    rc_issued_at_ms := 0; rc_expires_at_ms := 0 |};
  genesis_issue_certificate g key node tier perms validity now := {|
    tc_mesh := hex_encode (take 4 g.2); tc_key := key; tc_node := node; tc_tier := tier;
    tc_perms := perms; tc_validity := validity; tc_issued := now |};
  cert_encode c := tc_key c;
  mp_RELAY := 0x01; mp_EMERGENCY := 0x02; mp_ENROLL := 0x04; mp_ADMIN := 0x80;
}.
#[export] Instance mesh_laws : MeshLaws.
Proof.
  split; [|done]. intros g. cbn -[encode decode]. rewrite bits_pos_bits.
  cbn -[encode decode]. by rewrite decode_encode.
Qed.

(** ** base64 and the HTTP client *)
#[export] Instance base64_lib : Base64Lib := {
  b64_encode_std := hex_encode;
  b64_decode_std := hex_decode;
}.
#[export] Instance http_lib : HttpLib := {
  client_build := Ok tt;
  status_display := fmt_dec;
  body_text := from_utf8_bytes;
  header_to_str := Some;
  basic_auth id secret := "Basic " +:+ id +:+ ":" +:+ secret;
  status_error url status := "HTTP status error (" +:+ fmt_dec status +:+ ") for url (" +:+ url +:+ ")";
  form_urlencode kvs := concat ((λ kv, as_bytes (kv.1 +:+ "=" +:+ kv.2)) <$> kvs);
}.
#[export] Instance http_laws : HttpLaws.
Proof. split. by intros v s [= ->]. Qed.

(** ** Hash maps and hashing *)
#[export] Instance hash_iter : HashIter := {
  hm_iter V m := map_to_list m;
  hs_iter s := elements s;
}.
#[export] Instance hash_iter_laws : HashIterLaws.
Proof. by split. Qed.

#[export] Instance std_hasher : StdHasher := {
  hasher_state := Z;
  hasher_new := 0;
  hash_str s h := foldl (λ h b, (h * 31 + u8_val b + 1) mod 2 ^ 64) h (as_bytes s);
  hash_u64 n h := (h * 31 + n) mod 2 ^ 64;
  hasher_finish h := h;
}.
