(* ===== verification/PgConcrete.v ===== *)
(** An executable server with the laws of [Sql.v], for running the Postgres
    backend.  Tables are finite maps; statements check the primary key and the
    foreign key, and deletions cascade.  It is not a model of PostgreSQL: it shows
    that the laws can hold. *)
From S2P Require Import Prelude Text Extern Models Concrete Sql.
From Stdlib Require Import ZArith.

#[local] Open Scope Z_scope.

Record server := Server {
  sv_schemas : gmap string table_schema;
  sv_tables : gmap string rows;
}.
Definition empty_server : server := Server ∅ ∅.
Definition table_rows (c : server) (t : string) : rows := default ∅ (sv_tables c !! t).
Definition set_rows (t : string) (tbl : rows) (c : server) : server :=
  Server (sv_schemas c) (<[t := tbl]> (sv_tables c)).

Definition failed {A} (e : string) (c : server) : result string A * server := (Err e, c).

(** A row of the table [t] has [o] in its column [col]. *)
Definition any_row (col o : string) (P : row → bool) (tbl : rows) : bool :=
  existsb (λ kr, bool_decide (column_text kr.2 col = Some o) && P kr.2) (map_to_list tbl).
Lemma any_row_true col o P tbl :
  any_row col o P tbl = true ↔ ∃ k r, tbl !! k = Some r ∧ column_text r col = Some o ∧ P r = true.
Proof.
  unfold any_row. rewrite existsb_exists. split.
  - intros ([k r] & Hin & [E%bool_decide_eq_true HP]%andb_true_iff).
    apply list_elem_of_In, elem_of_map_to_list in Hin. by exists k, r.
  - intros (k & r & E & Ec & HP). exists (k, r). cbn. split.
    + by apply list_elem_of_In, elem_of_map_to_list.
    + by rewrite Ec, bool_decide_eq_true_2, HP.
Qed.

Definition parent_ok (c : server) (s : table_schema) (r : row) : bool :=
  match foreign_key_of s with
  | Some f =>
      match column_text r (fk_column f) with
      | Some o => any_row (fk_key f) o (λ _, true) (table_rows c (fk_table f))
      | None => false
      end
  | None => true
  end.

(** Rows in the order of an integer column; texts are left as they come. *)
Definition column_int (col : string) (r : row) : Z :=
  match r !! col with Some (VInt z) => z | _ => 0 end.
Definition in_order (o : string * bool) (x y : row) : Prop :=
  if o.2 then column_int o.1 y ≤ column_int o.1 x else column_int o.1 x ≤ column_int o.1 y.
#[export] Instance in_order_dec o x y : Decision (in_order o x y).
Proof. unfold in_order. destruct o.2; apply _. Defined.
#[export] Instance in_order_trans o : Transitive (in_order o).
Proof. intros x y z. unfold in_order. destruct o.2; lia. Qed.
#[export] Instance in_order_total o : Total (in_order o).
Proof. intros x y. unfold in_order. destruct o.2; lia. Qed.

Definition select_rows (c : server) (t : string) (cond ws : list string)
    (order : option (string * bool)) : list row :=
  let hits := (map_to_list (filter (λ kr, matches cond ws kr.2 = true) (table_rows c t))).*2 in
  match order with Some o => merge_sort (in_order o) hits | None => hits end.

(** The texts at the head of the parameters, and the rest. *)
Fixpoint split_texts (n : nat) (ps : list sql_value) : option (list string * list sql_value) :=
  match n, ps with
  | O, _ => Some ([], ps)
  | S n, VText w :: ps => '(ws, rest) ← split_texts n ps; Some (w :: ws, rest)
  | _, _ => None
  end.
Lemma split_texts_app ws rest n ps :
  split_texts n ps = Some (ws, rest) → ps = (VText <$> ws) ++ rest ∧ length ws = n.
Proof.
  revert n ws; induction ps as [|p ps IH]; intros [|n] ws E; cbn in E; try by injection E as <- <-.
  - done.
  - destruct p as [w| | |]; try done. destruct (split_texts n ps) as [[ws' rest']|] eqn:Es; [|done].
    injection E as <- ->. destruct (IH _ _ Es) as [-> <-]. done.
Qed.

(** A row survives a deletion from [t]. *)
Definition survives (c : server) (t : string) (cond ws : list string) (t' : string) (r : row) :
    bool :=
  negb (bool_decide (t' = t) && matches cond ws r) &&
  match sv_schemas c !! t' ≫= foreign_key_of with
  | Some f =>
      negb (bool_decide (fk_table f = t) &&
        match column_text r (fk_column f) with
        | Some o => any_row (fk_key f) o (matches cond ws) (table_rows c t)
        | None => false
        end)
  | None => true
  end.

Definition run_statement (st : statement) (ps : list sql_value) (c : server) :
    result string reply * server :=
  match st with
  | CREATE_TABLE t s =>
      match sv_schemas c !! t with
      | Some _ => (Ok (Affected 0), c)
      | None => (Ok (Affected 0), Server (<[t := s]> (sv_schemas c)) (<[t := ∅]> (sv_tables c)))
      end
  | INSERT t cols =>
      let r := new_row id cols ps in
      match sv_schemas c !! t with
      | Some s =>
          match key_of (primary_key s) r with
          | Some k =>
              if bool_decide (is_Some (table_rows c t !! k)) then failed "duplicate key" c
              else if negb (parent_ok c s r) then failed "violates foreign key constraint" c
              else (Ok (Affected 1), set_rows t (<[k := r]> (table_rows c t)) c)
          | None => failed "null value in key" c
          end
      | None => failed "relation does not exist" c
      end
  | UPSERT t cols key set =>
      let r := new_row id cols ps in
      match key_of key r, r !! set with
      | Some k, Some v =>
          match table_rows c t !! k, sv_schemas c !! t with
          | Some old, _ => (Ok (Affected 1), set_rows t (<[k := <[set := v]> old]> (table_rows c t)) c)
          | None, Some s =>
              if parent_ok c s r then (Ok (Affected 1), set_rows t (<[k := r]> (table_rows c t)) c)
              else failed "violates foreign key constraint" c
          | None, None => failed "relation does not exist" c
          end
      | _, _ => failed "null value in key" c
      end
  | SELECT col t cond order limit =>
      match split_texts (length cond) ps with
      | Some (ws, rest) =>
          let hits := select_rows c t cond ws order in
          match limit, rest with
          | true, [VInt n] =>
              if n <? 0 then failed "LIMIT must not be negative" c
              else (Ok (Selected (omap (.!! col) (take (Z.to_nat (Z.min n (Z.of_nat (length hits)))) hits))), c)
          | false, [] => (Ok (Selected (omap (.!! col) hits)), c)
          | _, _ => failed "bind message supplies wrong parameters" c
          end
      | None => failed "bind message supplies wrong parameters" c
      end
  | UPDATE t set cond =>
      match split_texts (length cond) ps with
      | Some (ws, [v]) =>
          (Ok (Affected (Z.of_nat (size (filter (λ kr, matches cond ws kr.2 = true) (table_rows c t))))),
           set_rows t ((λ r, if matches cond ws r then <[set := stored id v]> r else r) <$>
             table_rows c t) c)
      | _ => failed "bind message supplies wrong parameters" c
      end
  | DELETE t cond =>
      match split_texts (length cond) ps with
      | Some (ws, []) =>
          (Ok (Affected (Z.of_nat (size (filter (λ kr, matches cond ws kr.2 = true) (table_rows c t))))),
           Server (sv_schemas c)
             (map_imap (λ t' tbl, Some (filter (λ kr, survives c t cond ws t' kr.2 = true) tbl))
               (sv_tables c)))
      | _ => failed "bind message supplies wrong parameters" c
      end
  end.

#[export] Instance server_pg : PgServer server := {
  pg_run := run_statement;
  pg_jsonb := id;
  pg_schema c t := sv_schemas c !! t;
  pg_rows := table_rows;
}.

(** ** The laws *)
Lemma set_rows_changes t f c :
  changes_rows t f c (set_rows t (f (table_rows c t)) c).
Proof.
  intros t'. split; [done|]. cbn. unfold table_rows. cbn.
  case_decide as E; [subst; by rewrite lookup_insert_eq|by rewrite lookup_insert_ne].
Qed.
Lemma unchanged_refl (c : server) : unchanged c c.
Proof. by intros t. Qed.

Lemma failed_unchanged st ps c e c' : run_statement st ps c = (Err e, c') → unchanged c c'.
Proof.
  unfold run_statement, failed. intros E. assert (c' = c) as ->; [|apply unchanged_refl].
  destruct st; repeat (case_match; try discriminate E); by injection E.
Qed.

Lemma parent_ok_true c s r : parent_ok c s r = true → has_parent c s r.
Proof.
  unfold parent_ok, has_parent. destruct (foreign_key_of s) as [f|]; [|done].
  destruct (column_text r (fk_column f)) as [o|]; [|done].
  intros (k & p & Ep & Eo & _)%any_row_true. by exists o, k, p.
Qed.

Lemma survives_true c t cond ws t' r :
  survives c t cond ws t' r = true ↔
  (t' = t → matches cond ws r = false) ∧ (∀ f, refers c t' t f → ¬ orphaned c t cond ws f r).
Proof.
  unfold survives. rewrite andb_true_iff, negb_true_iff, andb_false_iff, bool_decide_eq_false.
  assert ((t' ≠ t ∨ matches cond ws r = false) ↔ (t' = t → matches cond ws r = false)) as ->.
  { destruct (decide (t' = t)); naive_solver. }
  apply and_iff_compat_l. unfold refers, orphaned. cbn.
  destruct (sv_schemas c !! t') as [s|]; cbn; [|naive_solver].
  destruct (foreign_key_of s) as [f|] eqn:Ef; cbn; [|naive_solver].
  rewrite negb_true_iff, andb_false_iff, bool_decide_eq_false. split.
  - intros Hf f' (? & [= <-] & Ef' & Et) (o & k & p & Eo & Ep & Hm & Epo).
    assert (f' = f) as -> by congruence. rewrite Eo in Hf. destruct Hf as [Hf|Hf]; [done|].
    apply not_true_iff_false in Hf. apply Hf, any_row_true. by exists k, p.
  - intros Hno. destruct (decide (fk_table f = t)) as [Et|]; [|by left]. right.
    destruct (column_text r (fk_column f)) as [o|] eqn:Eo; [|done].
    apply not_true_iff_false. intros (k & p & Ep & Epo & Hm)%any_row_true.
    apply (Hno f); [by exists s|]. by exists o, k, p.
Qed.

Lemma select_rows_spec c t cond ws order :
  let hits := select_rows c t cond ws order in
  hits ≡ₚ (map_to_list (filter (λ kr, matches cond ws kr.2 = true) (table_rows c t))).*2 ∧
  from_option (λ o, StronglySorted (by_column o) hits) True order.
Proof.
  unfold select_rows. destruct order as [o|]; cbn; [|done].
  split; [by rewrite merge_sort_Permutation|].
  generalize (StronglySorted_merge_sort (in_order o)
    (map_to_list (filter (λ kr, matches cond ws kr.2 = true) (table_rows c t))).*2).
  induction 1 as [|x l _ IH Hall]; constructor; [done|]. eapply Forall_impl; [exact Hall|].
  intros y Hxy a b Ea Eb. unfold in_order, column_int in Hxy. rewrite Ea, Eb in Hxy. done.
Qed.

Lemma texts_inj (ws ws' : list string) : VText <$> ws = VText <$> ws' → ws = ws'.
Proof. apply list_fmap_eq_inj. by intros ?? [= ->]. Qed.

#[export] Instance server_laws : PgLaws server.
Proof.
  constructor.
  - exact failed_unchanged.
  - intros t s c rp c' E. cbn in *. destruct (sv_schemas c !! t) as [s0|].
    + injection E as <- <-. apply unchanged_refl.
    + injection E as <- <-. intros t'. cbn. unfold table_rows. cbn.
      case_decide as Ht; [subst; by rewrite !lookup_insert_eq|by rewrite !lookup_insert_ne].
  - intros t s cols vs c rp c' E Es. cbn in *. rewrite Es in E.
    destruct (key_of _ _) as [k|] eqn:Ek; [|done]. case_bool_decide as Hk; [done|].
    destruct (parent_ok _ _ _) eqn:Hp; [|done]. injection E as <- <-. exists k.
    split_and!; [done|by apply eq_None_not_Some|by apply parent_ok_true|].
    apply (set_rows_changes t <[k := _]>).
  - intros t s cols set vs c rp c' E Es. cbn in *.
    destruct (key_of _ _) as [k|] eqn:Ek; [|done]. destruct (_ !! set) as [v|] eqn:Ev; [|done].
    exists k, v. destruct (table_rows c t !! k) as [old|] eqn:Eo.
    + injection E as <- <-. split_and!; [done|done|done|]. apply (set_rows_changes t <[k := _]>).
    + rewrite Es in E. destruct (parent_ok _ _ _) eqn:Hp; [|done]. injection E as <- <-.
      split_and!; [done|done|intros _; by apply parent_ok_true|].
      apply (set_rows_changes t <[k := _]>).
  - intros col t cond order ws lim c rp c' E. cbn in E.
    destruct (split_texts _ _) as [[ws' rest]|] eqn:Es; [|done].
    apply split_texts_app in Es as [Es _]. destruct lim as [n|]; cbn in E, Es.
    + destruct rest as [|[| | |n'] [|]]; try done.
      apply app_inj_2 in Es as [->%texts_inj [= <-]]; [|done].
      destruct (Z.ltb_spec n 0); [done|]. injection E as <- <-. split; [apply unchanged_refl|].
      exists (select_rows c t cond ws' order). destruct (select_rows_spec c t cond ws' order).
      split_and!; [done|done|lia|]. do 2 f_equal.
      destruct (Z.min_spec n (Z.of_nat (length (select_rows c t cond ws' order)))) as [[? ->]|[? ->]];
        [done|]. rewrite !take_ge by lia. done.
    + destruct rest; [|done]. rewrite !app_nil_r in Es. apply texts_inj in Es as ->.
      injection E as <- <-. split; [apply unchanged_refl|].
      exists (select_rows c t cond ws' order). by destruct (select_rows_spec c t cond ws' order).
  - intros t s set cond ws v c rp c' E Es Hset. cbn in E.
    destruct (split_texts _ _) as [[ws' [|v' [|]]]|] eqn:Ep; try done.
    apply split_texts_app in Ep as [Ep _]. apply app_inj_2 in Ep as [->%texts_inj [= ->]]; [|done].
    injection E as <- <-. apply (set_rows_changes t (fmap _)).
  - intros t cond ws c rp c' E _. cbn in E.
    destruct (split_texts _ _) as [[ws' [|]]|] eqn:Ep; try done.
    apply split_texts_app in Ep as [Ep _]. rewrite app_nil_r in Ep. apply texts_inj in Ep as ->.
    injection E as <- <-. split; [done|]. intros t'. split; [done|]. intros k r. cbn.
    unfold table_rows at 1. cbn. rewrite map_lookup_imap. unfold table_rows.
    destruct (sv_tables c !! t') as [tbl|]; cbn; [|naive_solver].
    rewrite map_lookup_filter_Some. cbn. by rewrite survives_true.
Qed.

(** ** Documents *)
Definition countable_value (A : Type) `{Countable A} : SerdeValue A := {|
  to_value a := Ok (JNumber (PosInt (Z.pos (encode a))));
  from_value v :=
    match v with
    | JNumber (PosInt (Z.pos p)) => ok_or (decode p) "invalid value"%string
    | _ => Err "invalid type"%string
    end;
|}.
Lemma countable_value_laws A `{Countable A} : @SerdeValueLaws A (countable_value A) id.
Proof. split. intros a. eexists. split; [done|]. cbn. by rewrite decode_encode. Qed.

#[export] Instance org_value : SerdeValue Organization := countable_value _.
#[export] Instance formation_value : SerdeValue FormationConfig := countable_value _.
#[export] Instance token_value : SerdeValue EnrollmentToken := countable_value _.
#[export] Instance sink_value : SerdeValue CdcSinkConfig := countable_value _.
#[export] Instance idp_value : SerdeValue IdpConfig := countable_value _.
#[export] Instance rule_value : SerdeValue PolicyRule := countable_value _.
#[export] Instance audit_value : SerdeValue EnrollmentAuditEntry := countable_value _.
#[export] Instance org_value_laws : SerdeValueLaws Organization pg_jsonb := countable_value_laws _.
#[export] Instance formation_value_laws : SerdeValueLaws FormationConfig pg_jsonb := countable_value_laws _.
#[export] Instance token_value_laws : SerdeValueLaws EnrollmentToken pg_jsonb := countable_value_laws _.
#[export] Instance sink_value_laws : SerdeValueLaws CdcSinkConfig pg_jsonb := countable_value_laws _.
#[export] Instance idp_value_laws : SerdeValueLaws IdpConfig pg_jsonb := countable_value_laws _.
#[export] Instance rule_value_laws : SerdeValueLaws PolicyRule pg_jsonb := countable_value_laws _.
#[export] Instance audit_value_laws : SerdeValueLaws EnrollmentAuditEntry pg_jsonb := countable_value_laws _.
