(* ===== verification/Manager.v ===== *)
(** tenant/manager.rs: the tenant manager.

    Every operation of [TenantManager] is a program over the storage methods, in
    the order of the source: validation, reads, checks, writes. *)
From S2P Require Import Prelude Text Extern Models Errors Effects Config Crypto.
From Stdlib Require Import ZArith Ascii.

#[local] Open Scope Z_scope.

(** ** Input validation *)
Definition MAX_IDENTIFIER_LEN : Z := 128.
Definition MAX_DISPLAY_NAME_LEN : Z := 1024.

Definition identifier_char (b : ascii) : bool :=
  is_ascii_alphanumeric b || bool_decide (b = "."%char) || bool_decide (b = "_"%char)
  || bool_decide (b = "-"%char).

Definition validate_identifier (value field : string) : Result unit :=
  match value with
  | EmptyString => Err (MustNotBeEmpty field)
  | String b _ =>
      if MAX_IDENTIFIER_LEN <? str_len value
      then Err (ExceedsMaxLength field (str_len value) MAX_IDENTIFIER_LEN)
      else if negb (is_ascii_alphanumeric b) then Err (MustStartAlphanumeric field)
      else if negb (all_chars identifier_char value) then Err (InvalidCharacters field)
      else Ok tt
  end.

Definition validate_display_name (value : string) : Result unit :=
  if is_empty value then Err (MustNotBeEmpty "display_name")
  else if MAX_DISPLAY_NAME_LEN <? str_len value
  then Err (ExceedsMaxLength "display_name" (str_len value) MAX_DISPLAY_NAME_LEN)
  else Ok tt.

Definition validate_non_empty (value field : string) : Result unit :=
  if is_empty (trim value) then Err (MustNotBeEmpty field) else Ok tt.

Definition validate_http_url (url field : string) : Result unit :=
  if is_empty url then Err (MustNotBeEmpty field)
  else if negb (starts_with url "http://") && negb (starts_with url "https://")
  then Err (MustUseHttp field)
  else Ok tt.

Definition validate_issuer_url (url : string) : Result unit :=
  if is_empty url then Err (MustNotBeEmpty "issuer_url")
  else if negb (starts_with url "https://") then Err IssuerMustUseHttps
  else Ok tt.

Definition validate_sink_type (sink_type : CdcSinkType) : Result unit :=
  match sink_type with
  | Webhook url => validate_http_url url "webhook url"
  | Nats subject_prefix => validate_non_empty subject_prefix "subject_prefix"
  | Kafka topic => validate_non_empty topic "topic"
  end.

(** ** The manager *)
Record TenantManager := {
  key_provider : KeyProvider;
  encrypt_enabled : bool;
}.

Section Manager.
Context `{HexLib} `{AeadLib} `{MeshLib}.

(** *** Organizations *)
Definition create_org (org_id display_name : string) : M Organization :=
  let! _ := lift (validate_identifier org_id "org_id") in
  let! _ := lift (validate_display_name display_name) in
  let! existing := store.get_org org_id in
  if bool_decide (is_Some existing) then bail (OrgAlreadyExists org_id) else
  try! now := now_ms in
  let org := {| o_org_id := org_id; o_display_name := display_name;
                o_quotas := default_quotas; o_created_at := now |} in
  let! _ := store.create_org org in
  ok org.

Definition get_org (org_id : string) : M Organization :=
  let! org := store.get_org org_id in
  lift (ok_or org (OrgNotFound org_id)).

Definition list_orgs : M (list Organization) := store.list_orgs.

Definition update_org (org_id : string) (display_name : option string)
    (quotas : option OrgQuotas) : M Organization :=
  let! org := get_org org_id in
  let org := {| o_org_id := o_org_id org;
                o_display_name := default (o_display_name org) display_name;
                o_quotas := default (o_quotas org) quotas;
                o_created_at := o_created_at org |} in
  let! _ := store.update_org org in
  ok org.

Definition delete_org (org_id : string) : M unit :=
  let! removed := store.delete_org org_id in
  if negb removed then bail (OrgNotFound org_id) else ok tt.

(** *** Formations *)
Definition membership_policy (p : EnrollmentPolicy) : MembershipPolicy :=
  match p with Open => MpOpen | Controlled => MpControlled | Strict => MpStrict end.

Definition get_formation (org_id app_id : string) : M FormationConfig :=
  let! f := store.get_formation org_id app_id in
  lift (ok_or f (FormationNotFound app_id org_id)).

(** [MeshGenesis::create] draws its seed from the system's random numbers. *)
Definition mesh_genesis_create (app_id : string) (p : MembershipPolicy) : prog MeshGenesis :=
  try! seed := random_bytes 64 in
  Ret (genesis_create app_id p seed).

Definition create_formation (mgr : TenantManager) (org_id app_id : string)
    (enrollment_policy : EnrollmentPolicy) : M FormationConfig :=
  let! _ := lift (validate_identifier app_id "app_id") in
  let! org := get_org org_id in
  let! existing := store.list_formations org_id in
  if max_formations (o_quotas org) <=? as_u32 (Z.of_nat (length existing))
  then bail (FormationQuotaReached org_id (max_formations (o_quotas org))) else
  let! present := store.get_formation org_id app_id in
  if bool_decide (is_Some present) then bail (FormationAlreadyExists app_id org_id) else
  let mesh_policy := membership_policy enrollment_policy in
  try! genesis := mesh_genesis_create app_id mesh_policy in
  let mesh_id := genesis_mesh_id genesis in
  let encoded := genesis_encode genesis in
  let! stored_bytes :=
    if encrypt_enabled mgr then seal (key_provider mgr) encoded else ok encoded in
  let formation := {| f_app_id := app_id; f_mesh_id := mesh_id;
                      f_enrollment_policy := enrollment_policy |} in
  let! _ := store.create_formation org_id formation in
  let! _ := store.store_genesis org_id app_id stored_bytes in
  ok formation.

Definition list_formations (org_id : string) : M (list FormationConfig) :=
  let! _ := get_org org_id in
  store.list_formations org_id.

Definition delete_formation (org_id app_id : string) : M unit :=
  let! removed := store.delete_formation org_id app_id in
  if negb removed then bail (FormationNotFound app_id org_id) else
  try! _ := store.delete_genesis org_id app_id in
  ok tt.

Definition load_genesis (mgr : TenantManager) (org_id app_id : string) : M MeshGenesis :=
  let! stored := store.get_genesis org_id app_id in
  let! stored := lift (ok_or stored (GenesisNotFound app_id org_id)) in
  let! plaintext :=
    if encrypt_enabled mgr then
      let! opened := open (key_provider mgr) stored in
      match opened with
      | Some decrypted => ok decrypted
      | None => ok stored
      end
    else ok stored in
  lift (map_err GenesisDecodeFailed (genesis_decode plaintext)).

Definition count_recent_enrollments (org_id : string) (since_ms : Z) : M Z :=
  let! entries := store.list_audit org_id None usize_max in
  ok (Z.of_nat (length (filter (λ e, since_ms ≤ a_timestamp_ms e) entries))).

(** *** Enrollment tokens *)
Definition create_token (org_id app_id label : string) (max_uses expires_at : option Z) :
    M EnrollmentToken :=
  let! _ := lift (validate_non_empty label "label") in
  let! _ := get_org org_id in
  let! _ := get_formation org_id app_id in
  try! buf := random_bytes 16 in
  let token_id := "peat_" +:+ hex_encode buf in
  try! now := now_ms in
  let token := {| t_token_id := token_id; t_org_id := org_id; t_app_id := app_id;
                  t_label := label; t_max_uses := max_uses; t_uses := 0;
                  t_expires_at := expires_at; t_created_at := now; t_revoked := false |} in
  let! _ := store.create_token token in
  ok token.

Definition get_token (org_id token_id : string) : M EnrollmentToken :=
  let! t := store.get_token org_id token_id in
  lift (ok_or t (TokenNotFound token_id org_id)).

Definition list_tokens (org_id app_id : string) : M (list EnrollmentToken) :=
  let! _ := get_org org_id in
  let! _ := get_formation org_id app_id in
  store.list_tokens org_id app_id.

Definition revoke_token (org_id token_id : string) : M EnrollmentToken :=
  let! token := get_token org_id token_id in
  if t_revoked token then bail (TokenAlreadyRevoked token_id) else
  let token := with_revoked token in
  let! _ := store.update_token token in
  ok token.

Definition delete_token (org_id token_id : string) : M unit :=
  let! removed := store.delete_token org_id token_id in
  if negb removed then bail (TokenNotFound token_id org_id) else ok tt.

Definition validate_and_consume_token (org_id app_id token_id : string) : M EnrollmentToken :=
  let! token := get_token org_id token_id in
  if bool_decide (t_app_id token ≠ app_id) then bail (TokenWrongFormation app_id) else
  if t_revoked token then bail (TokenIsRevoked token_id) else
  let! _ :=
    match t_expires_at token with
    | Some expires_at =>
        try! now := now_ms in
        if expires_at <? now then bail (TokenHasExpired token_id) else ok tt
    | None => ok tt
    end in
  let! _ :=
    match t_max_uses token with
    | Some max_uses =>
        if max_uses <=? t_uses token then bail (TokenMaxUsesReached token_id max_uses) else ok tt
    | None => ok tt
    end in
  let token := with_uses token (as_u32 (t_uses token + 1)) in
  let! _ := store.update_token token in
  ok token.

(** *** CDC sinks and cursors *)
Definition create_sink (org_id : string) (sink_type : CdcSinkType) : M CdcSinkConfig :=
  let! _ := lift (validate_sink_type sink_type) in
  let! org := get_org org_id in
  let! existing := store.list_sinks org_id in
  if max_cdc_sinks (o_quotas org) <=? as_u32 (Z.of_nat (length existing))
  then bail (SinkQuotaReached org_id (max_cdc_sinks (o_quotas org))) else
  try! buf := random_bytes 8 in
  let sink_id := hex_encode buf in
  try! now := now_ms in
  let sink := {| s_sink_id := sink_id; s_org_id := org_id; s_sink_type := sink_type;
                 s_enabled := true; s_created_at := now |} in
  let! _ := store.create_sink sink in
  ok sink.

Definition get_sink (org_id sink_id : string) : M CdcSinkConfig :=
  let! s := store.get_sink org_id sink_id in
  lift (ok_or s (SinkNotFound sink_id org_id)).

Definition list_sinks (org_id : string) : M (list CdcSinkConfig) :=
  let! _ := get_org org_id in
  store.list_sinks org_id.

Definition toggle_sink (org_id sink_id : string) (enabled : bool) : M CdcSinkConfig :=
  let! sink := get_sink org_id sink_id in
  let sink := with_sink_enabled sink enabled in
  let! _ := store.update_sink sink in
  ok sink.

Definition delete_sink (org_id sink_id : string) : M unit :=
  let! removed := store.delete_sink org_id sink_id in
  if negb removed then bail (SinkNotFound sink_id org_id) else ok tt.

Definition get_cursor (org_id app_id document_id : string) : M (option string) :=
  store.get_cursor org_id app_id document_id.
Definition set_cursor (org_id app_id document_id change_hash : string) : M unit :=
  store.set_cursor org_id app_id document_id change_hash.

(** *** Identity providers *)
Definition create_idp (org_id issuer_url client_id client_secret : string) : M IdpConfig :=
  let! _ := lift (validate_issuer_url issuer_url) in
  let! _ := lift (validate_non_empty client_id "client_id") in
  let! _ := lift (validate_non_empty client_secret "client_secret") in
  let! _ := get_org org_id in
  try! buf := random_bytes 8 in
  let idp_id := hex_encode buf in
  try! now := now_ms in
  let idp := {| i_idp_id := idp_id; i_org_id := org_id; i_issuer_url := issuer_url;
                i_client_id := client_id; i_client_secret := client_secret;
                i_enabled := true; i_created_at := now |} in
  let! _ := store.create_idp idp in
  ok idp.

Definition get_idp (org_id idp_id : string) : M IdpConfig :=
  let! i := store.get_idp org_id idp_id in
  lift (ok_or i (IdpNotFound idp_id org_id)).

Definition list_idps (org_id : string) : M (list IdpConfig) :=
  let! _ := get_org org_id in
  store.list_idps org_id.

Definition toggle_idp (org_id idp_id : string) (enabled : bool) : M IdpConfig :=
  let! idp := get_idp org_id idp_id in
  let idp := with_idp_enabled idp enabled in
  let! _ := store.update_idp idp in
  ok idp.

Definition delete_idp (org_id idp_id : string) : M unit :=
  let! removed := store.delete_idp org_id idp_id in
  if negb removed then bail (IdpNotFound idp_id org_id) else ok tt.

(** *** Policy rules *)
Definition create_policy_rule (org_id claim_key claim_value : string) (tier : MeshTier)
    (permissions priority : Z) : M PolicyRule :=
  let! _ := get_org org_id in
  try! buf := random_bytes 8 in
  let rule_id := hex_encode buf in
  let rule := {| r_rule_id := rule_id; r_org_id := org_id; r_claim_key := claim_key;
                 r_claim_value := claim_value; r_tier := tier;
                 r_permissions := permissions; r_priority := priority |} in
  let! _ := store.create_policy_rule rule in
  ok rule.

Definition list_policy_rules (org_id : string) : M (list PolicyRule) :=
  let! _ := get_org org_id in
  store.list_policy_rules org_id.

Definition delete_policy_rule (org_id rule_id : string) : M unit :=
  let! removed := store.delete_policy_rule org_id rule_id in
  if negb removed then bail (PolicyRuleNotFound rule_id org_id) else ok tt.

(** *** Enrollment audit *)
Definition append_audit (entry : EnrollmentAuditEntry) : M unit := store.append_audit entry.

Definition list_audit (org_id : string) (app_id : option string) (limit : Z) :
    M (list EnrollmentAuditEntry) :=
  let! _ := get_org org_id in
  store.list_audit org_id app_id limit.
End Manager.

(** ** Start-up *)
Section New.
Context `{HexLib} `{AeadLib} `{Base64Lib} `{HttpLib}
  `{Serde vault.EncryptRequest} `{Serde vault.EncryptResponse}
  `{Serde vault.DecryptRequest} `{Serde vault.DecryptResponse}.
Context (feat : features) (aws_client : kms.Client).
(** Opening the redb file, connecting to Postgres. *)
Context (redb_open postgres_connect : string → result string unit).

Definition storage_open (config : StorageConfig) : Result unit :=
  match config with
  | Redb path => map_err StorageError (redb_open path)
  | Postgres url =>
      if postgres feat then map_err StorageError (postgres_connect url)
      else Err PostgresNotEnabled
  end.

Definition with_key_provider (config : GatewayConfig) (kp : KeyProvider) (enabled : bool) :
    M TenantManager :=
  let! _ := lift (storage_open (storage config)) in
  let! _ := store.list_orgs in
  ok {| key_provider := kp; encrypt_enabled := enabled |}.

Definition new (config : GatewayConfig) : M TenantManager :=
  let! _ := lift (storage_open (storage config)) in
  let! kp := lift (build_key_provider feat aws_client config) in
  let! _ := store.list_orgs in
  ok {| key_provider := kp.1; encrypt_enabled := kp.2 |}.
End New.
