(* ===== verification/Mem.v ===== *)
(** A reference backend: the abstract database itself as an executable store,
    for running the gateway's programs on concrete inputs.  [mem_storage_spec]
    shows it implements the contract of [Spec.v], reliably. *)
From S2P Require Import Prelude Text Extern Models Errors Effects Spec Wp.
From Stdlib Require Import ZArith.

#[local] Open Scope Z_scope.

(** [take] of a [usize] bound, by recursion on the list. *)
Fixpoint take_z {A} (n : Z) (l : list A) : list A :=
  match l with
  | [] => []
  | x :: l => if 0 <? n then x :: take_z (n - 1) l else []
  end.
Lemma take_z_take {A} n (l : list A) : take_z n l = take (Z.to_nat n) l.
Proof.
  revert n; induction l as [|x l IH]; intros n; simpl; [by rewrite take_nil|].
  destruct (Z.ltb_spec 0 n) as [Hn|Hn].
  - replace (Z.to_nat n) with (S (Z.to_nat (n - 1))) by lia. simpl. by rewrite IH.
  - by replace (Z.to_nat n) with 0%nat by lia.
Qed.

#[export] Instance newer_dec x y : Decision (newer x y).
Proof. unfold newer. apply _. Defined.
#[export] Instance newer_trans : Transitive newer.
Proof. intros x y z. unfold newer. lia. Qed.
#[export] Instance newer_total : Total newer.
Proof. intros x y. unfold newer. lia. Qed.

Definition mem_list {V} (o : string) (m : gmap (string * string) V) : list V :=
  (map_to_list (rows_of o m)).*2.
Definition mem_audit (o : string) (app : option string) (m : db) :
    list ((string * Z * string) * EnrollmentAuditEntry) :=
  merge_sort newer (map_to_list (filter (audit_match o app) (d_audit m))).

#[export] Instance mem_backend : Backend db := λ R op m,
  let present {K V} `{Countable K} (k : K) (t : gmap K V) := bool_decide (is_Some (t !! k)) in
  match op in StoreOp R return Result R * db with
  | CreateOrg org | UpdateOrg org => (Ok tt, upd_orgs <[o_org_id org := org]> m)
  | GetOrg o => (Ok (d_orgs m !! o), m)
  | ListOrgs => (Ok (map_to_list (d_orgs m)).*2, m)
  | DeleteOrg o => (Ok (present o (d_orgs m)), drop_org o m)
  | CreateFormation o f => (Ok tt, upd_formations <[(o, f_app_id f) := f]> m)
  | GetFormation o a => (Ok (d_formations m !! (o, a)), m)
  | ListFormations o => (Ok (mem_list o (d_formations m)), m)
  | DeleteFormation o a =>
      (Ok (present (o, a) (d_formations m)), upd_formations (delete (o, a)) m)
  | CreateToken t | UpdateToken t => (Ok tt, upd_tokens <[(t_org_id t, t_token_id t) := t]> m)
  | GetToken o t => (Ok (d_tokens m !! (o, t)), m)
  | ListTokens o a => (Ok (filter (λ t, t_app_id t = a) (mem_list o (d_tokens m))), m)
  | DeleteToken o t => (Ok (present (o, t) (d_tokens m)), upd_tokens (delete (o, t)) m)
  | CreateSink s | UpdateSink s => (Ok tt, upd_sinks <[(s_org_id s, s_sink_id s) := s]> m)
  | GetSink o s => (Ok (d_sinks m !! (o, s)), m)
  | ListSinks o => (Ok (mem_list o (d_sinks m)), m)
  | DeleteSink o s => (Ok (present (o, s) (d_sinks m)), upd_sinks (delete (o, s)) m)
  | CreateIdp i | UpdateIdp i => (Ok tt, upd_idps <[(i_org_id i, i_idp_id i) := i]> m)
  | GetIdp o i => (Ok (d_idps m !! (o, i)), m)
  | ListIdps o => (Ok (mem_list o (d_idps m)), m)
  | DeleteIdp o i => (Ok (present (o, i) (d_idps m)), upd_idps (delete (o, i)) m)
  | CreatePolicyRule r => (Ok tt, upd_rules <[(r_org_id r, r_rule_id r) := r]> m)
  | ListPolicyRules o => (Ok (mem_list o (d_rules m)), m)
  | DeletePolicyRule o r => (Ok (present (o, r) (d_rules m)), upd_rules (delete (o, r)) m)
  | AppendAudit e => (Ok tt, upd_audit <[(a_org_id e, a_timestamp_ms e, a_audit_id e) := e]> m)
  | ListAudit o app limit => (Ok (take_z limit (mem_audit o app m)).*2, m)
  | StoreGenesis o a b => (Ok tt, upd_genesis <[(o, a) := b]> m)
  | GetGenesis o a => (Ok (d_genesis m !! (o, a)), m)
  | DeleteGenesis o a => (Ok (present (o, a) (d_genesis m)), upd_genesis (delete (o, a)) m)
  | GetCursor o a d => (Ok (d_cursors m !! (o, a, d)), m)
  | SetCursor o a d h => (Ok tt, upd_cursors <[(o, a, d) := h]> m)
  end.

Lemma mem_storage_spec : StorageSpec db eq.
Proof.
  intros R op s m r s' <- _ E.
  destruct op; cbn in E; injection E as <- <-; eexists; split; try reflexivity; cbn;
    unfold listing; try (split; reflexivity); try (by left).
  - split; [|done]. exists (mem_list org_id (d_tokens s)). by split.
  - split; [|done]. exists (mem_audit org_id app_id s). rewrite take_z_take. split; [|by left].
    split; [apply merge_sort_Permutation|intros _; apply (StronglySorted_merge_sort _)].
Qed.

Lemma mem_reliable : Reliable db eq.
Proof. intros R op s m <- _. by destruct op. Qed.
