(* ===== verification/Invariant.v ===== *)
(** The database invariant of the tenant manager, and the frame of a tenant.

    [wf] says that every row sits under its own key, belongs to an organization
    that exists, and passed the validation of the operation that created it.
    [same_tenant o] says that an organization's data is untouched.  The storage
    methods keep both under the side conditions [op_wf]; [good] chains them
    through a program. *)
From S2P Require Import Prelude Text Extern Models Errors Effects Spec Wp Manager.
From Stdlib Require Import ZArith Ascii.

#[local] Open Scope Z_scope.

(** ** Identifiers: ^[a-zA-Z0-9][a-zA-Z0-9._-]*$, at most 128 bytes *)
Definition valid_identifier (s : string) : Prop :=
  str_len s ≤ MAX_IDENTIFIER_LEN ∧
  ∃ c r, s = String c r ∧ is_ascii_alphanumeric c = true ∧ all_chars identifier_char r = true.

Lemma alnum_identifier_char c : is_ascii_alphanumeric c = true → identifier_char c = true.
Proof. unfold identifier_char. by intros ->. Qed.

Lemma validate_identifier_ok s field :
  validate_identifier s field = Ok tt ↔ valid_identifier s.
Proof.
  unfold valid_identifier. destruct s as [|c r]; simpl.
  { split; [done|]. by intros [_ (?&?&?&_)]. }
  destruct (Z.ltb_spec MAX_IDENTIFIER_LEN (str_len (String c r))) as [Hlt|Hle].
  { split; [done|]. intros [? _]. lia. }
  destruct (is_ascii_alphanumeric c) eqn:Ec; simpl.
  2: { split; [done|]. intros [_ (?&?&[= <- <-]&?&_)]. congruence. }
  rewrite (alnum_identifier_char c Ec). simpl. split.
  - destruct (all_chars identifier_char r) eqn:E; [|done]. intros _. split; [done|]. eauto.
  - intros [_ (c' & r' & [= <- <-] & _ & ->)]. done.
Qed.

Lemma valid_identifier_nul_free s : valid_identifier s → nul_free s.
Proof.
  intros [_ (c & r & -> & Hc & Hr)]. apply (all_chars_nul_free identifier_char); [done|].
  simpl. by rewrite (alnum_identifier_char c Hc).
Qed.
#[export] Hint Resolve valid_identifier_nul_free : gw_str.

(** ** The invariant *)
Definition has_org (o : string) (m : db) : Prop := is_Some (d_orgs m !! o).

Definition token_ok (t : EnrollmentToken) : Prop :=
  u32 (t_uses t) ∧ ∀ n, t_max_uses t = Some n → u32 n ∧ t_uses t ≤ n.

Record wf (m : db) : Prop := {
  wf_orgs o org : d_orgs m !! o = Some org → o_org_id org = o ∧ valid_identifier o;
  wf_formations o a f : d_formations m !! (o, a) = Some f →
    f_app_id f = a ∧ valid_identifier a ∧ has_org o m;
  wf_tokens o t tok : d_tokens m !! (o, t) = Some tok →
    t_org_id tok = o ∧ t_token_id tok = t ∧ nul_free t ∧ token_ok tok ∧ has_org o m;
  wf_sinks o s sink : d_sinks m !! (o, s) = Some sink →
    s_org_id sink = o ∧ s_sink_id sink = s ∧ nul_free s ∧
    validate_sink_type (s_sink_type sink) = Ok tt ∧ has_org o m;
  wf_idps o i idp : d_idps m !! (o, i) = Some idp →
    i_org_id idp = o ∧ i_idp_id idp = i ∧ nul_free i ∧
    validate_issuer_url (i_issuer_url idp) = Ok tt ∧ has_org o m;
  wf_rules o r rule : d_rules m !! (o, r) = Some rule →
    r_org_id rule = o ∧ r_rule_id rule = r ∧ has_org o m;
  wf_audit o ts a e : d_audit m !! (o, ts, a) = Some e →
    a_org_id e = o ∧ a_timestamp_ms e = ts ∧ a_audit_id e = a;
  wf_genesis o a b : d_genesis m !! (o, a) = Some b → has_org o m;
}.

Lemma wf_empty : wf db_empty.
Proof. split; intros *; cbn; by rewrite lookup_empty. Qed.

Lemma wf_org_nul_free m o : wf m → has_org o m → nul_free o.
Proof. intros Hwf [org Eo]. destruct (wf_orgs m Hwf o org Eo). by apply valid_identifier_nul_free. Qed.

(** The side conditions under which a method keeps the invariant. *)
Definition op_wf {R} (op : StoreOp R) (m : db) : Prop :=
  op_ok op ∧
  match op with
  | CreateOrg org | UpdateOrg org => valid_identifier (o_org_id org)
  | CreateFormation o f => valid_identifier (f_app_id f) ∧ has_org o m
  | CreateToken t | UpdateToken t => token_ok t ∧ has_org (t_org_id t) m
  | CreateSink s | UpdateSink s => validate_sink_type (s_sink_type s) = Ok tt ∧ has_org (s_org_id s) m
  | CreateIdp i | UpdateIdp i => validate_issuer_url (i_issuer_url i) = Ok tt ∧ has_org (i_org_id i) m
  | CreatePolicyRule r => has_org (r_org_id r) m
  | StoreGenesis o a _ => has_org o m
  | _ => True
  end.

Lemma rows_not_of_Some `{Countable K} `{OrgKey K} {V} o (m : gmap K V) k v :
  rows_not_of o m !! k = Some v ↔ m !! k = Some v ∧ org_of k ≠ o.
Proof. unfold rows_not_of. by rewrite map_lookup_filter_Some. Qed.

Lemma rows_not_of_ne `{Countable K} `{OrgKey K} {V} o (m : gmap K V) k :
  org_of k ≠ o → rows_not_of o m !! k = m !! k.
Proof.
  intros Hne. unfold rows_not_of. destruct (m !! k) as [v|] eqn:E.
  - by apply map_lookup_filter_Some.
  - apply map_lookup_filter_None. by left.
Qed.

(** A lookup after one change: the changed row, or a row from before. *)
Local Ltac lookup_cases :=
  repeat match goal with
  | H : <[_ := _]> _ !! _ = Some _ |- _ => apply lookup_insert_Some in H
  | H : delete _ _ !! _ = Some _ |- _ => apply lookup_delete_Some in H
  | H : rows_not_of _ _ !! _ = Some _ |- _ => apply rows_not_of_Some in H
  | H : _ ∧ _ |- _ => destruct H
  | H : _ ∨ _ |- _ => destruct H
  end; simplify_eq.

(** Organizations that stay after a change. *)
Local Ltac keep_org :=
  unfold has_org in *; cbn in *;
  rewrite ?lookup_insert_is_Some', ?lookup_delete_is_Some; auto.

Lemma spec_wf {R} (op : StoreOp R) m r m' :
  wf m → op_wf op m → spec op m r m' → wf m'.
Proof.
  intros Hwf [Hok Hop] Hs. pose proof Hwf as [Ho Hf Ht Hsk Hi Hr Ha Hg].
  destruct op; cbn in Hok, Hop, Hs; destruct_and?; destruct_or?; destruct_and?; subst; try exact Hwf;
    constructor; cbn; intros; lookup_cases; try done; split_and?; try done;
    try (by eauto using valid_identifier_nul_free);
    try (by eapply Ho); try (by eapply Hf); try (by eapply Ht); try (by eapply Hsk);
    try (by eapply Hi); try (by eapply Hr); try (by eapply Ha); try (by eapply Hg).
  all: try (match goal with
      | H : d_formations _ !! _ = Some _ |- _ => destruct (Hf _ _ _ H) as (?&?&?)
      | H : d_tokens _ !! _ = Some _ |- _ => destruct (Ht _ _ _ H) as (?&?&?&?&?)
      | H : d_sinks _ !! _ = Some _ |- _ => destruct (Hsk _ _ _ H) as (?&?&?&?&?)
      | H : d_idps _ !! _ = Some _ |- _ => destruct (Hi _ _ _ H) as (?&?&?&?&?)
      | H : d_rules _ !! _ = Some _ |- _ => destruct (Hr _ _ _ H) as (?&?&?)
      | H : d_genesis _ !! _ = Some _ |- _ => pose proof (Hg _ _ _ H)
      end; split_and?; keep_org; done).
Qed.

(** ** The frame of a tenant *)
Record same_tenant (o : string) (m m' : db) : Prop := {
  st_org : d_orgs m' !! o = d_orgs m !! o;
  st_formations a : d_formations m' !! (o, a) = d_formations m !! (o, a);
  st_tokens t : d_tokens m' !! (o, t) = d_tokens m !! (o, t);
  st_sinks s : d_sinks m' !! (o, s) = d_sinks m !! (o, s);
  st_idps i : d_idps m' !! (o, i) = d_idps m !! (o, i);
  st_rules r : d_rules m' !! (o, r) = d_rules m !! (o, r);
  st_audit ts a : d_audit m' !! (o, ts, a) = d_audit m !! (o, ts, a);
  st_genesis a : d_genesis m' !! (o, a) = d_genesis m !! (o, a);
  st_cursors a d : d_cursors m' !! (o, a, d) = d_cursors m !! (o, a, d);
}.

#[export] Instance same_tenant_equiv o : Equivalence (same_tenant o).
Proof.
  split.
  - by constructor.
  - intros m m' []. by constructor.
  - intros m m' m'' [] []. constructor; intros; etrans; eauto.
Qed.

(** The organization a writing method names. *)
Definition op_org {R} (op : StoreOp R) : option string :=
  match op with
  | CreateOrg org | UpdateOrg org => Some (o_org_id org)
  | DeleteOrg o => Some o
  | CreateFormation o _ | DeleteFormation o _ => Some o
  | CreateToken t | UpdateToken t => Some (t_org_id t)
  | DeleteToken o _ => Some o
  | CreateSink s | UpdateSink s => Some (s_org_id s)
  | DeleteSink o _ => Some o
  | CreateIdp i | UpdateIdp i => Some (i_org_id i)
  | DeleteIdp o _ => Some o
  | CreatePolicyRule r => Some (r_org_id r)
  | DeletePolicyRule o _ => Some o
  | AppendAudit e => Some (a_org_id e)
  | StoreGenesis o _ _ | DeleteGenesis o _ => Some o
  | SetCursor o _ _ _ => Some o
  | _ => None
  end.

Lemma spec_frame {R} (op : StoreOp R) m r m' o :
  spec op m r m' → op_org op ≠ Some o → same_tenant o m m'.
Proof.
  intros Hs Hne.
  destruct op; cbn in Hs, Hne; destruct_and?; destruct_or?; destruct_and?; subst; try done;
    constructor; cbn; intros; try done;
    rewrite ?rows_not_of_ne by (cbn; congruence);
    rewrite ?lookup_insert_ne, ?lookup_delete_ne by congruence; done.
Qed.

(** ** Chaining through a program *)
Definition good (o : string) (m m' : db) : Prop :=
  wf m' ∧ ∀ o', o' ≠ o → same_tenant o' m m'.

Lemma good_refl o m : wf m → good o m m.
Proof. intros Hwf. split; [done|]. by intros o' _. Qed.

Lemma good_step {R} (op : StoreOp R) o m0 m r m' :
  good o m0 m → op_wf op m → from_option (eq o) True (op_org op) → spec op m r m' →
  good o m0 m'.
Proof.
  intros [Hwf Hfr] Hop Ho Hs. split; [by eapply spec_wf|]. intros o' Hne.
  etrans; [by apply Hfr|]. eapply spec_frame; [exact Hs|].
  destruct (op_org op) as [o''|]; cbn in *; congruence.
Qed.

Lemma set_store_id (w : world db) : set_store (w_store w) w = w.
Proof. by destruct w. Qed.

(** A method call that keeps [good], whatever its answer. *)
Lemma wp_call_good {R} orc fl (op : StoreOp R) o m0 Q w :
  good o m0 (w_store w) → op_wf op (w_store w) → from_option (eq o) True (op_org op) →
  (∀ r m', spec op (w_store w) r m' → good o m0 m' → Q (Ok r) (set_store m' w)) →
  (∀ e, Q (Err e) w) → wp orc fl (call op) Q w.
Proof.
  intros Hg Hop Ho Hok Herr. apply wp_call; [apply Hop| |auto].
  intros r m' Hs. apply Hok; [done|]. by eapply good_step.
Qed.
