(* ===== verification/ManagerInv.v ===== *)
(** Every operation of the tenant manager keeps the invariant and leaves the
    other tenants alone, storage faults included.

    [tenant_call] lists the operations with their arguments, [perform] runs one,
    and [perform_all] a sequence of them. *)
From S2P Require Import Prelude Text Extern Models Errors Effects Spec Wp Crypto Manager Invariant.
From Stdlib Require Import ZArith.

#[local] Open Scope Z_scope.

Inductive tenant_call : Type :=
| CallCreateOrg (org_id display_name : string)
| CallGetOrg (org_id : string)
| CallListOrgs
| CallUpdateOrg (org_id : string) (display_name : option string) (quotas : option OrgQuotas)
| CallDeleteOrg (org_id : string)
| CallCreateFormation (org_id app_id : string) (p : EnrollmentPolicy)
| CallGetFormation (org_id app_id : string)
| CallListFormations (org_id : string)
| CallDeleteFormation (org_id app_id : string)
| CallLoadGenesis (org_id app_id : string)
| CallCountRecent (org_id : string) (since_ms : Z)
| CallCreateToken (org_id app_id label : string) (max_uses expires_at : option Z)
| CallGetToken (org_id token_id : string)
| CallListTokens (org_id app_id : string)
| CallRevokeToken (org_id token_id : string)
| CallDeleteToken (org_id token_id : string)
| CallConsumeToken (org_id app_id token_id : string)
| CallCreateSink (org_id : string) (sink_type : CdcSinkType)
| CallGetSink (org_id sink_id : string)
| CallListSinks (org_id : string)
| CallToggleSink (org_id sink_id : string) (enabled : bool)
| CallDeleteSink (org_id sink_id : string)
| CallGetCursor (org_id app_id document_id : string)
| CallSetCursor (org_id app_id document_id change_hash : string)
| CallCreateIdp (org_id issuer_url client_id client_secret : string)
| CallGetIdp (org_id idp_id : string)
| CallListIdps (org_id : string)
| CallToggleIdp (org_id idp_id : string) (enabled : bool)
| CallDeleteIdp (org_id idp_id : string)
| CallCreateRule (org_id claim_key claim_value : string) (tier : MeshTier) (perms priority : Z)
| CallListRules (org_id : string)
| CallDeleteRule (org_id rule_id : string)
| CallAppendAudit (entry : EnrollmentAuditEntry)
| CallListAudit (org_id : string) (app_id : option string) (limit : Z).

(** Which organization a call names; [ListOrgs] names none and only reads. *)
Definition call_org (c : tenant_call) : string :=
  match c with
  | CallCreateOrg o _ | CallGetOrg o | CallUpdateOrg o _ _ | CallDeleteOrg o
  | CallCreateFormation o _ _ | CallGetFormation o _ | CallListFormations o
  | CallDeleteFormation o _ | CallLoadGenesis o _ | CallCountRecent o _
  | CallCreateToken o _ _ _ _ | CallGetToken o _ | CallListTokens o _ | CallRevokeToken o _
  | CallDeleteToken o _ | CallConsumeToken o _ _ | CallCreateSink o _ | CallGetSink o _
  | CallListSinks o | CallToggleSink o _ _ | CallDeleteSink o _ | CallGetCursor o _ _
  | CallSetCursor o _ _ _ | CallCreateIdp o _ _ _ | CallGetIdp o _ | CallListIdps o
  | CallToggleIdp o _ _ | CallDeleteIdp o _ | CallCreateRule o _ _ _ _ _ | CallListRules o
  | CallDeleteRule o _ | CallListAudit o _ _ => o
  | CallAppendAudit e => a_org_id e
  | CallListOrgs => EmptyString
  end.

(** The arguments in range, and without NUL where they reach a key unchecked. *)
Definition call_ok (c : tenant_call) : Prop :=
  match c with
  | CallDeleteOrg o | CallCountRecent o _ => nul_free o
  | CallCreateToken _ _ _ (Some n) _ => u32 n
  | CallGetCursor o a _ | CallSetCursor o a _ _ => nul_free o ∧ nul_free a
  | CallAppendAudit e => nul_free (a_org_id e) ∧ nul_free (a_audit_id e) ∧ u64 (a_timestamp_ms e)
  | CallListAudit _ _ limit => u64 limit
  | _ => True
  end.

Section Perform.
Context `{HexLib} `{AeadLib} `{MeshLib} (mgr : TenantManager).

Definition forget {A} (c : M A) : prog unit := pbind c (λ _, Ret tt).

Definition perform_call (c : tenant_call) : prog unit :=
  match c with
  | CallCreateOrg o n => forget (create_org o n)
  | CallGetOrg o => forget (get_org o)
  | CallListOrgs => forget list_orgs
  | CallUpdateOrg o n q => forget (update_org o n q)
  | CallDeleteOrg o => forget (delete_org o)
  | CallCreateFormation o a p => forget (create_formation mgr o a p)
  | CallGetFormation o a => forget (get_formation o a)
  | CallListFormations o => forget (list_formations o)
  | CallDeleteFormation o a => forget (delete_formation o a)
  | CallLoadGenesis o a => forget (load_genesis mgr o a)
  | CallCountRecent o t => forget (count_recent_enrollments o t)
  | CallCreateToken o a l m e => forget (create_token o a l m e)
  | CallGetToken o t => forget (get_token o t)
  | CallListTokens o a => forget (list_tokens o a)
  | CallRevokeToken o t => forget (revoke_token o t)
  | CallDeleteToken o t => forget (delete_token o t)
  | CallConsumeToken o a t => forget (validate_and_consume_token o a t)
  | CallCreateSink o s => forget (create_sink o s)
  | CallGetSink o s => forget (get_sink o s)
  | CallListSinks o => forget (list_sinks o)
  | CallToggleSink o s b => forget (toggle_sink o s b)
  | CallDeleteSink o s => forget (delete_sink o s)
  | CallGetCursor o a d => forget (get_cursor o a d)
  | CallSetCursor o a d h => forget (set_cursor o a d h)
  | CallCreateIdp o u c s => forget (create_idp o u c s)
  | CallGetIdp o i => forget (get_idp o i)
  | CallListIdps o => forget (list_idps o)
  | CallToggleIdp o i b => forget (toggle_idp o i b)
  | CallDeleteIdp o i => forget (delete_idp o i)
  | CallCreateRule o k v t p pr => forget (create_policy_rule o k v t p pr)
  | CallListRules o => forget (list_policy_rules o)
  | CallDeleteRule o r => forget (delete_policy_rule o r)
  | CallAppendAudit e => forget (append_audit e)
  | CallListAudit o a n => forget (list_audit o a n)
  end.

Fixpoint perform_all (cs : list tenant_call) : prog unit :=
  match cs with
  | [] => Ret tt
  | c :: cs => pbind (perform_call c) (λ _, perform_all cs)
  end.
End Perform.

(** ** Programs of the envelope layer leave storage alone *)
Section Crypto.
Context `{AeadLib}.

Lemma context_no_store {E A} (r : result E A) e : no_store (context r e).
Proof. done. Qed.

Lemma seal_no_store kp b : KeyProviderLaws kp → no_store (seal kp b).
Proof.
  intros Hkp. unfold seal. cbn -[no_store mbind]. split; [done|]. intros dek. cbn.
  split; [done|]. intros nonce. apply no_store_mbind; [apply Hkp|]. intros wd.
  by repeat case_match.
Qed.

Lemma open_no_store kp b : KeyProviderLaws kp → no_store (open kp b).
Proof.
  intros Hkp. unfold open. repeat (case_match; [done|]).
  apply no_store_mbind; [apply Hkp|]. intros dek. case_match; [done|].
  apply no_store_mbind; [done|]. intros _. by apply no_store_mbind.
Qed.
End Crypto.

(** ** Reads *)
Definition is_read {R} (op : StoreOp R) : Prop :=
  match op with
  | GetOrg _ | ListOrgs | GetFormation _ _ | ListFormations _ | GetToken _ _ | ListTokens _ _
  | GetSink _ _ | ListSinks _ | GetIdp _ _ | ListIdps _ | ListPolicyRules _ | ListAudit _ _ _
  | GetGenesis _ _ | GetCursor _ _ _ => True
  | _ => False
  end.

Lemma spec_read {R} (op : StoreOp R) m r m' : is_read op → spec op m r m' → m' = m.
Proof. destruct op; cbn; intros; destruct_and?; done. Qed.

Lemma wp_call_read {R} orc fl (op : StoreOp R) Q w :
  op_ok op → is_read op →
  (∀ r, spec op (w_store w) r (w_store w) → Q (Ok r) w) →
  (fl = true → ∀ e, Q (Err e) w) → wp orc fl (call op) Q w.
Proof.
  intros Hok Hread HQ Herr. apply wp_call; [done| |done]. intros r m' Hs.
  pose proof (spec_read op _ _ _ Hread Hs) as ->. rewrite set_store_id. by apply HQ.
Qed.

(** ** Symbolic execution of the manager's programs *)
Section Steps.
Context (orc : oracle) (fl : bool).

Lemma wp_get_org o Q w :
  (∀ org, d_orgs (w_store w) !! o = Some org → Q (Ok org) w) →
  (d_orgs (w_store w) !! o = None → Q (Err (OrgNotFound o)) w) →
  (fl = true → ∀ e, Q (Err e) w) →
  wp orc fl (get_org o) Q w.
Proof.
  intros HS HN He. unfold get_org. apply wp_mbind, wp_call_read; [done|done| |done].
  intros r [-> _]. destruct (d_orgs (w_store w) !! o) eqn:E; cbn; auto.
Qed.

Lemma wp_get_formation o a Q w :
  (∀ f, d_formations (w_store w) !! (o, a) = Some f → Q (Ok f) w) →
  (d_formations (w_store w) !! (o, a) = None → Q (Err (FormationNotFound a o)) w) →
  (fl = true → ∀ e, Q (Err e) w) →
  wp orc fl (get_formation o a) Q w.
Proof.
  intros HS HN He. unfold get_formation. apply wp_mbind, wp_call_read; [done|done| |done].
  intros r [-> _]. destruct (d_formations (w_store w) !! (o, a)) eqn:E; cbn; auto.
Qed.

Lemma wp_get_token o t Q w :
  (∀ tok, d_tokens (w_store w) !! (o, t) = Some tok → Q (Ok tok) w) →
  (d_tokens (w_store w) !! (o, t) = None → Q (Err (TokenNotFound t o)) w) →
  (fl = true → ∀ e, Q (Err e) w) →
  wp orc fl (get_token o t) Q w.
Proof.
  intros HS HN He. unfold get_token. apply wp_mbind, wp_call_read; [done|done| |done].
  intros r [-> _]. destruct (d_tokens (w_store w) !! (o, t)) eqn:E; cbn; auto.
Qed.

Lemma wp_get_sink o s Q w :
  (∀ sink, d_sinks (w_store w) !! (o, s) = Some sink → Q (Ok sink) w) →
  (d_sinks (w_store w) !! (o, s) = None → Q (Err (SinkNotFound s o)) w) →
  (fl = true → ∀ e, Q (Err e) w) →
  wp orc fl (get_sink o s) Q w.
Proof.
  intros HS HN He. unfold get_sink. apply wp_mbind, wp_call_read; [done|done| |done].
  intros r [-> _]. destruct (d_sinks (w_store w) !! (o, s)) eqn:E; cbn; auto.
Qed.

Lemma wp_get_idp o i Q w :
  (∀ idp, d_idps (w_store w) !! (o, i) = Some idp → Q (Ok idp) w) →
  (d_idps (w_store w) !! (o, i) = None → Q (Err (IdpNotFound i o)) w) →
  (fl = true → ∀ e, Q (Err e) w) →
  wp orc fl (get_idp o i) Q w.
Proof.
  intros HS HN He. unfold get_idp. apply wp_mbind, wp_call_read; [done|done| |done].
  intros r [-> _]. destruct (d_idps (w_store w) !! (o, i)) eqn:E; cbn; auto.
Qed.
End Steps.

(** One step of a program: a sequence, a pure step, a lookup, a case split. *)
Ltac wp_step :=
  cbv beta iota;
  lazymatch goal with
  | |- wp _ _ (mbind _ _) _ _ => apply wp_mbind
  | |- wp _ _ (pbind _ _) _ _ => apply wp_pbind
  | |- wp _ _ (lift _) _ _ => apply wp_ret
  | |- wp _ _ (ok _) _ _ => apply wp_ret
  | |- wp _ _ (bail _) _ _ => apply wp_ret
  | |- wp _ _ (Ret _) _ _ => apply wp_ret
  | |- wp _ _ now_ms _ _ => apply wp_now_ms
  | |- wp _ _ (random_bytes _) _ _ => apply wp_random_bytes
  | |- wp _ _ (mesh_genesis_create _ _) _ _ => unfold mesh_genesis_create
  | |- wp _ _ (get_org _) _ _ => apply wp_get_org; [intros ? ?|intros ?|intros ? ?]
  | |- wp _ _ (get_formation _ _) _ _ => apply wp_get_formation; [intros ? ?|intros ?|intros ? ?]
  | |- wp _ _ (get_token _ _) _ _ => apply wp_get_token; [intros ? ?|intros ?|intros ? ?]
  | |- wp _ _ (get_sink _ _) _ _ => apply wp_get_sink; [intros ? ?|intros ?|intros ? ?]
  | |- wp _ _ (get_idp _ _) _ _ => apply wp_get_idp; [intros ? ?|intros ?|intros ? ?]
  | |- match ?r with Ok _ => _ | Err _ => _ end => destruct r eqn:?
  | |- wp _ _ (if ?b then _ else _) _ _ => destruct b eqn:?
  | |- wp _ _ (match ?r with Some _ => _ | None => _ end) _ _ => destruct r eqn:?
  end.

(** ** The operations keep the invariant *)
Section Keeps.
Context `{HexLaws} `{AeadLib} `{MeshLib} (mgr : TenantManager).
Context (orc : oracle) (fl : bool).

Lemma hex_nul_free b : nul_free (hex_encode b).
Proof. eapply all_chars_nul_free; [|apply hex_encode_alnum]. done. Qed.

Lemma token_id_nul_free b : nul_free ("peat_" +:+ hex_encode b).
Proof. unfold nul_free. rewrite nuls_app, (hex_nul_free b). done. Qed.

Definition keeps {A} (o : string) (p : M A) : Prop :=
  ∀ w m0, good o m0 (w_store w) → wp orc fl p (λ _ w', good o m0 (w_store w')) w.

Ltac wp_steps Hg := repeat first [exact Hg | wp_step].
Lemma has_org_Some o m org : d_orgs m !! o = Some org → has_org o m.
Proof. intros E. by exists org. Qed.
Lemma good_nul_free o m0 m org : good o m0 m → d_orgs m !! o = Some org → nul_free o.
Proof. intros [Hwf _] E. eapply wf_org_nul_free; [done|by eapply has_org_Some]. Qed.

Ltac validated :=
  repeat match goal with
  | H : validate_identifier _ _ = Ok ?u |- _ => destruct u; apply validate_identifier_ok in H
  | H : validate_sink_type _ = Ok ?u |- _ => destruct u
  | H : validate_issuer_url _ = Ok ?u |- _ => destruct u
  end.
Ltac side Hg :=
  validated; cbn; split_and?;
  first [ done | assumption | apply hex_nul_free | apply token_id_nul_free
        | by eapply has_org_Some | by eapply (good_nul_free _ _ _ _ Hg)
        | by apply valid_identifier_nul_free | idtac ].
Ltac wp_read Hg := apply wp_call_read; [side Hg|done|intros ? ?|intros _ ?].
Ltac wp_write Hg :=
  eapply wp_call_good; [exact Hg|split; [|cbn]; side Hg|first [reflexivity|cbn]
    |clear Hg; intros ? ? ? Hg|intros ?].

Lemma create_org_keeps o n : keeps o (create_org o n).
Proof.
  intros w m0 Hg. unfold create_org, store.get_org, store.create_org.
  wp_steps Hg. wp_read Hg; wp_steps Hg. wp_write Hg; wp_steps Hg.
Qed.

Lemma get_org_keeps o : keeps o (get_org o).
Proof. intros w m0 Hg. wp_steps Hg. Qed.

Lemma list_orgs_keeps o : keeps o list_orgs.
Proof. intros w m0 Hg. unfold list_orgs, store.list_orgs. wp_read Hg; wp_steps Hg. Qed.

Lemma update_org_keeps o n q : keeps o (update_org o n q).
Proof.
  intros w m0 Hg. unfold update_org, store.update_org. wp_steps Hg.
  match goal with H : d_orgs _ !! _ = Some _ |- _ =>
    destruct (wf_orgs _ (proj1 Hg) _ _ H) as [E ?] end.
  wp_write Hg; cbn; rewrite ?E; try done; wp_steps Hg.
Qed.

Lemma delete_org_keeps o : nul_free o → keeps o (delete_org o).
Proof.
  intros Ho w m0 Hg. unfold delete_org, store.delete_org. wp_steps Hg.
  wp_write Hg; wp_steps Hg.
Qed.

Lemma create_formation_keeps o a p :
  KeyProviderLaws (key_provider mgr) → keeps o (create_formation mgr o a p).
Proof.
  intros Hkp w m0 Hg.
  unfold create_formation, store.list_formations, store.get_formation, store.create_formation,
    store.store_genesis.
  wp_steps Hg. wp_read Hg; wp_steps Hg. wp_read Hg; wp_steps Hg.
  1: apply wp_no_store; [by apply seal_no_store|]; intros sealed w' Hw'; cbn in Hw';
    rewrite <-Hw' in *; destruct sealed as [sb|e]; [|exact Hg].
  all: wp_steps Hg; wp_write Hg; wp_steps Hg.
  all: match goal with H : spec (CreateFormation _ _) _ _ ?m |- _ => cbn in H; subst m end.
  all: wp_write Hg; wp_steps Hg.
Qed.

Lemma get_formation_keeps o a : keeps o (get_formation o a).
Proof. intros w m0 Hg. wp_steps Hg. Qed.

Lemma list_formations_keeps o : keeps o (list_formations o).
Proof.
  intros w m0 Hg. unfold list_formations, store.list_formations. wp_steps Hg.
  wp_read Hg; wp_steps Hg.
Qed.

Lemma delete_formation_keeps o a : keeps o (delete_formation o a).
Proof.
  intros w m0 Hg. unfold delete_formation, store.delete_formation, store.delete_genesis.
  wp_steps Hg. wp_write Hg; wp_steps Hg. wp_write Hg; wp_steps Hg.
Qed.

Lemma load_genesis_keeps o a :
  KeyProviderLaws (key_provider mgr) → keeps o (load_genesis mgr o a).
Proof.
  intros Hkp w m0 Hg. unfold load_genesis, store.get_genesis. wp_steps Hg.
  wp_read Hg; wp_steps Hg.
  apply wp_no_store; [by apply open_no_store|]. intros opened w' Hw'.
  rewrite <-Hw' in *. destruct opened as [[d|]|e]; wp_steps Hg.
Qed.

Lemma count_recent_keeps o t : nul_free o → keeps o (count_recent_enrollments o t).
Proof.
  intros Ho w m0 Hg. unfold count_recent_enrollments, store.list_audit. wp_steps Hg.
  wp_read Hg; wp_steps Hg.
Qed.

Lemma create_token_keeps o a l n e :
  from_option u32 True n → keeps o (create_token o a l n e).
Proof.
  intros Hn w m0 Hg. unfold create_token, store.create_token. wp_steps Hg.
  wp_write Hg; wp_steps Hg.
  unfold token_ok; cbn. split; [by unfold u32|]. intros m ->. cbn in Hn.
  unfold u32 in *. split; lia.
Qed.

Lemma get_token_keeps o t : keeps o (get_token o t).
Proof. intros w m0 Hg. wp_steps Hg. Qed.

Lemma list_tokens_keeps o a : keeps o (list_tokens o a).
Proof.
  intros w m0 Hg. unfold list_tokens, store.list_tokens. wp_steps Hg.
  wp_read Hg; wp_steps Hg.
Qed.

(** Updating a stored token keeps its key. *)
Lemma wp_update_token o m0 t tok tok' Q w :
  good o m0 (w_store w) → d_tokens (w_store w) !! (o, t) = Some tok →
  t_org_id tok' = t_org_id tok → t_token_id tok' = t_token_id tok → token_ok tok' →
  (∀ r m', good o m0 m' → Q (Ok r) (set_store m' w)) → (∀ e, Q (Err e) w) →
  wp orc fl (store.update_token tok') Q w.
Proof.
  intros Hg Et Eo Ei Htok HQ He. destruct (wf_tokens _ (proj1 Hg) _ _ _ Et)
    as (Ho & Hi & Hnul & _ & Horg).
  eapply wp_call_good; [exact Hg|split; cbn; rewrite Eo, ?Ei, Ho, ?Hi; split_and?|cbn; congruence
    |eauto|done]; try done.
  destruct Horg as [org Eorg]. by eapply good_nul_free.
Qed.

Lemma revoke_token_keeps o t : keeps o (revoke_token o t).
Proof.
  intros w m0 Hg. unfold revoke_token. wp_steps Hg.
  match goal with H : d_tokens _ !! _ = Some _ |- _ =>
    pose proof (wf_tokens _ (proj1 Hg) _ _ _ H) as (_ & _ & _ & ? & _);
    eapply wp_update_token; [exact Hg|exact H|done|done|done|..] end;
    [clear Hg; intros ? ? Hg|intros ?]; wp_steps Hg.
Qed.

Lemma delete_token_keeps o t : keeps o (delete_token o t).
Proof.
  intros w m0 Hg. unfold delete_token, store.delete_token. wp_steps Hg.
  wp_write Hg; wp_steps Hg.
Qed.

Lemma consumed_ok t n :
  token_ok t → (∀ m, t_max_uses t = Some m → t_uses t < m) → n = as_u32 (t_uses t + 1) →
  token_ok (with_uses t n).
Proof.
  intros [Hu Hm] Hlt ->. unfold token_ok, u32, as_u32 in *. cbn.
  pose proof (Z.mod_pos_bound (t_uses t + 1) (2 ^ 32)). split; [lia|].
  intros m Em. pose proof (Hm m Em). pose proof (Hlt m Em). split; [lia|].
  rewrite Z.mod_small; lia.
Qed.

Lemma consume_token_keeps o a t : keeps o (validate_and_consume_token o a t).
Proof.
  intros w m0 Hg. unfold validate_and_consume_token. wp_steps Hg.
  all: match goal with H : d_tokens _ !! _ = Some ?tok |- _ =>
    pose proof (wf_tokens _ (proj1 Hg) _ _ _ H) as (_ & _ & _ & ? & _);
    eapply wp_update_token; [exact Hg|exact H|done|done| |..] end;
    [eapply consumed_ok; [done| |done]|clear Hg; intros ? ? Hg|intros ?]; wp_steps Hg.
  all: intros m Hm; simplify_eq; match goal with H : t_max_uses _ = _ |- _ => idtac end;
    try congruence; lia.
Qed.

Lemma create_sink_keeps o s : keeps o (create_sink o s).
Proof.
  intros w m0 Hg. unfold create_sink, store.list_sinks, store.create_sink. wp_steps Hg.
  wp_read Hg; wp_steps Hg. wp_write Hg; wp_steps Hg.
Qed.

Lemma get_sink_keeps o s : keeps o (get_sink o s).
Proof. intros w m0 Hg. wp_steps Hg. Qed.

Lemma list_sinks_keeps o : keeps o (list_sinks o).
Proof.
  intros w m0 Hg. unfold list_sinks, store.list_sinks. wp_steps Hg. wp_read Hg; wp_steps Hg.
Qed.

Lemma toggle_sink_keeps o s b : keeps o (toggle_sink o s b).
Proof.
  intros w m0 Hg. unfold toggle_sink, store.update_sink. wp_steps Hg.
  match goal with H : d_sinks _ !! _ = Some _ |- _ =>
    destruct (wf_sinks _ (proj1 Hg) _ _ _ H) as (Eo & Es & ? & ? & [org ?]) end.
  wp_write Hg; cbn; rewrite ?Eo, ?Es; side Hg; wp_steps Hg.
Qed.

Lemma delete_sink_keeps o s : keeps o (delete_sink o s).
Proof.
  intros w m0 Hg. unfold delete_sink, store.delete_sink. wp_steps Hg.
  wp_write Hg; wp_steps Hg.
Qed.

Lemma get_cursor_keeps o a d : nul_free o ∧ nul_free a → keeps o (get_cursor o a d).
Proof. intros [??] w m0 Hg. unfold get_cursor, store.get_cursor. wp_read Hg; wp_steps Hg. Qed.

Lemma set_cursor_keeps o a d h : nul_free o ∧ nul_free a → keeps o (set_cursor o a d h).
Proof. intros [??] w m0 Hg. unfold set_cursor, store.set_cursor. wp_write Hg; wp_steps Hg. Qed.

Lemma create_idp_keeps o u c s : keeps o (create_idp o u c s).
Proof.
  intros w m0 Hg. unfold create_idp, store.create_idp. wp_steps Hg.
  wp_write Hg; wp_steps Hg.
Qed.

Lemma get_idp_keeps o i : keeps o (get_idp o i).
Proof. intros w m0 Hg. wp_steps Hg. Qed.

Lemma list_idps_keeps o : keeps o (list_idps o).
Proof.
  intros w m0 Hg. unfold list_idps, store.list_idps. wp_steps Hg. wp_read Hg; wp_steps Hg.
Qed.

Lemma toggle_idp_keeps o i b : keeps o (toggle_idp o i b).
Proof.
  intros w m0 Hg. unfold toggle_idp, store.update_idp. wp_steps Hg.
  match goal with H : d_idps _ !! _ = Some _ |- _ =>
    destruct (wf_idps _ (proj1 Hg) _ _ _ H) as (Eo & Es & ? & ? & [org ?]) end.
  wp_write Hg; cbn; rewrite ?Eo, ?Es; side Hg; wp_steps Hg.
Qed.

Lemma delete_idp_keeps o i : keeps o (delete_idp o i).
Proof.
  intros w m0 Hg. unfold delete_idp, store.delete_idp. wp_steps Hg.
  wp_write Hg; wp_steps Hg.
Qed.

Lemma create_policy_rule_keeps o k v t p pr : keeps o (create_policy_rule o k v t p pr).
Proof.
  intros w m0 Hg. unfold create_policy_rule, store.create_policy_rule. wp_steps Hg.
  wp_write Hg; wp_steps Hg.
Qed.

Lemma list_policy_rules_keeps o : keeps o (list_policy_rules o).
Proof.
  intros w m0 Hg. unfold list_policy_rules, store.list_policy_rules. wp_steps Hg.
  wp_read Hg; wp_steps Hg.
Qed.

Lemma delete_policy_rule_keeps o r : keeps o (delete_policy_rule o r).
Proof.
  intros w m0 Hg. unfold delete_policy_rule, store.delete_policy_rule. wp_steps Hg.
  wp_write Hg; wp_steps Hg.
Qed.

Lemma append_audit_keeps e :
  nul_free (a_org_id e) ∧ nul_free (a_audit_id e) ∧ u64 (a_timestamp_ms e) →
  keeps (a_org_id e) (append_audit e).
Proof. intros (?&?&?) w m0 Hg. unfold append_audit, store.append_audit. wp_write Hg; wp_steps Hg. Qed.

Lemma list_audit_keeps o a n : u64 n → keeps o (list_audit o a n).
Proof.
  intros [Hn Hn'] w m0 Hg. unfold list_audit, store.list_audit. wp_steps Hg. wp_read Hg; wp_steps Hg.
Qed.

Lemma forget_keeps {A} o (p : M A) w m0 :
  keeps o p → good o m0 (w_store w) →
  wp orc fl (forget p) (λ _ w', good o m0 (w_store w')) w.
Proof. intros Hp Hg. apply wp_pbind. eapply wp_mono; [by apply Hp|]. done. Qed.

Lemma perform_call_good c w :
  KeyProviderLaws (key_provider mgr) → call_ok c → wf (w_store w) →
  wp orc fl (perform_call mgr c)
    (λ _ w', good (call_org c) (w_store w) (w_store w')) w.
Proof.
  intros Hkp Hok Hwf. pose proof (good_refl (call_org c) _ Hwf) as Hg.
  destruct c; cbn in Hok; cbn [perform_call call_org] in *; (eapply forget_keeps; [|exact Hg]);
    eauto using create_org_keeps, get_org_keeps, list_orgs_keeps, update_org_keeps,
      delete_org_keeps, create_formation_keeps, get_formation_keeps, list_formations_keeps,
      delete_formation_keeps, load_genesis_keeps, count_recent_keeps, get_token_keeps,
      list_tokens_keeps, revoke_token_keeps, delete_token_keeps, consume_token_keeps.
  all: eauto using create_sink_keeps, get_sink_keeps, list_sinks_keeps, toggle_sink_keeps,
      delete_sink_keeps, get_cursor_keeps, set_cursor_keeps, create_idp_keeps, get_idp_keeps,
      list_idps_keeps, toggle_idp_keeps, delete_idp_keeps, create_policy_rule_keeps,
      list_policy_rules_keeps, delete_policy_rule_keeps, append_audit_keeps, list_audit_keeps.
  apply create_token_keeps. by destruct max_uses.
Qed.
End Keeps.

(** ** Sequences of calls *)
Section Sequences.
Context `{HexLaws} `{AeadLib} `{MeshLib} (mgr : TenantManager).
Context (orc : oracle) (fl : bool).
Context (Hkp : KeyProviderLaws (key_provider mgr)).

(** After any sequence of calls, whatever storage calls fail on the way, the
    content is well formed, and the organizations no call names are untouched. *)
Lemma perform_all_good cs w :
  Forall call_ok cs → wf (w_store w) →
  wp orc fl (perform_all mgr cs)
    (λ _ w', wf (w_store w') ∧
       ∀ o, Forall (λ c, call_org c ≠ o) cs → same_tenant o (w_store w) (w_store w')) w.
Proof.
  intros Hcs. revert w. induction Hcs as [|c cs Hc _ IH]; intros w Hwf; cbn [perform_all].
  { apply wp_ret. by split. }
  apply wp_pbind. eapply wp_mono; [by apply perform_call_good|].
  intros _ w1 [Hwf1 Hfr1]. eapply wp_mono; [by apply IH|].
  intros _ w2 [Hwf2 Hfr2]. split; [done|]. intros o [Hne Ho]%Forall_cons.
  etrans; [|by apply Hfr2]. by apply Hfr1.
Qed.
End Sequences.
