(* ===== verification/ManagerSpec.v ===== *)
(** What each operation of the tenant manager does, on every branch.

    For an operation, [*_error] says on which content and arguments it fails and
    with which error; the theorem says that it fails exactly then (when storage
    is reliable), that a failure changes nothing, and what success stores. *)
From S2P Require Import Prelude Text Extern Models Errors Effects Spec Wp Crypto Manager Invariant ManagerInv Concrete Mem.
From Stdlib Require Import ZArith Ascii.
From Stdlib.Strings Require Import Byte.

#[local] Open Scope Z_scope.

(** The first error of a list of checks. *)
Definition first_error (l : list (option error)) : option error :=
  foldr (λ x r, match x with Some e => Some e | None => r end) None l.
Definition error_of {A} (r : Result A) : option error :=
  match r with Ok _ => None | Err e => Some e end.
Definition check (b : bool) (e : error) : option error := if b then Some e else None.

(** The outcome of an operation: the error the checks name, or success. *)
Definition outcome {A} (fl : bool) (expected : option error) (m : db)
    (success : A → db → Prop) (r : Result A) (m' : db) : Prop :=
  match r with
  | Ok a => expected = None ∧ success a m'
  | Err e => m' = m ∧ (fl = false → expected = Some e)
  end.

Definition absent {A} (x : option A) (e : error) : option error :=
  check (negb (bool_decide (is_Some x))) e.
Definition clock (o : oracle) (w : world db) : Z := wrap_u64 (o_clock o (w_tick w)).

Lemma absent_None {A} (x : option A) e : x = None → absent x e = Some e.
Proof. by intros ->. Qed.
Lemma absent_Some {A} (x : option A) v e : x = Some v → absent x e = None.
Proof. by intros ->. Qed.

(** Rewrites with what a lookup found. *)
Ltac absents :=
  repeat match goal with
  | E : ?x = None |- context [absent ?x ?e] => rewrite (absent_None x e E)
  | E : ?x = Some _ |- context [absent ?x ?e] => rewrite (absent_Some x _ e E)
  end; cbn [first_error foldr error_of check].

(** A failing branch: the content is as before, and the error the expected one. *)
Ltac fails :=
  subst; absents; split; [done|intros ?; first [discriminate|done]].

Ltac wp_read := apply wp_call_read; [try done|done|intros ? [-> _]|intros -> ?; try done].
Ltac wp_write :=
  apply wp_call; [try done|intros ? ? Hs; cbn in Hs|intros -> ?; try done].

(** ** Organizations *)
Definition create_org_error (m : db) (org_id name : string) : option error :=
  first_error [
    error_of (validate_identifier org_id "org_id");
    error_of (validate_display_name name);
    check (bool_decide (is_Some (d_orgs m !! org_id))) (OrgAlreadyExists org_id)].

Section Orgs.
Context `{HexLib} `{AeadLib} `{MeshLib} (o : oracle) (fl : bool).

(** Creating an organization fails on an invalid identifier, an invalid
    name or a taken identifier, in this order, and stores nothing; otherwise it
    stores the organization with the default quotas and the time, and changes
    nothing else. *)
Theorem create_org_spec org_id name w :
  wp o fl (create_org org_id name)
    (λ r w', outcome fl (create_org_error (w_store w) org_id name) (w_store w)
       (λ org m', org = {| o_org_id := org_id; o_display_name := name;
                           o_quotas := default_quotas; o_created_at := clock o w |} ∧
                  m' = upd_orgs <[org_id := org]> (w_store w)) r (w_store w')) w.
Proof.
  unfold create_org, create_org_error, outcome, store.get_org, store.create_org.
  repeat wp_step; cbn [first_error foldr error_of check]; try done. wp_read.
  repeat wp_step; cbn [check]; try done. wp_write. subst. repeat wp_step; done.
Qed.

(** [update_org] checks nothing but the organization's existence: the
    display name it stores is not validated. *)
Theorem update_org_spec org_id name quotas w :
  wf (w_store w) →
  wp o fl (update_org org_id name quotas)
    (λ r w', outcome fl (absent (d_orgs (w_store w) !! org_id) (OrgNotFound org_id)) (w_store w)
       (λ org m', ∃ old, d_orgs (w_store w) !! org_id = Some old ∧
          org = {| o_org_id := org_id; o_display_name := default (o_display_name old) name;
                   o_quotas := default (o_quotas old) quotas; o_created_at := o_created_at old |} ∧
          m' = upd_orgs <[org_id := org]> (w_store w)) r (w_store w')) w.
Proof.
  intros Hwf. unfold update_org, outcome, store.update_org.
  repeat wp_step; try fails.
  match goal with E : d_orgs _ !! _ = Some ?old |- _ =>
    destruct (wf_orgs _ Hwf _ _ E) as [Eid _]; rewrite (absent_Some _ _ _ E), E end.
  wp_write. rewrite Eid in Hs.
  repeat wp_step. destruct_or?; destruct_and?; simplify_eq.
  split; [done|]. eexists. split_and!; [done| |done]. by f_equal.
Qed.

End Orgs.

(** ** Formations *)
Lemma listing_length `{Countable K} `{OrgKey K} {V} o (m : gmap K V) l :
  listing o m l → length l = size (rows_of o m).
Proof. intros Hl. rewrite Hl, length_fmap. apply length_map_to_list. Qed.

Definition formation_count (org_id : string) (m : db) : Z :=
  Z.of_nat (size (rows_of org_id (d_formations m))).

Definition create_formation_error (m : db) (org_id app_id : string) : option error :=
  first_error [
    error_of (validate_identifier app_id "app_id");
    match d_orgs m !! org_id with
    | None => Some (OrgNotFound org_id)
    | Some org =>
        first_error [
          check (max_formations (o_quotas org) <=? as_u32 (formation_count org_id m))
            (FormationQuotaReached org_id (max_formations (o_quotas org)));
          check (bool_decide (is_Some (d_formations m !! (org_id, app_id))))
            (FormationAlreadyExists app_id org_id)]
    end].

Section Formations.
Context `{HexLib} `{AeadLaws} `{MeshLaws} (mgr : TenantManager) (o : oracle) (fl : bool).

Definition new_genesis (app_id : string) (p : EnrollmentPolicy) (w : world db) : MeshGenesis :=
  genesis_create app_id (membership_policy p) (rng_bytes o (w_rpos w) 64).
Definition new_formation (app_id : string) (p : EnrollmentPolicy) (w : world db) :
    FormationConfig :=
  {| f_app_id := app_id; f_mesh_id := genesis_mesh_id (new_genesis app_id p w);
     f_enrollment_policy := p |}.

(** The bytes stored for a genesis are its encoding, or open to it. *)
Definition stores_genesis (g : MeshGenesis) (stored : bytes) : Prop :=
  if encrypt_enabled mgr
  then is_envelope stored = true ∧
       ∀ w, wp o fl (open (key_provider mgr) stored) (λ r _, r = Ok (Some (genesis_encode g))) w
  else stored = genesis_encode g.

Definition key_provider_ok : Prop := encrypt_enabled mgr = true → Wraps o (key_provider mgr).
Definition genesis_small (g : MeshGenesis) : Prop :=
  Z.of_nat (length (genesis_encode g)) < 2 ^ 36.

(** How sealing the new genesis ends: what the provider and the cipher answer. *)
Definition sealing (app_id : string) (p : EnrollmentPolicy) (w : world db) : Result bytes :=
  (run o (seal (key_provider mgr) (genesis_encode (new_genesis app_id p w))) (drawn 64 w)).1.
(** The error of the checks, or else of sealing when encryption is on. *)
Definition formation_error (m : db) (org_id app_id : string) (p : EnrollmentPolicy)
    (w : world db) : option error :=
  match create_formation_error m org_id app_id with
  | Some e => Some e
  | None => if encrypt_enabled mgr then error_of (sealing app_id p w) else None
  end.

(** A provider that answers, with the right key or with an error. *)
Definition provider_laws : Prop :=
  encrypt_enabled mgr = true →
    KeyProviderLaws (key_provider mgr) ∧ Unwraps o (key_provider mgr).

Lemma wp_seal_genesis app_id p w Q :
  provider_laws →
  (∀ stored w', w_store w' = w_store w → stores_genesis (new_genesis app_id p w) stored →
     (if encrypt_enabled mgr then error_of (sealing app_id p w) else None) = None → Q (Ok stored) w') →
  (∀ e w', w_store w' = w_store w →
     (if encrypt_enabled mgr then error_of (sealing app_id p w) else None) = Some e → Q (Err e) w') →
  wp o fl (if encrypt_enabled mgr then seal (key_provider mgr) (genesis_encode (new_genesis app_id p w))
           else ok (genesis_encode (new_genesis app_id p w))) Q (drawn 64 w).
Proof.
  intros Hkp HQ He. unfold stores_genesis in HQ. destruct (encrypt_enabled mgr) eqn:E.
  - destruct (Hkp E) as [Hlaws Hun].
    eapply wp_mono; [apply wp_and; [apply wp_and|]|].
    + by apply wp_no_store_run, seal_no_store.
    + apply wp_no_store; [by apply seal_no_store|]. intros r w' Hw'. exact Hw'.
    + by apply seal_open.
    + intros r w' [[Hrun Hw'] Hop]. cbn in Hw'. unfold sealing in HQ, He. rewrite <-Hrun in HQ, He.
      destruct r as [stored|e]; [by apply HQ|by apply He].
  - apply wp_ret. by apply HQ.
Qed.

Ltac until_seal :=
  repeat lazymatch goal with
  | |- wp _ _ (if encrypt_enabled _ then _ else _) _ _ => fail
  | _ => wp_step
  end.

Lemma create_formation_outcome org_id app_id p w m :
  w_store w = m → provider_laws → wf m →
  wp o fl (create_formation mgr org_id app_id p)
    (λ r w', match r with
       | Ok f =>
           formation_error m org_id app_id p w = None ∧
           f = new_formation app_id p w ∧
           ∃ stored, stores_genesis (new_genesis app_id p w) stored ∧
             w_store w' = upd_genesis <[(org_id, app_id) := stored]>
                            (upd_formations <[(org_id, app_id) := f]> m)
       | Err e =>
           (w_store w' = m ∧ (fl = false → formation_error m org_id app_id p w = Some e)) ∨
           (* a fault between the two writes: the formation has no genesis *)
           (fl = true ∧ w_store w' = upd_formations <[(org_id, app_id) := new_formation app_id p w]> m)
       end) w.
Proof.
  intros <- Hkp Hwf.
  unfold create_formation, formation_error, create_formation_error, store.list_formations,
    store.get_formation, store.create_formation, store.store_genesis.
  repeat wp_step; cbn [first_error foldr error_of check]; try (left; fails).
  2: { left. split; [done|]. intros _. by match goal with E : _ = None |- _ => rewrite E end. }
  match goal with E : d_orgs _ !! _ = Some _ |- _ =>
    rewrite E; destruct (wf_orgs _ Hwf _ _ E) as [_ Hid] end.
  apply wp_call_read; [done|done|intros fs [Hfs _]|intros -> ?; left; by fails].
  unfold formation_count. rewrite <-(listing_length _ _ _ Hfs).
  repeat wp_step; cbn [check]; try (left; fails).
  wp_read; [|by left]. until_seal; cbn [check]; try (left; fails).
  match goal with H : validate_identifier _ _ = Ok ?u |- _ =>
    destruct u; apply validate_identifier_ok, valid_identifier_nul_free in H end.
  apply valid_identifier_nul_free in Hid.
  match goal with |- wp _ _ _ _ ?w0 => replace w0 with (drawn 64 w) by (by destruct w) end.
  apply (wp_seal_genesis app_id p w); [done| |].
  2: { intros e w' Hw' He. left. split; [exact Hw'|]. by intros _. }
  intros stored w' Hw' Hst He. cbn in Hw'.
  repeat wp_step. wp_write; [|by left]. rewrite Hw' in Hs. subst.
  repeat wp_step. wp_write; [|by right]. subst. repeat wp_step. split_and!; [done|done|eauto].
Qed.

(** C25: Creating a formation, with a key provider that may fail at any step but
    keeps its contract: a success passed the checks (identifier, organization, quota,
    duplicate), answers the formation described, and stores it and its genesis and
    nothing else, the genesis as an envelope that opens to it when encryption is on
    and as its bytes when it is off. With reliable storage a refusal has the error of
    the first check that fails, in that order, or the one sealing the genesis fails
    with, and stores nothing. A fault of storage stores nothing either, unless it
    strikes between the two writes: then the formation is left without a genesis. *)
Theorem create_formation_spec org_id app_id p w m :
  w_store w = m → provider_laws → wf m →
  wp o fl (create_formation mgr org_id app_id p)
    (λ r w', match r with
       | Ok f =>
           formation_error m org_id app_id p w = None ∧
           f = new_formation app_id p w ∧
           ∃ stored, stores_genesis (new_genesis app_id p w) stored ∧
             w_store w' = upd_genesis <[(org_id, app_id) := stored]>
                            (upd_formations <[(org_id, app_id) := f]> m)
       | Err e =>
           (w_store w' = m ∧ (fl = false → formation_error m org_id app_id p w = Some e)) ∨
           (* a fault between the two writes: the formation has no genesis *)
           (fl = true ∧ w_store w' = upd_formations <[(org_id, app_id) := new_formation app_id p w]> m)
       end) w.
Proof. apply create_formation_outcome. Qed.

Theorem load_genesis_spec org_id app_id g stored w :
  d_genesis (w_store w) !! (org_id, app_id) = Some stored → stores_genesis g stored →
  (encrypt_enabled mgr = true → KeyProviderLaws (key_provider mgr)) →
  wp o fl (load_genesis mgr org_id app_id)
    (λ r w', w_store w' = w_store w ∧ (r = Ok g ∨ fl = true ∧ is_ok r = false)) w.
Proof.
  intros Est Hst Hkp. unfold load_genesis, store.get_genesis. repeat wp_step.
  apply wp_call_read; [done|done|intros r [-> _]|intros -> ?; split; [done|by right]].
  rewrite Est. repeat wp_step; try discriminate.
  all: cbn [ok_or] in *; simplify_eq; unfold stores_genesis in Hst.
  all: match goal with E : encrypt_enabled mgr = _ |- _ => rewrite E in Hst end.
  - destruct Hst as [_ Hop]. eapply wp_mono; [apply wp_no_store_and; [|apply Hop]|].
    + apply open_no_store. auto.
    + intros r w' [-> Hw']. repeat wp_step. rewrite genesis_decode_encode. eauto.
  - rewrite Hst, genesis_decode_encode. eauto.
Qed.

Lemma sealing_total app_id p w :
  Wraps o (key_provider mgr) → genesis_small (new_genesis app_id p w) →
  ∃ data, sealing app_id p w = Ok data.
Proof.
  intros Hkp Hsmall. destruct (wp_adequate (rep:=eq) (H0:=mem_storage_spec) o fl
    (seal (key_provider mgr) (genesis_encode (new_genesis app_id p w))) _ (drawn 64 w) (w_store w)
    (λ _, mem_reliable) eq_refl (seal_total o fl _ _ (drawn 64 w) Hkp Hsmall))
    as (m' & _ & _ & data & Hdata & _).
  by exists data.
Qed.

(** C24: A created formation loads back the genesis it was created with. *)
Theorem create_then_load org_id app_id p w :
  key_provider_ok → (encrypt_enabled mgr = true → KeyProviderLaws (key_provider mgr)) →
  genesis_small (new_genesis app_id p w) → wf (w_store w) →
  create_formation_error (w_store w) org_id app_id = None →
  wp o fl (let! f := create_formation mgr org_id app_id p in
           let! g := load_genesis mgr org_id app_id in ok (f, g))
    (λ r _, match r with
            | Ok (f, g) => g = new_genesis app_id p w ∧ f_mesh_id f = genesis_mesh_id g
            | Err _ => fl = true
            end) w.
Proof.
  intros Hkp Hlaws Hsmall Hwf Hnone. apply wp_mbind.
  assert (provider_laws) as Hprov.
  { intros He. split; [by apply Hlaws|]. by apply wraps_unwraps, Hkp. }
  assert (formation_error (w_store w) org_id app_id p w = None) as Hfine.
  { unfold formation_error. rewrite Hnone. destruct (encrypt_enabled mgr) eqn:E; [|done].
    destruct (sealing_total app_id p w (Hkp E) Hsmall) as [data Hdata]. by rewrite Hdata. }
  eapply wp_mono; [by apply create_formation_outcome|]. intros [f|e] w1; cbv beta iota.
  - intros (_ & -> & stored & Hst & Hw1). apply wp_mbind.
    eapply wp_mono; [eapply load_genesis_spec with (g := new_genesis app_id p w); [|exact Hst|done]|].
    { rewrite Hw1. cbn. by rewrite lookup_insert_eq. }
    intros r w2 [_ [->|[-> Hr]]]; [by apply wp_ret|]. by destruct r.
  - rewrite Hfine. intros [[_ He]|[-> _]]; [|done]. destruct fl; [done|]. by specialize (He eq_refl).
Qed.
End Formations.

(** ** Enrollment tokens *)
Definition consume_error (m : db) (org_id app_id token_id : string) (now : Z) : option error :=
  match d_tokens m !! (org_id, token_id) with
  | None => Some (TokenNotFound token_id org_id)
  | Some tok =>
      first_error [
        check (bool_decide (t_app_id tok ≠ app_id)) (TokenWrongFormation app_id);
        check (t_revoked tok) (TokenIsRevoked token_id);
        check (from_option (λ e, e <? now) false (t_expires_at tok)) (TokenHasExpired token_id);
        match t_max_uses tok with
        | Some n => check (n <=? t_uses tok) (TokenMaxUsesReached token_id n)
        | None => None
        end]
  end.

Section Tokens.
Context `{HexLaws} `{AeadLib} `{MeshLib} (o : oracle) (fl : bool).

(** Creating a token fails on an empty label, a missing organization or a
    missing formation, in this order, and stores nothing; otherwise it stores an
    unused token under a fresh random identifier. *)
Theorem create_token_spec org_id app_id label max_uses expires_at w :
  wf (w_store w) →
  wp o fl (create_token org_id app_id label max_uses expires_at)
    (λ r w', outcome fl
       (first_error [error_of (validate_non_empty label "label");
          absent (d_orgs (w_store w) !! org_id) (OrgNotFound org_id);
          absent (d_formations (w_store w) !! (org_id, app_id)) (FormationNotFound app_id org_id)])
       (w_store w)
       (λ tok m', tok = {| t_token_id := "peat_" +:+ hex_encode (rng_bytes o (w_rpos w) 16);
                           t_org_id := org_id; t_app_id := app_id; t_label := label;
                           t_max_uses := max_uses; t_uses := 0; t_expires_at := expires_at;
                           t_created_at := clock o w; t_revoked := false |} ∧
                  m' = upd_tokens <[(org_id, t_token_id tok) := tok]> (w_store w))
       r (w_store w')) w.
Proof.
  intros Hwf. unfold create_token, outcome, store.create_token.
  repeat wp_step; try fails.
  match goal with E : d_orgs _ !! _ = Some _ |- _ =>
    pose proof (wf_org_nul_free _ _ Hwf (has_org_Some _ _ _ E)) end. absents.
  wp_write; [by split; [|apply token_id_nul_free]|]. subst. by repeat wp_step.
Qed.

Lemma consume_outcome org_id app_id token_id w :
  wf (w_store w) →
  wp o fl (validate_and_consume_token org_id app_id token_id)
    (λ r w', outcome fl (consume_error (w_store w) org_id app_id token_id (clock o w)) (w_store w)
       (λ tok' m', ∃ tok, d_tokens (w_store w) !! (org_id, token_id) = Some tok ∧
          tok' = with_uses tok (as_u32 (t_uses tok + 1)) ∧
          m' = upd_tokens <[(org_id, token_id) := tok']> (w_store w)) r (w_store w')) w.
Proof.
  intros Hwf. unfold validate_and_consume_token, outcome, clock.
  apply wp_mbind, wp_get_token; [intros tok Etok|intros Etok|intros -> e; by fails]; unfold consume_error;
    rewrite Etok; [|by fails].
  pose proof (wf_tokens _ Hwf _ _ _ Etok) as (Eo & Et & Hnul & _ & Horg).
  pose proof (wf_org_nul_free _ _ Hwf Horg) as Ho.
  destruct (bool_decide (t_app_id tok ≠ app_id)); [by fails|].
  destruct (t_revoked tok); [by fails|].
  assert (∀ w', w_store w' = w_store w →
    wp o fl (store.update_token (with_uses tok (as_u32 (t_uses tok + 1))))
      (λ r w', match r with
        | Ok _ => w_store w' = upd_tokens
            <[(org_id, token_id) := with_uses tok (as_u32 (t_uses tok + 1))]> (w_store w)
        | Err _ => fl = true ∧ w_store w' = w_store w end) w') as Hupd.
  { intros w' Hw'. apply wp_call; [split; cbn [with_uses t_org_id t_token_id]; congruence| |by intros ->].
    cbn. rewrite Eo, Et, Hw'. intros [] m' [->|[? _]]; [done|congruence]. }
  destruct (t_expires_at tok) as [ex|]; [|destruct (t_max_uses tok) as [n|]];
    cbn [from_option]; repeat wp_step; try fails.
  all: eapply wp_mono; [by apply Hupd|]; intros [u|e] w1 Hw1; [|by destruct Hw1 as [-> ->]].
  all: apply wp_ret; cbn; eauto.
Qed.

(** C13: Redeeming an enrollment token fails, with the error of the first check
    that does not hold (unknown, another formation's, revoked, expired, used up),
    exactly when one fails and storage is reliable, and then stores nothing; otherwise
    it stores the token with one more use and changes nothing else. *)
Theorem validate_and_consume_spec org_id app_id token_id w :
  wf (w_store w) →
  wp o fl (validate_and_consume_token org_id app_id token_id)
    (λ r w', outcome fl (consume_error (w_store w) org_id app_id token_id (clock o w)) (w_store w)
       (λ tok' m', ∃ tok, d_tokens (w_store w) !! (org_id, token_id) = Some tok ∧
          tok' = with_uses tok (as_u32 (t_uses tok + 1)) ∧
          m' = upd_tokens <[(org_id, token_id) := tok']> (w_store w)) r (w_store w')) w.
Proof. apply consume_outcome. Qed.

(** A token that has just been revoked is refused. *)
Theorem revoke_then_consume org_id app_id token_id w :
  wf (w_store w) →
  wp o fl (let! _ := revoke_token org_id token_id in
           validate_and_consume_token org_id app_id token_id)
    (λ r _, is_ok r = false) w.
Proof.
  intros Hwf. unfold revoke_token. repeat wp_step; try done.
  match goal with E : d_tokens _ !! _ = Some ?tok |- _ =>
    pose proof (wf_tokens _ Hwf _ _ _ E) as (Eo & Et & Hnul & Hok & Horg) end.
  pose proof (wf_org_nul_free _ _ Hwf Horg) as Ho.
  apply wp_call; [split; cbn [with_revoked t_org_id t_token_id]; congruence| |done].
  intros [] m' Hs. cbn in Hs. rewrite Eo, Et in Hs. destruct Hs as [->|[? _]]; [|congruence].
  repeat wp_step. unfold validate_and_consume_token.
  apply wp_mbind, wp_get_token; [intros tok'|done|done].
  cbn. rewrite lookup_insert_eq. intros [= <-].
  repeat wp_step; done.
Qed.
End Tokens.

(** *** Sequential redemptions *)
Section Redemptions.
Context `{HexLaws} `{AeadLib} `{MeshLib} (o : oracle) (fl : bool).

(** [n] attempts, one after the other; the answer is how many succeeded. *)
Fixpoint redeem (n : nat) (org_id app_id token_id : string) : prog Z :=
  match n with
  | O => Ret 0
  | S n =>
      try! r := validate_and_consume_token org_id app_id token_id in
      try! k := redeem n org_id app_id token_id in
      Ret (k + if is_ok r then 1 else 0)
  end.

Lemma redeem_bound n org_id app_id token_id w tok m :
  wf (w_store w) → d_tokens (w_store w) !! (org_id, token_id) = Some tok →
  t_max_uses tok = Some m →
  wp o fl (redeem n org_id app_id token_id)
    (λ k w', k ≤ m - t_uses tok ∧ wf (w_store w')) w.
Proof.
  revert w tok. induction n as [|n IH]; intros w tok Hwf Et Hm; cbn [redeem].
  { apply wp_ret. split; [|done]. destruct (wf_tokens _ Hwf _ _ _ Et) as (_&_&_&[_ Htok]&_).
    destruct (Htok m Hm). lia. }
  apply wp_pbind.
  eapply wp_mono; [apply wp_and|].
  { by apply (consume_token_keeps o fl org_id app_id token_id w _ (good_refl org_id _ Hwf)). }
  { by apply consume_outcome. }
  intros r w1 [[Hwf1 _] Hout]. apply wp_pbind.
  assert (∃ tok1, d_tokens (w_store w1) !! (org_id, token_id) = Some tok1 ∧
            t_max_uses tok1 = Some m ∧ t_uses tok1 = t_uses tok + if is_ok r then 1 else 0)
    as (tok1 & Et1 & Hm1 & Hu1).
  { destruct r as [tok'|e]; cbn in Hout |- *.
    - destruct Hout as (Hnone & tok0 & Et0 & -> & ->). simplify_eq. cbn.
      rewrite lookup_insert_eq. eexists. split_and!; [done|done|]. cbn.
      destruct (wf_tokens _ Hwf _ _ _ Et) as (_&_&_&[Hu Htok]&_).
      destruct (Htok m Hm) as [Hm32 Hle]. unfold consume_error in Hnone. rewrite Et, Hm in Hnone.
      repeat (destruct (bool_decide _) || destruct (t_revoked _) || destruct (from_option _ _ _);
        try discriminate Hnone).
      cbn in Hnone. destruct (Z.leb_spec m (t_uses tok)); [done|].
      unfold as_u32, u32 in *. rewrite Z.mod_small; lia.
    - destruct Hout as [-> _]. exists tok. split_and!; [done|done|lia]. }
  eapply wp_mono; [by eapply IH|]. intros k w2 [Hk Hwf2]. apply wp_ret. split; [lia|done].
Qed.

(** C14: However often it is presented, a token with [max_uses] is redeemed at
    most that many times by requests that do not overlap. *)
Theorem redeem_at_most_max_uses n org_id app_id token_id w tok m :
  wf (w_store w) → d_tokens (w_store w) !! (org_id, token_id) = Some tok →
  t_max_uses tok = Some m →
  wp o fl (redeem n org_id app_id token_id) (λ k _, k ≤ m - t_uses tok) w.
Proof. intros. eapply wp_mono; [by eapply redeem_bound|]. by intros ?? []. Qed.
End Redemptions.

(** ** CDC sinks, identity providers and policy rules *)
Definition sink_count (org_id : string) (m : db) : Z :=
  Z.of_nat (size (rows_of org_id (d_sinks m))).

Definition create_sink_error (m : db) (org_id : string) (t : CdcSinkType) : option error :=
  first_error [
    error_of (validate_sink_type t);
    match d_orgs m !! org_id with
    | None => Some (OrgNotFound org_id)
    | Some org =>
        check (max_cdc_sinks (o_quotas org) <=? as_u32 (sink_count org_id m))
          (SinkQuotaReached org_id (max_cdc_sinks (o_quotas org)))
    end].

Section Sinks.
Context `{HexLaws} (o : oracle) (fl : bool).

(** Creating a CDC sink fails on an invalid target, a missing organization
    or a reached quota, in this order, and stores nothing; otherwise it stores an
    enabled sink under a fresh random identifier. *)
Theorem create_sink_spec org_id t w :
  wf (w_store w) →
  wp o fl (create_sink org_id t)
    (λ r w', outcome fl (create_sink_error (w_store w) org_id t) (w_store w)
       (λ s m', s = {| s_sink_id := hex_encode (rng_bytes o (w_rpos w) 8); s_org_id := org_id;
                       s_sink_type := t; s_enabled := true; s_created_at := clock o w |} ∧
                m' = upd_sinks <[(org_id, s_sink_id s) := s]> (w_store w)) r (w_store w')) w.
Proof.
  intros Hwf. unfold create_sink, create_sink_error, outcome, store.list_sinks, store.create_sink.
  repeat wp_step; cbn [first_error foldr error_of check]; try fails.
  2: { split; [done|]. intros _. by match goal with E : _ = None |- _ => rewrite E end. }
  match goal with E : d_orgs _ !! _ = Some _ |- _ =>
    rewrite E; pose proof (wf_org_nul_free _ _ Hwf (has_org_Some _ _ _ E)) end.
  apply wp_call_read; [done|done|intros l [Hl _]|intros -> ?; by fails].
  unfold sink_count. rewrite <-(listing_length _ _ _ Hl).
  repeat wp_step; cbn [check]; try fails.
  wp_write; [by split; [|apply hex_nul_free]|]. subst. by repeat wp_step.
Qed.

(** Creating an identity provider fails on an issuer that is not https, an
    empty client id, an empty secret or a missing organization, in this order, and
    stores nothing; otherwise it stores an enabled provider. *)
Theorem create_idp_spec org_id issuer client secret w :
  wf (w_store w) →
  wp o fl (create_idp org_id issuer client secret)
    (λ r w', outcome fl
       (first_error [error_of (validate_issuer_url issuer);
          error_of (validate_non_empty client "client_id");
          error_of (validate_non_empty secret "client_secret");
          absent (d_orgs (w_store w) !! org_id) (OrgNotFound org_id)]) (w_store w)
       (λ i m', i = {| i_idp_id := hex_encode (rng_bytes o (w_rpos w) 8); i_org_id := org_id;
                       i_issuer_url := issuer; i_client_id := client; i_client_secret := secret;
                       i_enabled := true; i_created_at := clock o w |} ∧
                m' = upd_idps <[(org_id, i_idp_id i) := i]> (w_store w)) r (w_store w')) w.
Proof.
  intros Hwf. unfold create_idp, outcome, store.create_idp.
  repeat wp_step; cbn [first_error foldr error_of check]; try fails.
  match goal with E : d_orgs _ !! _ = Some _ |- _ =>
    pose proof (wf_org_nul_free _ _ Hwf (has_org_Some _ _ _ E)) end. absents.
  wp_write; [by split; [|apply hex_nul_free]|]. subst. by repeat wp_step.
Qed.

(** Toggling changes the flag and nothing else. *)
Theorem toggle_sink_spec org_id sink_id enabled w :
  wf (w_store w) →
  wp o fl (toggle_sink org_id sink_id enabled)
    (λ r w', outcome fl (absent (d_sinks (w_store w) !! (org_id, sink_id)) (SinkNotFound sink_id org_id))
       (w_store w)
       (λ s m', ∃ old, d_sinks (w_store w) !! (org_id, sink_id) = Some old ∧
          s = with_sink_enabled old enabled ∧
          m' = upd_sinks <[(org_id, sink_id) := s]> (w_store w)) r (w_store w')) w.
Proof.
  intros Hwf. unfold toggle_sink, outcome, store.update_sink. repeat wp_step; try fails.
  match goal with E : d_sinks _ !! _ = Some _ |- _ =>
    destruct (wf_sinks _ Hwf _ _ _ E) as (Eo & Es & ? & _ & Horg) end.
  pose proof (wf_org_nul_free _ _ Hwf Horg). absents.
  apply wp_call; [split; cbn [with_sink_enabled s_org_id s_sink_id]; congruence| |by intros -> ?].
  intros [] m' Hs. cbn in Hs. rewrite Eo, Es in Hs. destruct Hs as [->|[? _]]; [|congruence].
  repeat wp_step. split; [done|]. eauto.
Qed.
End Sinks.
