(* ===== verification/Auth.v ===== *)
(** api/auth.rs and the pieces of HTTP the handlers share: status codes, header
    maps, and the admin authentication middleware. *)
From S2P Require Import Prelude Text Extern Models Errors Effects.
From Stdlib Require Import ZArith.
From Stdlib.Strings Require Import Byte.

#[local] Open Scope Z_scope.

(** ** Status codes and errors of handlers *)
Definition OK : Z := 200.
Definition CREATED : Z := 201.
Definition NO_CONTENT : Z := 204.
Definition BAD_REQUEST : Z := 400.
Definition UNAUTHORIZED : Z := 401.
Definition FORBIDDEN : Z := 403.
Definition NOT_FOUND : Z := 404.
Definition TOO_MANY_REQUESTS : Z := 429.
Definition INTERNAL_SERVER_ERROR : Z := 500.

Definition ApiError : Type := Z * string.
Definition bad_request (e : error) : ApiError := (BAD_REQUEST, to_string e).
Definition not_found (e : error) : ApiError := (NOT_FOUND, to_string e).
Definition internal (e : error) : ApiError := (INTERNAL_SERVER_ERROR, to_string e).
Definition unauthorized (msg : string) : ApiError := (UNAUTHORIZED, msg).
Definition forbidden (msg : string) : ApiError := (FORBIDDEN, msg).
Definition too_many_requests (msg : string) : ApiError := (TOO_MANY_REQUESTS, msg).

(** ** Headers: [HeaderMap::get] is the first value under the (lower-case) name *)
Definition HeaderMap : Type := list (string * string).
Fixpoint header_get (h : HeaderMap) (name : string) : option string :=
  match h with
  | [] => None
  | (n, v) :: h => if decide (n = name) then Some v else header_get h name
  end.

Section Auth.
Context `{HttpLib}.

(** [.get("authorization").and_then(to_str).and_then(strip_prefix("Bearer "))] *)
Definition bearer (headers : HeaderMap) : option string :=
  v ← header_get headers "authorization"; s ← header_to_str v; strip_prefix "Bearer " s.

(** ** The comparison: a fold of [acc | (x ^ y)] over a [u8] *)
Definition constant_time_eq (a b : bytes) : bool :=
  if negb (Z.of_nat (length a) =? Z.of_nat (length b)) then false
  else foldl (λ acc xy, Z.lor acc (Z.lxor xy.1 xy.2)) 0 (zip (u8_val <$> a) (u8_val <$> b)) =? 0.

Definition require_admin_token {R} (expected : option string) (headers : HeaderMap)
    (next : prog R) : prog (result ApiError R) :=
  match expected with
  | None => pbind next (λ r, Ret (Ok r))
  | Some expected =>
      match bearer headers with
      | Some provided =>
          if constant_time_eq (as_bytes provided) (as_bytes expected)
          then pbind next (λ r, Ret (Ok r))
          else bail (FORBIDDEN, "Invalid admin token")
      | None => bail (UNAUTHORIZED, "Admin token required")
      end
  end.
End Auth.

(** ** Properties *)
Lemma foldl_lor (l : list (Z * Z)) acc :
  foldl (λ acc xy, Z.lor acc (Z.lxor xy.1 xy.2)) acc l = 0 ↔
  acc = 0 ∧ Forall (λ xy, xy.1 = xy.2) l.
Proof.
  revert acc; induction l as [|[x y] l IH]; intros acc; simpl.
  { split; [done|by intros [? _]]. }
  rewrite IH, Z.lor_eq_0_iff, Z.lxor_eq_0_iff, Forall_cons. simpl. tauto.
Qed.

Lemma constant_time_eq_iff a b : constant_time_eq a b = true ↔ a = b.
Proof.
  unfold constant_time_eq. destruct (Z.eqb_spec (Z.of_nat (length a)) (Z.of_nat (length b)))
    as [Hl|Hl]; simpl.
  - apply Nat2Z.inj in Hl. rewrite Z.eqb_eq, foldl_lor. split; [|intros ->].
    + intros [_ Hall]. revert b Hl Hall; induction a as [|x a IH]; intros [|y b] Hl Hall; try done.
      simpl in *. apply Forall_cons in Hall as [Hxy Hall]. simpl in Hxy.
      apply u8_val_inj in Hxy as ->. f_equal. apply IH; [lia|done].
    + split; [done|]. clear Hl. induction b as [|y b IH]; constructor; [done|]. apply IH.
  - split; [done|]. by intros ->.
Qed.


Lemma as_bytes_inj a b : as_bytes a = as_bytes b → a = b.
Proof.
  intros E. rewrite <-(String.string_of_list_byte_of_string a),
    <-(String.string_of_list_byte_of_string b). unfold as_bytes in E. by rewrite E.
Qed.

Section Middleware.
Context `{HttpLib} {S : Type} `{Backend S} (o : oracle) {R : Type}.

(** With a token configured the inner handler runs exactly on requests that
    present it; every other request is refused and nothing is executed. *)
Lemma require_admin_token_run expected headers (next : prog R) w :
  run o (require_admin_token (Some expected) headers next) w =
  match bearer headers with
  | Some provided =>
      if decide (provided = expected)
      then let '(r, w') := run o next w in (Ok r, w')
      else (Err (FORBIDDEN, "Invalid admin token"%string), w)
  | None => (Err (UNAUTHORIZED, "Admin token required"%string), w)
  end.
Proof.
  unfold require_admin_token. destruct (bearer headers) as [provided|]; [|done].
  destruct (constant_time_eq _ _) eqn:E; case_decide as Hp.
  - rewrite run_pbind. by destruct (run o next w).
  - apply constant_time_eq_iff, as_bytes_inj in E. done.
  - subst. by rewrite (proj2 (constant_time_eq_iff _ _)) in E.
  - done.
Qed.

Lemma require_admin_token_dev headers (next : prog R) w :
  run o (require_admin_token None headers next) w =
  let '(r, w') := run o next w in (Ok r, w').
Proof. simpl. rewrite run_pbind. by destruct (run o next w). Qed.
End Middleware.
