(* ===== verification/Enroll.v ===== *)
(** api/enroll.rs: the enrollment endpoint.

    [enroll] checks the formation's policy, authenticates the caller by an
    enrollment token or through the organization's identity provider, evaluates
    the policy rules on the claims, appends the audit entry and issues a
    certificate. *)
From S2P Require Import Prelude Text Extern Models Errors Effects Crypto Manager Auth.
From Stdlib Require Import ZArith Ascii.

#[local] Open Scope Z_scope.

Record EnrollmentResponse := {
  resp_decision : EnrollmentDecision;
  resp_audit_id : string;
  resp_certificate : option string;
  resp_mesh_id : option string;
  resp_authority_public_key : option string;
}.

Record EnrollRequest := {
  req_token : option string;
  req_public_key : option string;
  req_node_id : option string;
}.

(** ** Policy rules *)

(** [sort_by_key] is a stable sort. *)
Fixpoint insert_by {A} (key : A → Z) (x : A) (l : list A) : list A :=
  match l with
  | [] => [x]
  | y :: l => if key x <=? key y then x :: y :: l else y :: insert_by key x l
  end.
Definition sort_by_key {A} (key : A → Z) (l : list A) : list A := foldr (insert_by key) [] l.

Definition claim_matches (rule : PolicyRule) (claim_val : Value) : bool :=
  match claim_val with
  | JString s => bool_decide (s = r_claim_value rule)
  | JBool b =>
      (bool_decide (r_claim_value rule = "true") && b)
      || (bool_decide (r_claim_value rule = "false") && negb b)
  | JArray arr =>
      existsb (λ v, match as_str v with
                    | Some s => bool_decide (s = r_claim_value rule)
                    | None => false
                    end) arr
  | JNumber n => bool_decide (jnumber_to_string n = r_claim_value rule)
  | _ => false
  end.

Definition rule_matches (claims : Map) (rule : PolicyRule) : bool :=
  match map_get claims (r_claim_key rule) with
  | Some claim_val => claim_matches rule claim_val
  | None => false
  end.

Fixpoint first_match (claims : Map) (rules : list PolicyRule) : EnrollmentDecision :=
  match rules with
  | [] => Approved Endpoint 0
  | rule :: rules =>
      if rule_matches claims rule then Approved (r_tier rule) (r_permissions rule)
      else first_match claims rules
  end.

Definition evaluate_policy (rules : list PolicyRule) (claims : Map) : EnrollmentDecision :=
  first_match claims (sort_by_key r_priority rules).

Section Enroll.
Context `{HexLib} `{AeadLib} `{MeshLib} `{HttpLib} `{Serde Value} `{Serde Map}.

Definition msg_bad_request (m : string) : ApiError := (BAD_REQUEST, m).

Definition validate_public_key (pk_hex : string) : result ApiError unit :=
  match hex_decode pk_hex with
  | Err _ => Err (msg_bad_request "Invalid public_key: not valid hex")
  | Ok bs =>
      if negb (Z.of_nat (length bs) =? 32)
      then Err (msg_bad_request ("Invalid public_key: expected 32 bytes, got "
                                 +:+ fmt_dec (Z.of_nat (length bs))))
      else Ok tt
  end.

Definition extract_bearer (headers : HeaderMap) (body : option EnrollRequest) : option string :=
  match bearer headers with
  | Some token => Some token
  | None => b ← body; req_token b
  end.

(** [client.get(url)...send().await.map_err(...)?.json().await.map_err(...)?] *)
Definition send (rq : request) (ctx : string) : M (Z * bytes) :=
  try! rp := perform (Net rq) in
  match rp with
  | NetErr e => bail (Remote (ctx +:+ ": " +:+ e))
  | NetResp status body => ok (status, body)
  end.
Definition json {A} `{Serde A} (body : bytes) (ctx : string) : M A :=
  lift (map_err (λ e, Remote (ctx +:+ ": " +:+ e)) (from_slice body)).

Definition introspect_oidc_token (issuer_url client_id client_secret bearer : string) : M Map :=
  let discovery_url := trim_end_matches "/" issuer_url +:+ "/.well-known/openid-configuration" in
  let! resp := send (HttpGet discovery_url []) "OIDC discovery request failed" in
  let! discovery := json (A:=Value) resp.2 "OIDC discovery response parse failed" in
  match v ← value_get discovery "introspection_endpoint"; as_str v with
  | Some introspection_url =>
      let! resp :=
        send (HttpPost introspection_url
                [("authorization", basic_auth client_id client_secret);
                 ("content-type", "application/x-www-form-urlencoded")]%string
                (form_urlencode [("token"%string, bearer)]))
          "Token introspection request failed" in
      if negb (is_success resp.1) then
        bail (Remote ("Introspection endpoint returned " +:+ status_display resp.1
                      +:+ " — check client credentials"))
      else
      let! body := json (A:=Map) resp.2 "Failed to parse introspection response" in
      match map_get body "active" with
      | Some (JBool true) => ok body
      | Some (JBool false) => bail (Remote "Token is not active (revoked or expired)")
      | _ => bail (Remote "Introspection response missing required 'active' field")
      end
  | None =>
      let! userinfo_url :=
        lift (ok_or (v ← value_get discovery "userinfo_endpoint"; as_str v)
                (Remote "IdP has neither introspection nor userinfo endpoint")) in
      let! resp :=
        send (HttpGet userinfo_url [("authorization", "Bearer " +:+ bearer)]%string)
          "Userinfo request failed" in
      if negb (is_success resp.1) then
        bail (Remote ("Userinfo endpoint returned " +:+ status_display resp.1
                      +:+ " — token may be invalid or expired"))
      else json (A:=Map) resp.2 "Failed to parse userinfo response"
  end.

Definition generate_id : prog string :=
  try! buf := random_bytes 8 in
  Ret (hex_encode buf).

Definition build_audit (audit_id org_id app_id idp_id subject : string)
    (decision : EnrollmentDecision) : prog EnrollmentAuditEntry :=
  try! now := now_ms in
  Ret {| a_audit_id := audit_id; a_org_id := org_id; a_app_id := app_id; a_idp_id := idp_id;
         a_subject := subject; a_decision := decision; a_timestamp_ms := now |}.

Definition no_certificate : option string * option string * option string := (None, None, None).

Definition try_issue_certificate (mgr : TenantManager) (org_id app_id : string)
    (decision : EnrollmentDecision) (body : option EnrollRequest) :
    prog (option string * option string * option string) :=
  match decision with
  | Denied _ => Ret no_certificate
  | Approved tier perms =>
  match body with
  | None => Ret no_certificate
  | Some b =>
  match req_public_key b, req_node_id b with
  | Some public_key_hex, Some node_id =>
      match hex_decode public_key_hex with
      | Ok pk_bytes =>
          if negb (Z.of_nat (length pk_bytes) =? 32) then Ret no_certificate else
          try! g := load_genesis mgr org_id app_id in
          match g with
          | Err _ => Ret no_certificate
          | Ok genesis =>
              let mesh_tier := to_mesh_tier tier in
              let mesh_perms := permissions.to_mesh perms in
              try! issued_at := perform SystemTime in
              let cert := genesis_issue_certificate genesis pk_bytes node_id mesh_tier mesh_perms
                            (24 * 60 * 60 * 1000) issued_at in
              Ret (Some (hex_encode (cert_encode cert)), Some (genesis_mesh_id genesis),
                   Some (hex_encode (genesis_authority_public_key genesis)))
          end
      | Err _ => Ret no_certificate
      end
  | _, _ => Ret no_certificate
  end end end.

(** The decision on an admitted request, the provider and the subject. *)
Definition decide_controlled (org_id app_id : string) (headers : HeaderMap)
    (body : option EnrollRequest) :
    prog (result ApiError (EnrollmentDecision * string * string)) :=
  let! bearer := lift (ok_or (extract_bearer headers body)
      (unauthorized "Missing bearer token (Authorization: Bearer <token>)")) in
  if starts_with bearer "peat_" then
    try! token := validate_and_consume_token org_id app_id bearer in
    match token with
    | Ok token => ok (Approved Endpoint 0, "token"%string, "token:" +:+ t_token_id token)
    | Err _ => bail (unauthorized "Enrollment token is invalid, revoked, or expired")
    end
  else
    let! idps := mmap_err bad_request (list_idps org_id) in
    let! idp := lift (ok_or (head (filter (λ i, i_enabled i = true) idps))
        (msg_bad_request ("No enabled identity provider configured for org '" +:+ org_id +:+ "'"))) in
    let! claims := mmap_err (λ e, unauthorized ("Token validation failed: " +:+ to_string e))
        (introspect_oidc_token (i_issuer_url idp) (i_client_id idp) (i_client_secret idp) bearer) in
    let subject := default "unknown"%string (v ← map_get claims "sub"; as_str v) in
    let! rules := mmap_err bad_request (list_policy_rules org_id) in
    let decision := evaluate_policy rules claims in
    ok (decision, i_idp_id idp, subject).

Definition enroll (mgr : TenantManager) (org_id app_id : string) (headers : HeaderMap)
    (body : option EnrollRequest) : prog (result ApiError EnrollmentResponse) :=
  let! org := mmap_err bad_request (get_org org_id) in
  let! formation := mmap_err bad_request (get_formation org_id app_id) in
  let! _ := lift match b ← body; req_public_key b with
                 | Some pk => validate_public_key pk
                 | None => Ok tt
                 end in
  try! now := now_ms in
  let one_hour_ago := saturating_sub now 3600000 in
  let! recent := mmap_err internal (count_recent_enrollments org_id one_hour_ago) in
  if max_enrollments_per_hour (o_quotas org) <=? as_u32 recent
  then bail (too_many_requests "Enrollment rate limit exceeded") else
  if bool_decide (f_enrollment_policy formation = Strict)
  then bail (forbidden "Formation requires explicit admin approval (Strict policy)") else
  let! d :=
    match f_enrollment_policy formation with
    | Open => ok (Approved Endpoint 0, "none"%string, "anonymous"%string)
    | _ => decide_controlled org_id app_id headers body
    end in
  let '(decision, idp_id, subject) := d in
  try! audit_id := generate_id in
  try! entry := build_audit audit_id org_id app_id idp_id subject decision in
  try! _ := append_audit entry in
  match decision with
  | Denied reason => bail (forbidden reason)
  | Approved _ _ =>
      try! c := try_issue_certificate mgr org_id app_id decision body in
      let '(certificate, mesh_id, authority_public_key) := c in
      ok {| resp_decision := decision; resp_audit_id := audit_id;
            resp_certificate := certificate; resp_mesh_id := mesh_id;
            resp_authority_public_key := authority_public_key |}
  end.
End Enroll.
