(* ===== verification/EnrollSpec.v ===== *)
(** The enrollment endpoint: policy evaluation, admission, audit. *)
From S2P Require Import Prelude Text Extern Models Errors Effects Spec Wp Crypto Manager Invariant ManagerInv ManagerSpec Auth Enroll Concrete.
From Stdlib Require Import ZArith Ascii.

#[local] Open Scope Z_scope.

(** ** Policy evaluation *)

(** The first rule of least priority among those that match, as a fold. *)
Definition best (claims : Map) (rules : list PolicyRule) : option PolicyRule :=
  foldr (λ r acc,
    if rule_matches claims r then
      match acc with
      | Some b => if r_priority r <=? r_priority b then Some r else acc
      | None => Some r
      end
    else acc) None rules.

Definition first_rule (claims : Map) (rules : list PolicyRule) : option PolicyRule :=
  head (filter (λ r, rule_matches claims r = true) rules).

Lemma first_match_rule claims rules :
  first_match claims rules =
  match first_rule claims rules with
  | Some r => Approved (r_tier r) (r_permissions r)
  | None => Approved Endpoint 0
  end.
Proof.
  unfold first_rule. induction rules as [|r rules IH]; [done|]. cbn [first_match].
  rewrite filter_cons. destruct (rule_matches claims r); case_decide; done.
Qed.

Definition key_sorted {A} (key : A → Z) (l : list A) : Prop :=
  StronglySorted (λ a b, key a ≤ key b) l.
Abbreviation prio_sorted := (key_sorted r_priority).

Lemma insert_by_perm {A} (key : A → Z) x l : insert_by key x l ≡ₚ x :: l.
Proof.
  induction l as [|y l IH]; simpl; [done|]. case_match; [done|]. rewrite IH. apply perm_swap.
Qed.

Lemma insert_by_sorted {A} (key : A → Z) x l : key_sorted key l → key_sorted key (insert_by key x l).
Proof.
  intros Hs. induction Hs as [|y l Hs IH Hy]; simpl; [by repeat constructor|].
  destruct (Z.leb_spec (key x) (key y)) as [Hle|Hlt].
  - constructor; [by constructor|]. constructor; [done|].
    eapply Forall_impl; [exact Hy|]. simpl. lia.
  - constructor; [done|]. rewrite insert_by_perm. constructor; [lia|done].
Qed.

Lemma sort_by_key_sorted {A} (key : A → Z) l : key_sorted key (sort_by_key key l).
Proof. induction l; [constructor|]. by apply insert_by_sorted. Qed.
Lemma sort_by_key_perm {A} (key : A → Z) l : sort_by_key key l ≡ₚ l.
Proof. induction l as [|x l IH]; [done|]. cbn. by rewrite insert_by_perm, IH. Qed.

Lemma first_rule_insert claims x l :
  prio_sorted l →
  first_rule claims (insert_by r_priority x l) =
  if rule_matches claims x then
    match first_rule claims l with
    | Some b => if r_priority x <=? r_priority b then Some x else first_rule claims l
    | None => Some x
    end
  else first_rule claims l.
Proof.
  unfold first_rule. intros Hs. induction Hs as [|y l Hs IH Hy]; cbn [insert_by].
  { rewrite filter_cons. cbn. by destruct (rule_matches claims x). }
  destruct (Z.leb_spec (r_priority x) (r_priority y)) as [Hle|Hlt]; rewrite !filter_cons.
  - destruct (rule_matches claims x) eqn:Ex; case_decide; try done.
    destruct (decide (rule_matches claims y = true)); cbn.
    + by rewrite (proj2 (Z.leb_le _ _) Hle).
    + destruct (filter _ l) as [|b l'] eqn:Ef; [done|]. cbn.
      assert (b ∈ l) as Hb by (apply (list_elem_of_filter (λ r, rule_matches claims r = true));
        rewrite Ef; left).
      rewrite Forall_forall in Hy. rewrite (proj2 (Z.leb_le _ _)); [done|].
      etrans; [exact Hle|by apply Hy].
  - destruct (decide (rule_matches claims y = true)); cbn; [|exact IH].
    rewrite (proj2 (Z.leb_gt _ _) Hlt). by destruct (rule_matches claims x).
Qed.

Lemma first_rule_sort claims rules :
  first_rule claims (sort_by_key r_priority rules) = best claims rules.
Proof.
  induction rules as [|r rules IH]; [done|]. cbn [sort_by_key foldr best].
  rewrite first_rule_insert by apply sort_by_key_sorted.
  fold (sort_by_key r_priority rules). fold (best claims rules). by rewrite IH.
Qed.

Lemma best_None claims rules :
  best claims rules = None ↔ Forall (λ r, rule_matches claims r = false) rules.
Proof.
  induction rules as [|r rules IH]; [by split|]. cbn [best foldr]. fold (best claims rules).
  rewrite Forall_cons. destruct (rule_matches claims r).
  - split; [|by intros [? _]]. by repeat case_match.
  - rewrite IH. tauto.
Qed.

Lemma best_Some claims rules b :
  best claims rules = Some b →
  ∃ i, rules !! i = Some b ∧ rule_matches claims b = true ∧
    ∀ j r, rules !! j = Some r → rule_matches claims r = true →
      r_priority b < r_priority r ∨ (r_priority b = r_priority r ∧ (i ≤ j)%nat).
Proof.
  revert b; induction rules as [|r rules IH]; intros b; [done|].
  cbn [best foldr]. fold (best claims rules).
  destruct (rule_matches claims r) eqn:Er.
  2: { intros Hb. destruct (IH b Hb) as (i & Hi & Hm & Hmin). exists (S i). split_and!; [done..|].
       intros [|j] r'; cbn; [intros [= <-]; congruence|]. intros Hj Hr'.
       destruct (Hmin j r' Hj Hr'); [by left|right; lia]. }
  destruct (best claims rules) as [b'|] eqn:Eb.
  - destruct (IH b' eq_refl) as (i & Hi & Hm & Hmin).
    destruct (Z.leb_spec (r_priority r) (r_priority b')) as [Hle|Hlt]; intros [= <-].
    + exists 0%nat. split_and!; [done..|]. intros [|j] r'; cbn; [intros [= <-]; right; lia|].
      intros Hj Hr'. destruct (Hmin j r' Hj Hr'); lia.
    + exists (S i). split_and!; [done..|]. intros [|j] r'; cbn; [intros [= <-]; left; lia|].
      intros Hj Hr'. destruct (Hmin j r' Hj Hr'); [by left|right; lia].
  - intros [= <-]. exists 0%nat. split_and!; [done..|]. apply best_None in Eb.
    intros [|j] r'; cbn; [intros [= <-]; right; lia|]. intros Hj Hr'.
    eapply Forall_lookup_1 in Eb; [|done]. congruence.
Qed.

Lemma evaluate_policy_cases rules claims :
  (∃ i rule, rules !! i = Some rule ∧ rule_matches claims rule = true ∧
     evaluate_policy rules claims = Approved (r_tier rule) (r_permissions rule) ∧
     ∀ j r, rules !! j = Some r → rule_matches claims r = true →
       r_priority rule < r_priority r ∨ (r_priority rule = r_priority r ∧ (i ≤ j)%nat)) ∨
  (Forall (λ r, rule_matches claims r = false) rules ∧
   evaluate_policy rules claims = Approved Endpoint 0).
Proof.
  unfold evaluate_policy. rewrite first_match_rule, first_rule_sort.
  destruct (best claims rules) as [b|] eqn:E.
  - left. destruct (best_Some _ _ _ E) as (i & ? & ? & ?). by exists i, b.
  - right. split; [by apply best_None|done].
Qed.

(** C28: The rule that decides is a matching one of least priority number, the
    first listed among equals; with no match the peer is a plain endpoint. *)
Theorem evaluate_policy_spec rules claims :
  (∃ i rule, rules !! i = Some rule ∧ rule_matches claims rule = true ∧
     evaluate_policy rules claims = Approved (r_tier rule) (r_permissions rule) ∧
     ∀ j r, rules !! j = Some r → rule_matches claims r = true →
       r_priority rule < r_priority r ∨ (r_priority rule = r_priority r ∧ (i ≤ j)%nat)) ∨
  (Forall (λ r, rule_matches claims r = false) rules ∧
   evaluate_policy rules claims = Approved Endpoint 0).
Proof. apply evaluate_policy_cases. Qed.

(** ** Permission bits on the wire *)
Theorem to_mesh_bits `{MeshLaws} perms i :
  0 ≤ i →
  Z.testbit (permissions.to_mesh perms) i =
  if decide (i = 7) then Z.testbit perms 3
  else if decide (0 ≤ i < 3) then Z.testbit perms i else false.
Proof.
  intros Hi. destruct mp_values as (E1 & E2 & E3 & E4).
  unfold permissions.to_mesh. rewrite E1, E2, E3, E4.
  assert (∀ k bit out, 0 ≤ k →
    permissions.or_if perms (2 ^ k) bit out =
    if Z.testbit perms k then Z.lor out bit else out) as Hor.
  { intros k bit out Hk. unfold permissions.or_if.
    assert (Z.land perms (2 ^ k) = if Z.testbit perms k then 2 ^ k else 0) as ->.
    { apply Z.bits_inj'. intros n Hn. rewrite Z.land_spec, Z.pow2_bits_eqb by lia.
      destruct (Z.eqb_spec k n) as [->|Hne].
      - destruct (Z.testbit perms n); [|by rewrite Z.bits_0].
        by rewrite Z.pow2_bits_true.
      - rewrite andb_false_r. destruct (Z.testbit perms k); [|by rewrite Z.bits_0].
        by rewrite Z.pow2_bits_false. }
    destruct (Z.testbit perms k); [|done].
    destruct (Z.eqb_spec (2 ^ k) 0); [|done]. pose proof (Z.pow_pos_nonneg 2 k). lia. }
  change permissions.RELAY with (2 ^ 0). change permissions.EMERGENCY with (2 ^ 1).
  change permissions.ENROLL with (2 ^ 2). change permissions.ADMIN with (2 ^ 3).
  rewrite !Hor by lia.
  destruct (Z.testbit perms 0) eqn:B0, (Z.testbit perms 1) eqn:B1, (Z.testbit perms 2) eqn:B2,
    (Z.testbit perms 3) eqn:B3; cbn;
    (destruct (decide (i = 7)) as [->|]; [by rewrite ?B3|]);
    (destruct (decide (0 ≤ i < 3)) as [Hr|Hr];
      [assert (i = 0 ∨ i = 1 ∨ i = 2) as [-> | [-> | ->]] by lia; by rewrite ?B0, ?B1, ?B2|]).
  all: destruct (decide (i < 8));
    [assert (i = 3 ∨ i = 4 ∨ i = 5 ∨ i = 6) as [-> | [-> | [-> | ->]]] by lia; reflexivity|];
    first [by rewrite Z.bits_0
      |apply Z.bits_above_log2; [done|
         match goal with |- Z.log2 ?v < _ =>
           let l := eval vm_compute in (Z.log2 v) in change (Z.log2 v) with l end; lia]].
Qed.

(** ** Admission *)
Lemma wp_mmap_err {E F A} o fl (f : E → F) (c : prog (result E A)) Q w :
  wp o fl c (λ r w', Q (map_err f r) w') w → wp o fl (mmap_err f c) Q w.
Proof. intros Hc. by apply wp_pbind. Qed.

Lemma listing_elem `{Countable K} `{OrgKey K} {V} o (m : gmap K V) l v :
  listing o m l → v ∈ l → ∃ k, m !! k = Some v ∧ org_of k = o.
Proof.
  intros Hl Hv. rewrite Hl in Hv. apply list_elem_of_fmap in Hv as ([k v'] & -> & Hin).
  apply elem_of_map_to_list, map_lookup_filter_Some in Hin as [??]. by exists k.
Qed.

(** Enrollments recorded for an organization since a time. *)
Definition recent_enrollments (org_id : string) (since : Z) (m : db) : Z :=
  Z.of_nat (size (filter (λ kv, org_of kv.1 = org_id ∧ since ≤ a_timestamp_ms kv.2) (d_audit m))).

Lemma take_all {A} n (l : list A) : Z.of_nat (length l) ≤ n → take (Z.to_nat n) l = l.
Proof. intros Hn. apply take_ge. lia. Qed.

(** The recent entries of a listing of all entries are counted right. *)
Lemma recent_count org_id since m l m' :
  Z.of_nat (size (d_audit m)) ≤ usize_max → spec (ListAudit org_id None usize_max) m l m' →
  Z.of_nat (length (filter (λ e, since ≤ a_timestamp_ms e) l)) = recent_enrollments org_id since m.
Proof.
  intros Hsize [(kvs & [Hp _] & Hl) _].
  assert (Z.of_nat (length kvs) ≤ usize_max) as Hk.
  { rewrite Hp, length_map_to_list. pose proof (map_size_filter (audit_match org_id None) (d_audit m)). lia. }
  destruct Hl as [->|[? _]]; [|done]. rewrite take_all by done. rewrite length_filter_snd.
  rewrite (map_to_list_filter (λ kv, since ≤ a_timestamp_ms kv.2) _ kvs Hp), length_map_to_list.
  rewrite map_filter_filter. unfold recent_enrollments. do 2 f_equal.
  apply map_filter_ext. intros i e _. unfold audit_match. cbn. tauto.
Qed.

Section EnrollSpec.
Context `{HexLaws} `{AeadLib} `{MeshLib} `{HttpLaws} `{Serde Value} `{Serde Map}.
Context (o : oracle) (fl : bool).

Lemma count_recent_spec org_id since w Q :
  nul_free org_id → Z.of_nat (size (d_audit (w_store w))) ≤ usize_max →
  Q (Ok (recent_enrollments org_id since (w_store w))) w → (fl = true → ∀ e, Q (Err e) w) →
  wp o fl (count_recent_enrollments org_id since) Q w.
Proof.
  intros Ho Hsize HQ He. unfold count_recent_enrollments, store.list_audit. apply wp_mbind.
  apply wp_call_read; [done|done| |done]. intros l Hs. apply wp_ret.
  by rewrite (recent_count org_id since (w_store w) l (w_store w)).
Qed.

(** *** What an identity provider says of a bearer token, by the answers of the
    network: its discovery document is the answer to request [n], what it says of
    the token the answer to the next one. *)
Definition discovers (idp : IdpConfig) (n : nat) (doc : Value) : Prop :=
  ∃ st body, o_net o n (HttpGet (trim_end_matches "/" (i_issuer_url idp)
                                 +:+ "/.well-known/openid-configuration") []) = NetResp st body ∧
    from_slice body = Ok doc.

(** The text a discovery document has under a name. *)
Definition endpoint (doc : Value) (name : string) : option string :=
  v ← value_get doc name; as_str v.

(** With an introspection endpoint (RFC 7662), the claims are those of a successful
    answer that says the token is active; without one, those of the user
    information the token gives access to. *)
Definition vouches (idp : IdpConfig) (token : string) (n : nat) (claims : Map) : Prop :=
  ∃ doc, discovers idp n doc ∧
  match endpoint doc "introspection_endpoint" with
  | Some url =>
      ∃ st body,
        o_net o (S n) (HttpPost url
          [("authorization", basic_auth (i_client_id idp) (i_client_secret idp));
           ("content-type", "application/x-www-form-urlencoded")]%string
          (form_urlencode [("token"%string, token)])) = NetResp st body ∧
        is_success st = true ∧ from_slice body = Ok claims ∧
        map_get claims "active" = Some (JBool true)
  | None =>
      ∃ url st body, endpoint doc "userinfo_endpoint" = Some url ∧
        o_net o (S n) (HttpGet url [("authorization", "Bearer " +:+ token)]%string)
          = NetResp st body ∧
        is_success st = true ∧ from_slice body = Ok claims
  end.

Definition claimed_subject (claims : Map) : string :=
  match map_get claims "sub" with Some (JString s) => s | _ => "unknown" end.

(** How an admitted request was admitted, and what admitting it stored; [n] is the
    number of network requests made before. *)
Definition admitted (policy : EnrollmentPolicy) (org_id app_id : string) (headers : HeaderMap)
    (body : option EnrollRequest) (now : Z) (n : nat) (m m1 : db)
    (decision : EnrollmentDecision) (idp_id subject : string) : Prop :=
  match policy with
  | Open => m1 = m ∧ decision = Approved Endpoint 0 ∧ idp_id = "none"%string
            ∧ subject = "anonymous"%string
  | Controlled =>
      ∃ bearer, extract_bearer headers body = Some bearer ∧
      if starts_with bearer "peat_" then
        ∃ tok, d_tokens m !! (org_id, bearer) = Some tok ∧
          consume_error m org_id app_id bearer now = None ∧
          m1 = upd_tokens <[(org_id, bearer) := with_uses tok (as_u32 (t_uses tok + 1))]> m ∧
          decision = Approved Endpoint 0 ∧ idp_id = "token"%string ∧
          subject = "token:" +:+ bearer
      else
        ∃ idp claims rules, d_idps m !! (org_id, idp_id) = Some idp ∧ i_enabled idp = true ∧
          vouches idp bearer n claims ∧ subject = claimed_subject claims ∧
          m1 = m ∧ listing org_id (d_rules m) rules ∧ decision = evaluate_policy rules claims
  | Strict => False
  end.

(** No bearer token, an enrollment token that cannot be redeemed, or one that the
    organization's providers do not vouch for. *)
Definition inadmissible (org_id app_id : string) (headers : HeaderMap)
    (body : option EnrollRequest) (now : Z) (n : nat) (m : db) : Prop :=
  match extract_bearer headers body with
  | None => True
  | Some bearer =>
      if starts_with bearer "peat_" then is_Some (consume_error m org_id app_id bearer now)
      else
        (∀ idp_id idp, d_idps m !! (org_id, idp_id) = Some idp → i_enabled idp = false) ∨
        ∃ idp_id idp, d_idps m !! (org_id, idp_id) = Some idp ∧ i_enabled idp = true ∧
          ∀ claims, ¬ vouches idp bearer n claims
  end.

Lemma send_no_store rq ctx : no_store (send rq ctx).
Proof. unfold send. cbn. split; [done|]. by intros []. Qed.

Lemma introspect_no_store u i s b : no_store (introspect_oidc_token u i s b).
Proof.
  pose proof send_no_store as Hsend.
  unfold introspect_oidc_token. apply no_store_mbind; [done|]. intros [st bd].
  apply no_store_mbind; [done|]. intros disc. case_match.
  - apply no_store_mbind; [done|]. intros [st2 bd2]. case_match; [done|].
    apply no_store_mbind; [done|]. intros m. by repeat case_match.
  - apply no_store_mbind; [done|]. intros url. apply no_store_mbind; [done|].
    intros [st2 bd2]. by case_match.
Qed.

(** A request is answered by the network, or fails with it. *)
Lemma wp_send rq ctx Q w :
  (∀ st body, o_net o (w_sent w) rq = NetResp st body → Q (Ok (st, body)) (sent o rq w)) →
  ((∀ st body, o_net o (w_sent w) rq ≠ NetResp st body) → ∀ e, Q (Err e) (sent o rq w)) →
  wp o fl (send rq ctx) Q w.
Proof.
  intros Hok Herr. unfold send. apply wp_pbind, wp_net.
  destruct (o_net o (w_sent w) rq) as [e|st body] eqn:E; apply wp_ret; [|by apply Hok].
  apply Herr. intros st body. congruence.
Qed.

(** What a provider does not vouch for: some answer is not the one vouching needs. *)
Ltac not_vouched Hdisc :=
  intros ? (doc' & (? & ? & Hdisc' & ?) & ?); rewrite Hdisc in Hdisc'; injection Hdisc' as <- <-;
  simplify_eq; case_match;
  repeat match goal with H : ∃ _, _ |- _ => destruct H | H : _ ∧ _ |- _ => destruct H end;
  simplify_eq; congruence.

(** Introspection answers claims the provider vouches for, and fails only when it
    vouches for none. *)
Lemma introspect_vouches idp token w :
  wp o fl (introspect_oidc_token (i_issuer_url idp) (i_client_id idp) (i_client_secret idp) token)
    (λ r w', match r with
       | Ok claims => vouches idp token (w_sent w) claims
       | Err _ => ∀ claims, ¬ vouches idp token (w_sent w) claims
       end) w.
Proof.
  unfold introspect_oidc_token, vouches, discovers. apply wp_mbind, wp_send.
  2: { intros Hno e claims (doc & (st & body & Hn & _) & _). by apply (Hno st body). }
  intros st body Hdisc. apply wp_mbind, wp_ret. cbn [snd].
  destruct (from_slice body) as [doc|e] eqn:Edoc; cbn [map_err]; [|by not_vouched Hdisc].
  change (v ← value_get doc "introspection_endpoint"; as_str v)
    with (endpoint doc "introspection_endpoint").
  change (v ← value_get doc "userinfo_endpoint"; as_str v) with (endpoint doc "userinfo_endpoint").
  destruct (endpoint doc "introspection_endpoint") as [url|] eqn:Eurl.
  - apply wp_mbind, wp_send; cbn [w_sent sent]; [|intros Hno e; by not_vouched Hdisc].
    intros st2 body2 Hans. cbn [fst snd].
    destruct (is_success st2) eqn:Est; cbn [negb]; [|apply wp_ret; by not_vouched Hdisc].
    apply wp_mbind, wp_ret.
    destruct (from_slice body2) as [claims|e] eqn:Ecl; cbn [map_err]; [|by not_vouched Hdisc].
    destruct (map_get claims "active") as [[|[]| | | |]|] eqn:Eact; apply wp_ret;
      try by not_vouched Hdisc.
    exists doc. split; [by eauto|]. rewrite Eurl. by exists st2, body2.
  - apply wp_mbind, wp_ret.
    destruct (endpoint doc "userinfo_endpoint") as [url|] eqn:Euser; cbn [ok_or]; [|by not_vouched Hdisc].
    apply wp_mbind, wp_send; cbn [w_sent sent]; [|intros Hno e; by not_vouched Hdisc].
    intros st2 body2 Hans. cbn [fst snd].
    destruct (is_success st2) eqn:Est; cbn [negb]; apply wp_ret; [|by not_vouched Hdisc].
    destruct (from_slice body2) as [claims|e] eqn:Ecl; cbn [map_err]; [|by not_vouched Hdisc].
    exists doc. split; [by eauto|]. rewrite Eurl. by exists url, st2, body2.
Qed.

Lemma decide_controlled_spec org_id app_id headers body w :
  wf (w_store w) →
  wp o fl (decide_controlled org_id app_id headers body)
    (λ r w', match r with
       | Ok (decision, idp_id, subject) =>
           admitted Controlled org_id app_id headers body (clock o w) (w_sent w)
             (w_store w) (w_store w') decision idp_id subject
       | Err _ => w_store w' = w_store w ∧
           (fl = false → inadmissible org_id app_id headers body (clock o w) (w_sent w) (w_store w))
       end) w.
Proof.
  intros Hwf. unfold decide_controlled, admitted, inadmissible. apply wp_mbind, wp_ret.
  destruct (extract_bearer headers body) as [bearer|]; cbn [ok_or]; [|done].
  destruct (starts_with bearer "peat_") eqn:Epeat.
  - apply wp_pbind. eapply wp_mono; [by apply consume_outcome|].
    intros [tok'|e] w1; cbn [outcome].
    2: { intros [Hw1 He]. apply wp_ret. split; [done|]. intros Hfl. by eexists; apply He. }
    intros (Hnone & tok & Et & -> & Hw1). apply wp_ret. exists bearer. split; [done|].
    rewrite Epeat. exists tok. destruct (wf_tokens _ Hwf _ _ _ Et) as (_ & Eid & _).
    cbn [with_uses t_token_id]. by rewrite Eid.
  - unfold list_idps, list_policy_rules, store.list_idps, store.list_policy_rules.
    apply wp_mbind, wp_mmap_err, wp_mbind, wp_get_org; [intros org Horg|intros Hnone|intros Hfl e; split; [done|congruence]];
      cbn [map_err]; cycle 1.
    { split; [done|]. intros _. left. intros idp_id idp Hidp.
      destruct (wf_idps _ Hwf _ _ _ Hidp) as (_ & _ & _ & _ & [? ?]). congruence. }
    apply wp_call_read; [done|done|intros idps [Hidps _]|intros Hfl e; split; [done|congruence]]. cbn [map_err].
    apply wp_mbind, wp_ret.
    destruct (head (filter (λ i, i_enabled i = true) idps)) as [idp|] eqn:Ehd; cbn [ok_or].
    2: { split; [done|]. intros _. left. intros idp_id idp Hidp.
         assert (idp ∈ idps) as Hin.
         { rewrite Hidps. apply list_elem_of_fmap. exists ((org_id, idp_id), idp). split; [done|].
           by apply elem_of_map_to_list, map_lookup_filter_Some. }
         destruct (i_enabled idp) eqn:Een; [|done].
         assert (idp ∈ filter (λ i, i_enabled i = true) idps) as Hf by (by apply list_elem_of_filter).
         destruct (filter _ idps); [by apply not_elem_of_nil in Hf|done]. }
    assert (idp ∈ idps ∧ i_enabled idp = true) as [Hin Hen].
    { destruct (filter _ idps) as [|x l] eqn:Ef; [done|]. injection Ehd as ->.
      assert (idp ∈ filter (λ i, i_enabled i = true) idps) as Hin by (rewrite Ef; left).
      by apply list_elem_of_filter in Hin as [? ?]. }
    destruct (listing_elem _ _ _ _ Hidps Hin) as ([o' i'] & Ei & Eo). cbn in Eo. subst o'.
    destruct (wf_idps _ Hwf _ _ _ Ei) as (_ & Eid & _).
    apply wp_mbind, wp_mmap_err.
    eapply wp_mono; [apply wp_no_store_and; [apply introspect_no_store|apply introspect_vouches]|].
    intros [claims|e] w1 [Hv Hw1]; cbn [map_err].
    2: { split; [done|]. intros _. right. by exists i', idp. }
    apply wp_mbind, wp_mmap_err, wp_mbind, wp_get_org; rewrite ?Hw1;
      [intros _ _|intros Hnone|intros Hfl e; split; [done|congruence]]; cbn [map_err]; cycle 1.
    { destruct (wf_idps _ Hwf _ _ _ Ei) as (_ & _ & _ & _ & [? ?]). congruence. }
    apply wp_call_read; [done|done|intros rules [Hrules _]|intros Hfl e; split; [done|congruence]]. cbn [map_err].
    apply wp_ret. exists bearer. split; [done|]. rewrite Epeat, Eid.
    rewrite Hw1 in Hrules. exists idp, claims, rules. split_and!; try done.
    unfold claimed_subject, as_str. cbn. by destruct (map_get claims "sub") as [[]|].
Qed.

Lemma load_genesis_reads mgr org_id app_id w :
  KeyProviderLaws (key_provider mgr) →
  wp o fl (load_genesis mgr org_id app_id) (λ _ w', w_store w' = w_store w) w.
Proof.
  intros Hkp. unfold load_genesis, store.get_genesis. apply wp_mbind.
  apply wp_call_read; [done|done|intros r _|done]. apply wp_mbind, wp_ret.
  destruct (ok_or r _) as [stored|e]; [|done]. apply wp_mbind.
  destruct (encrypt_enabled mgr); [|by apply wp_ret].
  apply wp_mbind, wp_no_store; [by apply open_no_store|].
  intros [[d|]|e] w1 Hw1; try done; by repeat wp_step.
Qed.

Lemma certificate_reads mgr org_id app_id d body w :
  KeyProviderLaws (key_provider mgr) →
  wp o fl (try_issue_certificate mgr org_id app_id d body) (λ _ w', w_store w' = w_store w) w.
Proof.
  intros Hkp. unfold try_issue_certificate.
  repeat (case_match; try (by apply wp_ret)); try (by apply wp_ret).
  apply wp_pbind. eapply wp_mono; [by apply load_genesis_reads|].
  intros [g|err] w1 Hw1; exact Hw1.
Qed.

(** The decision under the formation's policy. *)
Definition admission (org_id app_id : string) (f : FormationConfig) (headers : HeaderMap)
    (body : option EnrollRequest) : prog (result ApiError (EnrollmentDecision * string * string)) :=
  match f_enrollment_policy f with
  | Open => ok (Approved Endpoint 0, "none"%string, "anonymous"%string)
  | _ => decide_controlled org_id app_id headers body
  end.

Lemma admission_spec org_id app_id f headers body w :
  wf (w_store w) → f_enrollment_policy f ≠ Strict →
  wp o fl (admission org_id app_id f headers body)
    (λ r w', match r with
       | Ok (decision, idp_id, subject) =>
           (∃ tier perms, decision = Approved tier perms) ∧
           admitted (f_enrollment_policy f) org_id app_id headers body (clock o w) (w_sent w)
             (w_store w) (w_store w') decision idp_id subject
       | Err _ => w_store w' = w_store w ∧
           (fl = false → f_enrollment_policy f = Controlled ∧
              inadmissible org_id app_id headers body (clock o w) (w_sent w) (w_store w))
       end) w.
Proof.
  intros Hwf Hstrict. unfold admission. destruct (f_enrollment_policy f); [|  |done].
  { apply wp_ret. split; [by do 2 eexists|done]. }
  eapply wp_mono; [by apply decide_controlled_spec|]. intros [[[d i] s]|e] w1 Hadm; [|naive_solver].
  split; [|done]. destruct Hadm as (b & _ & Hadm). destruct (starts_with b "peat_"); [naive_solver|].
  destruct Hadm as (? & claims & rules & _ & _ & _ & _ & _ & _ & ->).
  destruct (evaluate_policy_cases rules claims) as [(?&?&?&?&->&_)|[_ ->]]; eauto.
Qed.

(** The public key of a request, if it has one, is 32 bytes in hexadecimal. *)
Definition key_ok (body : option EnrollRequest) : Prop :=
  ∀ b pk, body = Some b → req_public_key b = Some pk →
    ∃ bs, hex_decode pk = Ok bs ∧ length bs = 32%nat.

(** Within the hourly limit, by the count of 32 bits that the handler makes. *)
Definition within_rate (org_id : string) (org : Organization) (now : Z) (m : db) : Prop :=
  as_u32 (recent_enrollments org_id (saturating_sub now 3600000) m)
    < max_enrollments_per_hour (o_quotas org).

(** Why a request is refused: a missing organization or formation, a malformed
    key, the limit, or the formation's policy. *)
Definition refused (org_id app_id : string) (headers : HeaderMap) (body : option EnrollRequest)
    (w : world db) : Prop :=
  let m := w_store w in
  d_orgs m !! org_id = None ∨ d_formations m !! (org_id, app_id) = None ∨ ¬ key_ok body ∨
  ∃ org f, d_orgs m !! org_id = Some org ∧ d_formations m !! (org_id, app_id) = Some f ∧
    (¬ within_rate org_id org (clock o w) m ∨
     match f_enrollment_policy f with
     | Open => False
     | Controlled => inadmissible org_id app_id headers body (clock o (ticked w)) (w_sent w) m
     | Strict => True
     end).

(** How the whole endpoint answers, and what it leaves. *)
Definition enrolled (org_id app_id : string) (headers : HeaderMap) (body : option EnrollRequest)
    (w : world db) (r : result ApiError EnrollmentResponse) (w' : world db) : Prop :=
  match r with
  | Err _ => w_store w' = w_store w ∧ (fl = false → refused org_id app_id headers body w)
  | Ok resp =>
      ∃ org f idp_id subject n m1,
        d_orgs (w_store w) !! org_id = Some org ∧
        d_formations (w_store w) !! (org_id, app_id) = Some f ∧
        key_ok body ∧ within_rate org_id org (clock o w) (w_store w) ∧
        admitted (f_enrollment_policy f) org_id app_id headers body (clock o (ticked w))
          (w_sent w) (w_store w) m1 (resp_decision resp) idp_id subject ∧
        (w_tick w < n)%nat ∧
        (∃ buf, length buf = 8%nat ∧ resp_audit_id resp = hex_encode buf) ∧
        let ts := wrap_u64 (o_clock o n) in
        let entry := {| a_audit_id := resp_audit_id resp; a_org_id := org_id;
                        a_app_id := app_id; a_idp_id := idp_id; a_subject := subject;
                        a_decision := resp_decision resp; a_timestamp_ms := ts |} in
        (w_store w' = upd_audit <[(org_id, ts, resp_audit_id resp) := entry]> m1 ∨
         fl = true ∧ w_store w' = m1)
  end.

Lemma key_check (body : option EnrollRequest) :
  match match b ← body; req_public_key b with
        | Some pk => validate_public_key pk
        | None => Ok tt
        end with
  | Ok _ => key_ok body
  | Err _ => ¬ key_ok body
  end.
Proof.
  unfold key_ok. destruct body as [b|]; cbn; [|done].
  destruct (req_public_key b) as [pk|] eqn:Epk; [|intros b' pk' [= <-]; congruence].
  unfold validate_public_key. destruct (hex_decode pk) as [bs|e] eqn:Ebs.
  - destruct (Z.eqb_spec (Z.of_nat (length bs)) 32) as [El|El]; cbn [negb].
    + intros b' pk' [= <-] Epk'. exists bs. split; [congruence|lia].
    + intros Hok. destruct (Hok b pk eq_refl Epk) as (bs' & Hbs & Hlen). assert (bs' = bs) as -> by congruence. lia.
  - intros Hok. destruct (Hok b pk eq_refl Epk) as (bs' & ? & ?). congruence.
Qed.

Lemma enroll_outcome mgr org_id app_id headers body w :
  wf (w_store w) → Z.of_nat (size (d_audit (w_store w))) ≤ usize_max →
  KeyProviderLaws (key_provider mgr) →
  wp o fl (enroll mgr org_id app_id headers body) (enrolled org_id app_id headers body w) w.
Proof.
  intros Hwf Hsize Hkp. unfold enroll.
  apply wp_mbind, wp_mmap_err, wp_get_org; cbn [map_err];
    [intros org Eorg|intros Enone; split; [done|intros _; left; exact Enone]|intros Hfl e; split; [done|congruence]].
  apply wp_mbind, wp_mmap_err, wp_get_formation; cbn [map_err];
    [intros f Ef|intros Enone; split; [done|intros _; right; left; exact Enone]|intros Hfl e; split; [done|congruence]].
  apply wp_mbind, wp_ret. pose proof (key_check body) as Hkey.
  destruct (match _ with Some _ => _ | None => _ end); [|split; [done|intros _; by do 2 right; left]].
  apply wp_pbind, wp_now_ms, wp_mbind, wp_mmap_err.
  pose proof (wf_org_nul_free _ _ Hwf (has_org_Some _ _ _ Eorg)) as Hnul.
  assert (∀ P, P ∨ match f_enrollment_policy f with
     | Open => False
     | Controlled => inadmissible org_id app_id headers body (clock o (ticked w)) (w_sent w) (w_store w)
     | Strict => True
     end → P = (¬ within_rate org_id org (clock o w) (w_store w)) →
     refused org_id app_id headers body w) as Hrefused.
  { intros P HP ->. do 3 right. by exists org, f. }
  apply count_recent_spec; [done|done| |intros Hfl e; split; [done|congruence]]. cbn [map_err]. fold (clock o w).
  destruct (Z.leb_spec (max_enrollments_per_hour (o_quotas org))
    (as_u32 (recent_enrollments org_id (saturating_sub (clock o w) 3600000)
       (w_store (ticked w))))) as [Hover|Hrate].
  { split; [done|]. intros _. eapply Hrefused; [|done]. left. unfold within_rate. cbn in Hover. lia. }
  case_bool_decide as Hstrict.
  { split; [done|]. intros _. eapply Hrefused; [|done]. right. by rewrite Hstrict. }
  apply wp_mbind.
  change (match f_enrollment_policy f with Open => _ | _ => _ end)
    with (admission org_id app_id f headers body).
  eapply wp_mono; [by apply wp_tick, admission_spec|].
  intros [[[d idp_id] subject]|e] w1.
  2: { intros [[Hw1 Hno] _]. split; [done|]. intros Hfl. destruct (Hno Hfl) as [Hc Hi].
       eapply Hrefused; [|done]. right. by rewrite Hc. }
  intros [[(tier & perms & ->) Hadm] Hle].
  unfold generate_id, build_audit, append_audit, store.append_audit. repeat wp_step. apply wp_call.
  - split_and!; [done|apply hex_nul_free|apply wrap_u64_u64].
  - intros [] m' ->. apply wp_pbind. eapply wp_mono; [by apply certificate_reads|].
    intros [[c mid] pk] w2 Hw2. apply wp_ret. exists org, f, idp_id, subject, (w_tick w1), (w_store w1).
    cbn in Hle. split_and!; [done..|lia|by eexists; split; [apply length_rng_bytes|]|left; exact Hw2].
  - intros Hfl e. apply wp_pbind. eapply wp_mono; [by apply certificate_reads|].
    intros [[c mid] pk] w2 Hw2. apply wp_ret. exists org, f, idp_id, subject, (w_tick w1), (w_store w1).
    cbn in Hle. split_and!; [done..|lia|by eexists; split; [apply length_rng_bytes|]|right; split; [done|exact Hw2]].
Qed.

(** C5: The whole endpoint. A refused request leaves storage as it was, and with
    reliable storage is one the checks refuse: a missing organization or formation, a
    malformed key, a reached limit, the strict policy, or no bearer token that can be
    redeemed or that the identity provider vouches for. An accepted one passed the key
    check and the limit, was admitted by the formation's policy (through a provider,
    on the claims of its own answer that the token is active), and has its audit entry
    (unless appending it failed, which is only logged), with a time read after the
    limit was checked. *)
Theorem enroll_spec mgr org_id app_id headers body w :
  wf (w_store w) → Z.of_nat (size (d_audit (w_store w))) ≤ usize_max →
  KeyProviderLaws (key_provider mgr) →
  wp o fl (enroll mgr org_id app_id headers body) (enrolled org_id app_id headers body w) w.
Proof. apply enroll_outcome. Qed.
End EnrollSpec.
