(* ===== verification/Cdc.v ===== *)
(** cdc/: delivery of change events to an organization's sinks.

    [publish] of cdc/engine.rs goes through the sinks of the event's
    organization; [nats.publish] and [webhook.publish] are the two transports
    (the Kafka sink is a no-op in the source). *)
From S2P Require Import Prelude Text Extern Models Errors Effects Config Manager.
From Stdlib Require Import ZArith Ascii.

#[local] Open Scope Z_scope.

(** [serde_json::to_vec(event)?] *)
Definition event_payload `{Serde CdcEvent} (event : CdcEvent) : M bytes :=
  lift (map_err StorageError (to_vec event)).

(** ** cdc/nats_sink.rs *)
Module nats.
Section Nats.
Context `{Serde CdcEvent}.

(** One request to the broker; [NetErr] is the client's error. *)
Definition request (rq : request) (err : string → error) : M unit :=
  try! rp := perform (Net rq) in
  match rp with
  | NetErr e => bail (err e)
  | NetResp _ _ => ok tt
  end.

Definition publish (subject_prefix : string) (event : CdcEvent) : M unit :=
  let subject := subject_prefix +:+ "." +:+ e_app_id event +:+ "." +:+ e_document_id event in
  let! payload := event_payload event in
  let! _ := request (NatsPublish subject (e_change_hash event) payload)
              (λ _, Remote ("Failed to publish to NATS subject " +:+ subject)) in
  let! _ := request NatsFlush Remote in
  ok tt.
End Nats.
End nats.

(** ** cdc/webhook_sink.rs *)
Module webhook.
Definition MAX_RETRIES : nat := 3.
Definition INITIAL_BACKOFF_MS : Z := 100.
Definition BACKOFF_MULTIPLIER : Z := 2.
Definition MAX_BACKOFF_MS : Z := 5000.

Definition is_client_error (status : Z) : bool := (400 <=? status) && (status <? 500).

Section Webhook.
Context `{HttpLib} `{Serde CdcEvent}.

Definition headers (event : CdcEvent) : list (string * string) :=
  [("Content-Type", "application/json");
   ("X-Peat-Change-Hash", e_change_hash event);
   ("X-Peat-Org-Id", e_org_id event)]%string.

(** The attempts remaining, from [MAX_RETRIES + 1] down; after the last one there is
    no sleep. *)
Fixpoint attempts (remaining : nat) (url : string) (event : CdcEvent) (payload : bytes)
    (backoff_ms : Z) : M unit :=
  match remaining with
  | O => bail (Remote ("Webhook " +:+ url +:+ " failed after "
                       +:+ fmt_dec (Z.of_nat MAX_RETRIES) +:+ " retries"))
  | S remaining =>
      try! result := perform (Net (HttpPost url (headers event) payload)) in
      let retry :=
        if bool_decide (0 < remaining)%nat then
          try! _ := perform (Sleep backoff_ms) in
          attempts remaining url event payload
            (Z.min (backoff_ms * BACKOFF_MULTIPLIER) MAX_BACKOFF_MS)
        else attempts remaining url event payload backoff_ms in
      match result with
      | NetResp status _ =>
          if is_success status then ok tt
          else if is_client_error status then
            bail (Remote ("Webhook " +:+ url +:+ " returned " +:+ status_display status
                          +:+ " — not retrying"))
          else retry
      | NetErr _ => retry
      end
  end.

Definition publish (url : string) (event : CdcEvent) : M unit :=
  let! payload := event_payload event in
  attempts (S MAX_RETRIES) url event payload INITIAL_BACKOFF_MS.
End Webhook.
End webhook.

(** ** cdc/engine.rs *)
Record CdcEngine := {
  nats_sink : option string;      (* the URL of the connected broker *)
  nats_feature : bool;
  webhook_feature : bool;
}.

Section Engine.
Context `{HttpLib} `{Serde CdcEvent}.

(** Connecting to NATS is the client library's. *)
Definition new (nats_connect : string → result string unit) (nats_on webhook_on : bool)
    (config : GatewayConfig) : Result CdcEngine :=
  let? nats_sink :=
    if nats_on then
      match nats_url (cdc config) with
      | Some url =>
          let? _ := map_err (λ _, Remote ("Failed to connect to NATS at " +:+ url))
                      (nats_connect url) in
          Ok (Some url)
      | None => Ok None
      end
    else Ok None in
  let? _ := if webhook_on then map_err Remote client_build else Ok tt in
  Ok {| nats_sink := nats_sink; nats_feature := nats_on; webhook_feature := webhook_on |}.

(** Delivery to one sink; an error is logged and dropped. *)
Definition deliver (engine : CdcEngine) (event : CdcEvent) (sink : CdcSinkConfig) : prog unit :=
  match s_sink_type sink with
  | Nats subject_prefix =>
      if nats_feature engine then
        match nats_sink engine with
        | Some _ =>
            try! _ := nats.publish subject_prefix event in
            Ret tt
        | None => Ret tt
        end
      else Ret tt
  | Kafka _ => Ret tt
  | Webhook url =>
      if webhook_feature engine then
        try! _ := webhook.publish url event in
        Ret tt
      else Ret tt
  end.

Fixpoint publish_all (engine : CdcEngine) (event : CdcEvent) (sinks : list CdcSinkConfig) :
    prog unit :=
  match sinks with
  | [] => Ret tt
  | sink :: sinks =>
      if negb (s_enabled sink) then publish_all engine event sinks else
      try! _ := deliver engine event sink in
      publish_all engine event sinks
  end.

Definition publish (engine : CdcEngine) (event : CdcEvent) : M unit :=
  let! sinks := list_sinks (e_org_id event) in
  try! _ := publish_all engine event sinks in
  ok tt.
End Engine.
