(* ===== verification/CdcSpec.v ===== *)
(** Delivery: what the webhook sink sends and how it backs off, that an event goes
    to the enabled sinks of its own organization only, and how many requests and
    pauses that takes at most. *)
From S2P Require Import Prelude Text Extern Models Errors Effects Spec Wp Manager Invariant ManagerInv EnrollSpec Cdc.
From Stdlib Require Import ZArith.

#[local] Open Scope Z_scope.

(** ** Programs that only talk to the network *)
Definition sends (P : request → Prop) (ev : event) : Prop :=
  match ev with Sent rq _ => P rq | Slept _ => True end.

Definition eff_net (P : request → Prop) {X} (e : eff X) : Prop :=
  match e with Store _ => False | Net rq => P rq | _ => True end.
Fixpoint only_net (P : request → Prop) {A} (p : prog A) : Prop :=
  match p with
  | Ret _ => True
  | Do e k => eff_net P e ∧ ∀ x, only_net P (k x)
  end.

Lemma only_net_pbind P {A B} (p : prog A) (f : A → prog B) :
  only_net P p → (∀ a, only_net P (f a)) → only_net P (pbind p f).
Proof. intros Hp Hf. induction p as [a|X e k IH]; simpl in *; naive_solver. Qed.

Lemma only_net_no_store P {A} (p : prog A) : only_net P p → no_store p.
Proof.
  induction p as [a|X e k IH]; cbn; [done|]. intros [He Hk]. split; [by destruct e|]. auto.
Qed.

Lemma wp_only_net {A} o fl P (p : prog A) w :
  only_net P p →
  wp o fl p (λ _ w', w_store w' = w_store w ∧
    ∃ evs, w_trace w' = w_trace w ++ evs ∧ Forall (sends P) evs) w.
Proof.
  revert w; induction p as [a|X e k IH]; intros w; simpl.
  { intros _. split; [done|]. exists []. by rewrite app_nil_r. }
  intros [He Hk]. destruct e; simpl in *; [done|..];
    (eapply wp_mono; [by apply IH|]); intros a w' [Hs (evs & Ht & Hevs)]; (split; [done|]);
    simpl in *; rewrite Ht, <-?app_assoc; (eexists; split; [reflexivity|]); try done;
    constructor; done.
Qed.

(** ** The webhook sink *)
Fixpoint backoffs (n : nat) (b : Z) : list Z :=
  match n with
  | O => []
  | S n => b :: backoffs n (Z.min (b * webhook.BACKOFF_MULTIPLIER) webhook.MAX_BACKOFF_MS)
  end.

(** Replies and the pauses between them. *)
Fixpoint attempt_trace (rq : request) (rps : list reply) (pauses : list Z) : list event :=
  match rps, pauses with
  | [], _ => []
  | [rp], _ => [Sent rq rp]
  | rp :: rps, b :: pauses => Sent rq rp :: Slept b :: attempt_trace rq rps pauses
  | rp :: rps, [] => Sent rq rp :: attempt_trace rq rps []
  end.

Definition delivered (rp : reply) : bool :=
  match rp with NetResp s _ => is_success s | NetErr _ => false end.
Definition rejected (rp : reply) : bool :=
  match rp with NetResp s _ => webhook.is_client_error s | NetErr _ => false end.
Definition retried (rp : reply) : bool := negb (delivered rp) && negb (rejected rp).

Section Webhook.
Context `{HttpLib} `{Serde CdcEvent} (o : oracle) (fl : bool).

(** One attempt: success, a refusal that is not retried, or a retry. *)
Definition retry (n : nat) (url : string) (event : CdcEvent) (payload : bytes) (b : Z) : M unit :=
  match n with
  | O => webhook.attempts 0 url event payload b
  | S _ =>
      try! _ := perform (Sleep b) in
      webhook.attempts n url event payload
        (Z.min (b * webhook.BACKOFF_MULTIPLIER) webhook.MAX_BACKOFF_MS)
  end.

Lemma wp_attempt n url event payload b Q w
    (rq := HttpPost url (webhook.headers event) payload) (rp := o_net o (w_sent w) rq) :
  (delivered rp = true → Q (Ok tt) (sent o rq w)) →
  (rejected rp = true → ∀ e, Q (Err e) (sent o rq w)) →
  (retried rp = true → wp o fl (retry n url event payload b) Q (sent o rq w)) →
  wp o fl (webhook.attempts (S n) url event payload b) Q w.
Proof.
  intros Hok Hrej Hretry. cbn [webhook.attempts]. apply wp_pbind, wp_net.
  fold rq. fold rp. unfold retry, retried in Hretry.
  destruct rp as [e|status body]; cbn in Hok, Hrej, Hretry |- *.
  - destruct n; by apply Hretry.
  - destruct (is_success status); [by apply Hok|].
    destruct (webhook.is_client_error status); [by apply Hrej|]. destruct n; by apply Hretry.
Qed.

Definition webhook_post (rq : request) (n : nat) (b : Z) (w : world db) (r : Result unit)
    (w' : world db) : Prop :=
  w_store w' = w_store w ∧ ∃ rps rp,
    w_trace w' = w_trace w ++ attempt_trace rq (rps ++ [rp]) (backoffs n b) ∧
    Forall (λ rp, retried rp = true) rps ∧ (length rps ≤ n)%nat ∧
    match r with
    | Ok _ => delivered rp = true
    | Err _ => rejected rp = true ∨ (retried rp = true ∧ length rps = n)
    end.

Lemma attempts_spec n url event payload b w :
  wp o fl (webhook.attempts (S n) url event payload b)
    (webhook_post (HttpPost url (webhook.headers event) payload) n b w) w.
Proof.
  set (rq := HttpPost url _ payload). revert b w. induction n as [|n IH]; intros b w.
  - apply wp_attempt; fold rq; set (rp := o_net o (w_sent w) rq); intros Hrp; [| |cbn];
      try intros e; (split; [done|]; exists [], rp; split_and!; [done..|]); auto.
  - apply wp_attempt; fold rq; set (rp := o_net o (w_sent w) rq); intros Hrp.
    + split; [done|]. exists [], rp. split_and!; [done|done|cbn; lia|done].
    + intros e. split; [done|]. exists [], rp. split_and!; [done|done|cbn; lia|by left].
    + cbn [retry]. apply wp_pbind, wp_sleep. eapply wp_mono; [apply IH|].
      intros r w1 (Hs & rps & rp' & Ht & Hall & Hlen & Hr). split; [done|].
      exists (rp :: rps), rp'. split_and!.
      * rewrite Ht. cbn. rewrite <-!app_assoc. f_equal. cbn.
        destruct (rps ++ [rp']) eqn:E; [by destruct rps|done].
      * by constructor.
      * cbn. lia.
      * destruct r; [done|]. destruct Hr as [?|[? ?]]; [by left|right; cbn; auto].
Qed.

(** C29: Between one and four attempts, with pauses of 100, 200 and 400 ms: only
    replies that are neither a success nor a client error are retried, and the answer
    is [Ok] exactly when the last attempt was delivered. *)
Theorem webhook_publish_spec url event payload w :
  to_vec event = Ok payload →
  wp o fl (webhook.publish url event)
    (λ r w', w_store w' = w_store w ∧ ∃ rps rp,
       w_trace w' = w_trace w ++ attempt_trace (HttpPost url (webhook.headers event) payload)
                                   (rps ++ [rp]) [100; 200; 400] ∧
       Forall (λ rp, retried rp = true) rps ∧ (length rps ≤ 3)%nat ∧
       match r with
       | Ok _ => delivered rp = true
       | Err _ => rejected rp = true ∨ (retried rp = true ∧ length rps = 3%nat)
       end) w.
Proof.
  intros E. unfold webhook.publish, event_payload. apply wp_mbind, wp_ret. rewrite E.
  cbn [map_err]. exact (attempts_spec 3 url event payload 100 w).
Qed.

(** ** The engine *)
Definition targets (event : CdcEvent) (sink : CdcSinkConfig) (rq : request) : Prop :=
  match s_sink_type sink, rq with
  | Webhook url, HttpPost u h _ => u = url ∧ h = webhook.headers event
  | Nats prefix, NatsPublish subject id _ =>
      subject = prefix +:+ "." +:+ e_app_id event +:+ "." +:+ e_document_id event ∧
      id = e_change_hash event
  | Nats _, NatsFlush => True
  | _, _ => False
  end.

Lemma attempts_only_net P n url event payload b :
  P (HttpPost url (webhook.headers event) payload) →
  only_net P (webhook.attempts n url event payload b).
Proof.
  intros HP. revert b; induction n as [|n IH]; intros b; cbn; [done|]. split; [done|].
  intros [e|status body].
  - case_bool_decide; cbn; [split; [done|]; intros _|]; apply IH.
  - repeat case_match; try done; cbn; try (split; [done|]; intros _); apply IH.
Qed.

Lemma deliver_only_net engine event sink :
  only_net (targets event sink) (deliver engine event sink).
Proof.
  unfold deliver. destruct (s_sink_type sink) as [prefix|topic|url] eqn:E; [|done|].
  - repeat (case_match; [|done]). unfold nats.publish, event_payload.
    apply only_net_pbind; [|done].
    cbn. destruct (to_vec event); cbn; [|done]. split; [unfold targets; by rewrite E|].
    intros [|]; cbn; [done|]. split; [unfold targets; by rewrite E|]. by intros [].
  - case_match; [|done]. unfold webhook.publish, event_payload.
    apply only_net_pbind; [|done]. unfold mbind. apply only_net_pbind; [done|].
    intros [payload|e]; [|done]. apply attempts_only_net. unfold targets. by rewrite E.
Qed.

Lemma only_net_mono (P P' : request → Prop) {A} (p : prog A) :
  only_net P p → (∀ rq, P rq → P' rq) → only_net P' p.
Proof.
  intros Hp HP. induction p as [a|X e k IH]; simpl in *; [done|]. destruct Hp as [He Hk].
  split; [destruct e; simpl in *; auto|auto].
Qed.

Lemma publish_all_only_net engine event sinks :
  only_net (λ rq, ∃ sink, sink ∈ sinks ∧ s_enabled sink = true ∧ targets event sink rq)
    (publish_all engine event sinks).
Proof.
  induction sinks as [|sink sinks IH]; cbn [publish_all]; [done|].
  assert (only_net (λ rq, ∃ s, s ∈ sink :: sinks ∧ s_enabled s = true ∧ targets event s rq)
            (publish_all engine event sinks)) as Hrest.
  { eapply only_net_mono; [exact IH|]. intros rq (s & ? & ?). exists s. split; [by right|done]. }
  destruct (s_enabled sink) eqn:E; cbn [negb]; [|done].
  apply only_net_pbind; [|done].
  eapply only_net_mono; [apply deliver_only_net|]. intros rq Ht. exists sink.
  split; [by left|done].
Qed.

Lemma publish_post engine event w :
  wp o fl (publish engine event)
    (λ r w', w_store w' = w_store w ∧
       (fl = false → (r = Ok tt ↔ has_org (e_org_id event) (w_store w))) ∧
       ∃ evs, w_trace w' = w_trace w ++ evs ∧
         ∀ rq rp, Sent rq rp ∈ evs →
           ∃ k sink, d_sinks (w_store w) !! (e_org_id event, k) = Some sink ∧
             s_enabled sink = true ∧ targets event sink rq) w.
Proof.
  assert (∀ (r : Result unit), is_ok r = false →
    (fl = false → ¬ has_org (e_org_id event) (w_store w)) →
    (λ r w', w_store w' = w_store w ∧
       (fl = false → (r = Ok tt ↔ has_org (e_org_id event) (w_store w))) ∧
       ∃ evs, w_trace w' = w_trace w ++ evs ∧
         ∀ rq rp, Sent rq rp ∈ evs →
           ∃ k sink, d_sinks (w_store w) !! (e_org_id event, k) = Some sink ∧
             s_enabled sink = true ∧ targets event sink rq) r w) as Herr.
  { intros r Hr Hno. split_and!; [done| |].
    - intros Hfl. split; [by intros ->|]. by intros ?%Hno.
    - exists []. rewrite app_nil_r. split; [done|]. intros rq rp Hin. by apply not_elem_of_nil in Hin. }
  unfold publish, list_sinks, store.list_sinks. apply wp_mbind, wp_mbind, wp_get_org;
    [intros org Eorg|intros Enone; apply Herr; [done|intros _ [? ?]; congruence]
    |intros Hfl e; apply Herr; [done|congruence]].
  apply wp_call_read; [done|done|intros sinks [Hsinks _]|intros Hfl e; apply Herr; [done|congruence]].
  apply wp_pbind. eapply wp_mono; [apply wp_only_net, publish_all_only_net|].
  intros [] w1 [Hw1 (evs & Ht & Hevs)]. apply wp_ret. split_and!; [done| |].
  - intros _. split; [|done]. intros _. by exists org.
  - exists evs. split; [done|]. intros rq rp Hin. rewrite Forall_forall in Hevs.
    destruct (Hevs _ Hin) as (sink & Hs & Hen & Htg).
    destruct (listing_elem _ _ _ _ Hsinks Hs) as ([o' k] & Ek & Eo). cbn in Eo. subst o'. eauto.
Qed.

Lemma publish_request_scope engine event w :
  wp o fl (publish engine event)
    (λ _ w', w_store w' = w_store w ∧
       ∃ evs, w_trace w' = w_trace w ++ evs ∧
         ∀ rq rp, Sent rq rp ∈ evs →
           ∃ k sink, d_sinks (w_store w) !! (e_org_id event, k) = Some sink ∧
             s_enabled sink = true ∧ targets event sink rq) w.
Proof. eapply wp_mono; [apply publish_post|]. naive_solver. Qed.

(** *** How long publishing takes *)
(** At most [n] requests, and pauses of at most [ms] in all, on every path. *)
Fixpoint within {A} (p : prog A) (n : nat) (ms : Z) : Prop :=
  match p with
  | Ret _ => 0 ≤ ms
  | Do e k =>
      match e with
      | Store _ => False
      | Net _ => match n with O => False | S n => ∀ x, within (k x) n ms end
      | Sleep d => 0 ≤ d ∧ ∀ x, within (k x) n (ms - d)
      | _ => ∀ x, within (k x) n ms
      end
  end.

Lemma within_weaken {A} (p : prog A) n ms n' ms' :
  within p n ms → (n ≤ n')%nat → ms ≤ ms' → within p n' ms'.
Proof.
  revert n ms n' ms'; induction p as [a|X e k IH]; intros n ms n' ms' Hp Hn Hms; cbn in *; [lia|].
  destruct e; cbn in *; [done|eauto|eauto| |].
  - destruct n, n'; [done|done|lia|]. intros x. eapply IH; [apply Hp|lia|lia].
  - destruct Hp as [Hd Hp]. split; [done|]. intros x. eapply IH; [apply Hp|lia|lia].
Qed.
Lemma within_pbind {A B} (p : prog A) (f : A → prog B) n ms n' ms' :
  within p n ms → (∀ a, within (f a) n' ms') → within (pbind p f) (n + n') (ms + ms').
Proof.
  revert n ms; induction p as [a|X e k IH]; intros n ms Hp Hf; cbn in *.
  { eapply within_weaken; [apply Hf|lia|lia]. }
  destruct e; cbn in *; [done|auto|auto| |].
  - destruct n; [done|]. cbn. auto.
  - destruct Hp as [Hd Hp]. split; [done|]. intros x.
    replace (ms + ms' - ms0) with (ms - ms0 + ms') by lia. auto.
Qed.

Definition is_sent (e : event) : bool := match e with Sent _ _ => true | Slept _ => false end.
Definition pause (e : event) : Z := match e with Slept ms => ms | Sent _ _ => 0 end.
Definition pauses (evs : list event) : Z := foldr (λ e z, pause e + z) 0 evs.

Lemma wp_within {A} (p : prog A) n ms w :
  within p n ms →
  wp o fl p (λ _ w', w_store w' = w_store w ∧ ∃ evs, w_trace w' = w_trace w ++ evs ∧
    (length (filter (λ e, is_sent e = true) evs) ≤ n)%nat ∧ pauses evs ≤ ms) w.
Proof.
  revert n ms w; induction p as [a|X e k IH]; intros n ms w Hp; cbn in *.
  { split; [done|]. exists []. rewrite app_nil_r. split_and!; [done|cbn; lia|done]. }
  destruct e; cbn in *; [done| | | |].
  - eapply wp_mono; [by eapply IH|]. intros a w' [-> (evs & -> & ?)]. eauto.
  - eapply wp_mono; [by eapply IH|]. intros a w' [-> (evs & -> & ?)]. eauto.
  - destruct n; [done|]. eapply wp_mono; [by eapply IH|]. cbn.
    intros a w' [-> (evs & -> & Hn & Hms)]. split; [done|]. rewrite <-app_assoc.
    eexists. split; [reflexivity|]. unfold pauses in *. cbn [app foldr pause].
    rewrite filter_cons_True by done. cbn [length]. split; [lia|done].
  - destruct Hp as [Hd Hp]. eapply wp_mono; [by eapply IH|]. cbn.
    intros a w' [-> (evs & -> & Hn & Hms)]. split; [done|]. rewrite <-app_assoc.
    eexists. split; [reflexivity|]. unfold pauses in *. cbn [app foldr pause].
    rewrite filter_cons_False by done. split; [done|lia].
Qed.

Lemma attempts_within n url event payload b :
  0 ≤ b →
  within (webhook.attempts (S n) url event payload b) (S n) (foldr Z.add 0 (backoffs n b)).
Proof.
  revert b. induction n as [|n IH]; intros b Hb; cbn [webhook.attempts pbind within].
  { rewrite bool_decide_eq_false_2 by lia. intros [e|status body]; cbn [pbind]; [apply Z.le_refl|].
    destruct (is_success status), (webhook.is_client_error status); apply Z.le_refl. }
  assert (0 ≤ foldr Z.add 0 (backoffs (S n) b)) as Hpos.
  { generalize (S n). intros k. revert b Hb. induction k as [|k IHk]; intros b Hb; cbn; [lia|].
    assert (0 ≤ Z.min (b * webhook.BACKOFF_MULTIPLIER) webhook.MAX_BACKOFF_MS) as Hm
      by (unfold webhook.BACKOFF_MULTIPLIER, webhook.MAX_BACKOFF_MS; lia).
    specialize (IHk _ Hm). lia. }
  assert (∀ r : prog (Result unit), r = (try! _ := perform (Sleep b) in
    webhook.attempts (S n) url event payload
      (Z.min (b * webhook.BACKOFF_MULTIPLIER) webhook.MAX_BACKOFF_MS)) →
    within r (S n) (foldr Z.add 0 (backoffs (S n) b))) as Hretry.
  { intros r ->. cbn [perform pbind within]. split; [done|]. intros _. cbn [backoffs foldr].
    eapply within_weaken; [apply IH|lia|lia].
    unfold webhook.BACKOFF_MULTIPLIER, webhook.MAX_BACKOFF_MS. lia. }
  rewrite bool_decide_eq_true_2 by lia.
  intros [e|status body]; cbn [pbind]; [by apply Hretry|]. destruct (is_success status); [done|].
  destruct (webhook.is_client_error status); [done|by apply Hretry].
Qed.

Lemma webhook_within url event : within (webhook.publish url event) 4 700.
Proof.
  unfold webhook.publish, event_payload, mbind, lift. cbn [pbind].
  destruct (map_err _ _); [|cbn; lia]. by apply (attempts_within 3 url event a 100).
Qed.
Lemma deliver_within engine event sink : within (deliver engine event sink) 4 700.
Proof.
  unfold deliver. destruct (s_sink_type sink) as [prefix|topic|url]; [|cbn; lia|].
  - repeat (case_match; [|cbn; lia]). unfold nats.publish, event_payload. cbn.
    destruct (to_vec event); cbn; [|lia]. intros [|]; cbn; [lia|]. intros [|]; cbn; lia.
  - case_match; [|cbn; lia]. apply (within_pbind _ _ 4 700 0 0); [apply webhook_within|cbn; lia].
Qed.

Definition enabled_sinks (sinks : list CdcSinkConfig) : nat :=
  length (filter (λ s, s_enabled s = true) sinks).
Lemma publish_all_within engine event sinks :
  within (publish_all engine event sinks) (4 * enabled_sinks sinks)
    (700 * Z.of_nat (enabled_sinks sinks)).
Proof.
  unfold enabled_sinks. induction sinks as [|sink sinks IH]; [cbn; lia|]. cbn [publish_all].
  rewrite filter_cons. destruct (s_enabled sink); cbn [negb]; [|by rewrite decide_False].
  rewrite decide_True by done. cbn [length].
  eapply within_weaken; [apply (within_pbind _ _ _ _ _ _ (deliver_within engine event sink) (λ _, IH))|lia|lia].
Qed.

(** C21: Publishing an event ends: after at most four requests and 700 ms of
    pauses for each enabled sink of the organization, whatever they answer. *)
Theorem publish_bounded engine event w :
  let k := enabled_sinks (map_to_list (rows_of (e_org_id event) (d_sinks (w_store w)))).*2 in
  wp o fl (publish engine event)
    (λ _ w', ∃ evs, w_trace w' = w_trace w ++ evs ∧
       (length (filter (λ e, is_sent e = true) evs) ≤ 4 * k)%nat ∧
       pauses evs ≤ 700 * Z.of_nat k) w.
Proof.
  intros k. assert (∃ evs, w_trace w = w_trace w ++ evs ∧
       (length (filter (λ e, is_sent e = true) evs) ≤ 4 * k)%nat ∧ pauses evs ≤ 700 * Z.of_nat k)
    as Hnone. { exists []. rewrite app_nil_r. split_and!; [done|cbn; lia|cbn; lia]. }
  unfold publish, list_sinks, store.list_sinks. apply wp_mbind, wp_mbind, wp_get_org;
    [intros org Eorg|done|done].
  apply wp_call_read; [done|done|intros sinks [Hsinks _]|done].
  assert (enabled_sinks sinks = k) as Hk.
  { unfold k, enabled_sinks. unfold listing in Hsinks. by rewrite Hsinks. }
  apply wp_pbind. eapply wp_mono; [apply wp_within, publish_all_within|].
  intros [] w1 [_ (evs & Ht & Hn & Hp)]. rewrite Hk in Hn, Hp. cbn. by exists evs.
Qed.

(** C20: Publishing sends to enabled sinks of the event's organization and to no
    other, whatever the sinks answer it succeeds, and it stores nothing: the caller
    learns nothing about failed deliveries. *)
Theorem publish_spec engine event w :
  wp o fl (publish engine event)
    (λ r w', w_store w' = w_store w ∧
       (fl = false → (r = Ok tt ↔ has_org (e_org_id event) (w_store w))) ∧
       ∃ evs, w_trace w' = w_trace w ++ evs ∧
         ∀ rq rp, Sent rq rp ∈ evs →
           ∃ k sink, d_sinks (w_store w) !! (e_org_id event, k) = Some sink ∧
             s_enabled sink = true ∧ targets event sink rq) w.
Proof. apply publish_post. Qed.
End Webhook.
