(* ===== verification/Watcher.v ===== *)
(** cdc/watcher.rs: the formation watchers.

    [handle_change] is the body of a watcher's loop for one change event: hash,
    compare with the cursor, publish, store the cursor.  [Watchers] is the table
    of background tasks, one per watched formation, with the tasks that run. *)
From S2P Require Import Prelude Text Extern Models Errors Effects Manager Cdc.
From Stdlib Require Import ZArith.

#[local] Open Scope Z_scope.

(** ** Change events of the mesh document store *)
Record Document := {
  doc_id : option string;
  doc_fields : gmap string Value;
  doc_updated_at : Z;             (* ms relative to the epoch *)
}.
Inductive ChangeEvent : Type :=
| Updated (document : Document)
| Removed (doc_id : string)
| Initial (documents : list Document).

Section Watcher.
Context `{HttpLib} `{Serde CdcEvent} `{Serde Value} `{StdHasher}.

(** The document id, the time and every field in key order go into the hash. *)
Definition hash_fields (doc_id : string) (fields : gmap string Value) (timestamp_ms : Z) : Z :=
  let hasher := hasher_new in
  let hasher := hash_str doc_id hasher in
  let hasher := hash_u64 timestamp_ms hasher in
  let hasher :=
    foldl (λ h kv,
      let h := hash_str kv.1 h in
      match to_vec kv.2 with
      | Ok v => hash_str (from_utf8_bytes v) h
      | Err _ => h
      end) hasher (sorted_entries fields) in
  hasher_finish hasher.

(** [duration_since(UNIX_EPOCH)...unwrap_or(0)] *)
Definition since_epoch (t : Z) : Z := if t <? 0 then 0 else wrap_u64 t.

(** Publish; on success store the cursor.  Errors are logged and dropped. *)
Definition publish_and_advance (engine : CdcEngine) (cdc_event : CdcEvent) : prog unit :=
  try! published := publish engine cdc_event in
  match published with
  | Err _ => Ret tt
  | Ok _ =>
      try! _ := set_cursor (e_org_id cdc_event) (e_app_id cdc_event)
                  (e_document_id cdc_event) (e_change_hash cdc_event) in
      Ret tt
  end.

Definition handle_change (engine : CdcEngine) (task_org task_app : string)
    (event : ChangeEvent) : prog unit :=
  match event with
  | Updated document =>
      let doc_id := default "unknown"%string (doc_id document) in
      let timestamp_ms := since_epoch (doc_updated_at document) in
      let change_hash := fmt_x (hash_fields doc_id (doc_fields document) timestamp_ms) in
      try! cursor := get_cursor task_org task_app doc_id in
      let duplicate :=
        match cursor with
        | Ok (Some cursor) => bool_decide (cursor = change_hash)
        | _ => false
        end in
      if duplicate then Ret tt else
      publish_and_advance engine {|
        e_org_id := task_org;
        e_app_id := task_app;
        e_document_id := doc_id;
        e_change_hash := change_hash;
        e_actor_id := default "unknown"%string (v ← doc_fields document !! "_actor"%string; as_str v);
        e_timestamp_ms := timestamp_ms;
        e_patches := fields_to_value (doc_fields document);
      |}
  | Removed doc_id =>
      try! now := perform SystemTime in
      let timestamp_ms := since_epoch now in
      let change_hash := fmt_x (hash_fields doc_id ∅ timestamp_ms) in
      publish_and_advance engine {|
        e_org_id := task_org;
        e_app_id := task_app;
        e_document_id := doc_id;
        e_change_hash := change_hash;
        e_actor_id := "system";
        e_timestamp_ms := timestamp_ms;
        e_patches := JObject [("_deleted"%string, JBool true)];
      |}
  | Initial _ => Ret tt
  end.

(** The task: every event the stream delivers, until it ends. *)
Fixpoint watch_loop (engine : CdcEngine) (task_org task_app : string)
    (stream : list ChangeEvent) : prog unit :=
  match stream with
  | [] => Ret tt
  | event :: stream =>
      try! _ := handle_change engine task_org task_app event in
      watch_loop engine task_org task_app stream
  end.
End Watcher.

(** ** The watcher table *)
Definition FormationKey : Type := string * string.

Record Watchers := {
  handles : gmap FormationKey nat;      (* the task watching a formation *)
  running : gmap nat FormationKey;      (* the tasks that have not ended *)
  next_task : nat;
}.
Definition watchers_new : Watchers := {| handles := ∅; running := ∅; next_task := 0 |}.

Section Table.
(** [doc_store.observe(collection)] of the mesh document store. *)
Context (observe : string → result string unit).

Definition watch_formation (org_id app_id : string) (st : Watchers) : Result unit * Watchers :=
  let key := (org_id, app_id) in
  match handles st !! key with
  | Some _ => (Ok tt, st)
  | None =>
      let collection := org_id +:+ "." +:+ app_id in
      match observe collection with
      | Err _ => (Err (Remote ("Failed to observe collection " +:+ collection)), st)
      | Ok _ =>
          let task := next_task st in
          (Ok tt, {| handles := <[key := task]> (handles st);
                     running := <[task := key]> (running st);
                     next_task := S task |})
      end
  end.

Definition unwatch_formation (org_id app_id : string) (st : Watchers) : Watchers :=
  let key := (org_id, app_id) in
  match handles st !! key with
  | Some task => {| handles := delete key (handles st);
                    running := delete task (running st);
                    next_task := next_task st |}
  | None => st
  end.

(** [drain] empties the table and aborts each task it held. *)
Definition shutdown (st : Watchers) : Watchers :=
  {| handles := ∅;
     running := foldr (λ kt r, delete kt.2 r) (running st) (map_to_list (handles st));
     next_task := next_task st |}.

(** A task whose stream ends stops by itself; its handle stays in the table. *)
Definition stream_ended (task : nat) (st : Watchers) : Watchers :=
  {| handles := handles st; running := delete task (running st); next_task := next_task st |}.

Inductive watcher_step : Watchers → Watchers → Prop :=
| step_watch o a st : watcher_step st (watch_formation o a st).2
| step_unwatch o a st : watcher_step st (unwatch_formation o a st)
| step_shutdown st : watcher_step st (shutdown st)
| step_ended t st : watcher_step st (stream_ended t st).

(** Every running task is the one its formation's handle names. *)
Definition watchers_ok (st : Watchers) : Prop :=
  (∀ t k, running st !! t = Some k → handles st !! k = Some t) ∧
  (∀ k t, handles st !! k = Some t → (t < next_task st)%nat).

Lemma watchers_ok_step st st' : watchers_ok st → watcher_step st st' → watchers_ok st'.
Proof.
  intros [Hrun Hlt] Hst. destruct Hst as [o a st|o a st|st|t st].
  - unfold watch_formation. destruct (handles st !! (o, a)) eqn:E; [done|].
    destruct (observe _); cbn; [|done]. split; cbn.
    + intros t k [[<- <-]|[Hne Ht]]%lookup_insert_Some; [by rewrite lookup_insert_eq|].
      rewrite lookup_insert_ne; [auto|]. intros <-. apply Hrun in Ht. unfold FormationKey in *. congruence.
    + intros k t [[_ <-]|[_ Ht]]%lookup_insert_Some; [lia|]. apply Hlt in Ht. lia.
  - unfold unwatch_formation. destruct (handles st !! (o, a)) as [t0|] eqn:E; [|done].
    split; cbn.
    + intros t k [Hne Ht]%lookup_delete_Some. apply Hrun in Ht.
      rewrite lookup_delete_ne; [done|]. intros <-. unfold FormationKey in *. congruence.
    + intros k t [_ Ht]%lookup_delete_Some. eauto.
  - split; cbn.
    + intros t k Ht. exfalso.
      assert (∀ l (r : gmap nat FormationKey), foldr (λ kt r, delete kt.2 r) r l !! t = Some k →
                r !! t = Some k ∧ Forall (λ kt : FormationKey * nat, kt.2 ≠ t) l) as Hfold.
      { clear. intros l. induction l as [|kt l IH]; intros r; cbn; [done|].
        intros [Hne Hr]%lookup_delete_Some. destruct (IH r Hr). split; [done|]. by constructor. }
      apply Hfold in Ht as [Ht Hall]. apply Hrun, elem_of_map_to_list in Ht.
      rewrite Forall_forall in Hall. by apply (Hall _ Ht).
    + intros k t. by rewrite lookup_empty.
  - split; cbn; [|done]. intros t' k [_ Ht]%lookup_delete_Some. auto.
Qed.
End Table.

(** However formations are watched and unwatched, at most one task runs per
    formation, and none runs after a shutdown. *)
Theorem watchers_unique observe st :
  rtc (watcher_step observe) watchers_new st →
  (∀ t1 t2 k, running st !! t1 = Some k → running st !! t2 = Some k → t1 = t2) ∧
  running (shutdown st) = ∅.
Proof.
  intros Hst. assert (watchers_ok st) as Hok.
  { assert (watchers_ok watchers_new) as H0 by (split; intros ??; cbn; by rewrite lookup_empty).
    revert H0. induction Hst as [|st st' st'' Hs _ IH]; [done|]. intros H0. apply IH.
    by eapply watchers_ok_step. }
  split.
  - intros t1 t2 k H1 H2. apply Hok in H1, H2. congruence.
  - apply map_empty. intros t. destruct (running (shutdown st) !! t) as [k|] eqn:E; [|done].
    pose proof (watchers_ok_step observe st _ Hok (step_shutdown observe st)) as [Hrun _].
    apply Hrun in E. cbn in E. by rewrite lookup_empty in E.
Qed.

(** Once a stream has ended, watching the formation again is answered with
    success and starts nothing. *)
Theorem rewatch_after_end observe o a t st :
  watchers_ok st → handles st !! (o, a) = Some t →
  watch_formation observe o a (stream_ended t st) = (Ok tt, stream_ended t st) ∧
  ∀ t', running (stream_ended t st) !! t' ≠ Some (o, a).
Proof.
  intros [Hrun _] Ht. split.
  - unfold watch_formation, stream_ended. cbn. by rewrite Ht.
  - intros t' Ht'. cbn in Ht'. apply lookup_delete_Some in Ht' as [Hne Ht'].
    apply Hrun in Ht'. unfold FormationKey in *. congruence.
Qed.
