(* ===== verification/WatcherSpec.v ===== *)
(** Deduplication by cursor, and what a cursor promises. *)
From S2P Require Import Prelude Text Extern Models Errors Effects Spec Wp Manager Invariant ManagerInv Cdc CdcSpec Watcher.
From Stdlib Require Import ZArith.

#[local] Open Scope Z_scope.

Section WatcherSpec.
Context `{HttpLib} `{Serde CdcEvent} `{Serde Value} `{StdHasher} (o : oracle).

(** The hash of an update, as the watcher computes it. *)
Definition update_id (d : Document) : string := default "unknown"%string (doc_id d).
Definition update_hash (d : Document) : string :=
  fmt_x (hash_fields (update_id d) (doc_fields d) (since_epoch (doc_updated_at d))).

(** An update whose hash is the cursor is dropped: nothing is sent or stored. *)
Theorem duplicate_update_skipped engine org app d w :
  nul_free org → nul_free app →
  d_cursors (w_store w) !! (org, app, update_id d) = Some (update_hash d) →
  wp o false (handle_change engine org app (Updated d)) (λ _ w', w' = w) w.
Proof.
  intros Ho Ha Hc. cbn [handle_change]. fold (update_id d). fold (update_hash d).
  unfold get_cursor, store.get_cursor. apply wp_pbind, wp_call_read; [done|done| |done].
  intros r [-> _]. rewrite Hc, bool_decide_eq_true_2 by done. by apply wp_ret.
Qed.

Lemma update_cursor engine org app d w :
  nul_free org → nul_free app → has_org org (w_store w) →
  wp o false (handle_change engine org app (Updated d))
    (λ _ w', d_cursors (w_store w') !! (org, app, update_id d) = Some (update_hash d) ∧
       ∀ k, k ≠ (org, app, update_id d) →
         d_cursors (w_store w') !! k = d_cursors (w_store w) !! k) w.
Proof.
  intros Ho Ha Horg. cbn [handle_change]. fold (update_id d). fold (update_hash d).
  unfold get_cursor, store.get_cursor. apply wp_pbind, wp_call_read; [done|done| |done].
  intros r [-> _].
  destruct (match d_cursors (w_store w) !! _ with Some _ => _ | None => _ end) eqn:Edup.
  { apply wp_ret. split; [|done].
    destruct (d_cursors (w_store w) !! (org, app, update_id d)) as [c|] eqn:E; [|done].
    apply bool_decide_eq_true in Edup. by subst. }
  unfold publish_and_advance. apply wp_pbind. eapply wp_mono; [apply publish_post|].
  intros r w1 (Hw1 & Hok & _). cbn [e_org_id] in Hok.
  rewrite (proj2 (Hok eq_refl)) by done. apply wp_pbind.
  unfold set_cursor, store.set_cursor. apply wp_call; [done| |done].
  intros [] m' ->. apply wp_ret. cbn. rewrite Hw1. split; [by rewrite lookup_insert_eq|].
  intros k Hk. by rewrite lookup_insert_ne.
Qed.

(** An update with a new hash, in an organization that exists, moves the
    cursor to that hash, whether or not any sink accepted the event. *)
Theorem update_advances_cursor engine org app d w :
  nul_free org → nul_free app → has_org org (w_store w) →
  wp o false (handle_change engine org app (Updated d))
    (λ _ w', d_cursors (w_store w') !! (org, app, update_id d) = Some (update_hash d) ∧
       ∀ k, k ≠ (org, app, update_id d) →
         d_cursors (w_store w') !! k = d_cursors (w_store w) !! k) w.
Proof. apply update_cursor. Qed.

(** A repeated update is delivered once. *)
Theorem repeated_update_once engine org app d w :
  nul_free org → nul_free app → has_org org (w_store w) →
  wp o false (handle_change engine org app (Updated d))
    (λ _ w1, wp o false (handle_change engine org app (Updated d)) (λ _ w2, w2 = w1) w1) w.
Proof.
  intros Ho Ha Horg. eapply wp_mono; [by apply update_cursor|].
  intros _ w1 [Hc _]. by apply duplicate_update_skipped.
Qed.

(** An organization that is gone stops its watcher's deliveries. *)
Theorem no_org_no_delivery engine org app d w :
  nul_free org → nul_free app → ¬ has_org org (w_store w) →
  wp o false (handle_change engine org app (Updated d))
    (λ _ w', w_store w' = w_store w) w.
Proof.
  intros Ho Ha Horg. cbn [handle_change].
  unfold get_cursor, store.get_cursor. apply wp_pbind, wp_call_read; [done|done| |done].
  intros r [-> _]. case_match; [by apply wp_ret|].
  unfold publish_and_advance. apply wp_pbind. eapply wp_mono; [apply publish_post|].
  intros [[]|e] w1 (Hw1 & Hok & _); [|by apply wp_ret].
  destruct Horg. by apply (proj1 (Hok eq_refl)).
Qed.
End WatcherSpec.
