(* ===== verification/Migrate.v ===== *)
(** cli.rs: the migrate-keys command, which seals every plaintext genesis record
    in place.

    The theorems: a dry run changes nothing; a run changes genesis records only,
    each one that changes was plaintext and its new bytes open to the old ones;
    after a run that succeeds every formation's genesis is sealed; and a second
    run changes nothing. *)
From S2P Require Import Prelude Text Extern Models Errors Effects Spec Wp Config Crypto Manager Invariant ManagerInv EnrollSpec.
From Stdlib Require Import ZArith.

#[local] Open Scope Z_scope.

(** The four counters of the summary. *)
Record stats := {
  migrated : Z;
  already_encrypted : Z;
  missing_genesis : Z;
  total : Z;
}.
Definition count_migrated (s : stats) : stats :=
  {| migrated := migrated s + 1; already_encrypted := already_encrypted s;
     missing_genesis := missing_genesis s; total := total s |}.
Definition count_encrypted (s : stats) : stats :=
  {| migrated := migrated s; already_encrypted := already_encrypted s + 1;
     missing_genesis := missing_genesis s; total := total s |}.
Definition count_missing (s : stats) : stats :=
  {| migrated := migrated s; already_encrypted := already_encrypted s;
     missing_genesis := missing_genesis s + 1; total := total s |}.
Definition count_total (s : stats) : stats :=
  {| migrated := migrated s; already_encrypted := already_encrypted s;
     missing_genesis := missing_genesis s; total := total s + 1 |}.

Section Migrate.
Context `{AeadLib} (provider : KeyProvider) (dry_run : bool).

Definition migrate_formation (org_id : string) (formation : FormationConfig) (s : stats) : M stats :=
  let s := count_total s in
  let! found := store.get_genesis org_id (f_app_id formation) in
  match found with
  | None => ok (count_missing s)
  | Some raw =>
      if is_envelope raw then ok (count_encrypted s) else
      if dry_run then ok (count_migrated s) else
      let! sealed := seal provider raw in
      let! opened := open provider sealed in
      let! decrypted := lift (ok_or opened RoundtripNotEnvelope) in
      if bool_decide (decrypted ≠ raw)
      then bail (RoundtripMismatch org_id (f_app_id formation)) else
      let! _ := store.store_genesis org_id (f_app_id formation) sealed in
      ok (count_migrated s)
  end.

Fixpoint migrate_formations (org_id : string) (formations : list FormationConfig) (s : stats) :
    M stats :=
  match formations with
  | [] => ok s
  | formation :: formations =>
      let! s := migrate_formation org_id formation s in
      migrate_formations org_id formations s
  end.

Fixpoint migrate_orgs (orgs : list Organization) (s : stats) : M stats :=
  match orgs with
  | [] => ok s
  | org :: orgs =>
      let! formations := store.list_formations (o_org_id org) in
      let! s := migrate_formations (o_org_id org) formations s in
      migrate_orgs orgs s
  end.

Definition migrate_store : M stats :=
  let! orgs := store.list_orgs in
  migrate_orgs orgs {| migrated := 0; already_encrypted := 0; missing_genesis := 0; total := 0 |}.
End Migrate.

Section Command.
Context `{HexLib} `{AeadLib} `{Base64Lib} `{HttpLib}
  `{Serde vault.EncryptRequest} `{Serde vault.EncryptResponse}
  `{Serde vault.DecryptRequest} `{Serde vault.DecryptResponse}.
Context (feat : features) (aws_client : kms.Client).
Context (redb_open postgres_connect : string → result string unit).

Definition migrate_keys (config : GatewayConfig) (dry_run : bool) : M stats :=
  let! kp := lift (build_key_provider feat aws_client config) in
  if negb kp.2 then bail NoKeyProvider else
  let! _ := lift (storage_open feat redb_open postgres_connect (storage config)) in
  migrate_store kp.1 dry_run.
End Command.

(** ** What a migration may do to the genesis records *)
Section Spec.
Context `{AeadLib} (kp : KeyProvider) (o : oracle).

Definition opens_to (data plain : bytes) : Prop :=
  ∀ fl w, wp o fl (open kp data) (λ r _, r = Ok (Some plain)) w.

(** A record as it was, or sealed. *)
Definition upgrade (b b' : bytes) : Prop :=
  b' = b ∨ (is_envelope b = false ∧ is_envelope b' = true ∧ opens_to b' b).

Record upgraded (m m' : db) : Prop := {
  up_rest : m' = upd_genesis (λ _, d_genesis m') m;
  up_genesis k : match d_genesis m !! k with
    | Some b => ∃ b', d_genesis m' !! k = Some b' ∧ upgrade b b' ∧
                  (d_formations m !! k = None → b' = b)
    | None => d_genesis m' !! k = None
    end;
}.

Lemma upgrade_trans b b' b'' : upgrade b b' → upgrade b' b'' → upgrade b b''.
Proof.
  intros [->|(Hb & Hb' & Ho)]; [done|]. intros [->|(Hf & _)]; [by right|congruence].
Qed.

#[export] Instance upgraded_preorder : PreOrder upgraded.
Proof.
  split.
  - intros m. split; [by destruct m|]. intros k. destruct (d_genesis m !! k); [|done].
    eexists. split_and!; [done|by left|done].
  - intros m m' m'' [E G] [E' G']. split.
    + rewrite E'. rewrite E at 1. by destruct m.
    + intros k. specialize (G k). specialize (G' k).
      destruct (d_genesis m !! k) as [b|].
      * destruct G as (b' & Eb' & Hb' & Hf). rewrite Eb' in G'.
        destruct G' as (b'' & Eb'' & Hb'' & Hf'). exists b''.
        split_and!; [done|by eapply upgrade_trans|]. rewrite E in Hf'. cbn in Hf'.
        intros Hk. by rewrite Hf', Hf.
      * by rewrite G in G'.
Qed.

Lemma upgraded_wf m m' : upgraded m m' → wf m → wf m'.
Proof.
  intros [E G] [Ho Hf Ht Hs Hi Hr Ha Hg]. rewrite E.
  constructor; cbn; try assumption. intros oid a b' Eb'. specialize (G (oid, a)).
  destruct (d_genesis m !! (oid, a)) eqn:Eb; [by eapply Hg|congruence].
Qed.

(** A sealed record stays as it is. *)
Lemma upgraded_sealed m m' k b :
  upgraded m m' → d_genesis m !! k = Some b → is_envelope b = true → d_genesis m' !! k = Some b.
Proof.
  intros [_ G] Eb Hb. specialize (G k). rewrite Eb in G.
  destruct G as (b' & Eb' & [->|[Hf _]] & _); [done|congruence].
Qed.

Definition sealed_at (k : string * string) (m : db) : Prop :=
  ∀ b, d_genesis m !! k = Some b → is_envelope b = true.

Lemma sealed_at_upgraded m m' k : upgraded m m' → sealed_at k m → sealed_at k m'.
Proof.
  intros Hup Hs b' Eb'. pose proof (up_genesis _ _ Hup k) as G.
  destruct (d_genesis m !! k) as [b|] eqn:Eb; [|congruence].
  pose proof (Hs b Eb) as Hb. rewrite (upgraded_sealed _ _ _ _ Hup Eb Hb) in Eb'. congruence.
Qed.
(** Once every formation's genesis is sealed, nothing changes any more. *)
Lemma upgraded_all_sealed m m' :
  upgraded m m' → (∀ k, is_Some (d_formations m !! k) → sealed_at k m) → m' = m.
Proof.
  intros Hup Hs. destruct Hup as [E G] eqn:Eup.
  assert (d_genesis m' = d_genesis m) as Eg.
  { apply map_eq. intros k. pose proof (G k) as Gk. destruct (d_genesis m !! k) as [b|] eqn:Eb; [|done].
    destruct (d_formations m !! k) eqn:Ef.
    - eapply upgraded_sealed; [done|done|]. eapply Hs; [by rewrite Ef|done].
    - destruct Gk as (b' & Eb' & _ & Hb'). by rewrite Eb', Hb'. }
  rewrite E, Eg. by destruct m.
Qed.
End Spec.

(** ** The command *)
Section Correct.
Context `{AeadLaws} (kp : KeyProvider) (o : oracle) (fl : bool).
Context `{!KeyProviderLaws kp} `{!Unwraps o kp}.

Lemma wp_seal_opens raw Q w :
  (∀ data w', w_store w' = w_store w → is_envelope data = true → opens_to kp o data raw →
     Q (Ok data) w') →
  (∀ e w', w_store w' = w_store w → Q (Err e) w') →
  wp o fl (seal kp raw) Q w.
Proof.
  intros Hok Herr.
  eapply wp_mono; [apply wp_no_store_and; [by apply seal_no_store|by apply (seal_open o fl)]|].
  intros [data|e] w' [Hd Hw']; [|by apply Herr]. destruct Hd as [Henv Hop].
  apply Hok; [done|done|]. intros fl' w2.
  eapply (wp_no_store_fl o fl fl'); [by apply open_no_store|apply Hop].
Qed.

(** Where a run stands, after some formations. *)
Definition progress (dry_run : bool) (P : string * string → Prop) (m0 : db) (r : Result stats)
    (w' : world db) : Prop :=
  upgraded kp o m0 (w_store w') ∧ (dry_run = true → w_store w' = m0) ∧
  (is_ok r = true → dry_run = false → ∀ k, P k → sealed_at k (w_store w')).

Lemma migrate_formation_spec dry_run org_id f s w :
  nul_free org_id → nul_free (f_app_id f) →
  is_Some (d_formations (w_store w) !! (org_id, f_app_id f)) →
  wp o fl (migrate_formation kp dry_run org_id f s)
    (progress dry_run (.= (org_id, f_app_id f)) (w_store w)) w.
Proof.
  intros Ho Ha [f' Ef]. unfold migrate_formation, store.get_genesis, store.store_genesis.
  assert (∀ r w', w_store w' = w_store w →
    (is_ok r = true → dry_run = false → sealed_at (org_id, f_app_id f) (w_store w)) →
    progress dry_run (.= (org_id, f_app_id f)) (w_store w) r w') as Hstay.
  { intros r w' Hw' Hr. unfold progress. rewrite Hw'. split_and!; [done|done|].
    intros ? ? k ->. auto. }
  apply wp_mbind, wp_call_read; [done|done|intros r [-> _]|intros _ e; by apply Hstay].
  destruct (d_genesis (w_store w) !! (org_id, f_app_id f)) as [raw|] eqn:Eraw.
  2: { apply wp_ret, Hstay; [done|]. intros _ _ b Eb. congruence. }
  destruct (is_envelope raw) eqn:Eenv.
  { apply wp_ret, Hstay; [done|]. intros _ _ b Eb. congruence. }
  destruct dry_run eqn:Edry; [by apply wp_ret, Hstay|].
  apply wp_mbind, wp_seal_opens; [|intros e w' Hw'; by apply Hstay].
  intros data w1 Hw1 Henv Hop. apply wp_mbind.
  eapply wp_mono; [apply wp_no_store_and; [by apply open_no_store|apply Hop]|].
  intros r w2 [-> Hw2]. apply wp_mbind, wp_ret. cbn [ok_or].
  rewrite bool_decide_eq_false_2 by (by intros []).
  apply wp_mbind, wp_call; [done| |intros _ e; apply Hstay; [congruence|done]].
  intros [] m' Hs. apply wp_ret. cbn in Hs. rewrite Hw2, Hw1 in Hs. subst m'.
  split_and!; [|done|].
  - split; [done|]. intros k. cbn. destruct (decide (k = (org_id, f_app_id f))) as [->|Hne].
    + rewrite Eraw, lookup_insert_eq. exists data. split_and!; [done|by right|congruence].
    + rewrite lookup_insert_ne by done. destruct (d_genesis (w_store w) !! k); [|done].
      eexists. split_and!; [done|by left|done].
  - intros _ _ k -> b. cbn. rewrite lookup_insert_eq. congruence.
Qed.

Lemma progress_app dry_run (P1 P2 P : string * string → Prop) m0 m1 r1 r2 w1 w2 :
  progress dry_run P1 m0 (Ok r1) w1 → w_store w1 = m1 → progress dry_run P2 m1 r2 w2 →
  (∀ k, P k → P1 k ∨ P2 k) → progress dry_run P m0 r2 w2.
Proof.
  intros (Hup1 & Hdry1 & Hs1) <- (Hup2 & Hdry2 & Hs2) HP. split_and!.
  - etrans; [exact Hup1|exact Hup2].
  - intros Hd. rewrite Hdry2 by done. by apply Hdry1.
  - intros Hr Hd k [Hk|Hk]%HP; [|by apply Hs2].
    eapply (sealed_at_upgraded kp o); [exact Hup2|by apply Hs1].
Qed.

Lemma progress_err dry_run P1 P2 m0 e w1 :
  progress dry_run P1 m0 (Err e) w1 → progress dry_run P2 m0 (Err e) w1.
Proof. intros (? & ? & _). by split_and!. Qed.

Lemma progress_refl dry_run (P : string * string → Prop) s w :
  (∀ k, ¬ P k) → progress dry_run P (w_store w) (Ok s) w.
Proof. intros HP. split_and!; [done|done|]. intros _ _ k Hk. by destruct (HP k). Qed.

Lemma migrate_formations_spec dry_run org_id fs s w :
  nul_free org_id →
  Forall (λ f, nul_free (f_app_id f) ∧
               is_Some (d_formations (w_store w) !! (org_id, f_app_id f))) fs →
  wp o fl (migrate_formations kp dry_run org_id fs s)
    (progress dry_run (λ k, ∃ f, f ∈ fs ∧ k = (org_id, f_app_id f)) (w_store w)) w.
Proof.
  intros Ho. revert s w. induction fs as [|f fs IH]; intros s w Hfs; cbn [migrate_formations].
  { apply wp_ret, progress_refl. intros k (f & Hf & _). by apply not_elem_of_nil in Hf. }
  apply Forall_cons in Hfs as [[Hf Hff] Hfs].
  apply wp_mbind. eapply wp_mono; [by apply migrate_formation_spec|].
  intros [s1|e] w1 Hp; [|by eapply progress_err].
  eapply wp_mono; [apply IH; destruct Hp as [[E _] _]; by rewrite E|]. intros r w2 Hp2.
  eapply progress_app; [exact Hp|done|exact Hp2|].
  intros k (f' & [->|Hin]%elem_of_cons & ->); [by left|right; eauto].
Qed.

Lemma migrate_orgs_spec dry_run orgs s w :
  wf (w_store w) → Forall (λ org, nul_free (o_org_id org)) orgs →
  wp o fl (migrate_orgs kp dry_run orgs s)
    (progress dry_run (λ k, is_Some (d_formations (w_store w) !! k) ∧
                            ∃ org, org ∈ orgs ∧ k.1 = o_org_id org) (w_store w)) w.
Proof.
  intros Hwf Horgs. revert s w Hwf.
  induction Horgs as [|org orgs Horg _ IH]; intros s w Hwf; cbn [migrate_orgs].
  { apply wp_ret, progress_refl. intros k (_ & f & Hf & _). by apply not_elem_of_nil in Hf. }
  unfold store.list_formations. apply wp_mbind, wp_call_read; [done|done| |].
  2: { intros _ e. by split_and!. }
  intros fs [Hfs _]. apply wp_mbind. eapply wp_mono; [apply migrate_formations_spec; [done|]|].
  { apply Forall_forall. intros f Hin. destruct (listing_elem _ _ _ _ Hfs Hin) as ([o' a] & Ef & Eo).
    cbn in Eo. subst o'. destruct (wf_formations _ Hwf _ _ _ Ef) as (-> & Ha & _).
    split; [by apply valid_identifier_nul_free|by eexists]. }
  intros [s1|e] w1 Hp; [|by eapply progress_err].
  assert (wf (w_store w1)) as Hwf1 by (eapply upgraded_wf; [apply Hp|done]).
  eapply wp_mono; [by apply IH|]. intros r w2 Hp2. eapply progress_app; [exact Hp|done|exact Hp2|].
  destruct Hp as [[Erest _] _]. rewrite Erest. cbn.
  intros [o' a] [[f Ef] (org' & [->|Hin]%elem_of_cons & Ek)]; cbn in Ek; subst o'.
  - left. exists f. destruct (wf_formations _ Hwf _ _ _ Ef) as (-> & _). split; [|done].
    rewrite Hfs. apply list_elem_of_fmap. exists ((o_org_id org, a), f). split; [done|].
    apply elem_of_map_to_list, map_lookup_filter_Some. done.
  - right. split; [by eexists|]. eauto.
Qed.

Lemma migrate_store_progress dry_run w :
  wf (w_store w) →
  wp o fl (migrate_store kp dry_run)
    (λ r w', upgraded kp o (w_store w) (w_store w') ∧
       (dry_run = true → w_store w' = w_store w) ∧
       (is_ok r = true → dry_run = false →
          ∀ k, is_Some (d_formations (w_store w) !! k) → sealed_at k (w_store w'))) w.
Proof.
  intros Hwf. unfold migrate_store, store.list_orgs. apply wp_mbind, wp_call_read; [done|done| |].
  2: { intros _ e. by split_and!. }
  intros orgs [Horgs _].
  assert (∀ org, org ∈ orgs ↔ ∃ k, d_orgs (w_store w) !! k = Some org) as Hin.
  { intros org. rewrite Horgs, list_elem_of_fmap. split.
    - intros ([k org'] & -> & Hk%elem_of_map_to_list). by exists k.
    - intros [k Hk%elem_of_map_to_list]. by exists (k, org). }
  eapply wp_mono; [apply migrate_orgs_spec; [done|]|].
  { apply Forall_forall. intros org [k Hk]%Hin. destruct (wf_orgs _ Hwf _ _ Hk) as [-> Hid].
    by apply valid_identifier_nul_free. }
  intros r w' (Hup & Hdry & Hs). split_and!; [done|done|]. intros Hr Hd [o' a] Hk.
  apply Hs; [done|done|]. split; [done|]. destruct Hk as [f Ef].
  destruct (wf_formations _ Hwf _ _ _ Ef) as (_ & _ & org & Eorg).
  exists org. split; [apply Hin; by exists o'|]. by destruct (wf_orgs _ Hwf _ _ Eorg) as [-> _].
Qed.

(** C12: A run changes genesis records only, each from plaintext to an envelope
    that opens to it; a dry run changes nothing; when the run succeeds, every
    formation's genesis is sealed; and where all are sealed already, as after a
    successful run, nothing changes. *)
Theorem migrate_store_spec dry_run w :
  wf (w_store w) →
  let sealed m := ∀ k, is_Some (d_formations (w_store w) !! k) → sealed_at k m in
  wp o fl (migrate_store kp dry_run)
    (λ r w', upgraded kp o (w_store w) (w_store w') ∧
       (dry_run = true → w_store w' = w_store w) ∧
       (is_ok r = true → dry_run = false → sealed (w_store w')) ∧
       (sealed (w_store w) → w_store w' = w_store w)) w.
Proof.
  intros Hwf sealed. eapply wp_mono; [by apply migrate_store_progress|].
  intros r w' (Hup & Hdry & Hs). split_and!; [done..|]. by eapply upgraded_all_sealed.
Qed.

End Correct.
