(* ===== verification/MeshIngest.v ===== *)
(** mesh_ingest.rs: polling a remote mesh broker.

    [refresh_once] fetches the broker's state over HTTP, publishes a change event
    for each document that is new or changed, emits the events of the difference
    and replaces the snapshot; [refresh_tick] is one turn of the polling loop. *)
From S2P Require Import Prelude Text Extern Models Errors Effects Config Manager Cdc Watcher.
From Stdlib Require Import ZArith.

#[local] Open Scope Z_scope.

(** ** peat-mesh's broker types *)
Record MeshNodeInfo := { node_id : string; uptime_secs : Z; version : string }.
Record TopologySummary := { peer_count : Z; role : string; hierarchy_level : Z }.
Record ReadinessCheck := { check_name : string; check_ready : bool; check_message : option string }.
Record ReadinessResponse := {
  rd_ready : bool;
  rd_node_id : string;
  rd_checks : list ReadinessCheck;
}.
Record PeerSummary := {
  ps_id : string;
  ps_connected : bool;
  ps_state : string;
  ps_rtt_ms : option Z;
}.
Inductive MeshEvent : Type :=
| PeerConnected (peer_id : string)
| PeerDisconnected (peer_id reason : string)
| TopologyChanged (new_role : string) (count : Z)
| SyncEvent (collection doc_id action : string).

(** ** The DTOs, as the JSON gives them *)
Record NodeInfoDto := { nd_node_id : string; nd_uptime_secs : Z; nd_version : string }.
Record TopologyDto := { td_peer_count : Z; td_role : string; td_hierarchy_level : Z }.
Record ReadinessCheckDto := { cd_name : string; cd_ready : bool; cd_message : option string }.
Record ReadinessDto := { rdto_ready : bool; rdto_node_id : string; rdto_checks : list ReadinessCheckDto }.
Record PeerDto := { pd_id : string; pd_connected : bool; pd_state : string; pd_rtt_ms : option Z }.
Record PeersEnvelope := { pe_peers : list PeerDto }.
Record DocumentsEnvelope := { de_documents : list Value }.

(** ** Snapshots *)
Record Snapshot := {
  sn_node_info : MeshNodeInfo;
  sn_topology : TopologySummary;
  sn_readiness : ReadinessResponse;
  sn_peers : list PeerSummary;
  sn_documents : gmap string (list Value);
  sn_last_sync_ms : option Z;
  sn_last_error : option string;
}.

Definition remote_check (message : string) : ReadinessCheck :=
  {| check_name := "remote-broker"; check_ready := false; check_message := Some message |}.

Definition Snapshot_new (node_id : string) : Snapshot := {|
  sn_node_info := {| node_id := node_id; uptime_secs := 0; version := "remote-broker-pending" |};
  sn_topology := {| peer_count := 0; role := "standalone"; hierarchy_level := 0 |};
  sn_readiness := {| rd_ready := false; rd_node_id := node_id;
                     rd_checks := [remote_check "waiting for first successful poll"] |};
  sn_peers := [];
  sn_documents := ∅;
  sn_last_sync_ms := None;
  sn_last_error := None;
|}.

Record RemoteBrokerState := {
  rb_mapping : MeshBrokerMapping;
  rb_snapshot : Snapshot;
  rb_events : list MeshEvent;         (* everything sent on the channel *)
  rb_cdc_engine : option CdcEngine;
}.
Definition RemoteBrokerState_new (mapping : MeshBrokerMapping) (engine : option CdcEngine) :
    RemoteBrokerState := {|
  rb_mapping := mapping;
  rb_snapshot := Snapshot_new (mb_org_id mapping +:+ ":" +:+ mb_app_id mapping);
  rb_events := [];
  rb_cdc_engine := engine;
|}.

Definition document_id (doc : Value) : option string :=
  let field := match value_get doc "_id" with
               | Some v => Some v
               | None => value_get doc "uid"
               end in
  v ← field; as_str v.

Section Ingest.
Context `{HttpLib} `{Serde CdcEvent} `{Serde Value} `{StdHasher} `{HashIter}
  `{Serde NodeInfoDto} `{Serde TopologyDto} `{Serde ReadinessDto} `{Serde PeersEnvelope}
  `{Serde DocumentsEnvelope}.

Definition doc_content_hash (doc : Value) : Z :=
  let hasher := hasher_new in
  let hasher := match to_vec doc with
                | Ok s => hash_str (from_utf8_bytes s) hasher
                | Err _ => hasher
                end in
  hasher_finish hasher.

(** [send().await?.error_for_status()?] and [json().await?] *)
Definition get_json {T} `{Serde T} (mapping : MeshBrokerMapping) (path : string) : M T :=
  let url := mb_base_url mapping +:+ path in
  try! response := perform (Net (HttpGet url [])) in
  match response with
  | NetErr e => bail (Remote e)
  | NetResp status body =>
      if (400 <=? status) && (status <? 600) then bail (Remote (status_error url status))
      else lift (map_err Remote (from_slice body))
  end.

(** Hash by id of a collection's old documents; the last of equal ids wins. *)
Definition old_by_id (old_docs : gmap string (list Value)) (collection : string) : gmap string Z :=
  foldl (λ m d, match document_id d with
                | Some id => <[id := doc_content_hash d]> m
                | None => m
                end) ∅ (default [] (old_docs !! collection)).

Definition diff_event (mapping : MeshBrokerMapping) (timestamp_ms : Z)
    (collection doc_id : string) (doc : Value) : CdcEvent := {|
  e_org_id := mb_org_id mapping;
  e_app_id := mb_app_id mapping;
  e_document_id := collection +:+ "/" +:+ doc_id;
  e_change_hash := fmt_016x (doc_content_hash doc);
  e_actor_id := default "remote-broker"%string (v ← value_get doc "_actor"; as_str v);
  e_timestamp_ms := timestamp_ms;
  e_patches := doc;
|}.

Fixpoint publish_docs (engine : CdcEngine) (mapping : MeshBrokerMapping) (timestamp_ms : Z)
    (collection : string) (old : gmap string Z) (docs : list Value) : prog unit :=
  match docs with
  | [] => Ret tt
  | doc :: docs =>
      let next := publish_docs engine mapping timestamp_ms collection old docs in
      match document_id doc with
      | None => next
      | Some doc_id =>
          let new_hash := doc_content_hash doc in
          if bool_decide (old !! doc_id = Some new_hash) then next else
          try! _ := publish engine (diff_event mapping timestamp_ms collection doc_id doc) in
          next
      end
  end.

Fixpoint publish_collections (engine : CdcEngine) (mapping : MeshBrokerMapping)
    (timestamp_ms : Z) (old_docs : gmap string (list Value))
    (collections : list (string * list Value)) : prog unit :=
  match collections with
  | [] => Ret tt
  | (collection, new_docs) :: collections =>
      try! _ := publish_docs engine mapping timestamp_ms collection
                  (old_by_id old_docs collection) new_docs in
      publish_collections engine mapping timestamp_ms old_docs collections
  end.

Definition publish_cdc_diffs (st : RemoteBrokerState) (engine : CdcEngine)
    (new_snapshot : Snapshot) (timestamp_ms : Z) : prog unit :=
  publish_collections engine (rb_mapping st) timestamp_ms (sn_documents (rb_snapshot st))
    (hm_iter (sn_documents new_snapshot)).

Definition peer_ids (s : Snapshot) : gset string := list_to_set (ps_id <$> sn_peers s).
Definition document_ids (docs : list Value) : gset string := list_to_set (omap document_id docs).

Definition emit_diffs (old_snapshot new_snapshot : Snapshot) : list MeshEvent :=
  let old_peers := peer_ids old_snapshot in
  let new_peers := peer_ids new_snapshot in
  (PeerConnected <$> hs_iter (new_peers ∖ old_peers))
  ++ ((λ p, PeerDisconnected p "missing from remote broker snapshot")
        <$> hs_iter (old_peers ∖ new_peers))
  ++ (if bool_decide (peer_count (sn_topology old_snapshot) ≠ peer_count (sn_topology new_snapshot))
         || bool_decide (role (sn_topology old_snapshot) ≠ role (sn_topology new_snapshot))
      then [TopologyChanged (role (sn_topology new_snapshot)) (peer_count (sn_topology new_snapshot))]
      else [])
  ++ (cd ← hm_iter (sn_documents new_snapshot);
      let old_ids := document_ids (default [] (sn_documents old_snapshot !! cd.1)) in
      let new_ids := document_ids cd.2 in
      (λ id, SyncEvent cd.1 id "upsert") <$> hs_iter (new_ids ∖ old_ids)).

(** A collection whose request fails is left out. *)
Fixpoint fetch_documents (mapping : MeshBrokerMapping) (collections : list string)
    (documents : gmap string (list Value)) : prog (gmap string (list Value)) :=
  match collections with
  | [] => Ret documents
  | collection :: collections =>
      try! r := get_json (T:=DocumentsEnvelope) mapping ("/api/v1/documents/" +:+ collection) in
      fetch_documents mapping collections
        match r with
        | Ok resp => <[collection := de_documents resp]> documents
        | Err _ => documents
        end
  end.

Definition readiness_of (node_id : string) (r : Result ReadinessDto) : ReadinessResponse :=
  match r with
  | Ok dto => {| rd_ready := rdto_ready dto; rd_node_id := rdto_node_id dto;
                 rd_checks := (λ c, {| check_name := cd_name c; check_ready := cd_ready c;
                                       check_message := cd_message c |}) <$> rdto_checks dto |}
  | Err err => {| rd_ready := false; rd_node_id := node_id;
                  rd_checks := [remote_check ("ready probe failed: " +:+ to_string err)] |}
  end.

Definition refresh_once (st : RemoteBrokerState) : M RemoteBrokerState :=
  let mapping := rb_mapping st in
  let! node_dto := get_json (T:=NodeInfoDto) mapping "/api/v1/node" in
  let node_info := {| node_id := nd_node_id node_dto; uptime_secs := nd_uptime_secs node_dto;
                      version := nd_version node_dto |} in
  let! topo_dto := get_json (T:=TopologyDto) mapping "/api/v1/topology" in
  let topology := {| peer_count := td_peer_count topo_dto; role := td_role topo_dto;
                     hierarchy_level := td_hierarchy_level topo_dto |} in
  try! ready := get_json (T:=ReadinessDto) mapping "/api/v1/ready" in
  let readiness := readiness_of (node_id node_info) ready in
  let! peers_resp := get_json (T:=PeersEnvelope) mapping "/api/v1/peers" in
  try! documents := fetch_documents mapping (mb_collections mapping) ∅ in
  let peers := (λ p, {| ps_id := pd_id p; ps_connected := pd_connected p;
                        ps_state := pd_state p; ps_rtt_ms := pd_rtt_ms p |})
               <$> pe_peers peers_resp in
  try! now := perform SystemTime in
  let last_sync_ms := since_epoch now in
  let new_snapshot := {|
    sn_node_info := node_info; sn_topology := topology; sn_readiness := readiness;
    sn_peers := peers; sn_documents := documents; sn_last_sync_ms := Some last_sync_ms;
    sn_last_error := None |} in
  try! _ := match rb_cdc_engine st with
            | Some engine => publish_cdc_diffs st engine new_snapshot last_sync_ms
            | None => Ret tt
            end in
  ok {| rb_mapping := mapping; rb_snapshot := new_snapshot;
        rb_events := rb_events st ++ emit_diffs (rb_snapshot st) new_snapshot;
        rb_cdc_engine := rb_cdc_engine st |}.

Definition record_error (error : string) (st : RemoteBrokerState) : RemoteBrokerState :=
  let snapshot := rb_snapshot st in
  {| rb_mapping := rb_mapping st;
     rb_snapshot := {|
       sn_node_info := sn_node_info snapshot;
       sn_topology := sn_topology snapshot;
       sn_readiness := {| rd_ready := false; rd_node_id := node_id (sn_node_info snapshot);
                          rd_checks := [remote_check error] |};
       sn_peers := sn_peers snapshot;
       sn_documents := sn_documents snapshot;
       sn_last_sync_ms := sn_last_sync_ms snapshot;
       sn_last_error := Some error |};
     rb_events := rb_events st;
     rb_cdc_engine := rb_cdc_engine st |}.

(** One turn of the polling loop. *)
Definition refresh_tick (st : RemoteBrokerState) : prog RemoteBrokerState :=
  try! r := refresh_once st in
  Ret match r with
      | Ok st => st
      | Err err => record_error (to_string err) st
      end.

(** [impl MeshBrokerState for RemoteBrokerState]: the reads *)
Definition node_info (st : RemoteBrokerState) : MeshNodeInfo := sn_node_info (rb_snapshot st).
Definition list_peers (st : RemoteBrokerState) : list PeerSummary := sn_peers (rb_snapshot st).
Definition get_peer (st : RemoteBrokerState) (id : string) : option PeerSummary :=
  head (filter (λ p, ps_id p = id) (sn_peers (rb_snapshot st))).
Definition topology (st : RemoteBrokerState) : TopologySummary := sn_topology (rb_snapshot st).
Definition readiness (st : RemoteBrokerState) : ReadinessResponse :=
  let snapshot := rb_snapshot st in
  let readiness := sn_readiness snapshot in
  match sn_last_sync_ms snapshot with
  | Some last_sync_ms =>
      {| rd_ready := rd_ready readiness; rd_node_id := rd_node_id readiness;
         rd_checks := rd_checks readiness ++
           [{| check_name := "last-sync-ms"; check_ready := true;
               check_message := Some (fmt_dec last_sync_ms) |}] |}
  | None => readiness
  end.
Definition list_documents (st : RemoteBrokerState) (collection : string) : option (list Value) :=
  sn_documents (rb_snapshot st) !! collection.
Definition get_document (st : RemoteBrokerState) (collection id : string) : option Value :=
  docs ← sn_documents (rb_snapshot st) !! collection;
  head (filter (λ doc, document_id doc = Some id) docs).
End Ingest.
