(* ===== verification/MeshIngestSpec.v ===== *)
(** Polling a remote broker: which documents are published, what a successful
    refresh sends and stores, what a failed one keeps. *)
From S2P Require Import Prelude Text Extern Models Errors Effects Config Spec Wp Manager Invariant ManagerInv Cdc CdcSpec Watcher MeshIngest.
From Stdlib Require Import ZArith.

#[local] Open Scope Z_scope.

(** ** The events of a list of sets *)
Lemma elem_of_difference_iter `{HashIterLaws} (X Y : gset string) x :
  x ∈ hs_iter (X ∖ Y) ↔ x ∈ X ∧ x ∉ Y.
Proof. rewrite hs_iter_perm, elem_of_elements. set_solver. Qed.

Lemma elem_of_hm_iter `{HashIterLaws} {V} (m : gmap string V) k v :
  (k, v) ∈ hm_iter m ↔ m !! k = Some v.
Proof. by rewrite hm_iter_perm, elem_of_map_to_list. Qed.

(** ** Folding a list of keyed values into a map *)
Lemma foldl_insert_notin {A V} (f : A → option string) (g : A → V) (l : list A)
    (m : gmap string V) k :
  k ∉ omap f l →
  foldl (λ m d, match f d with Some id => <[id := g d]> m | None => m end) m l !! k = m !! k.
Proof.
  revert m; induction l as [|a l IH]; intros m; [done|]. cbn.
  destruct (f a) as [id|]; [|by apply IH].
  rewrite not_elem_of_cons. intros [Hne Hn]. by rewrite IH, lookup_insert_ne.
Qed.

Lemma foldl_insert_elem {A V} (f : A → option string) (g : A → V) (l : list A)
    (m : gmap string V) k a :
  NoDup (omap f l) → a ∈ l → f a = Some k →
  foldl (λ m d, match f d with Some id => <[id := g d]> m | None => m end) m l !! k = Some (g a).
Proof.
  revert m; induction l as [|b l IH]; intros m Hnd Hin Hk; [by apply not_elem_of_nil in Hin|].
  apply elem_of_cons in Hin as [->|Hin]; cbn in *.
  - rewrite Hk in *. apply NoDup_cons in Hnd as [Hn _]. by rewrite foldl_insert_notin, lookup_insert_eq.
  - destruct (f b); [apply NoDup_cons in Hnd as [_ ?]|]; by apply IH.
Qed.

Section Spec.
Context `{HttpLib} `{Serde CdcEvent} `{Serde Value} `{StdHasher} `{HashIter}
  `{Serde NodeInfoDto} `{Serde TopologyDto} `{Serde ReadinessDto} `{Serde PeersEnvelope}
  `{Serde DocumentsEnvelope}.
Context {laws : HashIterLaws}.

(** ** What changed between two snapshots *)

(** A document's JSON text, if it has one, and the digest of it. *)
Definition json_text (doc : Value) : option string :=
  match to_vec doc with Ok b => Some (from_utf8_bytes b) | Err _ => None end.
Definition digest (text : option string) : Z :=
  hasher_finish (match text with Some s => hash_str s hasher_new | None => hasher_new end).

(** The document last listed under an id in a collection. *)
Definition last_known (old_docs : gmap string (list Value)) (collection doc_id : string) :
    option Value :=
  last (filter (λ d, document_id d = Some doc_id) (default [] (old_docs !! collection))).

(** A document with an id that was not there with the same text before. *)
Definition changed (old_docs : gmap string (list Value)) (collection : string) (doc : Value)
    (doc_id : string) : Prop :=
  document_id doc = Some doc_id ∧
  json_text <$> last_known old_docs collection doc_id ≠ Some (json_text doc).

(** What is announced of it: in the name of the mapping's organization and
    application, with the collection, the text's digest, the author it names and the
    document itself. *)
Definition announcement (mapping : MeshBrokerMapping) (timestamp_ms : Z)
    (collection doc_id : string) (doc : Value) : CdcEvent := {|
  e_org_id := mb_org_id mapping;
  e_app_id := mb_app_id mapping;
  e_document_id := collection +:+ "/" +:+ doc_id;
  e_change_hash := fmt_016x (digest (json_text doc));
  e_actor_id := match value_get doc "_actor" with Some (JString a) => a | _ => "remote-broker" end;
  e_timestamp_ms := timestamp_ms;
  e_patches := doc;
|}.

Definition change_event (mapping : MeshBrokerMapping) (timestamp_ms : Z)
    (old_docs new_docs : gmap string (list Value)) (ev : CdcEvent) : Prop :=
  ∃ collection docs doc doc_id, new_docs !! collection = Some docs ∧ doc ∈ docs ∧
    changed old_docs collection doc doc_id ∧
    ev = announcement mapping timestamp_ms collection doc_id doc.

(** The announcements of a refresh, in order: for each collection, for each of its
    documents in turn. *)
Definition doc_announcement (mapping : MeshBrokerMapping) (timestamp_ms : Z)
    (old_docs : gmap string (list Value)) (collection : string) (doc : Value) : option CdcEvent :=
  doc_id ← document_id doc;
  if decide (json_text <$> last_known old_docs collection doc_id = Some (json_text doc)) then None
  else Some (announcement mapping timestamp_ms collection doc_id doc).
Definition announcements (mapping : MeshBrokerMapping) (timestamp_ms : Z)
    (old_docs new_docs : gmap string (list Value)) : list CdcEvent :=
  cd ← hm_iter new_docs; omap (doc_announcement mapping timestamp_ms old_docs cd.1) cd.2.

(** No two texts of a document that are compared have one digest. *)
Definition no_collision (old_docs new_docs : gmap string (list Value)) : Prop :=
  ∀ c docs doc id old, new_docs !! c = Some docs → doc ∈ docs → document_id doc = Some id →
    last_known old_docs c id = Some old →
    digest (json_text old) = digest (json_text doc) → json_text old = json_text doc.

(** One publication after another, whatever each one answers. *)
Fixpoint publish_each (engine : CdcEngine) (evs : list CdcEvent) : prog unit :=
  match evs with
  | [] => Ret tt
  | ev :: evs => try! _ := publish engine ev in publish_each engine evs
  end.

Lemma content_hash_digest doc : doc_content_hash doc = digest (json_text doc).
Proof. unfold doc_content_hash, digest, json_text. by destruct (to_vec doc). Qed.
Lemma diff_event_announcement mapping ts c id doc :
  diff_event mapping ts c id doc = announcement mapping ts c id doc.
Proof.
  unfold diff_event, announcement. rewrite content_hash_digest. f_equal.
  cbn. by destruct (value_get doc "_actor") as [[]|].
Qed.

(** The table of old hashes holds the digest of what is last known. *)
Lemma old_by_id_last old_docs c id :
  old_by_id old_docs c !! id = (λ d, digest (json_text d)) <$> last_known old_docs c id.
Proof.
  unfold old_by_id, last_known. induction (default [] (old_docs !! c)) as [|d l IH] using rev_ind;
    [done|].
  rewrite foldl_app, filter_app. cbn [foldl]. rewrite filter_cons, filter_nil.
  destruct (document_id d) as [id'|] eqn:Ed; case_decide as Hid; simplify_eq.
  - by rewrite lookup_insert_eq, last_snoc, content_hash_digest.
  - rewrite lookup_insert_ne by congruence. by rewrite app_nil_r.
  - by rewrite app_nil_r.
Qed.

Lemma elem_of_announcements mapping ts old_docs new_docs ev :
  ev ∈ announcements mapping ts old_docs new_docs ↔ change_event mapping ts old_docs new_docs ev.
Proof.
  unfold announcements, change_event, changed. rewrite list_elem_of_bind. split.
  - intros ([c docs] & (doc & Hin & Hev)%list_elem_of_omap & Hc). cbn in *.
    apply elem_of_hm_iter in Hc. unfold doc_announcement in Hev.
    apply bind_Some in Hev as (id & Hid & Hev). case_decide; [done|]. injection Hev as <-.
    by exists c, docs, doc, id.
  - intros (c & docs & doc & id & Hc & Hin & [Hid Hne] & ->). exists (c, docs).
    rewrite elem_of_hm_iter. split; [|done]. apply list_elem_of_omap. exists doc. split; [done|].
    unfold doc_announcement. rewrite Hid. cbn. by rewrite decide_False.
Qed.

(** *** The program publishes the announcements *)
Section Runs.
Context {St : Type} `{Backend St} (orc : oracle) (engine : CdcEngine).

Lemma run_publish_each_app evs evs' w :
  run orc (publish_each engine (evs ++ evs')) w =
  run orc (publish_each engine evs') (run orc (publish_each engine evs) w).2.
Proof.
  revert w; induction evs as [|ev evs IH]; intros w; [done|]. cbn [publish_each app].
  rewrite !run_pbind. destruct (run orc (publish engine ev) w) as [r w1]. apply IH.
Qed.

Lemma run_publish_docs mapping ts c old_docs docs w :
  (∀ doc id old, doc ∈ docs → document_id doc = Some id → last_known old_docs c id = Some old →
     digest (json_text old) = digest (json_text doc) → json_text old = json_text doc) →
  run orc (publish_docs engine mapping ts c (old_by_id old_docs c) docs) w =
  run orc (publish_each engine (omap (doc_announcement mapping ts old_docs c) docs)) w.
Proof.
  revert w; induction docs as [|doc docs IH]; intros w Hnc; [done|]. cbn [publish_docs omap list_omap].
  assert (∀ w, run orc (publish_docs engine mapping ts c (old_by_id old_docs c) docs) w =
    run orc (publish_each engine (omap (doc_announcement mapping ts old_docs c) docs)) w) as IH'.
  { intros w1. apply IH. intros doc' id old Hin. apply Hnc. by right. }
  unfold doc_announcement at 1. destruct (document_id doc) as [id|] eqn:Eid; cbn [base.mbind option_bind];
    [|apply IH'].
  rewrite old_by_id_last, content_hash_digest.
  case_bool_decide as Hh; case_decide as Ht; [apply IH'| | |].
  - exfalso. destruct (last_known old_docs c id) as [old|] eqn:El; [|done]. apply Ht. cbn in *.
    f_equal. injection Hh as Hh. by apply (Hnc doc id old); [left|..].
  - exfalso. destruct (last_known old_docs c id) as [old|]; [|done]. apply Hh. cbn in *.
    injection Ht as Ht. by rewrite Ht.
  - cbn [publish_each]. rewrite diff_event_announcement, !run_pbind.
    destruct (run orc (publish engine _) w) as [r w1]. apply IH'.
Qed.

Lemma run_publish_cdc_diffs st new ts w :
  no_collision (sn_documents (rb_snapshot st)) (sn_documents new) →
  run orc (publish_cdc_diffs st engine new ts) w =
  run orc (publish_each engine
    (announcements (rb_mapping st) ts (sn_documents (rb_snapshot st)) (sn_documents new))) w.
Proof.
  intros Hnc. unfold publish_cdc_diffs, announcements.
  assert (∀ c docs doc id old, (c, docs) ∈ hm_iter (sn_documents new) → doc ∈ docs →
    document_id doc = Some id → last_known (sn_documents (rb_snapshot st)) c id = Some old →
    digest (json_text old) = digest (json_text doc) → json_text old = json_text doc) as Hnc'.
  { intros c docs doc id old Hc. apply elem_of_hm_iter in Hc. by eapply Hnc. }
  clear Hnc. revert w Hnc'. induction (hm_iter (sn_documents new)) as [|[c docs] cs IH];
    intros w Hnc; [done|]. cbn [publish_collections].
  rewrite bind_cons, run_publish_each_app, run_pbind, run_publish_docs.
  - cbn [fst snd]. destruct (run orc (publish_each engine _) w) as [r w1]. cbn [snd]. apply IH.
    intros c' docs' doc id old Hin. apply Hnc. by right.
  - intros doc id old. apply (Hnc c docs). by left.
Qed.
End Runs.

(** Sequences of publications, as a relation: [publishes p evs] holds when [p]
    is the publication of [evs] one after another, whatever each one answers. *)
Inductive publishes (engine : CdcEngine) : prog unit → list CdcEvent → Prop :=
| publishes_nil : publishes engine (Ret tt) []
| publishes_cons ev evs p :
    publishes engine p evs →
    publishes engine (try! _ := publish engine ev in p) (ev :: evs)
| publishes_app p q evs evs' :
    publishes engine p evs → publishes engine q evs' →
    publishes engine (try! _ := p in q) (evs ++ evs').

Lemma publish_docs_events engine mapping ts c old_docs docs :
  ∃ evs, publishes engine (publish_docs engine mapping ts c (old_by_id old_docs c) docs) evs ∧
    ∀ ev, ev ∈ evs → ∃ doc doc_id, doc ∈ docs ∧ changed old_docs c doc doc_id ∧
      ev = announcement mapping ts c doc_id doc.
Proof.
  induction docs as [|d docs (evs & Hp & Hevs)]; cbn [publish_docs].
  { exists []. split; [constructor|]. set_solver. }
  assert (∀ ev, ev ∈ evs → ∃ doc doc_id, doc ∈ d :: docs ∧ changed old_docs c doc doc_id ∧
    ev = announcement mapping ts c doc_id doc) as Hevs'.
  { intros ev (doc & id & Hin & ?)%Hevs. exists doc, id. split; [by right|done]. }
  destruct (document_id d) as [id|] eqn:Eid; [|by exists evs]. case_bool_decide as Eold; [by exists evs|].
  exists (diff_event mapping ts c id d :: evs). split; [by constructor|].
  intros ev [->|Hin]%elem_of_cons; [|by apply Hevs']. exists d, id.
  split_and!; [by left| |apply diff_event_announcement]. split; [done|]. intros Ht. apply Eold.
  rewrite old_by_id_last, content_hash_digest. destruct (last_known old_docs c id); [|done].
  cbn in *. injection Ht as Ht. by rewrite Ht.
Qed.

Lemma publish_collections_events engine mapping ts old_docs cs :
  ∃ evs, publishes engine (publish_collections engine mapping ts old_docs cs) evs ∧
    ∀ ev, ev ∈ evs → ∃ c docs doc doc_id, (c, docs) ∈ cs ∧ doc ∈ docs ∧
      changed old_docs c doc doc_id ∧ ev = announcement mapping ts c doc_id doc.
Proof.
  induction cs as [|[c docs] cs (evs & Hp & Hevs)]; cbn [publish_collections].
  { exists []. split; [constructor|]. set_solver. }
  destruct (publish_docs_events engine mapping ts c old_docs docs) as (evs1 & Hp1 & Hevs1).
  exists (evs1 ++ evs). split; [by constructor|]. intros ev [Hin|Hin]%elem_of_app.
  - destruct (Hevs1 _ Hin) as (doc & id & ?). exists c, docs, doc, id. split; [by left|done].
  - destruct (Hevs _ Hin) as (c' & docs' & doc & id & ? & ?). exists c', docs', doc, id.
    split; [by right|done].
Qed.

(** The publications of a refresh are all announcements of changed documents. *)
Lemma publish_cdc_diffs_events st engine new ts :
  ∃ evs, publishes engine (publish_cdc_diffs st engine new ts) evs ∧
    ∀ ev, ev ∈ evs →
      change_event (rb_mapping st) ts (sn_documents (rb_snapshot st)) (sn_documents new) ev.
Proof.
  unfold publish_cdc_diffs.
  destruct (publish_collections_events engine (rb_mapping st) ts
              (sn_documents (rb_snapshot st)) (hm_iter (sn_documents new))) as (evs & Hp & Hevs).
  exists evs. split; [done|]. intros ev (c & docs & doc & id & Hc & ?)%Hevs.
  apply elem_of_hm_iter in Hc. by exists c, docs, doc, id.
Qed.

(** ** Deliveries *)
Definition delivery (m : db) (ev : CdcEvent) (rq : request) : Prop :=
  ∃ k sink, d_sinks m !! (e_org_id ev, k) = Some sink ∧
    s_enabled sink = true ∧ targets ev sink rq.

Definition only_deliveries (P : CdcEvent → Prop) (w w' : world db) : Prop :=
  w_store w' = w_store w ∧ ∃ evs, w_trace w' = w_trace w ++ evs ∧
    ∀ rq rp, Sent rq rp ∈ evs → ∃ ev, P ev ∧ delivery (w_store w) ev rq.

Lemma only_deliveries_refl P w : only_deliveries P w w.
Proof. split; [done|]. exists []. rewrite app_nil_r. split; [done|]. intros ?? ?%not_elem_of_nil. done. Qed.

Lemma only_deliveries_trans P P' (Q : CdcEvent → Prop) w1 w2 w3 :
  (∀ ev, P ev → Q ev) → (∀ ev, P' ev → Q ev) →
  only_deliveries P w1 w2 → only_deliveries P' w2 w3 → only_deliveries Q w1 w3.
Proof.
  intros HP HP' [Hs (e1 & Ht & He1)] [Hs' (e2 & Ht' & He2)]. split; [congruence|].
  exists (e1 ++ e2). rewrite Ht', Ht, <-app_assoc. split; [done|].
  intros rq rp [Hin|Hin]%elem_of_app.
  - destruct (He1 _ _ Hin) as (ev & ? & ?). eauto.
  - destruct (He2 _ _ Hin) as (ev & ? & Hd). rewrite Hs in Hd. eauto.
Qed.

Lemma publishes_deliveries o fl engine p evs w :
  publishes engine p evs → wp o fl p (λ _ w', only_deliveries (λ ev, ev ∈ evs) w w') w.
Proof.
  intros Hp. revert w. induction Hp as [|ev evs p Hp IH|p q evs evs' Hp IHp Hq IHq]; intros w.
  - apply wp_ret, only_deliveries_refl.
  - apply wp_pbind. eapply wp_mono; [apply publish_request_scope|].
    intros r w1 Hw1. eapply wp_mono; [apply IH|]. intros ? w2 Hw2.
    eapply (only_deliveries_trans (λ ev', ev' = ev) (λ ev', ev' ∈ evs)); [| |split; [apply Hw1|]|exact Hw2].
    + intros ev' E. rewrite E. by left.
    + intros ? ?. by right.
    + destruct Hw1 as (_ & es & Ht & Hall). exists es. split; [done|]. intros rq rp Hin. exists ev. split; [done|]. by eapply Hall.
  - apply wp_pbind. eapply wp_mono; [apply IHp|]. intros ? w1 Hw1.
    eapply wp_mono; [apply IHq|]. intros ? w2 Hw2.
    eapply only_deliveries_trans; [| |exact Hw1|exact Hw2]; intros ev ?; apply elem_of_app; auto.
Qed.

Lemma publish_cdc_diffs_deliveries o fl st engine new ts w :
  wp o fl (publish_cdc_diffs st engine new ts)
    (λ _ w', only_deliveries
       (change_event (rb_mapping st) ts (sn_documents (rb_snapshot st)) (sn_documents new)) w w') w.
Proof.
  destruct (publish_cdc_diffs_events st engine new ts) as (evs & Hp & Hevs).
  eapply wp_mono; [by eapply publishes_deliveries|]. intros ? w' Hw'.
  eapply only_deliveries_trans; [| |exact Hw'|apply (only_deliveries_refl (λ _, False))]; [|done].
  exact Hevs.
Qed.

(** C30: [publish_cdc_diffs] publishes one event after another: for each document
    of the new snapshot with an id, unless the document last listed under that id in
    its collection had the same JSON text, the announcement of it in the name of the
    mapping's organization and application; nothing else, in every execution on every
    backend (as long as no two compared texts have the same digest). The requests
    sent, whatever storage and the sinks answer, are deliveries of such announcements
    to enabled sinks of that organization, and nothing is stored. *)
Theorem publish_cdc_diffs_spec st engine new ts :
  (no_collision (sn_documents (rb_snapshot st)) (sn_documents new) →
   ∀ St (HB : Backend St) orc (w : world St),
     run orc (publish_cdc_diffs st engine new ts) w =
     run orc (publish_each engine
       (announcements (rb_mapping st) ts (sn_documents (rb_snapshot st)) (sn_documents new))) w) ∧
  (∀ ev, ev ∈ announcements (rb_mapping st) ts (sn_documents (rb_snapshot st)) (sn_documents new) ↔
     ∃ c docs doc id, sn_documents new !! c = Some docs ∧ doc ∈ docs ∧ document_id doc = Some id ∧
       json_text <$> last_known (sn_documents (rb_snapshot st)) c id ≠ Some (json_text doc) ∧
       ev = announcement (rb_mapping st) ts c id doc) ∧
  (∀ o fl w, wp o fl (publish_cdc_diffs st engine new ts)
    (λ _ w', only_deliveries
       (change_event (rb_mapping st) ts (sn_documents (rb_snapshot st)) (sn_documents new)) w w') w).
Proof.
  split_and!.
  - intros Hnc St HB orc w. by apply run_publish_cdc_diffs.
  - intros ev. rewrite elem_of_announcements. unfold change_event, changed.
    by repeat (f_equiv; intros ?); tauto.
  - intros o fl w. apply publish_cdc_diffs_deliveries.
Qed.

(** ** The events for subscribers *)

(** C32: The events sent to subscribers after a poll are exactly these: each peer
    that appears and each that disappears, the topology when its peer count or role
    changed, and an upsert of each document id that is new in its collection. *)
Theorem emit_diffs_spec old new ev :
  ev ∈ emit_diffs old new ↔
  match ev with
  | PeerConnected p => (p ∈ ps_id <$> sn_peers new) ∧ (p ∉ ps_id <$> sn_peers old)
  | PeerDisconnected p reason =>
      (p ∈ ps_id <$> sn_peers old) ∧ (p ∉ ps_id <$> sn_peers new) ∧
      reason = "missing from remote broker snapshot"%string
  | TopologyChanged r n =>
      r = role (sn_topology new) ∧ n = peer_count (sn_topology new) ∧
      (peer_count (sn_topology old) ≠ n ∨ role (sn_topology old) ≠ r)
  | SyncEvent c id action =>
      action = "upsert"%string ∧ ∃ docs, sn_documents new !! c = Some docs ∧
        (∃ doc, doc ∈ docs ∧ document_id doc = Some id) ∧
        ∀ doc, doc ∈ default [] (sn_documents old !! c) → document_id doc ≠ Some id
  end.
Proof.
  unfold emit_diffs. rewrite !elem_of_app, !list_elem_of_fmap, list_elem_of_bind.
  setoid_rewrite elem_of_difference_iter. setoid_rewrite list_elem_of_fmap.
  setoid_rewrite elem_of_difference_iter.
  unfold peer_ids, document_ids. setoid_rewrite elem_of_list_to_set.
  setoid_rewrite list_elem_of_omap.
  set (topo := orb _ _).
  assert (topo = true ↔ peer_count (sn_topology old) ≠ peer_count (sn_topology new) ∨
                        role (sn_topology old) ≠ role (sn_topology new)) as Htopo.
  { unfold topo. by rewrite orb_true_iff, !bool_decide_eq_true. }
  destruct ev as [p|p reason|r n|c id action].
  - split; [|naive_solver]. intros [?|[?|[Ht|?]]]; [naive_solver..| |naive_solver].
    destruct topo; set_solver.
  - split; [|naive_solver]. intros [?|[?|[Ht|?]]]; [naive_solver..| |naive_solver].
    destruct topo; set_solver.
  - split.
    + intros [?|[?|[Ht|?]]]; [naive_solver..| |naive_solver].
      destruct topo; [|set_solver]. apply list_elem_of_singleton in Ht. naive_solver.
    + intros (-> & -> & Hc). right; right; left. apply Htopo in Hc as ->. by left.
  - split.
    + intros [?|[?|[Ht|([c' docs] & (id' & [= -> -> ->] & Hnew & Hold) & Hc)]]];
        [naive_solver..|destruct topo; set_solver|]. cbn in *.
      apply elem_of_hm_iter in Hc. split; [done|]. exists docs. naive_solver.
    + intros (-> & docs & Hc & (doc & Hin & Hid) & Hold). right; right; right.
      exists (c, docs). rewrite elem_of_hm_iter. split; [|done]. exists id. cbn. naive_solver.
Qed.

(** ** Requests of a refresh *)
Definition get_url (mapping : MeshBrokerMapping) (rq : request) : Prop :=
  ∃ path, rq = HttpGet (mb_base_url mapping +:+ path) [].

Lemma get_json_only_net {T} `{Serde T} mapping path :
  only_net (get_url mapping) (get_json (T:=T) mapping path).
Proof.
  unfold get_json. cbn. split; [by exists path|]. intros [e|status body]; [done|].
  by case_match.
Qed.

Lemma only_net_mbind (P : request → Prop) {E A B} (c : prog (result E A)) (f : A → prog (result E B)) :
  only_net P c → (∀ a, only_net P (f a)) → only_net P (mbind c f).
Proof. intros Hc Hf. apply only_net_pbind; [done|]. by intros []. Qed.

Lemma fetch_documents_only_net mapping cs docs :
  only_net (get_url mapping) (fetch_documents mapping cs docs).
Proof.
  revert docs; induction cs as [|c cs IH]; intros docs; cbn [fetch_documents]; [done|].
  apply only_net_pbind; [apply get_json_only_net|]. intros [r|e]; apply IH.
Qed.

(** ** One refresh *)

(** What happened so far is reads from the broker. *)
Definition only_reads (mapping : MeshBrokerMapping) (w w' : world db) : Prop :=
  w_store w' = w_store w ∧
  ∃ evs, w_trace w' = w_trace w ++ evs ∧ Forall (sends (get_url mapping)) evs.

Lemma only_reads_trans mapping w1 w2 w3 :
  only_reads mapping w1 w2 → only_reads mapping w2 w3 → only_reads mapping w1 w3.
Proof.
  intros [? (e1 & Ht1 & He1)] [? (e2 & Ht2 & He2)]. split; [congruence|].
  exists (e1 ++ e2). rewrite Ht2, Ht1, <-app_assoc. split; [done|by apply Forall_app].
Qed.

Lemma wp_reads o fl {A} mapping (p : prog A) (f : A → prog (Result RemoteBrokerState)) Q w w0 :
  only_net (get_url mapping) p → only_reads mapping w0 w →
  (∀ a w', only_reads mapping w0 w' → wp o fl (f a) Q w') →
  wp o fl (pbind p f) Q w.
Proof.
  intros Hp Hw Hf. apply wp_pbind. eapply wp_mono; [by apply wp_only_net|].
  intros a w' Hw'. apply Hf. by eapply only_reads_trans.
Qed.

Lemma refresh_once_outcome o fl st w :
  wp o fl (refresh_once st)
    (λ r w', ∃ w1, only_reads (rb_mapping st) w w1 ∧
       match r with
       | Err _ => w' = w1
       | Ok st' =>
           let old := rb_snapshot st in
           let new := rb_snapshot st' in
           (∃ ts, sn_last_sync_ms new = Some ts ∧
             only_deliveries (λ ev, is_Some (rb_cdc_engine st) ∧
               change_event (rb_mapping st) ts (sn_documents old) (sn_documents new) ev) w1 w') ∧
           sn_last_error new = None ∧
           rb_events st' = rb_events st ++ emit_diffs old new ∧
           rb_mapping st' = rb_mapping st ∧ rb_cdc_engine st' = rb_cdc_engine st
       end) w.
Proof.
  assert (∀ P w1, only_reads (rb_mapping st) w w1 →
    ∃ w2, only_reads (rb_mapping st) w w2 ∧
      match Err P : Result RemoteBrokerState with Err _ => w1 = w2 | Ok _ => False end) as Herr
    by eauto.
  unfold refresh_once.
  do 2 (unfold mbind at 1; eapply wp_reads;
        [apply get_json_only_net|first [eassumption|by split; [|exists []; rewrite app_nil_r]]|];
        intros [?|err] ? ?; [|by apply wp_ret; exact (Herr err _ ltac:(eassumption))]).
  eapply wp_reads; [apply get_json_only_net|eassumption|]. intros ready w3 Hw3.
  unfold mbind at 1. eapply wp_reads; [apply get_json_only_net|eassumption|].
  intros [peers|err] w4 Hw4; [|by apply wp_ret; exact (Herr err _ Hw4)].
  eapply wp_reads; [apply fetch_documents_only_net|eassumption|]. intros documents w5 Hw5.
  apply wp_pbind. cbn [perform wp wp_eff exec_env from_option fst snd].
  assert (only_reads (rb_mapping st) w (ticked w5)) as Hw6 by done.
  apply wp_pbind. set (new := Build_Snapshot _ _ _ _ _ _ _).
  destruct (rb_cdc_engine st) as [engine|] eqn:Eng.
  - eapply wp_mono; [apply publish_cdc_diffs_deliveries|]. intros ? w7 Hw7. apply wp_ret.
    exists (ticked w5). split; [done|]. cbn. split_and!; [|done..].
    eexists. split; [done|].
    eapply only_deliveries_trans; [| |exact Hw7|apply (only_deliveries_refl (λ _, False))]; [|done].
    eauto.
  - apply wp_ret, wp_ret. exists (ticked w5). split; [done|]. cbn. split_and!; [|done..].
    eexists. split; [done|apply only_deliveries_refl].
Qed.

(** *** The exact run of a refresh *)
Section Refresh.
Context {St : Type} `{Backend St} (orc : oracle) (mapping : MeshBrokerMapping).

Definition read (path : string) (w : world St) : world St :=
  sent orc (HttpGet (mb_base_url mapping +:+ path) []) w.
Definition doc_path (collection : string) : string := "/api/v1/documents/" +:+ collection.

(** What the broker's answer to request number [n], for [path], means. *)
Definition answer {T} `{Serde T} (n : nat) (path : string) : Result T :=
  let url := mb_base_url mapping +:+ path in
  match orc.(o_net) n (HttpGet url []) with
  | NetErr e => Err (Remote e)
  | NetResp status body =>
      if (400 <=? status) && (status <? 600) then Err (Remote (status_error url status))
      else map_err Remote (from_slice body)
  end.

(** The documents read: each collection has those of its last good answer. *)
Definition documents_read (n : nat) (collections : list string)
    (documents : gmap string (list Value)) : Prop :=
  ∀ c docs, documents !! c = Some docs ↔
    ∃ i env, collections !! i = Some c ∧ answer (T:=DocumentsEnvelope) (n + i) (doc_path c) = Ok env ∧
      docs = de_documents env ∧
      ∀ j, (i < j)%nat → collections !! j = Some c →
        is_ok (answer (T:=DocumentsEnvelope) (n + j) (doc_path c)) = false.

Lemma run_get_json {T} `{Serde T} path (w : world St) :
  run orc (get_json (T:=T) mapping path) w = (answer (w_sent w) path, read path w).
Proof.
  unfold get_json, answer, read. cbn. destruct (o_net orc _ _); [done|]. by case_match.
Qed.

Lemma run_fetch_documents cs docs (w : world St) :
  ∃ docs', run orc (fetch_documents mapping cs docs) w =
    (docs', foldl (λ w path, read path w) w (doc_path <$> cs)) ∧
  ∀ c ds, docs' !! c = Some ds ↔
    (∃ i env, cs !! i = Some c ∧ answer (T:=DocumentsEnvelope) (w_sent w + i) (doc_path c) = Ok env ∧
       ds = de_documents env ∧
       ∀ j, (i < j)%nat → cs !! j = Some c →
         is_ok (answer (T:=DocumentsEnvelope) (w_sent w + j) (doc_path c)) = false) ∨
    ((∀ j, cs !! j = Some c →
       is_ok (answer (T:=DocumentsEnvelope) (w_sent w + j) (doc_path c)) = false) ∧
     docs !! c = Some ds).
Proof.
  revert docs w. induction cs as [|c cs IH]; intros docs w.
  { exists docs. split; [done|]. intros c ds. split; [by right|]. intros [(i & env & Hi & _)|[_ ?]]; done. }
  cbn [fetch_documents fmap list_fmap foldl]. rewrite run_pbind, run_get_json. fold (doc_path c).
  set (r := answer (w_sent w) (doc_path c)).
  destruct (IH (match r with Ok resp => <[c := de_documents resp]> docs | Err _ => docs end)
    (read (doc_path c) w)) as (docs' & Hrun & Hdocs).
  exists docs'. split; [exact Hrun|]. clear Hrun IH. cbn [w_sent read sent] in Hdocs.
  assert (∀ j c', answer (T:=DocumentsEnvelope) (S (w_sent w) + j) (doc_path c') =
    answer (T:=DocumentsEnvelope) (w_sent w + S j) (doc_path c')) as Eshift by (intros; f_equal; lia).
  intros c' ds. rewrite Hdocs. clear Hdocs. setoid_rewrite Eshift. split.
  - intros [(i & env & Hi & Hans & -> & Hlater)|[Hno Hds]].
    + left. exists (S i), env. split_and!; [done..|]. intros [|j] Hj Hc; [lia|]. apply Hlater; [lia|done].
    + destruct (decide (c' = c)) as [->|Hne].
      * destruct r as [env|e] eqn:Er.
        -- rewrite lookup_insert_eq in Hds. injection Hds as <-. left. exists 0%nat, env.
           rewrite Nat.add_0_r. split_and!; [done..|]. intros [|j] Hj Hc; [lia|]. by apply Hno.
        -- right. split; [|done]. intros [|j] Hj; [rewrite Nat.add_0_r; fold r; by rewrite Er|].
           by apply Hno.
      * assert (docs !! c' = Some ds) as Hds' by (destruct r; [by rewrite lookup_insert_ne in Hds|done]).
        right. split; [|done]. intros [|j] Hj; [cbn in Hj; congruence|by apply Hno].
  - intros [([|i] & env & Hi & Hans & -> & Hlater)|[Hno Hds]].
    + cbn in Hi. injection Hi as <-. rewrite Nat.add_0_r in Hans. right. split.
      * intros j Hj. apply (Hlater (S j)); [lia|done].
      * unfold r. rewrite Hans. by rewrite lookup_insert_eq.
    + left. exists i, env. split_and!; [done..|]. intros j Hj Hc. apply (Hlater (S j)); [lia|done].
    + right. split; [intros j; apply (Hno (S j))|]. destruct (decide (c' = c)) as [->|Hne].
      * specialize (Hno 0%nat eq_refl). rewrite Nat.add_0_r in Hno. fold r in Hno. by destruct r.
      * destruct r; [by rewrite lookup_insert_ne|done].
Qed.

Lemma w_tick_reads paths (w : world St) :
  w_tick (foldl (λ w path, read path w) w paths) = w_tick w.
Proof. revert w; induction paths as [|p paths IH]; intros w; [done|]. cbn. by rewrite IH. Qed.

(** The paths read before the documents. *)
Definition state_paths : list string :=
  ["/api/v1/node"; "/api/v1/topology"; "/api/v1/ready"; "/api/v1/peers"]%string.
Definition reads (paths : list string) (w : world St) : world St :=
  foldl (λ w path, read path w) w paths.

(** A snapshot says what the broker answered to the requests from number [n]. *)
Record snapshot_read (n : nat) (now : Z) (sn : Snapshot) : Prop := {
  sr_node : ∃ dto, answer n "/api/v1/node" = Ok dto ∧
    sn_node_info sn = {| node_id := nd_node_id dto; uptime_secs := nd_uptime_secs dto;
                         version := nd_version dto |};
  sr_topology : ∃ dto, answer (n + 1) "/api/v1/topology" = Ok dto ∧
    sn_topology sn = {| peer_count := td_peer_count dto; role := td_role dto;
                        hierarchy_level := td_hierarchy_level dto |};
  sr_readiness :
    match answer (T:=ReadinessDto) (n + 2) "/api/v1/ready" with
    | Ok dto => sn_readiness sn =
        {| rd_ready := rdto_ready dto; rd_node_id := rdto_node_id dto;
           rd_checks := (λ c, {| check_name := cd_name c; check_ready := cd_ready c;
                                 check_message := cd_message c |}) <$> rdto_checks dto |}
    | Err e => rd_ready (sn_readiness sn) = false ∧
        rd_node_id (sn_readiness sn) = node_id (sn_node_info sn) ∧
        rd_checks (sn_readiness sn) = [remote_check ("ready probe failed: " +:+ to_string e)]
    end;
  sr_peers : ∃ env, answer (n + 3) "/api/v1/peers" = Ok env ∧
    sn_peers sn = (λ p, {| ps_id := pd_id p; ps_connected := pd_connected p;
                           ps_state := pd_state p; ps_rtt_ms := pd_rtt_ms p |}) <$> pe_peers env;
  sr_documents : documents_read (n + 4) (mb_collections mapping) (sn_documents sn);
  sr_time : sn_last_sync_ms sn = Some (since_epoch now);
  sr_error : sn_last_error sn = None;
}.

(** The first of the three answers a refresh needs that is an error, with the
    requests made until then. *)
Definition first_failure (n : nat) (e : error) (paths : list string) : Prop :=
  (answer (T:=NodeInfoDto) n "/api/v1/node" = Err e ∧ paths = take 1 state_paths) ∨
  (is_ok (answer (T:=NodeInfoDto) n "/api/v1/node") = true ∧
   ((answer (T:=TopologyDto) (n + 1) "/api/v1/topology" = Err e ∧ paths = take 2 state_paths) ∨
    (is_ok (answer (T:=TopologyDto) (n + 1) "/api/v1/topology") = true ∧
     answer (T:=PeersEnvelope) (n + 3) "/api/v1/peers" = Err e ∧ paths = state_paths))).
End Refresh.

(** C23: A refresh reads the broker's node, topology, readiness and peers, then
    its collections in the order of the mapping, each request once. It fails with the
    error of the first of node, topology and peers that has one, and has then made
    only the reads up to that one. Otherwise the new snapshot is what those answers
    say (a readiness that cannot be read counts as not ready, a collection that cannot
    be read is left out), dated by the clock and without an error; the subscribers get
    the events of the difference; and when the broker has a CDC engine, the
    announcements of the documents that are new or have another text are published,
    one after the other, as long as no two compared texts have the same digest. *)
Theorem refresh_once_spec `{Backend St} orc st (w : world St) :
  let mapping := rb_mapping st in
  let n := w_sent w in
  let '(r, w') := run orc (refresh_once st) w in
  match r with
  | Err e => ∃ paths, first_failure orc mapping n e paths ∧ w' = reads orc mapping paths w
  | Ok st' =>
      let new := rb_snapshot st' in
      let w1 := ticked (reads orc mapping (state_paths ++ (doc_path <$> mb_collections mapping)) w) in
      snapshot_read orc mapping n (o_clock orc (w_tick w)) new ∧
      rb_events st' = rb_events st ++ emit_diffs (rb_snapshot st) new ∧
      rb_mapping st' = mapping ∧ rb_cdc_engine st' = rb_cdc_engine st ∧
      match rb_cdc_engine st with
      | None => w' = w1
      | Some engine =>
          no_collision (sn_documents (rb_snapshot st)) (sn_documents new) →
          w' = (run orc (publish_each engine
                  (announcements mapping (since_epoch (o_clock orc (w_tick w)))
                     (sn_documents (rb_snapshot st)) (sn_documents new))) w1).2
      end
  end.
Proof.
  cbv zeta. unfold refresh_once. set (mapping := rb_mapping st).
  rewrite run_mbind, run_get_json. destruct (answer _ _ (w_sent w) _) as [nd|e] eqn:E1.
  2: { exists (take 1 state_paths). split; [by left|done]. }
  rewrite run_mbind, run_get_json. cbn [w_sent read sent].
  destruct (answer _ _ (S (w_sent w)) _) as [td|e] eqn:E2.
  2: { exists (take 2 state_paths). split; [right|done]. rewrite E1, Nat.add_1_r. split; [done|by left]. }
  rewrite run_pbind, run_get_json, run_mbind, run_get_json. cbn [w_sent read sent].
  destruct (answer _ _ (S (S (S (w_sent w)))) _) as [pe|e] eqn:E3.
  2: { exists state_paths. split; [right|done]. rewrite E1, Nat.add_1_r, E2. split; [done|right].
       split; [done|]. by replace (w_sent w + 3)%nat with (S (S (S (w_sent w)))) by lia. }
  rewrite run_pbind.
  destruct (run_fetch_documents orc mapping (mb_collections mapping) ∅
    (read orc mapping "/api/v1/peers" (read orc mapping "/api/v1/ready"
      (read orc mapping "/api/v1/topology" (read orc mapping "/api/v1/node" w)))))
    as (docs & -> & Hdocs).
  rewrite run_pbind. cbn [perform run exec]. rewrite run_pbind, w_tick_reads. cbn [w_tick read sent].
  set (w0 := foldl _ _ _). set (new := Build_Snapshot _ _ _ _ _ _ _).
  assert (w0 = reads orc mapping (state_paths ++ (doc_path <$> mb_collections mapping)) w) as <-
    by (unfold reads; by rewrite foldl_app).
  assert (snapshot_read orc mapping (w_sent w) (o_clock orc (w_tick w)) new) as Hnew.
  { split; [by exists nd|exists td; by rewrite Nat.add_1_r| | | |done|done].
    - replace (w_sent w + 2)%nat with (S (S (w_sent w))) by lia.
      unfold new, readiness_of. cbn [sn_readiness sn_node_info].
      by destruct (answer (T:=ReadinessDto) orc mapping (S (S (w_sent w))) "/api/v1/ready").
    - exists pe. by replace (w_sent w + 3)%nat with (S (S (S (w_sent w)))) by lia.
    - intros c ds. cbn [sn_documents new]. rewrite Hdocs. cbn [w_sent read sent].
      replace (w_sent w + 4)%nat with (S (S (S (S (w_sent w))))) by lia.
      split; [|by left]. intros [?|[_ Hds]]; [done|]. by rewrite lookup_empty in Hds. }
  destruct (rb_cdc_engine st) as [engine|] eqn:Eng; [|by split_and!].
  pose proof (run_publish_cdc_diffs orc engine st new (since_epoch (o_clock orc (w_tick w))) (ticked w0)) as Hrun.
  fold mapping in Hrun.
  destruct (run orc (publish_cdc_diffs st engine new _) (ticked w0)) as [u w2].
  cbn [run]. split_and!; [exact Hnew|done..|]. intros Hnc. exact (f_equal snd (Hrun Hnc)).
Qed.

(** C31: A turn of the loop that fails keeps the peers, the documents and the time
    of the last good poll, and reports not ready with the error; nobody is sent an
    event. *)
Theorem refresh_tick_spec o fl st w :
  wp o fl (refresh_tick st)
    (λ st' w', w_store w' = w_store w ∧ rb_mapping st' = rb_mapping st ∧
       match sn_last_error (rb_snapshot st') with
       | None => is_Some (sn_last_sync_ms (rb_snapshot st'))
       | Some e =>
           list_peers st' = list_peers st ∧
           (∀ c, list_documents st' c = list_documents st c) ∧
           sn_last_sync_ms (rb_snapshot st') = sn_last_sync_ms (rb_snapshot st) ∧
           rd_ready (readiness st') = false ∧
           remote_check e ∈ rd_checks (readiness st') ∧ rb_events st' = rb_events st
       end) w.
Proof.
  unfold refresh_tick. apply wp_pbind. eapply wp_mono; [apply refresh_once_outcome|].
  intros [st'|err] w' (w1 & [Hs _] & Hr); apply wp_ret.
  - destruct Hr as ((ts & Hts & Hs' & _) & Herr & _ & Hm & _). rewrite Herr, Hts.
    split_and!; [congruence|done|done].
  - subst w'. split_and!; [done|done|]. cbn [record_error rb_snapshot sn_last_error].
    unfold readiness. cbn. destruct (sn_last_sync_ms (rb_snapshot st)); cbn; split_and!; try done; by left.
Qed.

(** ** An unavailable collection *)
Definition unavailable (rp : reply) : Prop :=
  match rp with NetErr _ => True | NetResp status _ => 400 <= status < 600 end.

Lemma wp_get_json_unavailable o fl {T} `{Serde T} mapping path Q w :
  (∀ n, unavailable (o_net o n (HttpGet (mb_base_url mapping +:+ path) []))) →
  (∀ e w', Q (Err e) w') → wp o fl (get_json (T:=T) mapping path) Q w.
Proof.
  intros Hun HQ. unfold get_json. apply wp_pbind, wp_net. specialize (Hun (w_sent w)).
  destruct (o_net o _ _) as [e|status body]; [by apply wp_ret|]. cbn in Hun.
  replace ((400 <=? status) && (status <? 600)) with true by lia. by apply wp_ret.
Qed.

Lemma fetch_documents_unavailable o fl mapping c cs docs w :
  (∀ n, unavailable (o_net o n
          (HttpGet (mb_base_url mapping +:+ "/api/v1/documents/" +:+ c) []))) →
  docs !! c = None →
  wp o fl (fetch_documents mapping cs docs) (λ docs' _, docs' !! c = None) w.
Proof.
  intros Hun. revert docs w; induction cs as [|c' cs IH]; intros docs w Hc; cbn [fetch_documents].
  { by apply wp_ret. }
  apply wp_pbind. destruct (decide (c' = c)) as [->|Hne].
  - apply wp_get_json_unavailable; [done|]. intros e w'. by apply IH.
  - eapply wp_mono; [apply wp_only_net, get_json_only_net|]. intros [resp|e] w' _; apply IH; [|done].
    by rewrite lookup_insert_ne.
Qed.

Lemma wp_reads_any o fl {A B} mapping (p : prog A) (f : A → prog B) Q w :
  only_net (get_url mapping) p → (∀ a w', wp o fl (f a) Q w') → wp o fl (pbind p f) Q w.
Proof.
  intros Hp Hf. apply wp_pbind. eapply wp_mono; [by apply wp_only_net|]. intros a w' _. apply Hf.
Qed.

(** A collection that cannot be read in a refresh that succeeds is
    forgotten, so the next refresh that reads it publishes every document of it
    again, changed or not. *)
Theorem lost_collection_republished o fl st c w :
  (∀ n, unavailable (o_net o n
          (HttpGet (mb_base_url (rb_mapping st) +:+ "/api/v1/documents/" +:+ c) []))) →
  wp o fl (refresh_once st)
    (λ r _, ∀ st', r = Ok st' →
       list_documents st' c = None ∧
       ∀ ts new docs doc id, new !! c = Some docs → doc ∈ docs → document_id doc = Some id →
         change_event (rb_mapping st) ts (sn_documents (rb_snapshot st')) new
           (announcement (rb_mapping st) ts c id doc)) w.
Proof.
  intros Hun. unfold refresh_once.
  do 2 (unfold mbind at 1; eapply wp_reads_any; [apply get_json_only_net|];
        intros [?|err] ?; [|by apply wp_ret]).
  eapply wp_reads_any; [apply get_json_only_net|]. intros ready w3.
  unfold mbind at 1. eapply wp_reads_any; [apply get_json_only_net|].
  intros [peers|err] w4; [|by apply wp_ret].
  apply wp_pbind. eapply wp_mono; [by apply (fetch_documents_unavailable _ _ _ c)|].
  intros documents w5 Hdocs.
  apply wp_pbind. cbn [perform wp wp_eff exec_env from_option fst snd].
  apply wp_pbind. set (new := Build_Snapshot _ _ _ _ _ _ _).
  eapply wp_mono; [|intros ? w7 _; apply wp_ret; intros st' [= <-]; split; [exact Hdocs|]].
  - destruct (rb_cdc_engine st); [apply publish_cdc_diffs_deliveries|].
    apply wp_ret, only_deliveries_refl.
  - intros ts new' docs doc id Hc Hin Hid. exists c, docs, doc, id. split_and!; [done|done| |done].
    split; [done|]. cbn. unfold last_known. by rewrite Hdocs.
Qed.
End Spec.
