(* ===== verification/Formations.v ===== *)
(** api/formations.rs: the registry of live mesh brokers, and the read-only views of
    a formation: its peers, its documents and its certificates. *)
From S2P Require Import Prelude Text Extern Models Errors Effects Config Crypto Manager Auth Cdc Watcher MeshIngest.
From Stdlib Require Import ZArith.

#[local] Open Scope Z_scope.

(** What the views ask of a [dyn MeshBrokerState]. *)
Record MeshBrokerState := {
  br_list_peers : list PeerSummary;
  br_list_documents : string → option (list Value);
}.
(** [impl MeshBrokerState for RemoteBrokerState] *)
Definition remote_broker (st : RemoteBrokerState) : MeshBrokerState := {|
  br_list_peers := MeshIngest.list_peers st;
  br_list_documents := MeshIngest.list_documents st;
|}.

Definition MeshStateRegistry : Type := gmap (string * string) MeshBrokerState.
Module registry.
Definition new : MeshStateRegistry := ∅.
Definition register (org_id app_id : string) (state : MeshBrokerState) (inner : MeshStateRegistry) :
    MeshStateRegistry := <[(org_id, app_id) := state]> inner.
Definition deregister (org_id app_id : string) (inner : MeshStateRegistry) : MeshStateRegistry :=
  delete (org_id, app_id) inner.
Definition get (org_id app_id : string) (inner : MeshStateRegistry) : option MeshBrokerState :=
  inner !! (org_id, app_id).
End registry.

(** mesh_ingest.rs: [register_remote_broker], the registration of a polled broker. *)
Definition register_remote_broker (engine : option CdcEngine) (mapping : MeshBrokerMapping)
    (inner : MeshStateRegistry) : MeshStateRegistry :=
  registry.register (mb_org_id mapping) (mb_app_id mapping)
    (remote_broker (RemoteBrokerState_new mapping engine)) inner.

Record DocumentSummary := {
  ds_doc_id : string;
  ds_key_count : Z;
  ds_last_modified : Z;
}.
Record CertificateSummary := {
  cs_peer_id : string;
  cs_fingerprint : string;
  cs_issued_at : Z;
  cs_expires_at : Z;
  cs_revoked : bool;
}.

(** [obj.entry(k).or_insert(v)], on a document that is an object. *)
Definition or_insert (k : string) (v : Value) (doc : Value) : Value :=
  match doc with
  | JObject obj =>
      match map_get obj k with
      | Some _ => doc
      | None => JObject (obj ++ [(k, v)])
      end
  | _ => doc
  end.

Definition fallback_collections : list string :=
  ["cot-broadcast"; "contacts"; "markers"; "missions"]%string.

Fixpoint aggregate (broker : MeshBrokerState) (collections : list string) : list Value :=
  match collections with
  | [] => []
  | collection :: collections =>
      match br_list_documents broker collection with
      | Some docs => or_insert "_collection" (JString collection) <$> docs
      | None => []
      end ++ aggregate broker collections
  end.

Definition document_summary (val : Value) : DocumentSummary := {|
  ds_doc_id := default "unknown"%string (document_id val);
  ds_key_count := match val with JObject m => Z.of_nat (length m) | _ => 0 end;
  ds_last_modified := default 0 (v ← value_get val "_last_modified"; as_u64 v);
|}.

Definition peer_info (app_id : string) (now : Z) (s : PeerSummary) : PeerInfo := {|
  p_peer_id := ps_id s; p_app_id := app_id;
  p_status := if ps_connected s then Connected else Disconnected;
  p_last_seen := now |}.

(** An approved enrollment, as an issued certificate. *)
Definition enrollment_summary (entry : EnrollmentAuditEntry) `{HexLib} : option CertificateSummary :=
  match a_decision entry with
  | Approved _ _ =>
      Some {| cs_peer_id := a_subject entry;
              cs_fingerprint := hex_encode (take 8 (as_bytes (a_subject entry)));
              cs_issued_at := a_timestamp_ms entry; cs_expires_at := 0; cs_revoked := false |}
  | Denied _ => None
  end.

Section Views.
Context `{HexLib} `{AeadLib} `{MeshLib}.
Context (mgr : TenantManager) (mesh : MeshStateRegistry).

Definition list_peers (org_id app_id : string) : prog (result ApiError (list PeerInfo)) :=
  let! _ := mmap_err not_found (get_formation org_id app_id) in
  match registry.get org_id app_id mesh with
  | None => ok []
  | Some broker =>
      let summaries := br_list_peers broker in
      try! now := perform SystemTime in
      let now_ms := since_epoch now in
      ok (peer_info app_id now_ms <$> summaries)
  end.

Definition list_documents (org_id app_id : string) :
    prog (result ApiError (list DocumentSummary)) :=
  let! _ := mmap_err not_found (get_formation org_id app_id) in
  match registry.get org_id app_id mesh with
  | None => ok []
  | Some broker =>
      let docs :=
        match br_list_documents broker app_id with
        | Some d => d
        | None => aggregate broker fallback_collections
        end in
      ok (document_summary <$> docs)
  end.

Definition list_certificates (org_id app_id : string) :
    prog (result ApiError (list CertificateSummary)) :=
  let! _ := mmap_err not_found (get_formation org_id app_id) in
  let! genesis := mmap_err internal (load_genesis mgr org_id app_id) in
  let root_cert := genesis_root_certificate genesis "authority-0" in
  let authority_fingerprint := hex_encode (take 8 (rc_subject_public_key root_cert)) in
  let root := {| cs_peer_id := rc_node_id root_cert; cs_fingerprint := authority_fingerprint;
                 cs_issued_at := rc_issued_at_ms root_cert;
                 cs_expires_at := rc_expires_at_ms root_cert; cs_revoked := false |} in
  let! audit_entries := mmap_err internal (list_audit org_id (Some app_id) 1000) in
  ok (root :: omap (λ e, enrollment_summary e) audit_entries).
End Views.
