(* ===== verification/Api.v ===== *)
(** api/: the HTTP surface of the control plane.

    The handlers of orgs.rs, tokens.rs, sinks.rs and identity.rs, one Module a
    file; the routes of every router; [serve], a request through the router that
    api/mod.rs assembles, with the admin middleware in front of the admin routes; and
    the routers around it, with the load test's endpoint and the front end's files.
    axum's extractors are parameters ([AxumLib]). *)
From S2P Require Import Prelude Text Extern Models Errors Effects Crypto Manager Auth Enroll Cdc Watcher MeshIngest Formations.
From Stdlib Require Import ZArith.

#[local] Open Scope Z_scope.

(** ** Request bodies, as received *)
Record CreateOrgRequest := { co_org_id : string; co_display_name : string }.
Record UpdateOrgRequest := { uo_display_name : option string; uo_quotas : option OrgQuotas }.
Record CreateFormationRequest := { cf_app_id : string; cf_enrollment_policy : option EnrollmentPolicy }.
Record CreateTokenRequest := {
  ct_app_id : string; ct_label : string; ct_max_uses : option Z; ct_expires_at : option Z }.
Record CreateSinkRequest := { cs_sink_type : CdcSinkType }.
Record ToggleSinkRequest := { ts_enabled : bool }.
Record CreateIdpRequest := { ci_issuer_url : string; ci_client_id : string; ci_client_secret : string }.
Record ToggleIdpRequest := { ti_enabled : bool }.
Record CreatePolicyRuleRequest := {
  cr_claim_key : string; cr_claim_value : string; cr_tier : MeshTier;
  cr_permissions : option Z; cr_priority : option Z }.
Record AuditQuery := { aq_app_id : option string; aq_limit : option Z }.

(** The serde defaults of absent fields *)
Definition default_enrollment_policy : EnrollmentPolicy := Controlled.
Definition default_priority : Z := 100.
Definition default_limit : Z := 100.

(** The bodies of answers *)
Inductive payload : Type :=
| PUnit
| POrg (o : Organization) | POrgs (l : list Organization)
| PFormation (f : FormationConfig) | PFormations (l : list FormationConfig)
| PToken (t : EnrollmentToken) | PTokens (l : list EnrollmentToken)
| PSink (s : CdcSinkConfig) | PSinks (l : list CdcSinkConfig)
| PIdp (i : IdpConfigResponse) | PIdps (l : list IdpConfigResponse)
| PRule (r : PolicyRule) | PRules (l : list PolicyRule)
| PAudit (l : list EnrollmentAuditEntry)
| PPeers (l : list PeerInfo) | PDocuments (l : list DocumentSummary)
| PCertificates (l : list CertificateSummary)
| PEnrollment (r : EnrollmentResponse)
| PHealth | PMetrics.

Abbreviation handler := (prog (result ApiError (Z * payload))).

(** [call.await.map(|x| (status, Json(x))).map_err(f)] *)
Definition answer {A} (status : Z) (body : A → payload) (err : error → ApiError) (c : M A) : handler :=
  pbind c (λ r, Ret match r with
                    | Ok a => Ok (status, body a)
                    | Err e => Err (err e)
                    end).

(** ** orgs.rs *)
Module orgs.
Section Handlers.
Context `{HexLib} `{AeadLib} `{MeshLib} (mgr : TenantManager).

Definition create_org (req : CreateOrgRequest) : handler :=
  answer OK POrg bad_request (Manager.create_org (co_org_id req) (co_display_name req)).
Definition list_orgs : handler := answer OK POrgs bad_request Manager.list_orgs.
Definition get_org (org_id : string) : handler :=
  answer OK POrg not_found (Manager.get_org org_id).
Definition update_org (org_id : string) (req : UpdateOrgRequest) : handler :=
  answer OK POrg not_found (Manager.update_org org_id (uo_display_name req) (uo_quotas req)).
Definition delete_org (org_id : string) : handler :=
  answer OK (λ _, PUnit) not_found (Manager.delete_org org_id).
Definition create_formation (org_id : string) (req : CreateFormationRequest) : handler :=
  answer CREATED PFormation bad_request
    (Manager.create_formation mgr org_id (cf_app_id req)
       (default default_enrollment_policy (cf_enrollment_policy req))).
Definition list_formations (org_id : string) : handler :=
  answer OK PFormations not_found (Manager.list_formations org_id).
Definition get_formation (org_id app_id : string) : handler :=
  answer OK PFormation not_found (Manager.get_formation org_id app_id).
Definition delete_formation (org_id app_id : string) : handler :=
  answer OK (λ _, PUnit) not_found (Manager.delete_formation org_id app_id).
End Handlers.
End orgs.

(** ** tokens.rs *)
Module tokens.
Section Handlers.
Context `{HexLib} `{AeadLib} `{MeshLib} (mgr : TenantManager).

Definition create_token (org_id : string) (req : CreateTokenRequest) : handler :=
  answer CREATED PToken bad_request
    (Manager.create_token org_id (ct_app_id req) (ct_label req) (ct_max_uses req) (ct_expires_at req)).
Definition list_tokens (org_id app_id : string) : handler :=
  answer OK PTokens not_found (Manager.list_tokens org_id app_id).
Definition get_token (org_id token_id : string) : handler :=
  answer OK PToken not_found (Manager.get_token org_id token_id).
Definition revoke_token (org_id token_id : string) : handler :=
  answer OK PToken bad_request (Manager.revoke_token org_id token_id).
Definition delete_token (org_id token_id : string) : handler :=
  answer OK (λ _, PUnit) not_found (Manager.delete_token org_id token_id).
End Handlers.
End tokens.

(** ** sinks.rs *)
Module sinks.
Section Handlers.
Context `{HexLib} `{AeadLib} `{MeshLib} (mgr : TenantManager).

Definition create_sink (org_id : string) (req : CreateSinkRequest) : handler :=
  answer CREATED PSink bad_request (Manager.create_sink org_id (cs_sink_type req)).
Definition list_sinks (org_id : string) : handler :=
  answer OK PSinks not_found (Manager.list_sinks org_id).
Definition get_sink (org_id sink_id : string) : handler :=
  answer OK PSink not_found (Manager.get_sink org_id sink_id).
Definition toggle_sink (org_id sink_id : string) (req : ToggleSinkRequest) : handler :=
  answer OK PSink not_found (Manager.toggle_sink org_id sink_id (ts_enabled req)).
Definition delete_sink (org_id sink_id : string) : handler :=
  answer OK (λ _, PUnit) not_found (Manager.delete_sink org_id sink_id).
End Handlers.
End sinks.

(** ** identity.rs *)
Module identity.
Section Handlers.
Context `{HexLib} `{AeadLib} `{MeshLib} (mgr : TenantManager).

Definition create_idp (org_id : string) (req : CreateIdpRequest) : handler :=
  answer CREATED (PIdp ∘ idp_response) bad_request
    (Manager.create_idp org_id (ci_issuer_url req) (ci_client_id req) (ci_client_secret req)).
Definition list_idps (org_id : string) : handler :=
  answer OK (λ idps, PIdps (idp_response <$> idps)) not_found (Manager.list_idps org_id).
Definition get_idp (org_id idp_id : string) : handler :=
  answer OK (PIdp ∘ idp_response) not_found (Manager.get_idp org_id idp_id).
Definition toggle_idp (org_id idp_id : string) (req : ToggleIdpRequest) : handler :=
  answer OK (PIdp ∘ idp_response) not_found (Manager.toggle_idp org_id idp_id (ti_enabled req)).
Definition delete_idp (org_id idp_id : string) : handler :=
  answer OK (λ _, PUnit) not_found (Manager.delete_idp org_id idp_id).
Definition create_policy_rule (org_id : string) (req : CreatePolicyRuleRequest) : handler :=
  answer CREATED PRule bad_request
    (Manager.create_policy_rule org_id (cr_claim_key req) (cr_claim_value req) (cr_tier req)
       (default 0 (cr_permissions req)) (default default_priority (cr_priority req))).
Definition list_policy_rules (org_id : string) : handler :=
  answer OK PRules not_found (Manager.list_policy_rules org_id).
Definition delete_policy_rule (org_id rule_id : string) : handler :=
  answer OK (λ _, PUnit) not_found (Manager.delete_policy_rule org_id rule_id).
Definition list_audit (org_id : string) (q : AuditQuery) : handler :=
  answer OK PAudit not_found
    (Manager.list_audit org_id (aq_app_id q) (default default_limit (aq_limit q))).
End Handlers.
End identity.

(** ** cdc_test.rs: the load test's endpoint *)
Module cdc_test.
Record TestEventPayload := {
  te_app_id : string;
  te_document_id : string;
  te_actor_id : option string;
  te_patches : option Value;
}.
Definition default_actor : string := "test-actor".

Section Handlers.
Context `{HexLib} `{HttpLib} `{Serde CdcEvent} (engine : CdcEngine).

Definition publish_test_event (org_id : string) (p : TestEventPayload) : prog (Z * Value) :=
  try! org := get_org org_id in
  match org with
  | Err e => Ret (NOT_FOUND, JObject [("error", JString (to_string e))]%string)
  | Ok _ =>
      try! buf := random_bytes 8 in
      let change_hash := "test-" +:+ hex_encode buf in
      try! timestamp_ms := now_ms in
      let event := {| e_org_id := org_id; e_app_id := te_app_id p;
                      e_document_id := te_document_id p; e_change_hash := change_hash;
                      e_actor_id := default default_actor (te_actor_id p);
                      e_timestamp_ms := timestamp_ms;
                      e_patches := default JNull (te_patches p) |} in
      try! r := publish engine event in
      match r with
      | Ok _ => Ret (OK, JObject [("published", JBool true); ("change_hash", JString change_hash)]%string)
      | Err e => Ret (INTERNAL_SERVER_ERROR, JObject [("error", JString (to_string e))]%string)
      end
  end.
End Handlers.
End cdc_test.

(** ** Routing *)
Inductive method := GET | POST | PATCH | DELETE.
#[export] Instance method_eqdec : EqDecision method.
Proof. solve_decision. Defined.

Inductive segment := Lit (s : string) | Param.

Record Request := {
  rq_method : method;
  rq_path : list string;
  rq_query : string;
  rq_headers : HeaderMap;
  rq_body : bytes;
}.

(** axum's extractors; an error is the answer axum gives itself. *)
Class AxumLib := {
  extract_json {A} `{Serde A} : HeaderMap → bytes → result ApiError A;
  extract_query : string → result ApiError AuditQuery;
  wrong_path_arguments : ApiError;
}.

(** The parameters of a path that has the shape of a pattern; a parameter is not
    empty. *)
Fixpoint match_path (pattern : list segment) (path : list string) : option (list string) :=
  match pattern, path with
  | [], [] => Some []
  | Lit s :: pattern, x :: path => if decide (x = s) then match_path pattern path else None
  | Param :: pattern, x :: path =>
      if is_empty x then None else ps ← match_path pattern path; Some (x :: ps)
  | _, _ => None
  end.

Section Routes.
Context `{HexLib} `{AeadLib} `{MeshLib} `{HttpLib} `{AxumLib} `{Serde Value} `{Serde Map}.
Context `{Serde CreateOrgRequest} `{Serde UpdateOrgRequest} `{Serde CreateFormationRequest}
  `{Serde CreateTokenRequest} `{Serde CreateSinkRequest} `{Serde ToggleSinkRequest}
  `{Serde CreateIdpRequest} `{Serde ToggleIdpRequest} `{Serde CreatePolicyRuleRequest}
  `{Serde EnrollRequest}.
Context (mgr : TenantManager) (mesh : MeshStateRegistry) (oidc : bool).

Definition endpoint : Type := list string → Request → handler.
Definition route : Type := list segment * list (method * endpoint).

(** [Path(..)], then [Json(..)] *)
Definition path0 (f : Request → handler) : endpoint := λ ps rq,
  match ps with [] => f rq | _ => bail wrong_path_arguments end.
Definition path1 (f : string → Request → handler) : endpoint := λ ps rq,
  match ps with [a] => f a rq | _ => bail wrong_path_arguments end.
Definition path2 (f : string → string → Request → handler) : endpoint := λ ps rq,
  match ps with [a; b] => f a b rq | _ => bail wrong_path_arguments end.
Definition with_json {A} `{Serde A} (f : A → handler) (rq : Request) : handler :=
  let! body := lift (extract_json (rq_headers rq) (rq_body rq)) in f body.
Definition no_body (h : handler) (rq : Request) : handler := h.

Definition view {A} (body : A → payload) (c : prog (result ApiError A)) : handler :=
  let! a := c in ok (OK, body a).

Definition orgs_routes : list route := [
  ([], [(POST, path0 (with_json orgs.create_org)); (GET, path0 (no_body orgs.list_orgs))]);
  ([Param], [(GET, path1 (λ o, no_body (orgs.get_org o)));
             (PATCH, path1 (λ o, with_json (orgs.update_org o)));
             (DELETE, path1 (λ o, no_body (orgs.delete_org o)))]);
  ([Param; Lit "formations"], [(POST, path1 (λ o, with_json (orgs.create_formation mgr o)));
                               (GET, path1 (λ o, no_body (orgs.list_formations o)))]);
  ([Param; Lit "formations"; Param],
     [(GET, path2 (λ o a, no_body (orgs.get_formation o a)));
      (DELETE, path2 (λ o a, no_body (orgs.delete_formation o a)))])].

Definition tokens_routes : list route := [
  ([Param; Lit "tokens"], [(POST, path1 (λ o, with_json (tokens.create_token o)))]);
  ([Param; Lit "formations"; Param; Lit "tokens"],
     [(GET, path2 (λ o a, no_body (tokens.list_tokens o a)))]);
  ([Param; Lit "tokens"; Param], [(GET, path2 (λ o t, no_body (tokens.get_token o t)));
                                  (DELETE, path2 (λ o t, no_body (tokens.delete_token o t)))]);
  ([Param; Lit "tokens"; Param; Lit "revoke"],
     [(POST, path2 (λ o t, no_body (tokens.revoke_token o t)))])].

Definition sinks_routes : list route := [
  ([Param; Lit "sinks"], [(POST, path1 (λ o, with_json (sinks.create_sink o)));
                          (GET, path1 (λ o, no_body (sinks.list_sinks o)))]);
  ([Param; Lit "sinks"; Param], [(GET, path2 (λ o s, no_body (sinks.get_sink o s)));
                                 (PATCH, path2 (λ o s, with_json (sinks.toggle_sink o s)));
                                 (DELETE, path2 (λ o s, no_body (sinks.delete_sink o s)))])].

Definition identity_routes : list route := [
  ([Param; Lit "idps"], [(POST, path1 (λ o, with_json (identity.create_idp o)));
                         (GET, path1 (λ o, no_body (identity.list_idps o)))]);
  ([Param; Lit "idps"; Param], [(GET, path2 (λ o i, no_body (identity.get_idp o i)));
                                (PATCH, path2 (λ o i, with_json (identity.toggle_idp o i)));
                                (DELETE, path2 (λ o i, no_body (identity.delete_idp o i)))]);
  ([Param; Lit "policy-rules"], [(POST, path1 (λ o, with_json (identity.create_policy_rule o)));
                                 (GET, path1 (λ o, no_body (identity.list_policy_rules o)))]);
  ([Param; Lit "policy-rules"; Param],
     [(DELETE, path2 (λ o r, no_body (identity.delete_policy_rule o r)))]);
  ([Param; Lit "audit"],
     [(GET, path1 (λ o rq, let! q := lift (extract_query (rq_query rq)) in identity.list_audit o q))])].

Definition formations_routes : list route := [
  ([Param; Lit "formations"; Param; Lit "peers"],
     [(GET, path2 (λ o a, no_body (view PPeers (list_peers mesh o a))))]);
  ([Param; Lit "formations"; Param; Lit "documents"],
     [(GET, path2 (λ o a, no_body (view PDocuments (list_documents mesh o a))))]);
  ([Param; Lit "formations"; Param; Lit "certificates"],
     [(GET, path2 (λ o a, no_body (view PCertificates (list_certificates mgr o a))))])].

(** enroll.rs: a router without routes unless the feature is on; a body that
    is not the request is no body. *)
Definition enroll_routes : list route :=
  if oidc then
    [([Param; Lit "formations"; Param; Lit "enroll"],
        [(POST, path2 (λ o a rq,
            let body := match extract_json (rq_headers rq) (rq_body rq) with
                        | Ok b => Some b
                        | Err _ => None
                        end in
            view PEnrollment (enroll mgr o a (rq_headers rq) body)))])]
  else [].

Definition health_routes : list route := [
  ([Lit "health"], [(GET, path0 (no_body (ok (OK, PHealth))))]);
  ([Lit "metrics"], [(GET, path0 (no_body (ok (OK, PMetrics))))])].

Definition nest (prefix : string) (rs : list route) : list route :=
  (λ r, (Lit prefix :: r.1, r.2)) <$> rs.

Definition admin_routes : list route :=
  nest "orgs" orgs_routes ++ nest "orgs" tokens_routes ++ nest "orgs" sinks_routes ++
  nest "orgs" identity_routes ++ nest "orgs" formations_routes.
Definition public_routes : list route := nest "orgs" enroll_routes ++ health_routes.

Fixpoint find_method (m : method) (es : list (method * endpoint)) : option endpoint :=
  match es with
  | [] => None
  | (m', e) :: es => if decide (m' = m) then Some e else find_method m es
  end.

(** The handler of a request, when a route has its path and its method. *)
Fixpoint find_route (rs : list route) (rq : Request) : option handler :=
  match rs with
  | [] => None
  | (pattern, es) :: rs =>
      match match_path pattern (rq_path rq) with
      | Some ps => e ← find_method (rq_method rq) es; Some (e ps rq)
      | None => find_route rs rq
      end
  end.

(** [app_authenticated_with_mesh]; [None] when axum itself answers, with 404 or
    405. *)
Definition serve (admin_token : option string) (rq : Request) : option handler :=
  match find_route admin_routes rq with
  | Some h =>
      Some (let! r := require_admin_token admin_token (rq_headers rq) h in lift r)
  | None => find_route public_routes rq
  end.
End Routes.

(** ** The routers of mod.rs *)
(** What answers a request: a handler of the API, the load test's endpoint, or a
    file of the user interface's directory. *)
Inductive answered : Type :=
| Handler (h : handler)
| TestEvent (h : prog (result ApiError (Z * Value)))
| StaticFile (dir : string) (path : list string).

Section Routers.
Context `{HexLib} `{AeadLib} `{MeshLib} `{HttpLib} `{AxumLib} `{Serde Value} `{Serde Map}.
Context `{Serde CreateOrgRequest} `{Serde UpdateOrgRequest} `{Serde CreateFormationRequest}
  `{Serde CreateTokenRequest} `{Serde CreateSinkRequest} `{Serde ToggleSinkRequest}
  `{Serde CreateIdpRequest} `{Serde ToggleIdpRequest} `{Serde CreatePolicyRuleRequest}
  `{Serde EnrollRequest} `{Serde CdcEvent} `{Serde cdc_test.TestEventPayload}.
(** The features [oidc] and [loadtest] *)
Context (oidc loadtest : bool).

Definition app_authenticated_with_mesh (mgr : TenantManager) (admin_token : option string)
    (mesh : MeshStateRegistry) (rq : Request) : option handler :=
  serve mgr mesh oidc admin_token rq.
Definition app_authenticated (mgr : TenantManager) (admin_token : option string) :
    Request → option handler :=
  app_authenticated_with_mesh mgr admin_token registry.new.
Definition app (mgr : TenantManager) : Request → option handler :=
  app_authenticated_with_mesh mgr None registry.new.

(** [cdc_test::router], nested under /orgs *)
Definition cdc_test_router (engine : CdcEngine) (rq : Request) :
    option (prog (result ApiError (Z * Value))) :=
  match match_path [Lit "orgs"; Param; Lit "cdc"; Lit "test"]%string (rq_path rq), rq_method rq with
  | Some [org_id], POST =>
      Some (let! body := lift (extract_json (rq_headers rq) (rq_body rq)) in
            try! a := cdc_test.publish_test_event engine org_id body in ok a)
  | _, _ => None
  end.

Definition router_with_mesh (mgr : TenantManager) (engine : CdcEngine) (ui_dir : option string)
    (admin_token : option string) (mesh : MeshStateRegistry) (rq : Request) : option answered :=
  match app_authenticated_with_mesh mgr admin_token mesh rq with
  | Some h => Some (Handler h)
  | None =>
      match (if loadtest then cdc_test_router engine rq else None) with
      | Some h => Some (TestEvent h)
      | None =>
          match ui_dir, rq_path rq with
          | Some dir, "_"%string :: path => Some (StaticFile dir path)
          | _, _ => None
          end
      end
  end.
Definition router (mgr : TenantManager) (engine : CdcEngine) (ui_dir admin_token : option string) :
    Request → option answered :=
  router_with_mesh mgr engine ui_dir admin_token registry.new.
End Routers.
