(* ===== verification/ApiSpec.v ===== *)
(** The HTTP surface: no two routes answer the same path, the admin token guards
    every admin route, and no answer depends on a client secret. *)
From S2P Require Import Prelude Text Extern Models Errors Effects Spec Wp Crypto Manager Mem ManagerInv Auth Enroll Cdc Watcher MeshIngest Formations Api.
From Stdlib Require Import ZArith.

#[local] Open Scope Z_scope.

(** ** Patterns that some path has both the shapes of *)
Fixpoint overlap (p q : list segment) : bool :=
  match p, q with
  | [], [] => true
  | Lit a :: p, Lit b :: q => bool_decide (a = b) && overlap p q
  | Lit a :: p, Param :: q | Param :: p, Lit a :: q => negb (is_empty a) && overlap p q
  | Param :: p, Param :: q => overlap p q
  | _, _ => false
  end.

Lemma match_path_overlap p q path ps qs :
  match_path p path = Some ps → match_path q path = Some qs → overlap p q = true.
Proof.
  revert q path ps qs; induction p as [|[a|] p IH]; intros [|[b|] q] [|x path] ps qs; cbn; try done;
    repeat case_decide; subst; try done.
  - intros. rewrite bool_decide_eq_true_2 by done. by eapply IH.
  - destruct (is_empty a); [done|]. intros Hp Hq. apply bind_Some in Hq as (? & ? & _). by eapply IH.
  - destruct (is_empty b); [done|]. intros Hp Hq. apply bind_Some in Hp as (? & ? & _). by eapply IH.
  - destruct (is_empty x); [done|]. intros Hp Hq.
    apply bind_Some in Hp as (? & ? & _). apply bind_Some in Hq as (? & ? & _). by eapply IH.
Qed.

(** No element is related to a later one. *)
Fixpoint pairwise_apart (ps : list (list segment)) : bool :=
  match ps with
  | [] => true
  | p :: ps => forallb (λ q, negb (overlap p q)) ps && pairwise_apart ps
  end.

Lemma pairwise_apart_lookup ps i j p q :
  pairwise_apart ps = true → ps !! i = Some p → ps !! j = Some q → (i < j)%nat → overlap p q = false.
Proof.
  revert i j; induction ps as [|p0 ps IH]; intros i j; [done|]. cbn [pairwise_apart].
  intros [Hall Hps]%andb_true_iff Hi Hj Hlt. destruct j as [|j]; [lia|].
  destruct i as [|i]; [|eapply IH; eauto; lia]. injection Hi as ->.
  rewrite forallb_forall in Hall. specialize (Hall q).
  rewrite negb_true_iff in Hall. apply Hall, list_elem_of_In. by eapply list_elem_of_lookup_2.
Qed.

Section Routes.
Context `{HexLib} `{AeadLib} `{MeshLib} `{HttpLib} `{AxumLib} `{Serde Value} `{Serde Map}.
Context `{Serde CreateOrgRequest} `{Serde UpdateOrgRequest} `{Serde CreateFormationRequest}
  `{Serde CreateTokenRequest} `{Serde CreateSinkRequest} `{Serde ToggleSinkRequest}
  `{Serde CreateIdpRequest} `{Serde ToggleIdpRequest} `{Serde CreatePolicyRuleRequest}
  `{Serde EnrollRequest}.
Context (mgr : TenantManager) (mesh : MeshStateRegistry) (oidc : bool).

(** A path has the shape of at most one route, so the order of the routers
    does not matter and no admin route is reachable through a public one. *)
Theorem routes_unambiguous path i j ri rj ps qs :
  (admin_routes mgr mesh ++ public_routes mgr oidc) !! i = Some ri →
  (admin_routes mgr mesh ++ public_routes mgr oidc) !! j = Some rj →
  match_path ri.1 path = Some ps → match_path rj.1 path = Some qs → i = j.
Proof.
  intros Hi Hj Hp Hq. set (rs := _ ++ _) in *.
  assert (pairwise_apart (fst <$> rs) = true) as Hap by (by destruct oidc; vm_compute).
  assert ((fst <$> rs) !! i = Some ri.1) as Hi' by (apply list_lookup_fmap_Some; eauto).
  assert ((fst <$> rs) !! j = Some rj.1) as Hj' by (apply list_lookup_fmap_Some; eauto).
  pose proof (match_path_overlap _ _ _ _ _ Hp Hq) as Hpq.
  pose proof (match_path_overlap _ _ _ _ _ Hq Hp) as Hqp.
  destruct (Nat.lt_trichotomy i j) as [Hlt|[Heq|Hlt]]; [|done|].
  - by rewrite (pairwise_apart_lookup _ _ _ _ _ Hap Hi' Hj' Hlt) in Hpq.
  - by rewrite (pairwise_apart_lookup _ _ _ _ _ Hap Hj' Hi' Hlt) in Hqp.
Qed.

(** C10: With an admin token configured, a request for an admin route runs the
    route's handler exactly when it presents the token, and otherwise is answered 401
    or 403 with nothing done; requests for public routes need no token. *)
Theorem admin_routes_guarded {St} `{Backend St} (o : oracle) token rq (w : world St) :
  match find_route (admin_routes mgr mesh) rq with
  | Some h =>
      ∃ g, serve mgr mesh oidc (Some token) rq = Some g ∧
        run o g w =
        match bearer (rq_headers rq) with
        | Some provided =>
            if decide (provided = token) then run o h w
            else (Err (FORBIDDEN, "Invalid admin token"%string), w)
        | None => (Err (UNAUTHORIZED, "Admin token required"%string), w)
        end
  | None => serve mgr mesh oidc (Some token) rq = find_route (public_routes mgr oidc) rq
  end.
Proof.
  unfold serve. destruct (find_route (admin_routes mgr mesh) rq) as [h|]; [|done].
  eexists. split; [done|]. rewrite run_mbind, require_admin_token_run.
  destruct (bearer _) as [provided|]; [|done]. case_decide; [|done].
  by destruct (run o h w) as [r w'].
Qed.
End Routes.

(** ** Client secrets *)
Definition erase_secret (i : IdpConfig) : IdpConfig := {|
  i_idp_id := i_idp_id i; i_org_id := i_org_id i; i_issuer_url := i_issuer_url i;
  i_client_id := i_client_id i; i_client_secret := EmptyString;
  i_enabled := i_enabled i; i_created_at := i_created_at i |}.
Definition same_idp (i j : IdpConfig) : Prop := erase_secret i = erase_secret j.

(** Contents that differ in client secrets only. *)
Definition erase (m : db) : db := upd_idps (fmap erase_secret) m.
Definition same_but_secrets (m m' : db) : Prop := erase m = erase m'.
Definition low_equiv (w w' : world db) : Prop :=
  set_store (erase (w_store w)) w = set_store (erase (w_store w')) w'.

#[export] Instance low_equiv_equiv : Equivalence low_equiv.
Proof. unfold low_equiv. split; congruence. Qed.

Lemma low_equiv_fields w w' :
  low_equiv w w' ↔ erase (w_store w) = erase (w_store w') ∧ w_tick w = w_tick w' ∧
    w_rpos w = w_rpos w' ∧ w_sent w = w_sent w' ∧ w_trace w = w_trace w'.
Proof.
  unfold low_equiv, set_store. destruct w as [m t r n tr], w' as [m' t' r' n' tr']; cbn. split; [|by intros (-> & -> & -> & -> & ->)].
  intros E. split_and!; [exact (f_equal w_store E)|exact (f_equal w_tick E)|
    exact (f_equal w_rpos E)|exact (f_equal w_sent E)|exact (f_equal w_trace E)].
Qed.

Lemma rows_of_fmap `{Countable K} `{OrgKey K} {V W} (f : V → W) org_id (t : gmap K V) :
  rows_of org_id (f <$> t) = f <$> rows_of org_id t.
Proof. unfold rows_of. by rewrite map_filter_fmap. Qed.

Section Low.
Context (o : oracle).

(** Two programs whose answers are related from contents that differ in secrets. *)
Definition rel {A B} (R : A → B → Prop) (p : prog A) (q : prog B) : Prop :=
  ∀ w w', low_equiv w w' →
    R (run o p w).1 (run o q w').1 ∧ low_equiv (run o p w).2 (run o q w').2.

Lemma rel_ret {A B} (R : A → B → Prop) a b : R a b → rel R (Ret a) (Ret b).
Proof. by split. Qed.

Lemma rel_pbind {A B A' B'} (R : A → A' → Prop) (Q : B → B' → Prop) p p' f f' :
  rel R p p' → (∀ a a', R a a' → rel Q (f a) (f' a')) → rel Q (pbind p f) (pbind p' f').
Proof.
  intros Hp Hf w w' Hw. destruct (Hp w w' Hw) as [Ha Hw1]. rewrite !run_pbind.
  destruct (run o p w) as [a w1], (run o p' w') as [a' w1']. by apply Hf.
Qed.

Definition rel_result {A A'} (R : A → A' → Prop) (r : Result A) (r' : Result A') : Prop :=
  match r, r' with
  | Ok a, Ok a' => R a a'
  | Err e, Err e' => e = e'
  | _, _ => False
  end.

Lemma rel_mbind {A B A' B'} (R : A → A' → Prop) (Q : B → B' → Prop) (p : M A) (p' : M A') f f' :
  rel (rel_result R) p p' → (∀ a a', R a a' → rel (rel_result Q) (f a) (f' a')) →
  rel (rel_result Q) (mbind p f) (mbind p' f').
Proof.
  intros Hp Hf. eapply rel_pbind; [exact Hp|]. intros [a|e] [a'|e'] Hr; try done. by apply Hf.
Qed.

(** Effects that do not read a secret answer the same. *)
Lemma rel_effect {X} (e : eff X) :
  eff_no_store e → rel eq (perform e) (perform e).
Proof.
  intros He w w' Hw. apply low_equiv_fields in Hw as (Hm & Et & Er & Es & Etr).
  destruct e; cbn in *; [done|..]; rewrite ?Et, ?Er, ?Es; (split; [done|]);
    apply low_equiv_fields; cbn; by rewrite ?Et, ?Er, ?Es, ?Etr.
Qed.

(** Methods that neither return nor store an identity provider *)
Definition blind_op {R} (op : StoreOp R) : Prop :=
  match op with
  | GetIdp _ _ | ListIdps _ | CreateIdp _ | UpdateIdp _ => False
  | _ => True
  end.

Lemma handle_erase {R} (op : StoreOp R) m :
  blind_op op → handle op (erase m) = ((handle op m).1, erase (handle op m).2).
Proof.
  destruct op; cbn; try done; intros _; unfold erase, drop_org, rows_not_of; cbn; try done.
  - by rewrite map_filter_fmap.
  - rewrite lookup_fmap. f_equal; [f_equal; apply bool_decide_ext, fmap_is_Some|].
    unfold upd_idps. cbn. by rewrite fmap_delete.
Qed.

Lemma rel_call {R R'} (Q : R → R' → Prop) (op : StoreOp R) (op' : StoreOp R') :
  (∀ m m', same_but_secrets m m' → rel_result Q (handle op m).1 (handle op' m').1 ∧
     same_but_secrets (handle op m).2 (handle op' m').2) →
  rel (rel_result Q) (call op) (call op').
Proof.
  intros Hop w w' Hw. apply low_equiv_fields in Hw as (Hm & Et & Er & Es & Etr).
  destruct (Hop _ _ Hm) as [Hr Hs]. rewrite !run_call.
  destruct (handle op (w_store w)) as [r m1], (handle op' (w_store w')) as [r' m1'].
  split; [done|]. by apply low_equiv_fields.
Qed.

Lemma rel_result_eq {A} (r : Result A) : rel_result eq r r.
Proof. by destruct r. Qed.

Lemma rel_call_blind {R} (op : StoreOp R) : blind_op op → rel (rel_result eq) (call op) (call op).
Proof.
  intros Hb. apply rel_call. intros m m' Hm.
  assert ((handle op m).1 = (handle op m').1 ∧ erase (handle op m).2 = erase (handle op m').2)
    as [-> ?]; [|split; [apply rel_result_eq|done]].
  pose proof (handle_erase op m Hb) as E. pose proof (handle_erase op m' Hb) as E'.
  rewrite Hm, E' in E. split; [exact (f_equal fst (eq_sym E))|exact (f_equal snd (eq_sym E))].
Qed.

Lemma idps_same m m' k :
  same_but_secrets m m' → option_Forall2 same_idp (d_idps m !! k) (d_idps m' !! k).
Proof.
  intros Hm. pose proof (f_equal (λ m, d_idps m !! k) Hm) as E. cbn in E.
  rewrite !lookup_fmap in E. destruct (d_idps m !! k), (d_idps m' !! k); try done; constructor.
  unfold same_idp. by apply (inj (A:=IdpConfig) (R:=eq) (S:=eq) Some).
Qed.

Lemma rel_get_idp org_id idp_id :
  rel (rel_result same_idp) (get_idp org_id idp_id) (get_idp org_id idp_id).
Proof.
  unfold get_idp, store.get_idp. eapply rel_mbind.
  - apply (rel_call (option_Forall2 same_idp)). intros m m' Hm. split; [|done]. by apply idps_same.
  - intros r r' Hr. apply rel_ret. by destruct Hr.
Qed.

Lemma rel_list_idps org_id :
  rel (rel_result (Forall2 same_idp)) (list_idps org_id) (list_idps org_id).
Proof.
  unfold list_idps, get_org, store.get_org, store.list_idps. eapply rel_mbind.
  - eapply rel_mbind; [by apply rel_call_blind|]. intros r ? <-. apply rel_ret, rel_result_eq.
  - intros org ? <-. apply rel_call. intros m m' Hm. split; [|done]. cbn. unfold mem_list, rows_of.
    pose proof (f_equal (λ m, rows_of org_id (d_idps m)) Hm) as E. cbn in E.
    rewrite !rows_of_fmap in E. apply (f_equal (λ t, (map_to_list t).*2)) in E.
    rewrite !map_to_list_fmap in E. fold (rows_of org_id (d_idps m)) (rows_of org_id (d_idps m')).
    revert E. generalize (map_to_list (rows_of org_id (d_idps m))).
    generalize (map_to_list (rows_of org_id (d_idps m'))). intros l' l.
    revert l'; induction l as [|[k i] l IH]; intros [|[k' i'] l'] E; try done.
     constructor; [exact (f_equal (default i ∘ head) E)|by apply IH, (f_equal tail E)].
Qed.

Lemma rel_put_idp i i' m m' :
  same_idp i i' → same_but_secrets m m' →
  same_but_secrets (upd_idps <[(i_org_id i, i_idp_id i) := i]> m)
                   (upd_idps <[(i_org_id i', i_idp_id i') := i']> m').
Proof.
  intros Hi Hm. pose proof (f_equal i_org_id Hi) as Eo. pose proof (f_equal i_idp_id Hi) as Ei.
  cbn in Eo, Ei. unfold same_but_secrets, erase, upd_idps in *. cbn. rewrite !fmap_insert, Eo, Ei.
  injection Hm as -> -> -> -> -> -> -> -> ->. by rewrite Hi.
Qed.
End Low.

(** ** Programs that do not touch identity providers *)
Fixpoint blind {A} (p : prog A) : Prop :=
  match p with
  | Ret _ => True
  | Do e k => match e with Store op => blind_op op | _ => True end ∧ ∀ x, blind (k x)
  end.

Lemma blind_pbind {A B} (p : prog A) (f : A → prog B) :
  blind p → (∀ a, blind (f a)) → blind (pbind p f).
Proof. intros Hp Hf. induction p as [a|X e k IH]; cbn in *; naive_solver. Qed.
Lemma blind_mbind {E A B} (c : prog (result E A)) (f : A → prog (result E B)) :
  blind c → (∀ a, blind (f a)) → blind (mbind c f).
Proof. intros Hc Hf. apply blind_pbind; [done|]. by intros []. Qed.
Lemma blind_no_store {A} (p : prog A) : no_store p → blind p.
Proof. induction p as [a|X e k IH]; cbn; [done|]. intros [He Hk]. by destruct e; split; auto. Qed.

Lemma rel_blind {A} o (p : prog A) : blind p → rel o eq p p.
Proof.
  induction p as [a|X e k IH]; [by intros _; apply rel_ret|]. intros [He Hk].
  change (rel o eq (pbind (perform e) k) (pbind (perform e) k)).
  apply (rel_pbind o eq eq); [|intros x ? <-; by apply IH].
  destruct e as [R op| | | | ]; [|by apply rel_effect..].
  intros w w' Hw. destruct (rel_call_blind o op He w w' Hw) as [Hr Hw']. split; [|done].
  revert Hr. unfold call, perform. destruct (run _ _ _) as [[|] ?], (run _ _ w') as [[|] ?]; naive_solver.
Qed.

Ltac blind_step :=
  lazymatch goal with
  | |- ∀ _, _ => intros ?
  | |- blind (mbind _ _) => apply blind_mbind
  | |- blind (pbind _ _) => apply blind_pbind
  | |- blind (call _) => split; [exact I|intros ?; exact I]
  | |- blind (Ret _) => exact I
  | |- blind (ok _) => exact I
  | |- blind (bail _) => exact I
  | |- blind (lift _) => exact I
  | |- blind now_ms => apply blind_no_store; done
  | |- blind (random_bytes _) => apply blind_no_store; done
  | |- blind (perform SystemTime) => apply blind_no_store; done
  | |- blind (seal _ _) => apply blind_no_store; by apply seal_no_store
  | |- blind (open _ _) => apply blind_no_store; by apply open_no_store
  | |- blind (if ?b then _ else _) => destruct b
  | |- blind (match ?r with Ok _ => _ | Err _ => _ end) => destruct r
  | |- blind (match ?r with Some _ => _ | None => _ end) => destruct r
  | |- blind (match ?r with [] => _ | _ :: _ => _ end) => destruct r
  | |- blind (?f _ _ _ _ _ _ _ _ _ _) => unfold f
  | |- blind (?f _ _ _ _ _ _ _ _ _) => unfold f
  | |- blind (?f _ _ _ _ _ _ _ _) => unfold f
  | |- blind (?f _ _ _ _ _ _ _) => unfold f
  | |- blind (?f _ _ _ _ _ _) => unfold f
  | |- blind (?f _ _ _ _ _) => unfold f
  | |- blind (?f _ _ _ _) => unfold f
  | |- blind (?f _ _ _) => unfold f
  | |- blind (?f _ _) => unfold f
  | |- blind (?f _) => unfold f
  | |- blind ?f => unfold f
  end.

Section Secrets.
Context `{HexLib} `{AeadLib} `{MeshLib} `{HttpLib} `{AxumLib} `{Serde Value} `{Serde Map}.
Context `{Serde CreateOrgRequest} `{Serde UpdateOrgRequest} `{Serde CreateFormationRequest}
  `{Serde CreateTokenRequest} `{Serde CreateSinkRequest} `{Serde ToggleSinkRequest}
  `{Serde CreateIdpRequest} `{Serde ToggleIdpRequest} `{Serde CreatePolicyRuleRequest}
  `{Serde EnrollRequest}.
Context (mgr : TenantManager) (mesh : MeshStateRegistry) (o : oracle).
Context (Hkp : KeyProviderLaws (key_provider mgr)).

Definition hides (h : handler) : Prop := rel o eq h h.

Lemma hides_blind h : blind h → hides h.
Proof. apply rel_blind. Qed.

Lemma blind_routes :
  Forall (λ r : route, Forall (λ me, ∀ ps rq, blind (me.2 ps rq)) r.2)
    (orgs_routes mgr ++ tokens_routes ++ sinks_routes ++ formations_routes mgr mesh).
Proof.
  unfold orgs_routes, tokens_routes, sinks_routes, formations_routes. cbn [app].
  repeat (apply Forall_cons; split); try apply Forall_nil_2; cbn [snd];
    repeat (apply Forall_cons; split); try apply Forall_nil_2; cbn [snd]; intros ps rq.
  all: unfold path0, path1, path2; destruct ps as [|a [|b [|c ps]]]; try exact I.
  all: repeat blind_step.
Qed.

(** A handler whose manager call answers alike up to secrets, and whose body does
    not show them. *)
Lemma hides_answer {A} (R : A → A → Prop) status body err (c : M A) :
  rel o (rel_result R) c c → (∀ a a', R a a' → body a = body a') →
  hides (answer status body err c).
Proof.
  intros Hc Hb. eapply rel_pbind; [exact Hc|]. intros [a|e] [a'|e'] Hr; try done; apply rel_ret.
  - by rewrite (Hb a a' Hr).
  - by rewrite Hr.
Qed.

Lemma same_idp_response i i' : same_idp i i' → idp_response i = idp_response i'.
Proof.
  intros Hi. unfold idp_response.
  by rewrite (f_equal i_idp_id Hi : i_idp_id i = i_idp_id i'),
    (f_equal i_org_id Hi : i_org_id i = i_org_id i'),
    (f_equal i_issuer_url Hi : i_issuer_url i = i_issuer_url i'),
    (f_equal i_client_id Hi : i_client_id i = i_client_id i'),
    (f_equal i_enabled Hi : i_enabled i = i_enabled i'),
    (f_equal i_created_at Hi : i_created_at i = i_created_at i').
Qed.

Lemma rel_blind_result {A} (c : M A) : blind c → rel o (rel_result eq) c c.
Proof. intros Hc w w' Hw. destruct (rel_blind o c Hc w w' Hw) as [-> ?]. split; [apply rel_result_eq|done]. Qed.

Lemma hides_create_idp org_id req : hides (identity.create_idp org_id req).
Proof.
  apply (hides_answer same_idp); [|intros; cbn; by rewrite (same_idp_response a a')].
  unfold Manager.create_idp, get_org, store.get_org, store.create_idp.
  repeat (eapply rel_mbind; [by apply rel_blind_result; repeat blind_step|intros ? ? <-]).
  eapply rel_pbind; [by apply rel_blind, blind_no_store|intros buf ? <-].
  eapply rel_pbind; [by apply rel_blind, blind_no_store|intros now ? <-].
  eapply (rel_mbind o eq); [|intros; by apply rel_ret].
  apply rel_call. intros m m' Hm. split; [done|]. by apply rel_put_idp.
Qed.

Lemma hides_toggle_idp org_id idp_id req : hides (identity.toggle_idp org_id idp_id req).
Proof.
  apply (hides_answer same_idp); [|intros; cbn; by rewrite (same_idp_response a a')].
  unfold Manager.toggle_idp, store.update_idp. eapply rel_mbind; [apply rel_get_idp|].
  intros i i' Hi.
  assert (same_idp (with_idp_enabled i (ti_enabled req)) (with_idp_enabled i' (ti_enabled req))) as Ht.
  { pose proof (f_equal (λ j, with_idp_enabled j (ti_enabled req)) Hi) as Hi'. exact Hi'. }
  eapply (rel_mbind o eq); [|intros; by apply rel_ret].
  apply rel_call. intros m m' Hm. split; [done|]. by apply rel_put_idp.
Qed.

Lemma hides_routes :
  Forall (λ r : route, Forall (λ me, ∀ ps rq, hides (me.2 ps rq)) r.2)
    (orgs_routes mgr ++ tokens_routes ++ sinks_routes ++ identity_routes ++ formations_routes mgr mesh).
Proof.
  pose proof blind_routes as Hb. rewrite !Forall_app in Hb |- *.
  assert (∀ rs, Forall (λ r : route, Forall (λ me, ∀ ps rq, blind (me.2 ps rq)) r.2) rs →
                Forall (λ r : route, Forall (λ me, ∀ ps rq, hides (me.2 ps rq)) r.2) rs) as Himp.
  { intros rs Hrs. eapply Forall_impl; [exact Hrs|]. intros r Hr.
    eapply Forall_impl; [exact Hr|]. intros me Hme ps rq. by apply hides_blind. }
  destruct Hb as (?&?&?&?). split_and!; try (by apply Himp). unfold identity_routes.
  repeat (apply Forall_cons; split); try apply Forall_nil_2; cbn [snd];
    repeat (apply Forall_cons; split); try apply Forall_nil_2; cbn [snd]; intros ps rq;
    unfold path1, path2, with_json, no_body; destruct ps as [|a [|b [|c ps]]];
    try (by apply rel_ret).
  all: try (apply hides_blind; by repeat blind_step).
  - destruct (extract_json _ _) as [req|e]; [apply hides_create_idp|by apply rel_ret].
  - apply (hides_answer (Forall2 same_idp)); [apply rel_list_idps|].
    intros l l' Hl. f_equal. induction Hl; [done|]. cbn. f_equal; [by apply same_idp_response|done].
  - apply (hides_answer same_idp); [apply rel_get_idp|].
    intros i i' Hi. cbn. by rewrite (same_idp_response i i').
  - destruct (extract_json _ _) as [req|e]; [apply hides_toggle_idp|by apply rel_ret].
Qed.

Lemma find_method_elem m (es : list (method * endpoint)) e :
  find_method m es = Some e → ∃ m', (m', e) ∈ es.
Proof.
  induction es as [|[m' e'] es IH]; cbn; [done|]. case_decide.
  - intros [= ->]. exists m'. by left.
  - intros He. destruct (IH He) as [m'' ?]. exists m''. by right.
Qed.

Lemma find_route_elem (rs : list route) rq h :
  find_route rs rq = Some h → ∃ r me ps, r ∈ rs ∧ me ∈ r.2 ∧ h = me.2 ps rq.
Proof.
  induction rs as [|[p es] rs IH]; cbn; [done|]. destruct (match_path p (rq_path rq)) as [ps|].
  - intros He. apply bind_Some in He as (e & He & [= <-]).
    destruct (find_method_elem _ _ _ He) as [m ?]. exists (p, es), (m, e), ps. split; [by left|done].
  - intros He. destruct (IH He) as (r & me & ps & ? & ? & ?). exists r, me, ps. split; [by right|done].
Qed.

(** C9: No answer of an admin route depends on the client secret of an identity
    provider: from contents and worlds that differ in secrets only, a request is
    answered the same, and what it leaves differs in secrets only. *)
Theorem secrets_unobservable rq h w w' :
  find_route (admin_routes mgr mesh) rq = Some h → low_equiv w w' →
  (run o h w).1 = (run o h w').1 ∧ low_equiv (run o h w).2 (run o h w').2.
Proof.
  intros Hh. destruct (find_route_elem _ _ _ Hh) as (r & me & ps & Hr & Hme & ->).
  assert (hides (me.2 ps rq)) as Hhides; [|by apply Hhides].
  unfold admin_routes, nest in Hr. rewrite <-!fmap_app in Hr.
  apply list_elem_of_fmap in Hr as (r0 & -> & Hr).
  pose proof hides_routes as Hall. rewrite Forall_forall in Hall. specialize (Hall r0 Hr).
  rewrite Forall_forall in Hall. by apply Hall.
Qed.
End Secrets.
