(* ===== verification/Loadtest.v ===== *)
(** loadtest.rs: the load test.

    [execute_op] is one request of a worker, [run_worker] a worker, [plan] the
    workers of a run with their organizations and scenarios, and [aggregate] the
    report.  Latencies are ranked with floating-point arithmetic, which is that of
    [SpecFloat] at 53 bits.  A worker's clock readings and the moment it is told to
    stop are the [tick]s of its loop; samples reach the report in any order. *)
From S2P Require Import Prelude Text Extern Models Errors Effects Config Crypto Enroll.
From Stdlib Require Import ZArith SpecFloat.

#[local] Open Scope Z_scope.

(** ** f64 *)
Abbreviation f64 := spec_float.
(** [n as f64], rounded to nearest, ties to even *)
Definition f64_of (n : Z) : f64 := binary_normalize 53 1024 n 0 false.
Definition f64_div : f64 → f64 → f64 := SFdiv 53 1024.
Definition f64_mul : f64 → f64 → f64 := SFmul 53 1024.
Definition f64_sub : f64 → f64 → f64 := SFsub 53 1024.
(** [x.round() as usize]: ties away from zero; the cast saturates. *)
Definition round_usize (x : f64) : Z :=
  match x with
  | S754_finite false m e =>
      Z.min usize_max (if 0 <=? e then Z.pos m * 2 ^ e
                       else (Z.pos m + 2 ^ (- e - 1)) / 2 ^ (- e))
  | S754_infinity false => usize_max
  | _ => 0
  end.
Definition f64_positive (x : f64) : bool :=
  match x with S754_finite false _ _ | S754_infinity false => true | _ => false end.

(** ** Samples and reports *)
Record RequestSample := {
  rs_endpoint : string;
  rs_status : Z;
  rs_latency_us : Z;
  rs_timestamp_ms : Z;
}.
Record EndpointStats := {
  es_endpoint : string;
  es_count : Z;
  es_errors : Z;
  es_p50_us : Z;
  es_p95_us : Z;
  es_p99_us : Z;
  es_max_us : Z;
  es_mean_us : Z;
}.
Record LoadTestReport := {
  lr_scenario : string;
  lr_concurrency : Z;
  lr_duration_secs : Z;
  lr_total_requests : Z;
  lr_successful : Z;
  lr_failed : Z;
  lr_throughput_rps : f64;
  lr_p50_us : Z;
  lr_p95_us : Z;
  lr_p99_us : Z;
  lr_max_us : Z;
  lr_mean_us : Z;
  lr_error_breakdown : gmap Z Z;
  lr_endpoints : list EndpointStats;
  lr_samples : list RequestSample;
}.

Definition zlen {A} (l : list A) : Z := Z.of_nat (length l).

(** ** Percentiles *)
Definition rank (p : Z) (n : Z) : Z :=
  round_usize (f64_mul (f64_div (f64_of p) (f64_of 100)) (f64_sub (f64_of n) (f64_of 1))).
(** [p] is 50.0, 95.0 or 99.0. *)
Definition percentile (sorted : list Z) (p : Z) : Z :=
  match sorted with
  | [] => 0
  | _ => nth (Z.to_nat (Z.min (rank p (zlen sorted)) (zlen sorted - 1))) sorted 0
  end.

(** ** Aggregation *)
Definition sum_u64 (l : list Z) : Z := wrap_u64 (foldr Z.add 0 l).
Definition mean (l : list Z) : Z :=
  match l with [] => 0 | _ => sum_u64 l / zlen l end.
Definition sorted_latencies (l : list RequestSample) : list Z :=
  merge_sort Z.le (rs_latency_us <$> l).
Definition is_error (s : RequestSample) : Prop := 400 ≤ rs_status s.
#[export] Instance is_error_dec s : Decision (is_error s).
Proof. unfold is_error. apply _. Defined.

(** Seconds between the first and the last sample, or the test's duration. *)
Definition actual_duration (samples : list RequestSample) (duration_secs : Z) : f64 :=
  match rs_timestamp_ms <$> samples with
  | t :: _ :: _ as ts =>
      let min_ts := foldr Z.min t ts in
      let max_ts := foldr Z.max t ts in
      let dur := f64_div (f64_of (max_ts - min_ts)) (f64_of 1000) in
      if f64_positive dur then dur else f64_of duration_secs
  | _ => f64_of duration_secs
  end.

(** [for s in &samples { if s.status >= 400 { *map.entry(s.status) += 1 } }] *)
Definition count_error (m : gmap Z Z) (s : RequestSample) : gmap Z Z :=
  if decide (is_error s) then <[rs_status s := default 0 (m !! rs_status s) + 1]> m else m.
Definition error_breakdown (samples : list RequestSample) : gmap Z Z :=
  foldl count_error ∅ samples.

(** [for s in &samples { by_endpoint.entry(..).or_default().push(s) }] *)
Definition push_sample (m : gmap string (list RequestSample)) (s : RequestSample) :
    gmap string (list RequestSample) :=
  <[rs_endpoint s := default [] (m !! rs_endpoint s) ++ [s]]> m.
Definition by_endpoint (samples : list RequestSample) : gmap string (list RequestSample) :=
  foldl push_sample ∅ samples.

Definition endpoint_stats (e : string * list RequestSample) : EndpointStats :=
  let lats := sorted_latencies e.2 in {|
  es_endpoint := e.1;
  es_count := zlen e.2;
  es_errors := zlen (filter (λ s, 400 ≤ rs_status s ∨ rs_status s = 0) e.2);
  es_p50_us := percentile lats 50;
  es_p95_us := percentile lats 95;
  es_p99_us := percentile lats 99;
  es_max_us := default 0 (last lats);
  es_mean_us := mean lats;
|}.

Definition aggregate `{HashIter} (samples : list RequestSample) (scenario : string)
    (concurrency duration_secs : Z) : LoadTestReport :=
  let total_requests := zlen samples in
  let successful := zlen (filter (λ s, rs_status s < 400) samples) in
  let all_latencies := sorted_latencies samples in
  let endpoints := sort_by_key (λ e, - es_count e) (endpoint_stats <$> hm_iter (by_endpoint samples)) in {|
  lr_scenario := scenario;
  lr_concurrency := concurrency;
  lr_duration_secs := duration_secs;
  lr_total_requests := total_requests;
  lr_successful := successful;
  lr_failed := total_requests - successful;
  lr_throughput_rps := f64_div (f64_of total_requests) (actual_duration samples duration_secs);
  lr_p50_us := percentile all_latencies 50;
  lr_p95_us := percentile all_latencies 95;
  lr_p99_us := percentile all_latencies 99;
  lr_max_us := default 0 (last all_latencies);
  lr_mean_us := mean all_latencies;
  lr_error_breakdown := error_breakdown samples;
  lr_endpoints := endpoints;
  lr_samples := samples;
|}.

(** ** The server under test *)
Definition test_config (db_path : string) : GatewayConfig := {|
  bind_addr := "127.0.0.1:0";
  storage := Redb db_path;
  cdc := {| nats_url := None; kafka_brokers := None |};
  ui_dir := None;
  admin_token := None;
  kek := None;
  kms_key_arn := None;
  vault_addr := None;
  vault_token := None;
  vault_transit_key := None;
  mesh_brokers := [];
  mesh_poll_interval_ms := 5000;
|}.

(** ** Operations *)
Inductive Operation :=
| CreateOrg | GetOrg | ListOrgs | CreateFormation | GetFormation | ListFormations
| DeleteFormation | CreateToken | ListTokens | CreateSink | ListSinks | ToggleSink | HealthCheck.
#[export] Instance operation_eqdec : EqDecision Operation.
Proof. solve_decision. Defined.

Record WorkerState := {
  worker_id : Z;
  ws_org_id : string;
  app_ids : list string;
  token_ids : list string;
  sink_ids : list string;
  formation_counter : Z;
}.
Definition WorkerState_new (worker_id : Z) (org_id : string) : WorkerState := {|
  worker_id := worker_id; ws_org_id := org_id; app_ids := []; token_ids := []; sink_ids := [];
  formation_counter := 0 |}.

Definition with_app_ids (l : list string) (s : WorkerState) : WorkerState := {|
  worker_id := worker_id s; ws_org_id := ws_org_id s; app_ids := l; token_ids := token_ids s;
  sink_ids := sink_ids s; formation_counter := formation_counter s |}.
Definition with_token_ids (l : list string) (s : WorkerState) : WorkerState := {|
  worker_id := worker_id s; ws_org_id := ws_org_id s; app_ids := app_ids s; token_ids := l;
  sink_ids := sink_ids s; formation_counter := formation_counter s |}.
Definition with_sink_ids (l : list string) (s : WorkerState) : WorkerState := {|
  worker_id := worker_id s; ws_org_id := ws_org_id s; app_ids := app_ids s;
  token_ids := token_ids s; sink_ids := l; formation_counter := formation_counter s |}.

Definition next_app_id (s : WorkerState) : string * WorkerState :=
  let n := formation_counter s + 1 in
  ("w" +:+ fmt_dec (worker_id s) +:+ "-app-" +:+ fmt_dec n,
   {| worker_id := worker_id s; ws_org_id := ws_org_id s; app_ids := app_ids s;
      token_ids := token_ids s; sink_ids := sink_ids s; formation_counter := n |}).

Section Worker.
Context `{Serde Value} (base : string).

(** [client.get(url).send().await.ok()] and the like; a body that does not
    serialise is an error of [send]. *)
Definition answer_of (rp : reply) : option (Z * bytes) :=
  match rp with NetResp status body => Some (status, body) | NetErr _ => None end.
Definition send_get (path : string) : prog (option (Z * bytes)) :=
  try! rp := perform (Net (HttpGet (base +:+ path) [])) in Ret (answer_of rp).
Definition send_delete (path : string) : prog (option (Z * bytes)) :=
  try! rp := perform (Net (HttpDelete (base +:+ path) [])) in Ret (answer_of rp).
Definition json_header : list (string * string) := [("content-type", "application/json")]%string.
Definition send_post (path : string) (v : Value) : prog (option (Z * bytes)) :=
  match to_vec v with
  | Ok body =>
      try! rp := perform (Net (HttpPost (base +:+ path) json_header body)) in Ret (answer_of rp)
  | Err _ => Ret None
  end.
Definition send_patch (path : string) (v : Value) : prog (option (Z * bytes)) :=
  match to_vec v with
  | Ok body =>
      try! rp := perform (Net (HttpPatch (base +:+ path) json_header body)) in Ret (answer_of rp)
  | Err _ => Ret None
  end.

(** [resp.json::<Value>()], then [body[k].as_str()] *)
Definition json_field (body : bytes) (k : string) : option string :=
  match from_slice (A:=Value) body with
  | Ok v => f ← value_get v k; as_str f
  | Err _ => None
  end.

Definition outcome : Type := WorkerState * option (string * Z).
(** The sample of an answer, with the state left alone. *)
Definition sampled (s : WorkerState) (endpoint : string) (r : option (Z * bytes)) : outcome :=
  (s, (λ a, (endpoint, a.1)) <$> r).
Definition skipped (s : WorkerState) : prog outcome := Ret (s, None).

Definition orgs_path (s : WorkerState) : string := "/orgs/" +:+ ws_org_id s.
Definition formation_path (s : WorkerState) (app_id : string) : string :=
  orgs_path s +:+ "/formations/" +:+ app_id.

Definition execute_op (s : WorkerState) (op : Operation) : prog outcome :=
  match op with
  | CreateOrg =>
      try! r := send_post "/orgs" (JObject [("display_name", JString (ws_org_id s));
                                            ("org_id", JString (ws_org_id s))]%string) in
      Ret (sampled s "POST /orgs" r)
  | GetOrg =>
      try! r := send_get (orgs_path s) in Ret (sampled s "GET /orgs/:id" r)
  | ListOrgs =>
      try! r := send_get "/orgs" in Ret (sampled s "GET /orgs" r)
  | CreateFormation =>
      let '(app_id, s) := next_app_id s in
      try! r := send_post (orgs_path s +:+ "/formations") (JObject [("app_id", JString app_id)]%string) in
      let s := match r with
               | Some (status, _) => if status <? 400 then with_app_ids (app_ids s ++ [app_id]) s else s
               | None => s
               end in
      Ret (sampled s "POST /orgs/:id/formations" r)
  | GetFormation =>
      match app_ids s with
      | [] => skipped s
      | _ =>
          let app_id := nth (Z.to_nat (formation_counter s mod zlen (app_ids s))) (app_ids s) EmptyString in
          try! r := send_get (formation_path s app_id) in
          Ret (sampled s "GET /orgs/:id/formations/:id" r)
      end
  | ListFormations =>
      try! r := send_get (orgs_path s +:+ "/formations") in
      Ret (sampled s "GET /orgs/:id/formations" r)
  | DeleteFormation =>
      match last (app_ids s) with
      | None => skipped s
      | Some app_id =>
          let s := with_app_ids (removelast (app_ids s)) s in
          try! r := send_delete (formation_path s app_id) in
          Ret (sampled s "DELETE /orgs/:id/formations/:id" r)
      end
  | CreateToken =>
      match app_ids s with
      | [] => skipped s
      | app_id :: _ =>
          let label := "w" +:+ fmt_dec (worker_id s) +:+ "-tok-" +:+ fmt_dec (zlen (token_ids s)) in
          try! r := send_post (orgs_path s +:+ "/tokens")
                      (JObject [("app_id", JString app_id); ("label", JString label)]%string) in
          let s := match r with
                   | Some (status, body) =>
                       if status <? 400 then
                         match json_field body "token_id" with
                         | Some tid => with_token_ids (token_ids s ++ [tid]) s
                         | None => s
                         end
                       else s
                   | None => s
                   end in
          Ret (sampled s "POST /orgs/:id/tokens" r)
      end
  | ListTokens =>
      match app_ids s with
      | [] => skipped s
      | app_id :: _ =>
          try! r := send_get (formation_path s app_id +:+ "/tokens") in
          Ret (sampled s "GET /orgs/:id/formations/:id/tokens" r)
      end
  | CreateSink =>
      let prefix := "peat." +:+ ws_org_id s +:+ ".w" +:+ fmt_dec (worker_id s) +:+ "." +:+
                    fmt_dec (zlen (sink_ids s)) in
      try! r := send_post (orgs_path s +:+ "/sinks")
                  (JObject [("sink_type", JObject [("Nats",
                     JObject [("subject_prefix", JString prefix)])])]%string) in
      let s := match r with
               | Some (status, body) =>
                   if status <? 400 then
                     match json_field body "sink_id" with
                     | Some sid => with_sink_ids (sink_ids s ++ [sid]) s
                     | None => s
                     end
                   else s
               | None => s
               end in
      Ret (sampled s "POST /orgs/:id/sinks" r)
  | ListSinks =>
      try! r := send_get (orgs_path s +:+ "/sinks") in Ret (sampled s "GET /orgs/:id/sinks" r)
  | ToggleSink =>
      match sink_ids s with
      | [] => skipped s
      | sink_id :: _ =>
          try! r := send_patch (orgs_path s +:+ "/sinks/" +:+ sink_id)
                      (JObject [("enabled", JBool false)]%string) in
          Ret (sampled s "PATCH /orgs/:id/sinks/:id" r)
      end
  | HealthCheck =>
      try! r := send_get "/health" in Ret (sampled s "GET /health" r)
  end.

(** ** Scenarios *)
(** [op], once the worker has a formation. *)
Definition with_formation (s : WorkerState) (op : Operation) : Operation :=
  match app_ids s with [] => CreateFormation | _ => op end.
Definition in_range (lo hi r : Z) : bool := (lo <=? r) && (r <=? hi).

Definition pick_mixed_op (roll : Z) (s : WorkerState) : Operation :=
  let r := roll mod 100 in
  if in_range 0 14 r then ListOrgs
  else if in_range 15 29 r then with_formation s GetFormation
  else if in_range 30 44 r then CreateFormation
  else if in_range 45 54 r then with_formation s ListFormations
  else if in_range 55 64 r then with_formation s CreateToken
  else if in_range 65 74 r then CreateSink
  else if in_range 75 84 r then with_formation s DeleteFormation
  else if in_range 85 94 r then ListSinks
  else HealthCheck.

Definition pick_read_heavy_op (roll : Z) (s : WorkerState) : Operation :=
  let r := roll mod 100 in
  if in_range 0 19 r then ListOrgs
  else if in_range 20 39 r then with_formation s GetFormation
  else if in_range 40 59 r then with_formation s ListFormations
  else if in_range 60 69 r then GetOrg
  else if in_range 70 79 r then ListSinks
  else if in_range 80 89 r then CreateFormation
  else if in_range 90 94 r then with_formation s CreateToken
  else HealthCheck.

Definition pick_op (scenario : string) (counter : Z) (s : WorkerState) : Operation :=
  if decide (scenario = "burst"%string) then CreateFormation
  else if decide (scenario = "read-heavy"%string) then pick_read_heavy_op counter s
  else pick_mixed_op counter s.

(** ** A worker *)
Definition wrap_u8 (z : Z) : Z := z mod 2 ^ 8.
Definition first_roll (worker_id : Z) : Z := wrap_u8 (wrap_u8 worker_id * 37).
Definition next_roll (counter : Z) : Z := wrap_u8 (counter + 7).

(** What one iteration of the loop observes: the stop flag, and the readings of the
    worker's clock after the request. *)
Record tick := { t_stop : bool; t_latency_us : Z; t_timestamp_ms : Z }.

Fixpoint worker_loop (scenario : string) (ticks : list tick) (counter : Z) (s : WorkerState) :
    prog (list RequestSample) :=
  match ticks with
  | [] => Ret []
  | t :: ticks =>
      if t_stop t then Ret [] else
      let op := pick_op scenario counter s in
      try! out := execute_op s op in
      let '(s, r) := out in
      try! rest := worker_loop scenario ticks (next_roll counter) s in
      Ret (match r with
           | Some (endpoint, status) =>
               [{| rs_endpoint := endpoint; rs_status := status; rs_latency_us := t_latency_us t;
                   rs_timestamp_ms := t_timestamp_ms t |}]
           | None => []
           end ++ rest)
  end.

Definition raised_quotas : Value :=
  JObject [("quotas", JObject
    [("max_cdc_sinks", JNumber (PosInt 100000));
     ("max_documents_per_formation", JNumber (PosInt 10000));
     ("max_formations", JNumber (PosInt 100000));
     ("max_peers_per_formation", JNumber (PosInt 100))])]%string.

Definition run_worker (worker_id : Z) (org_id scenario : string) (ticks : list tick) :
    prog (list RequestSample) :=
  let s := WorkerState_new worker_id org_id in
  try! out := execute_op s CreateOrg in let s := out.1 in
  try! _ := send_patch (orgs_path s) raised_quotas in
  try! out := execute_op s CreateFormation in let s := out.1 in
  try! out := execute_op s CreateFormation in let s := out.1 in
  try! out := execute_op s CreateSink in let s := out.1 in
  worker_loop scenario ticks (first_roll worker_id) s.
End Worker.

(** ** The orchestrator *)
Definition org_ids (concurrency : Z) (scenario : string) (orgs : Z) : list string :=
  if decide (scenario = "multi-org"%string)
  then (λ i, "org-" +:+ fmt_dec i) <$> seqZ 0 orgs
  else (λ i, "worker-org-" +:+ fmt_dec i) <$> seqZ 0 concurrency.

(** The organization and the scenario of worker [i]; [None] is a panic, of the
    remainder by zero or of the index. *)
Definition worker_of (concurrency : Z) (scenario : string) (orgs : Z) (i : Z) :
    option (Z * string * string) :=
  let ids := org_ids concurrency scenario orgs in
  if decide (scenario = "multi-org"%string) then
    if zlen ids =? 0 then None else
    org_id ← ids !! Z.to_nat (i mod zlen ids); Some (i, org_id, "mixed"%string)
  else org_id ← ids !! Z.to_nat i; Some (i, org_id, scenario).

Definition plan (concurrency : Z) (scenario : string) (orgs : Z) :
    option (list (Z * string * string)) :=
  mapM (worker_of concurrency scenario orgs) (seqZ 0 concurrency).
