(* ===== verification/FloatSpec.v ===== *)
(** How far the rounding of IEEE double precision ([SpecFloat] at 53 bits) moves a
    value.

    The value of a positive finite float [m * 2^e] is compared as the integer
    [scaled m e], which is it times 2^200; the floats of this program have exponents
    far above -200.  One rounding moves a value by at most a part in 2^52
    ([round_aux_close]). *)
From S2P Require Import Prelude.
From Stdlib Require Import ZArith SpecFloat.

#[local] Open Scope Z_scope.

Definition scaled (m : positive) (e : Z) : Z := Z.pos m * 2 ^ (e + 200).
Definition digits (m : positive) : Z := Z.pos (digits2_pos m).

Lemma digits_bounds m : 2 ^ (digits m - 1) ≤ Z.pos m < 2 ^ digits m.
Proof.
  unfold digits. assert (∀ d : positive, 2 ^ Z.pos d = 2 * 2 ^ (Z.pos d - 1)) as Hd.
  { intros d. rewrite <-Z.pow_succ_r by lia. f_equal. lia. }
  induction m as [m IH|m IH|]; cbn [digits2_pos]; [| |by cbn];
    rewrite Pos2Z.inj_succ, Z.pow_succ_r by lia;
    replace (Z.succ (Z.pos (digits2_pos m)) - 1) with (Z.pos (digits2_pos m)) by lia;
    specialize (Hd (digits2_pos m)); lia.
Qed.
Lemma digits_pos m : 1 ≤ digits m.
Proof. unfold digits. lia. Qed.

(** A number below a power of two has at most that many digits. *)
Lemma digits_le m k : 0 ≤ k → Z.pos m < 2 ^ k → digits m ≤ k.
Proof.
  intros Hk Hm. pose proof (digits_bounds m) as [Hd _]. destruct (Z.le_gt_cases (digits m) k); [done|].
  pose proof (Z.pow_le_mono_r 2 k (digits m - 1)). lia.
Qed.
Lemma scaled_digits m e k : -200 ≤ e → 0 ≤ k → scaled m e < 2 ^ (k + 200) → digits m + e ≤ k + 1.
Proof.
  intros He Hk Hs. unfold scaled in Hs. pose proof (digits_bounds m) as [Hd _].
  destruct (Z.le_gt_cases (digits m + e) (k + 1)) as [|Hgt]; [done|exfalso].
  pose proof (digits_pos m). assert (2 ^ (k + 200) ≤ 2 ^ (digits m - 1) * 2 ^ (e + 200)); [|nia].
  rewrite <-Z.pow_add_r by lia. apply Z.pow_le_mono_r; lia.
Qed.

Lemma scaled_one m e : -200 ≤ e → 2 ^ 200 ≤ scaled m e → 0 < digits m + e.
Proof.
  intros He Hlo. pose proof (digits_bounds m) as [_ Hd]. pose proof (digits_pos m). unfold scaled in Hlo.
  destruct (Z.lt_ge_cases 0 (digits m + e)) as [|Hle]; [done|exfalso].
  assert (2 ^ digits m * 2 ^ (e + 200) ≤ 2 ^ 200).
  { rewrite <-Z.pow_add_r by lia. apply Z.pow_le_mono_r; lia. }
  pose proof (Z.pow_pos_nonneg 2 (e + 200)). nia.
Qed.

(** ** Shifts *)
Lemma pos_iter_xO m d : Z.pos (Pos.iter xO m d) = Z.pos m * 2 ^ Z.pos d.
Proof.
  induction d as [|d IH] using Pos.peano_ind; [cbn; lia|].
  rewrite Pos.iter_succ, Pos2Z.inj_xO, IH, Pos2Z.inj_succ, Z.pow_succ_r by lia. lia.
Qed.

Lemma shl_align_scaled m e e' :
  -200 ≤ e' →
  scaled (shl_align m e e').1 (shl_align m e e').2 = scaled m e ∧
  (shl_align m e e').2 = Z.min e e'.
Proof.
  intros He. unfold shl_align, scaled. destruct (e' - e) as [|d|d] eqn:Ed; cbn [fst snd];
    [split; [done|lia]..|]. rewrite pos_iter_xO. split; [|lia].
  rewrite <-Z.mul_assoc, <-Z.pow_add_r by lia. do 2 f_equal. lia.
Qed.

Lemma shr_1_half mrs : 0 ≤ shr_m mrs → shr_m (shr_1 mrs) = shr_m mrs / 2.
Proof.
  destruct mrs as [m r s]. cbn. destruct m as [|[p|p|]|p]; cbn; intros; try done.
  - rewrite Pos2Z.inj_xI. apply Z.div_unique with 1; lia.
  - rewrite Pos2Z.inj_xO. apply Z.div_unique with 0; lia.
Qed.
Lemma shr_iter k mrs : 0 ≤ shr_m mrs → shr_m (iter_pos shr_1 k mrs) = shr_m mrs / 2 ^ Z.pos k.
Proof.
  revert mrs. induction k as [k IH|k IH|]; intros mrs Hm; cbn [iter_pos]; [| |by apply shr_1_half].
  - assert (2 ^ Z.pos k~1 = 2 * (2 ^ Z.pos k * 2 ^ Z.pos k)) as ->.
    { rewrite <-Z.pow_add_r, Z.add_diag, <-Z.pow_succ_r by lia. f_equal; lia. }
    assert (0 < 2 ^ Z.pos k) as Hk by (apply Z.pow_pos_nonneg; lia).
    rewrite <-!Z.div_div by lia. rewrite <-(shr_1_half mrs Hm).
    assert (0 ≤ shr_m (shr_1 mrs)) as H1 by (rewrite shr_1_half by done; apply Z.div_pos; lia).
    rewrite <-(IH _ H1), <-IH; [done|]. rewrite IH by done. apply Z.div_pos; lia.
  - assert (2 ^ Z.pos k~0 = 2 ^ Z.pos k * 2 ^ Z.pos k) as ->.
    { rewrite <-Z.pow_add_r, Z.add_diag by lia. f_equal; lia. }
    assert (0 < 2 ^ Z.pos k) as Hk by (apply Z.pow_pos_nonneg; lia).
    rewrite <-!Z.div_div by lia. rewrite <-(IH _ Hm), <-IH; [done|].
    rewrite IH by done. apply Z.div_pos; lia.
Qed.

(** ** One rounding *)
Lemma round_even_cases m l : round_nearest_even m l = m ∨ round_nearest_even m l = m + 1.
Proof. destruct l as [|[]]; cbn; [by left| |by left|by right]. case_match; [by left|by right]. Qed.

(** The first shift keeps 53 digits, rounding moves the last by at most one, and a
    second shift only removes a zero. *)
Lemma round_aux_shape m e (k := Z.max 0 (digits m - 53)) :
  -200 ≤ e → digits m + e ≤ 100 →
  ∃ m', binary_round_aux 53 1024 false (Z.pos m) e loc_Exact = m' ∧
    ∃ p e', m' = S754_finite false p e' ∧ -200 ≤ e' ∧ digits p ≤ 53 ∧
      (if decide (k = 0) then scaled p e' = scaled m e
       else ∃ q, (q = Z.pos m / 2 ^ k ∨ q = Z.pos m / 2 ^ k + 1) ∧ scaled p e' = q * 2 ^ (e + k + 200)).
Proof.
  intros He Hd. eexists. split; [reflexivity|]. unfold binary_round_aux.
  pose proof (digits_pos m) as Hpos.
  change (shr_fexp 53 1024 (Z.pos m) e loc_Exact)
    with (shr (Build_shr_record (Z.pos m) false false) e (fexp 53 1024 (digits m + e) - e)).
  assert (fexp 53 1024 (digits m + e) - e = digits m - 53) as -> by (unfold fexp, emin; lia).
  subst k. destruct (digits m - 53) as [|k|k] eqn:Ek.
  1,3: destruct (decide (_ = 0)) as [_|?]; [|lia]; cbn [shr shr_m loc_of_shr_record round_nearest_even];
    unfold shr_fexp; change (Zdigits2 (Z.pos m)) with (digits m);
    assert (fexp 53 1024 (digits m + e) - e = digits m - 53) as -> by (unfold fexp, emin; lia);
    rewrite Ek; cbn [shr shr_record_of_loc shr_m];
    rewrite (proj2 (Z.leb_le _ _)) by (pose proof (digits_pos m); lia);
    exists m, e; split_and!; [done|lia|lia|done].
  destruct (decide (_ = 0)) as [?|_]; [lia|]. rewrite Z.max_r by lia. cbn [shr].
  assert (shr_m (iter_pos shr_1 k {| shr_m := Z.pos m; shr_r := false; shr_s := false |}) = Z.pos m / 2 ^ Z.pos k)
    as Em by (by rewrite shr_iter).
  rewrite Em. set (q := round_nearest_even _ _).
  assert (q = Z.pos m / 2 ^ Z.pos k ∨ q = Z.pos m / 2 ^ Z.pos k + 1) as Hq by apply round_even_cases.
  assert (2 ^ 52 ≤ q ≤ 2 ^ 53) as Hrange.
  { pose proof (digits_bounds m) as [Hlo Hhi]. assert (0 < 2 ^ Z.pos k) by (apply Z.pow_pos_nonneg; lia).
    replace (digits m - 1) with (52 + Z.pos k) in Hlo by lia.
    replace (digits m) with (53 + Z.pos k) in Hhi by lia. rewrite Z.pow_add_r in Hlo, Hhi by lia.
    assert (2 ^ 52 ≤ Z.pos m / 2 ^ Z.pos k) by (apply Z.div_le_lower_bound; lia).
    assert (Z.pos m / 2 ^ Z.pos k < 2 ^ 53) by (apply Z.div_lt_upper_bound; lia). lia. }
  clearbody q. destruct q as [|p|p]; [lia| |lia]. unfold shr_fexp.
  change (Zdigits2 (Z.pos p)) with (digits p).
  assert (e + Z.pos k ≤ 47) as Hek by lia.
  destruct (decide (Z.pos p = 2 ^ 53)) as [Ep|Hne].
  - assert (p = 9007199254740992%positive) as -> by lia.
    change (digits 9007199254740992) with 54.
    assert (fexp 53 1024 (54 + (e + Z.pos k)) - (e + Z.pos k) = 1) as -> by (unfold fexp, emin; lia).
    cbn [shr shr_record_of_loc iter_pos]. cbn -[Z.leb Z.add Z.sub scaled].
    rewrite (proj2 (Z.leb_le _ _)) by lia.
    do 2 eexists. split; [reflexivity|]. split; [lia|]. split; [done|].
    eexists. split; [exact Hq|]. unfold scaled.
    replace (e + Z.pos k + 1 + 200) with (1 + (e + Z.pos k + 200)) by lia.
    rewrite (Z.pow_add_r 2 1) by lia. lia.
  - assert (digits p = 53) as Ed.
    { pose proof (digits_bounds p) as [Hlo Hhi]. pose proof (digits_pos p).
      apply Z.le_antisymm; [apply digits_le; lia|]. destruct (Z.le_gt_cases 53 (digits p)); [done|].
      pose proof (Z.pow_le_mono_r 2 (digits p) 52). lia. }
    rewrite Ed.
    assert (fexp 53 1024 (53 + (e + Z.pos k)) - (e + Z.pos k) = 0) as -> by (unfold fexp, emin; lia).
    cbn [shr shr_record_of_loc shr_m]. rewrite (proj2 (Z.leb_le _ _)) by lia.
    exists p, (e + Z.pos k). split; [done|]. split; [lia|]. split; [lia|]. exists (Z.pos p). by split.
Qed.

(** A rounding moves a value by at most a part in 2^52. *)
Lemma round_aux_close m e :
  -200 ≤ e → digits m + e ≤ 100 →
  ∃ p e', binary_round_aux 53 1024 false (Z.pos m) e loc_Exact = S754_finite false p e' ∧ -200 ≤ e' ∧
    digits p ≤ 53 ∧ 2 ^ 52 * Z.abs (scaled p e' - scaled m e) ≤ scaled m e.
Proof.
  intros He Hd. destruct (round_aux_shape m e He Hd) as (x & -> & p & e' & -> & He' & Hp & Hs).
  exists p, e'. split; [done|]. split; [done|]. split; [done|]. case_decide as Hk.
  { rewrite Hs, Z.sub_diag. cbn [Z.abs]. unfold scaled. pose proof (Z.pow_pos_nonneg 2 (e + 200)). lia. }
  destruct Hs as (q & Hq & ->). set (k := Z.max 0 (digits m - 53)) in *.
  assert (k = digits m - 53) as Ek by lia. unfold scaled.
  replace (e + k + 200) with (k + (e + 200)) by lia. rewrite Z.pow_add_r by lia.
  pose proof (digits_bounds m) as [Hlo _]. replace (digits m - 1) with (52 + k) in Hlo by lia.
  rewrite Z.pow_add_r in Hlo by lia. pose proof (Z.pow_pos_nonneg 2 k ltac:(lia) ltac:(lia)).
  pose proof (Z.pow_pos_nonneg 2 (e + 200) ltac:(lia) ltac:(lia)).
  pose proof (Z.div_mod (Z.pos m) (2 ^ k) ltac:(lia)) as Hdm.
  pose proof (Z.mod_pos_bound (Z.pos m) (2 ^ k) ltac:(lia)) as Hmod.
  set (u := 2 ^ (e + 200)) in *. set (v := 2 ^ k) in *. set (t := Z.pos m / v) in *.
  assert (Z.abs (q * v - Z.pos m) ≤ v) as Habs by (destruct Hq as [-> | ->]; lia).
  replace (q * (v * u) - Z.pos m * u) with ((q * v - Z.pos m) * u) by lia.
  rewrite Z.abs_mul, (Z.abs_eq u) by lia. nia.
Qed.

Lemma binary_round_close m e :
  -200 ≤ e → 2 ^ 200 ≤ scaled m e < 2 ^ 260 →
  ∃ p e', binary_round 53 1024 false m e = S754_finite false p e' ∧ -200 ≤ e' ∧
    digits p ≤ 53 ∧ 2 ^ 52 * Z.abs (scaled p e' - scaled m e) ≤ scaled m e.
Proof.
  intros He [Hlo Hhi]. unfold binary_round. change (Z.pos (digits2_pos m)) with (digits m).
  pose proof (scaled_one m e He Hlo) as Hpos.
  assert (-200 ≤ fexp 53 1024 (digits m + e)) as Hf by (unfold fexp, emin; lia).
  destruct (shl_align_scaled m e _ Hf) as [Hs Hmin].
  destruct (shl_align m e (fexp 53 1024 (digits m + e))) as [mz ez]. cbn [fst snd] in Hs, Hmin.
  assert (-200 ≤ ez) as Hez by lia. rewrite <-Hs in Hhi |- *. apply round_aux_close; [done|].
  pose proof (scaled_digits mz ez 60 Hez ltac:(lia) Hhi). lia.
Qed.

(** Subtracting one from a value of at least two. *)
Lemma sub_one_close p e :
  -200 ≤ e → 2 ^ 201 ≤ scaled p e < 2 ^ 260 →
  ∃ p' e', SFsub 53 1024 (S754_finite false p e) (S754_finite false 4503599627370496 (-52))
             = S754_finite false p' e' ∧ -200 ≤ e' ∧ digits p' ≤ 53 ∧
    2 ^ 52 * Z.abs (scaled p' e' - (scaled p e - 2 ^ 200)) ≤ scaled p e - 2 ^ 200.
Proof.
  intros He [Hlo Hhi]. cbn [SFsub]. set (ez := Z.min e (-52)).
  assert (-200 ≤ ez) as Hez by lia.
  destruct (shl_align_scaled p e ez Hez) as [Hs Hmin].
  destruct (shl_align_scaled 4503599627370496 (-52) ez Hez) as [Hs1 Hmin1].
  change (scaled 4503599627370496 (-52)) with (2 ^ 200) in Hs1.
  replace (Z.min e ez) with ez in Hmin by lia. replace (Z.min (-52) ez) with ez in Hmin1 by lia.
  rewrite Hmin in Hs. rewrite Hmin1 in Hs1. unfold cond_Zopp.
  set (a := (shl_align p e ez).1) in *. set (b := (shl_align 4503599627370496 (-52) ez).1) in *.
  assert (0 < 2 ^ (ez + 200)) as Hu by (apply Z.pow_pos_nonneg; lia).
  assert ((Z.pos a - Z.pos b) * 2 ^ (ez + 200) = scaled p e - 2 ^ 200) as HD
    by (unfold scaled in Hs, Hs1 |- *; lia).
  assert (0 < Z.pos a - Z.pos b) as Hpos by (apply (Z.mul_pos_cancel_r _ (2 ^ (ez + 200))); lia).
  destruct (Z.pos a - Z.pos b) as [|d|d] eqn:Ed; [lia| |lia]. cbn [binary_normalize].
  rewrite <-HD. change (Z.pos d * 2 ^ (ez + 200)) with (scaled d ez) in HD |- *.
  apply binary_round_close; [done|]. lia.
Qed.
