(* ===== verification/LoadtestSpec.v ===== *)
(** What the load test reports, and what it asks of the gateway. *)
From S2P Require Import Prelude Text Extern Models Errors Effects Config Crypto Enroll EnrollSpec Loadtest FloatSpec.
From Stdlib Require Import ZArith SpecFloat.

#[local] Open Scope Z_scope.

(** ** Counting *)
Lemma zlen_filter_split {A} (P : A → Prop) `{∀ x, Decision (P x)} (l : list A) :
  zlen l = zlen (filter P l) + zlen (filter (λ x, ¬ P x) l).
Proof.
  unfold zlen. induction l as [|x l IH]; [done|]. rewrite !filter_cons.
  repeat case_decide; try tauto; cbn [length] in *; lia.
Qed.

Lemma zlen_perm {A} (l l' : list A) : l ≡ₚ l' → zlen l = zlen l'.
Proof. intros Hl. unfold zlen. by rewrite Hl. Qed.

(** ** The groups *)
Lemma by_endpoint_lookup_from m samples e :
  foldl push_sample m samples !! e =
  match filter (λ s, rs_endpoint s = e) samples with
  | [] => m !! e
  | l => Some (default [] (m !! e) ++ l)
  end.
Proof.
  revert m. induction samples as [|s l IH]; intros m; [done|]. cbn [foldl]. rewrite IH, filter_cons.
  unfold push_sample. destruct (decide (rs_endpoint s = e)) as [<-|Hne].
  - rewrite lookup_insert_eq. cbn. destruct (filter _ l); [done|]. by rewrite <-app_assoc.
  - by rewrite lookup_insert_ne.
Qed.

Lemma by_endpoint_lookup samples e :
  by_endpoint samples !! e =
  match filter (λ s, rs_endpoint s = e) samples with [] => None | l => Some l end.
Proof. unfold by_endpoint. by rewrite by_endpoint_lookup_from, lookup_empty. Qed.

Lemma error_breakdown_from m samples st :
  default 0 (foldl count_error m samples !! st) =
  default 0 (m !! st) + zlen (filter (λ s, rs_status s = st ∧ is_error s) samples).
Proof.
  revert m. induction samples as [|s l IH]; intros m; [unfold zlen; cbn; lia|].
  cbn [foldl]. rewrite IH, filter_cons. unfold count_error, zlen.
  destruct (decide (is_error s)) as [He|He].
  - destruct (decide (rs_status s = st)) as [<-|Hne].
    + rewrite lookup_insert_eq, decide_True by done. cbn [length from_option]. unfold id. lia.
    + rewrite lookup_insert_ne by done. rewrite decide_False by tauto. done.
  - rewrite (decide_False (P := _ ∧ _)) by tauto. done.
Qed.

(** ** Sorted latencies *)
#[export] Instance latencies_total : Total Z.le.
Proof. intros x y. lia. Qed.

Lemma sorted_latencies_perm l : sorted_latencies l ≡ₚ rs_latency_us <$> l.
Proof. apply merge_sort_Permutation. Qed.
Lemma sorted_latencies_sorted l : StronglySorted Z.le (sorted_latencies l).
Proof. apply (StronglySorted_merge_sort _). Qed.

Lemma last_max l m : StronglySorted Z.le l → last l = Some m → Forall (λ x, x ≤ m) l.
Proof.
  intros Hs. induction Hs as [|x l Hs IH Hx]; [done|]. destruct l as [|y l].
  - intros [= ->]. by repeat constructor.
  - intros E. specialize (IH E). constructor; [|done].
    inversion_clear Hx. inversion_clear IH. lia.
Qed.

(** ** Ranks *)
Lemma f64_of_close n :
  1 ≤ n < 2 ^ 60 →
  ∃ p e, f64_of n = S754_finite false p e ∧ -200 ≤ e ∧ digits p ≤ 53 ∧
    2 ^ 52 * Z.abs (scaled p e - n * 2 ^ 200) ≤ n * 2 ^ 200.
Proof.
  intros Hn. destruct n as [|n|n]; [lia| |lia]. unfold f64_of, binary_normalize.
  change (Z.pos n * 2 ^ 200) with (scaled n 0). apply binary_round_close; [lia|].
  unfold scaled. change (0 + 200) with 200. lia.
Qed.

(** [round] moves a value by at most a half. *)
Lemma round_usize_close p e :
  -200 ≤ e → scaled p e < 2 ^ 260 →
  2 * Z.abs (round_usize (S754_finite false p e) * 2 ^ 200 - scaled p e) ≤ 2 ^ 200.
Proof.
  intros He Hhi. unfold round_usize, scaled in *.
  assert (0 < 2 ^ (e + 200)) as Hu by (apply Z.pow_pos_nonneg; lia).
  destruct (Z.leb_spec 0 e) as [Hpos|Hneg].
  - rewrite Z.pow_add_r in Hhi |- * by lia. rewrite Z.min_r by (unfold usize_max; lia). lia.
  - assert (2 ^ 200 = 2 ^ (e + 200) * 2 ^ (- e)) as E200 by (rewrite <-Z.pow_add_r by lia; f_equal; lia).
    assert (2 ^ (- e) = 2 * 2 ^ (- e - 1)) as Ehalf by (rewrite <-Z.pow_succ_r by lia; f_equal; lia).
    assert (0 < 2 ^ (- e - 1)) as Hd by (apply Z.pow_pos_nonneg; lia).
    set (d := 2 ^ (- e - 1)) in *. set (u := 2 ^ (e + 200)) in *. set (D := 2 ^ (- e)) in *.
    pose proof (Z.div_mod (Z.pos p + d) D ltac:(lia)) as Hdm.
    pose proof (Z.mod_pos_bound (Z.pos p + d) D ltac:(lia)) as Hmod.
    set (r := (Z.pos p + d) / D) in *.
    assert (Z.abs (r * D - Z.pos p) ≤ d) as Habs by lia.
    assert (r < 2 ^ 61) as Hr.
    { destruct (Z.lt_ge_cases r (2 ^ 61)) as [|Hge]; [done|exfalso].
      assert (2 ^ 61 * D ≤ r * D) by nia. assert (2 ^ 60 * D ≤ Z.pos p) by lia.
      assert (2 ^ 260 = 2 ^ 60 * (u * D)) by (rewrite <-E200; reflexivity). nia. }
    rewrite Z.min_r by (unfold usize_max; lia). rewrite E200.
    replace (r * (u * D) - Z.pos p * u) with ((r * D - Z.pos p) * u) by lia.
    rewrite Z.abs_mul, (Z.abs_eq u) by lia. nia.
Qed.

(** The factor p / 100, as a float. *)
Lemma factor_close p :
  p ∈ [50; 95; 99] →
  ∃ c, f64_div (f64_of p) (f64_of 100) = S754_finite false c (-53) ∧ 2 ^ 52 ≤ Z.pos c < 2 ^ 53 ∧
    Z.abs (100 * Z.pos c - p * 2 ^ 53) ≤ 100.
Proof.
  intros Hp. repeat (apply elem_of_cons in Hp as [->|Hp]; [eexists; split; [vm_compute; reflexivity|lia]|]).
  by apply elem_of_nil in Hp.
Qed.

Lemma rank_close_large p n :
  p ∈ [50; 95; 99] → 500 < n ≤ 2 ^ 40 → Z.abs (100 * rank p n - p * (n - 1)) ≤ 50.
Proof.
  intros Hp Hn. destruct (factor_close p Hp) as (c & Ec & Hc & Hcp).
  assert (1 ≤ p ≤ 99) as Hp' by (repeat (apply elem_of_cons in Hp as [->|Hp]; [lia|]); by apply elem_of_nil in Hp).
  clear Hp. destruct (f64_of_close n) as (a & ea & Ea & Hea & _ & Ha); [lia|].
  destruct (sub_one_close a ea Hea) as (b & eb & Eb & Heb & Hdb & Hb); [lia|].
  assert (Z.abs (scaled b eb - (n - 1) * 2 ^ 200) ≤ 2 ^ 190) as HB by lia.
  pose proof (scaled_one b eb Heb ltac:(lia)) as Heb1.
  unfold rank. rewrite Ec. unfold f64_sub.
  change (f64_of 1) with (S754_finite false 4503599627370496 (-52)). rewrite Ea, Eb.
  unfold f64_mul. cbn [SFmul xorb].
  assert (scaled (c * b) (-53 + eb) * 2 ^ 53 = Z.pos c * scaled b eb) as Hcb.
  { unfold scaled. rewrite Pos2Z.inj_mul. replace (eb + 200) with (53 + (-53 + eb + 200)) by lia.
    rewrite (Z.pow_add_r 2 53) by lia. lia. }
  assert (scaled b eb < 2 ^ 241) as Hb241 by lia.
  assert (scaled (c * b) (-53 + eb) < 2 ^ 241) as Hcb241 by nia.
  destruct (round_aux_close (c * b) (-53 + eb)) as (x & ex & Ex & Hex & _ & Hx); [lia| |].
  { pose proof (scaled_digits (c * b) (-53 + eb) 41 ltac:(lia) ltac:(lia) Hcb241). lia. }
  rewrite Ex. pose proof (round_usize_close x ex Hex ltac:(lia)) as Hr.
  set (r := round_usize _) in *. set (X := scaled x ex) in *. set (B := scaled b eb) in *.
  set (CB := scaled (c * b) (-53 + eb)) in *.
  assert (Z.abs (100 * CB - p * B) ≤ 2 ^ 196) as H1.
  { assert (Z.abs ((100 * CB - p * B) * 2 ^ 53) ≤ 100 * 2 ^ 241) as Habs.
    { replace ((100 * CB - p * B) * 2 ^ 53) with ((100 * Z.pos c - p * 2 ^ 53) * B) by lia.
      rewrite Z.abs_mul, (Z.abs_eq B) by lia. apply Z.mul_le_mono_nonneg; lia. }
    rewrite Z.abs_mul in Habs. lia. }
  assert (Z.abs (p * B - p * (n - 1) * 2 ^ 200) ≤ 99 * 2 ^ 190) as H2.
  { replace (p * B - p * (n - 1) * 2 ^ 200) with (p * (B - (n - 1) * 2 ^ 200)) by lia.
    rewrite Z.abs_mul, (Z.abs_eq p) by lia. apply Z.mul_le_mono_nonneg; lia. }
  assert (Z.abs (X - CB) ≤ 2 ^ 190) as H3 by lia.
  assert (Z.abs ((100 * r - p * (n - 1)) * 2 ^ 200) < 51 * 2 ^ 200) as H4 by lia.
  rewrite Z.abs_mul in H4. lia.
Qed.

(** Small numbers of samples, by computation. *)
Lemma ranks_small n :
  1 ≤ n ≤ 500 →
  Forall (λ p, Z.abs (100 * rank p n - p * (n - 1)) ≤ 50) [50; 95; 99] ∧
  rank 50 n ≤ rank 95 n ≤ rank 99 n.
Proof.
  intros Hn.
  assert (forallb (λ n, forallb (λ p, Z.abs (100 * rank p n - p * (n - 1)) <=? 50) [50; 95; 99]
    && ((rank 50 n <=? rank 95 n) && (rank 95 n <=? rank 99 n))) (seqZ 1 500) = true)
    as Hall by (vm_compute; reflexivity).
  rewrite forallb_forall in Hall. specialize (Hall n).
  apply andb_true_iff in Hall as [Hp [H1%Z.leb_le H2%Z.leb_le]%andb_true_iff];
    [|apply list_elem_of_In, elem_of_seqZ; lia].
  split; [|done]. rewrite forallb_forall in Hp. apply Forall_forall. intros p Hin.
  by apply Z.leb_le, Hp, list_elem_of_In.
Qed.

(** The rank computed is a nearest one, and ranks are in the order of the
    percentages. *)
Lemma rank_close p n :
  p ∈ [50; 95; 99] → 1 ≤ n ≤ 2 ^ 40 → Z.abs (100 * rank p n - p * (n - 1)) ≤ 50.
Proof.
  intros Hp Hn. destruct (Z.le_gt_cases n 500).
  - destruct (ranks_small n) as [Hall _]; [lia|]. rewrite Forall_forall in Hall. by apply Hall.
  - by apply rank_close_large; [|lia].
Qed.
Lemma ranks_ordered n :
  1 ≤ n ≤ 2 ^ 40 → 0 ≤ rank 50 n ≤ rank 95 n ∧ rank 95 n ≤ rank 99 n ≤ n - 1.
Proof.
  intros Hn. pose proof (λ p Hp, rank_close p n Hp Hn) as Hr.
  pose proof (Hr 50 ltac:(set_solver)). pose proof (Hr 95 ltac:(set_solver)).
  pose proof (Hr 99 ltac:(set_solver)).
  destruct (Z.le_gt_cases n 500); [|lia]. destruct (ranks_small n) as [_ Hs]; lia.
Qed.

(** *** What a list of latencies is summed up by *)
(** [x] is the latency at the nearest rank of percentage [p]: its position among the
    latencies in order is p percent of the last position, rounded. *)
Definition quantile (p : Z) (lats : list Z) (x : Z) : Prop :=
  ∃ sorted i, sorted ≡ₚ lats ∧ StronglySorted Z.le sorted ∧ sorted !! Z.to_nat i = Some x ∧
    0 ≤ i ∧ Z.abs (100 * i - p * (zlen lats - 1)) ≤ 50.

Definition summary (lats : list Z) (p50 p95 p99 mx : Z) : Prop :=
  match lats with
  | [] => p50 = 0 ∧ p95 = 0 ∧ p99 = 0 ∧ mx = 0
  | _ => quantile 50 lats p50 ∧ quantile 95 lats p95 ∧ quantile 99 lats p99 ∧
         p50 ≤ p95 ≤ p99 ∧ p99 ≤ mx ∧ mx ∈ lats ∧ Forall (λ x, x ≤ mx) lats
  end.

Lemma percentile_lookup l p :
  l ≠ [] → 0 ≤ rank p (zlen l) ≤ zlen l - 1 →
  l !! Z.to_nat (rank p (zlen l)) = Some (percentile l p).
Proof.
  intros Hl Hr. unfold percentile. destruct l as [|x l]; [done|].
  rewrite Z.min_l by lia. destruct (nth_lookup_or_length (x :: l) (Z.to_nat (rank p (zlen (x :: l)))) 0)
    as [|Hlen]; [done|]. unfold zlen in *. lia.
Qed.
Lemma sorted_mono (l : list Z) i j x y :
  StronglySorted Z.le l → l !! i = Some x → l !! j = Some y → (i ≤ j)%nat → x ≤ y.
Proof.
  intros Hs. revert i j. induction Hs as [|z l Hs IH Hz]; intros [|i] [|j] Hx Hy Hij; try done; try lia.
  - cbn in *. simplify_eq. lia.
  - cbn in *. simplify_eq. rewrite Forall_forall in Hz. by apply Hz, (list_elem_of_lookup_2 _ j).
  - apply (IH i j); [done..|lia].
Qed.

Lemma latencies_summary (l : list RequestSample) :
  zlen l ≤ 2 ^ 40 →
  let lats := sorted_latencies l in
  summary (rs_latency_us <$> l) (percentile lats 50) (percentile lats 95) (percentile lats 99)
    (default 0 (last lats)).
Proof.
  intros Hn. cbn. pose proof (sorted_latencies_perm l) as Hp. pose proof (sorted_latencies_sorted l) as Hs.
  unfold summary. destruct (rs_latency_us <$> l) as [|x xs] eqn:E.
  { apply Permutation_nil_r in Hp. by rewrite Hp. }
  rewrite <-E in *. assert (sorted_latencies l ≠ []) as Hne.
  { intros H0. rewrite H0, E in Hp. by apply Permutation_nil_l in Hp. }
  assert (zlen (sorted_latencies l) = zlen (rs_latency_us <$> l)) as Hlen by (by apply zlen_perm).
  assert (zlen (rs_latency_us <$> l) = zlen l) as Hlen' by (unfold zlen; by rewrite length_fmap).
  assert (1 ≤ zlen l) as Hpos.
  { rewrite <-Hlen', E. unfold zlen. cbn [length]. lia. }
  pose proof (ranks_ordered (zlen l) ltac:(lia)) as Hord.
  assert (∀ p, p ∈ [50; 95; 99] → 0 ≤ rank p (zlen l) ≤ zlen l - 1 →
    sorted_latencies l !! Z.to_nat (rank p (zlen l)) = Some (percentile (sorted_latencies l) p) ∧
    quantile p (rs_latency_us <$> l) (percentile (sorted_latencies l) p)) as Hq.
  { intros p Hin Hr. pose proof (percentile_lookup (sorted_latencies l) p Hne) as Hl.
    rewrite Hlen, Hlen' in Hl. specialize (Hl Hr). split; [done|].
    exists (sorted_latencies l), (rank p (zlen l)). split_and!; [done..|lia|].
    rewrite Hlen'. by apply rank_close; [|lia]. }
  destruct (Hq 50 ltac:(set_solver) ltac:(lia)) as [H50 Q50].
  destruct (Hq 95 ltac:(set_solver) ltac:(lia)) as [H95 Q95].
  destruct (Hq 99 ltac:(set_solver) ltac:(lia)) as [H99 Q99].
  destruct (last (sorted_latencies l)) as [m|] eqn:Em; [|by apply last_None in Em].
  assert (Forall (λ x, x ≤ m) (sorted_latencies l)) as Hmax by (by apply last_max).
  cbn. split_and!; [done..| | | | |].
  - eapply sorted_mono; [done..|lia].
  - eapply sorted_mono; [done..|lia].
  - rewrite Forall_forall in Hmax. by eapply Hmax, list_elem_of_lookup_2.
  - rewrite <-Hp. by apply last_Some_elem_of.
  - by rewrite <-Hp.
Qed.

(** ** The report *)
Definition zsum : list Z → Z := foldr Z.add 0.
#[export] Instance zsum_perm : Proper ((≡ₚ) ==> (=)) zsum.
Proof. intros l l' Hl. induction Hl; cbn in *; lia. Qed.

Definition grouped (m : gmap string (list RequestSample)) : Z :=
  zsum ((λ kv, zlen kv.2) <$> map_to_list m).
Lemma grouped_insert m k l :
  grouped (<[k := l]> m) = grouped m - zlen (default [] (m !! k)) + zlen l.
Proof.
  assert (∀ m l, m !! k = None → grouped (<[k := l]> m) = zlen l + grouped m) as Hins.
  { intros m' l' Hk. unfold grouped. by rewrite map_to_list_insert. }
  destruct (m !! k) as [old|] eqn:Ek.
  - rewrite <-insert_delete_eq, Hins by apply lookup_delete_eq.
    rewrite <-(insert_delete_id m k old) at 2 by done. rewrite Hins by apply lookup_delete_eq.
    cbn. lia.
  - rewrite Hins by done. unfold zlen. cbn. lia.
Qed.

Lemma by_endpoint_total samples : grouped (by_endpoint samples) = zlen samples.
Proof.
  unfold by_endpoint. assert (∀ m, grouped (foldl push_sample m samples) = grouped m + zlen samples)
    as Hm.
  { induction samples as [|s l IH]; intros m; [unfold zlen; cbn; lia|]. cbn [foldl].
    rewrite IH. unfold push_sample. rewrite grouped_insert. unfold zlen.
    rewrite length_app. cbn [length]. lia. }
  rewrite Hm. unfold grouped. rewrite map_to_list_empty. cbn. lia.
Qed.

Section Report.
Context `{HashIterLaws} (samples : list RequestSample) (scenario : string) (concurrency duration : Z).
#[local] Abbreviation report := (aggregate samples scenario concurrency duration).

Lemma endpoints_perm :
  lr_endpoints report ≡ₚ endpoint_stats <$> map_to_list (by_endpoint samples).
Proof. cbn. rewrite sort_by_key_perm. by rewrite hm_iter_perm. Qed.

(** The statistics of the samples of one endpoint. *)
Definition describes (e : EndpointStats) : Prop :=
  let own := filter (λ s, rs_endpoint s = es_endpoint e) samples in
  own ≠ [] ∧ es_count e = zlen own ∧
  es_errors e = zlen (filter (λ s, 400 ≤ rs_status s ∨ rs_status s = 0) own) ∧
  summary (rs_latency_us <$> own) (es_p50_us e) (es_p95_us e) (es_p99_us e) (es_max_us e).

Lemma endpoint_stats_describes k l :
  zlen samples ≤ 2 ^ 40 →
  by_endpoint samples !! k = Some l → describes (endpoint_stats (k, l)).
Proof.
  intros Hn. rewrite by_endpoint_lookup. unfold describes. cbn [es_endpoint endpoint_stats fst].
  assert (zlen (filter (λ s, rs_endpoint s = k) samples) ≤ 2 ^ 40) as Hown.
  { etrans; [|exact Hn]. unfold zlen. apply inj_le, length_filter. }
  destruct (filter _ samples) as [|s l'] eqn:E; [done|]. intros [= <-].
  split_and!; [done|done|done|by apply latencies_summary].
Qed.

(** C38: The report of a load test (of at most 2^40 samples) accounts for every
    sample: requests that succeeded and that failed, failures by status, and by
    endpoint, each endpoint once and the busiest first; the three percentiles, of all
    samples and of each endpoint's, are the latencies at the nearest ranks of 50, 95
    and 99 percent, in that order and none above the maximum, although the ranks are
    computed in floating point. *)
Theorem aggregate_spec :
  zlen samples ≤ 2 ^ 40 →
  lr_total_requests report = zlen samples ∧
  lr_successful report + lr_failed report = zlen samples ∧
  lr_failed report = zlen (filter is_error samples) ∧
  (∀ st, default 0 (lr_error_breakdown report !! st) =
         zlen (filter (λ s, rs_status s = st ∧ is_error s) samples)) ∧
  summary (rs_latency_us <$> samples) (lr_p50_us report) (lr_p95_us report) (lr_p99_us report)
    (lr_max_us report) ∧
  key_sorted (λ e, - es_count e) (lr_endpoints report) ∧
  NoDup (es_endpoint <$> lr_endpoints report) ∧
  zsum (es_count <$> lr_endpoints report) = zlen samples ∧
  Forall describes (lr_endpoints report) ∧
  Forall (λ s, rs_endpoint s ∈ es_endpoint <$> lr_endpoints report) samples.
Proof.
  assert (es_endpoint <$> (endpoint_stats <$> map_to_list (by_endpoint samples))
          = (map_to_list (by_endpoint samples)).*1) as Hkeys by (by rewrite <-list_fmap_compose).
  intros Hn.
  split_and!.
  - done.
  - cbn. lia.
  - cbn. rewrite (zlen_filter_split (λ s, rs_status s < 400) samples).
    rewrite (list_filter_iff (λ s, ¬ rs_status s < 400) is_error); [lia|]. intros s. unfold is_error. lia.
  - intros st. cbn. unfold error_breakdown. rewrite error_breakdown_from.
    by rewrite lookup_empty.
  - by apply latencies_summary.
  - apply sort_by_key_sorted.
  - rewrite endpoints_perm, Hkeys. apply NoDup_fst_map_to_list.
  - rewrite endpoints_perm. rewrite <-list_fmap_compose. apply by_endpoint_total.
  - rewrite endpoints_perm. apply Forall_fmap, Forall_forall. intros [k l] Hin%elem_of_map_to_list.
    by apply endpoint_stats_describes.
  - rewrite Forall_forall. intros s Hs. rewrite endpoints_perm, Hkeys.
    assert (s ∈ filter (λ s', rs_endpoint s' = rs_endpoint s) samples) as Hf
      by (by apply list_elem_of_filter).
    pose proof (by_endpoint_lookup samples (rs_endpoint s)) as El.
    destruct (filter _ samples) as [|s' l]; [by apply not_elem_of_nil in Hf|].
    apply list_elem_of_fmap. exists (rs_endpoint s, s' :: l). split; [done|].
    by apply elem_of_map_to_list.
Qed.
End Report.

(** ** The rolls of a worker *)
Fixpoint rolls (n : nat) (counter : Z) : list Z :=
  match n with O => [] | S n => counter :: rolls n (next_roll counter) end.

Lemma rolls_lookup n counter i :
  0 ≤ counter < 256 → (i < n)%nat → rolls n counter !! i = Some ((counter + 7 * Z.of_nat i) mod 256).
Proof.
  revert counter i. induction n as [|n IH]; intros counter [|i] Hc Hi; [lia..| |].
  - cbn. f_equal. rewrite Z.mul_0_r, Z.add_0_r. by rewrite Z.mod_small.
  - cbn [rolls lookup list_lookup]. unfold next_roll, wrap_u8. change (2 ^ 8) with 256.
    rewrite IH by (try apply Z.mod_pos_bound; lia). f_equal.
    rewrite Z.add_mod_idemp_l by lia. f_equal. lia.
Qed.
Lemma length_rolls n counter : length (rolls n counter) = n.
Proof. revert counter. induction n as [|n IH]; intros counter; [done|]. cbn. by rewrite IH. Qed.

(** Any 256 successive rolls are all the bytes, each once. *)
Lemma rolls_cycle counter : 0 ≤ counter < 256 → rolls 256 counter ≡ₚ seqZ 0 256.
Proof.
  intros Hc. assert (NoDup (rolls 256 counter)) as Hnd.
  { apply NoDup_alt. intros i j x Hi Hj.
    pose proof (lookup_lt_Some _ _ _ Hi) as Hi'. pose proof (lookup_lt_Some _ _ _ Hj) as Hj'.
    rewrite length_rolls in Hi', Hj'. rewrite rolls_lookup in Hi, Hj by lia.
    assert ((counter + 7 * Z.of_nat i) mod 256 = (counter + 7 * Z.of_nat j) mod 256) as E
      by congruence.
    assert (((7 * (Z.of_nat i - Z.of_nat j)) mod 256) = 0) as Hm.
    { replace (7 * (Z.of_nat i - Z.of_nat j))
        with ((counter + 7 * Z.of_nat i) - (counter + 7 * Z.of_nat j)) by lia.
      by rewrite Zminus_mod, E, Z.sub_diag. }
    apply Z.mod_divide in Hm; [|lia]. apply Z.gauss in Hm; [|done]. destruct Hm as [q Hq].
    assert (q = 0) by lia. subst q. lia. }
  symmetry. apply submseteq_length_Permutation.
  - apply NoDup_submseteq; [apply NoDup_seqZ|]. intros x Hx%elem_of_seqZ.
    assert (NoDup (seqZ 0 256)) as Hz by apply NoDup_seqZ.
    assert (rolls 256 counter ⊆ seqZ 0 256) as Hsub.
    { intros y [i Hi]%list_elem_of_lookup. pose proof (lookup_lt_Some _ _ _ Hi) as Hi'.
      rewrite length_rolls in Hi'. rewrite rolls_lookup in Hi by lia. injection Hi as <-.
      apply elem_of_seqZ. pose proof (Z.mod_pos_bound (counter + 7 * Z.of_nat i) 256). lia. }
    apply (NoDup_submseteq _ _ Hnd) in Hsub.
    apply (submseteq_length_Permutation _ _) in Hsub; [|by rewrite length_rolls, length_seqZ].
    rewrite Hsub. by apply elem_of_seqZ.
  - by rewrite length_rolls, length_seqZ.
Qed.

(** ** The workers of a run *)
Lemma fmt_dec_inj i j : 0 ≤ i → 0 ≤ j → fmt_dec i = fmt_dec j → i = j.
Proof. unfold fmt_dec. intros Hi Hj E%(inj pretty). lia. Qed.

Lemma org_ids_length c scenario orgs :
  zlen (org_ids c scenario orgs) =
  Z.max 0 (if decide (scenario = "multi-org"%string) then orgs else c).
Proof. unfold org_ids, zlen. case_decide; rewrite length_fmap, length_seqZ; lia. Qed.

Lemma org_ids_lookup c scenario orgs i :
  0 ≤ i < (if decide (scenario = "multi-org"%string) then orgs else c) →
  org_ids c scenario orgs !! Z.to_nat i =
  Some (if decide (scenario = "multi-org"%string) then "org-" +:+ fmt_dec i
        else "worker-org-" +:+ fmt_dec i).
Proof.
  unfold org_ids. destruct (decide _); intros Hi; rewrite list_lookup_fmap, lookup_seqZ_lt by lia;
    by replace (0 + Z.of_nat (Z.to_nat i)) with i by lia.
Qed.

(** A run has a worker for each unit of concurrency, each with an organization
    of its own, or in the multi-org scenario the organizations in turn; it panics
    exactly when the multi-org scenario is asked for without organizations. *)
Theorem plan_spec c scenario orgs :
  (plan c scenario orgs = None ↔ scenario = "multi-org"%string ∧ orgs ≤ 0 ∧ 0 < c) ∧
  ∀ ws, plan c scenario orgs = Some ws →
    zlen ws = Z.max 0 c ∧
    ∀ i, 0 ≤ i < c → ws !! Z.to_nat i = Some
      (if decide (scenario = "multi-org"%string)
       then (i, "org-" +:+ fmt_dec (i mod orgs), "mixed"%string)
       else (i, "worker-org-" +:+ fmt_dec i, scenario)).
Proof.
  assert (∀ i, 0 ≤ i < c → (scenario = "multi-org"%string → 0 < orgs) →
    worker_of c scenario orgs i = Some
      (if decide (scenario = "multi-org"%string)
       then (i, "org-" +:+ fmt_dec (i mod orgs), "mixed"%string)
       else (i, "worker-org-" +:+ fmt_dec i, scenario))) as Hw.
  { intros i Hi Ho. unfold worker_of. pose proof (org_ids_length c scenario orgs) as Hlen.
    pose proof (org_ids_lookup c scenario orgs) as Hl. case_decide as Hs.
    - specialize (Ho Hs). rewrite Hlen, Z.max_r by lia.
      destruct (Z.eqb_spec orgs 0); [lia|]. rewrite Hl by (apply Z.mod_pos_bound; lia). done.
    - by rewrite Hl. }
  destruct (decide (scenario = "multi-org"%string ∧ orgs ≤ 0 ∧ 0 < c)) as [(-> & Ho & Hc)|Hno].
  - assert (plan c "multi-org" orgs = None) as ->; [|by split].
    unfold plan. replace c with (1 + (c - 1)) by lia. rewrite seqZ_app by lia. cbn.
    unfold worker_of at 1. cbn -[zlen org_ids].
    rewrite (proj2 (Z.eqb_eq _ 0)); [done|]. rewrite org_ids_length, decide_True by done. lia.
  - assert (0 < c → scenario = "multi-org"%string → 0 < orgs) as Hpos.
    { intros Hc Hs. destruct (Z.lt_ge_cases 0 orgs); [done|]. by destruct Hno. }
    assert (∃ ws, plan c scenario orgs = Some ws) as [ws Ews].
    { unfold plan. apply mapM_is_Some_2, Forall_forall. intros i Hi%elem_of_seqZ.
      eexists. apply Hw; [lia|apply Hpos; lia]. }
    rewrite Ews. split; [by split|]. intros ? [= <-]. unfold plan in Ews.
    apply mapM_Some_1 in Ews. split.
    + unfold zlen. rewrite <-(Forall2_length _ _ _ Ews), length_seqZ. lia.
    + intros i Hi. destruct (Forall2_lookup_l _ _ _ (Z.to_nat i) i Ews) as (w & Ew & Hwi).
      { rewrite lookup_seqZ_lt by lia. f_equal. lia. }
      rewrite Hw in Hwi; [|done|apply Hpos; lia]. by rewrite Ew, <-Hwi.
Qed.
