(* ===== verification/LoadtestRoutes.v ===== *)
(** The load test and the gateway's routes: every request a worker sends has a
    handler. *)
From S2P Require Import Prelude Text Extern Models Errors Effects Config Crypto Manager Auth Enroll Formations Api Loadtest.
From Stdlib Require Import ZArith Ascii.

#[local] Open Scope Z_scope.

(** ** Path segments *)
Definition not_slash (a : ascii) : bool := negb (bool_decide (a = "/"%char)).
Definition seg (s : string) : Prop := s ≠ EmptyString ∧ all_chars not_slash s = true.

Lemma seg_app a b : seg a → all_chars not_slash b = true → seg (a +:+ b).
Proof.
  intros [Hne Ha] Hb. split; [by destruct a|]. by rewrite all_chars_app, Ha, Hb.
Qed.

Lemma pretty_N_char_not_slash x : not_slash (pretty_N_char x) = true.
Proof. unfold pretty_N_char. by repeat case_match. Qed.
Lemma pretty_N_go_not_slash x s :
  all_chars not_slash s = true → all_chars not_slash (pretty_N_go x s) = true.
Proof.
  revert s. induction (N.lt_wf_0 x) as [x _ IH]. intros s Hs.
  destruct (decide (x = 0%N)) as [->|Hne]; [by rewrite pretty_N_go_0|].
  rewrite pretty_N_go_step by lia. apply IH; [apply N.div_lt; lia|].
  cbn [all_chars]. by rewrite pretty_N_char_not_slash, Hs.
Qed.
Lemma fmt_dec_not_slash n : all_chars not_slash (fmt_dec n) = true.
Proof.
  unfold fmt_dec, pretty, pretty_N. case_decide; [done|]. by apply pretty_N_go_not_slash.
Qed.

Lemma app_id_seg i n : seg ("w" +:+ fmt_dec i +:+ "-app-" +:+ fmt_dec n).
Proof.
  apply seg_app; [done|]. rewrite !all_chars_app. by rewrite !fmt_dec_not_slash.
Qed.

(** ** Programs whose requests satisfy a predicate *)
Definition emits_eff (P : request → Prop) {X} (e : eff X) : (X → Prop) → Prop :=
  match e in eff X return (X → Prop) → Prop with
  | Net rq => λ E, P rq ∧ ∀ rp, E rp
  | Store _ => λ _, False
  | SystemTime => λ E, ∀ t, E t
  | OsRng _ => λ E, ∀ b, E b
  | Sleep _ => λ E, E tt
  end.
Fixpoint emits {A} (P : request → Prop) (p : prog A) (Q : A → Prop) : Prop :=
  match p with
  | Ret a => Q a
  | Do e k => emits_eff P e (λ x, emits P (k x) Q)
  end.

Lemma emits_pbind {A B} P (p : prog A) (f : A → prog B) Q :
  emits P p (λ a, emits P (f a) Q) → emits P (pbind p f) Q.
Proof.
  induction p as [a|X e k IH]; cbn; [done|]. destruct e; cbn; intros Hp; try naive_solver.
Qed.
Lemma emits_mono {A} P (p : prog A) (Q Q' : A → Prop) :
  emits P p Q → (∀ a, Q a → Q' a) → emits P p Q'.
Proof.
  intros Hp HQ. induction p as [a|X e k IH]; cbn in *; [auto|]. destruct e; cbn in *; naive_solver.
Qed.

(** ** Requests that the gateway routes *)
Section Routed.
Context `{HexLib} `{AeadLib} `{MeshLib} `{HttpLib} `{AxumLib} `{Serde Value} `{Serde Map}.
Context `{Serde CreateOrgRequest} `{Serde UpdateOrgRequest} `{Serde CreateFormationRequest}
  `{Serde CreateTokenRequest} `{Serde CreateSinkRequest} `{Serde ToggleSinkRequest}
  `{Serde CreateIdpRequest} `{Serde ToggleIdpRequest} `{Serde CreatePolicyRuleRequest}
  `{Serde EnrollRequest}.
Context (mgr : TenantManager) (mesh : MeshStateRegistry) (oidc : bool) (base : string).

(** The method and the URL of an HTTP request. *)
Definition target (rq : request) : option (method * string) :=
  match rq with
  | HttpGet url _ => Some (GET, url)
  | HttpPost url _ _ => Some (POST, url)
  | HttpPatch url _ _ => Some (PATCH, url)
  | HttpDelete url _ => Some (DELETE, url)
  | _ => None
  end.

(** The router has a handler for the request, whatever its headers and its body. *)
Definition routed (rq : request) : Prop :=
  ∃ m path, target rq = Some (m, base +:+ "/" +:+ path) ∧
    ∀ hs body, is_Some (serve mgr mesh oidc None
      {| rq_method := m; rq_path := split "/" path; rq_query := EmptyString;
         rq_headers := hs; rq_body := body |}).

(** The patterns of the routes and their methods. *)
Definition shape (rs : list route) : list (list segment * list method) :=
  (λ r, (r.1, r.2.*1)) <$> rs.
Fixpoint has_route (rs : list (list segment * list method)) (m : method) (path : list string) : bool :=
  match rs with
  | [] => false
  | (pattern, ms) :: rs =>
      match match_path pattern path with
      | Some _ => bool_decide (m ∈ ms)
      | None => has_route rs m path
      end
  end.

Lemma find_route_shape rs rq :
  has_route (shape rs) (rq_method rq) (rq_path rq) = true → is_Some (find_route rs rq).
Proof.
  induction rs as [|[pattern es] rs IH]; [done|]. cbn. destruct (match_path _ _) as [ps|]; [|done].
  rewrite bool_decide_eq_true. intros Hin.
  assert (is_Some (find_method (rq_method rq) es)) as [e ->]; [|by eexists].
  clear -Hin. induction es as [|[m e] es IH]; [by apply not_elem_of_nil in Hin|]. cbn in *.
  case_decide; [by eexists|]. apply IH. set_solver.
Qed.

Lemma find_route_app rs1 rs2 rq :
  is_Some (find_route (rs1 ++ rs2) rq) →
  is_Some (find_route rs1 rq) ∨ (find_route rs1 rq = None ∧ is_Some (find_route rs2 rq)).
Proof.
  induction rs1 as [|[pattern es] rs1 IH]; cbn; [by right|].
  destruct (match_path _ _) as [ps|]; [by left|done].
Qed.

Definition routes_shape : list (list segment * list method) :=
  shape (admin_routes mgr mesh ++ public_routes mgr oidc).

Lemma routed_segs rq m segs :
  target rq = Some (m, base +:+ "/" +:+ join "/" segs) → segs ≠ [] → Forall seg segs →
  has_route routes_shape m segs = true → routed rq.
Proof.
  intros Ht Hne Hs Hr. exists m, (join "/" segs). split; [done|]. intros hs body.
  rewrite split_join; [|done|eapply Forall_impl; [exact Hs|]; by intros x [_ ?]].
  unfold serve. destruct (find_route_app (admin_routes mgr mesh) (public_routes mgr oidc)
    {| rq_method := m; rq_path := segs; rq_query := EmptyString; rq_headers := hs; rq_body := body |})
    as [[h ->]|[-> [h Hh]]]; [by apply find_route_shape|by eexists|by exists h].
Qed.

(** The worker's names are path segments. *)
Definition worker_ok (s : WorkerState) : Prop := seg (ws_org_id s) ∧ Forall seg (app_ids s).
Definition keeps_routed (p : prog Loadtest.outcome) : Prop := emits routed p (λ out, worker_ok out.1).

Lemma get_routed path Q :
  routed (HttpGet (base +:+ path) []) → (∀ r, Q r) → emits routed (send_get base path) Q.
Proof. intros Hr HQ. cbn. auto. Qed.
Lemma delete_routed path Q :
  routed (HttpDelete (base +:+ path) []) → (∀ r, Q r) → emits routed (send_delete base path) Q.
Proof. intros Hr HQ. cbn. auto. Qed.
Lemma post_routed path v Q :
  (∀ b, routed (HttpPost (base +:+ path) json_header b)) → (∀ r, Q r) →
  emits routed (send_post base path v) Q.
Proof. intros Hr HQ. unfold send_post. destruct (to_vec v); [cbn; auto|apply HQ]. Qed.
Lemma patch_routed path v Q :
  (∀ b, routed (HttpPatch (base +:+ path) json_header b)) → (∀ r, Q r) →
  emits routed (send_patch base path v) Q.
Proof. intros Hr HQ. unfold send_patch. destruct (to_vec v); [cbn; auto|apply HQ]. Qed.

(** A segment is not empty. *)
Ltac open_segs :=
  repeat lazymatch goal with
  | H : seg ?x |- _ => destruct x; [by destruct H|clear H]
  end.
Ltac route m segs :=
  apply (routed_segs _ m segs);
  [ cbn [target]; do 2 f_equal; unfold formation_path, orgs_path; cbn [join with_app_ids ws_org_id];
    by rewrite ?str_app_assoc
  | done
  | repeat (apply Forall_cons; split); done
  | unfold routes_shape; open_segs; destruct oidc; vm_compute; reflexivity ].

Lemma execute_op_routed s op :
  worker_ok s → op ≠ ToggleSink → keeps_routed (execute_op base s op).
Proof.
  intros Hs Hop. pose proof Hs as [Ho Ha]. unfold keeps_routed.
  destruct s as [wid org apps toks sinks n]. cbn [ws_org_id app_ids] in Ho, Ha.
  destruct op; cbn [execute_op next_app_id ws_org_id app_ids formation_counter] in *.
  - apply emits_pbind, post_routed; [|done]. intros b. route POST ["orgs"%string].
  - apply emits_pbind, get_routed; [|done]. route GET ["orgs"%string; org].
  - apply emits_pbind, get_routed; [|done]. route GET ["orgs"%string].
  - apply emits_pbind, post_routed.
    + intros b. route POST ["orgs"%string; org; "formations"%string].
    + intros [[status body]|]; cbn; [|done]. destruct (status <? 400); [|done].
      split; [done|]. cbn. apply Forall_app. split; [done|]. apply Forall_singleton, app_id_seg.
  - destruct apps as [|a apps]; [done|]. apply emits_pbind, get_routed; [|done].
    assert (seg (nth (Z.to_nat (n mod zlen (a :: apps))) (a :: apps) EmptyString)) as Hseg.
    { rewrite Forall_forall in Ha. apply Ha, list_elem_of_In, nth_In. unfold zlen.
      pose proof (Z.mod_pos_bound n (Z.of_nat (length (a :: apps)))). cbn [length] in *. lia. }
    generalize dependent (nth (Z.to_nat (n mod zlen (a :: apps))) (a :: apps) EmptyString).
    intros x Hx. route GET ["orgs"%string; org; "formations"%string; x].
  - apply emits_pbind, get_routed; [|done]. route GET ["orgs"%string; org; "formations"%string].
  - destruct (last apps) as [a|] eqn:El; [|done].
    apply last_Some in El as [l ->]. apply Forall_app in Ha as [Hl Hx]. apply Forall_cons in Hx as [Hx _].
    apply emits_pbind, delete_routed.
    + route DELETE ["orgs"%string; org; "formations"%string; a].
    + intros r. cbn. rewrite removelast_last. by split.
  - destruct apps as [|a apps]; [done|]. apply emits_pbind, post_routed.
    + intros b. route POST ["orgs"%string; org; "tokens"%string].
    + intros [[status body]|]; cbn; [|done]. destruct (status <? 400); [|done].
      by destruct (json_field body "token_id").
  - destruct apps as [|a apps]; [done|]. apply Forall_cons in Ha as [Hx Ha'].
    apply emits_pbind, get_routed; [|by intros r; split; [|apply Forall_cons]].
    route GET ["orgs"%string; org; "formations"%string; a; "tokens"%string].
  - apply emits_pbind, post_routed.
    + intros b. route POST ["orgs"%string; org; "sinks"%string].
    + intros [[status body]|]; cbn; [|done]. destruct (status <? 400); [|done].
      by destruct (json_field body "sink_id").
  - apply emits_pbind, get_routed; [|done]. route GET ["orgs"%string; org; "sinks"%string].
  - done.
  - apply emits_pbind, get_routed; [|done]. route GET ["health"%string].
Qed.

Lemma pick_op_no_toggle scenario counter s : pick_op scenario counter s ≠ ToggleSink.
Proof.
  unfold pick_op, pick_read_heavy_op, pick_mixed_op, with_formation.
  repeat case_match; discriminate.
Qed.

Lemma worker_loop_routed scenario ticks counter s :
  worker_ok s → emits routed (worker_loop base scenario ticks counter s) (λ _, True).
Proof.
  revert counter s. induction ticks as [|t ticks IH]; intros counter s Hs; [done|].
  cbn [worker_loop]. destruct (t_stop t); [done|]. apply emits_pbind.
  eapply emits_mono; [apply execute_op_routed; [done|apply pick_op_no_toggle]|].
  intros [s' r] Hs'. apply emits_pbind. eapply emits_mono; [by apply IH|]. by intros l _.
Qed.

(** C39: Every request of a load test's worker, whatever its scenario, the answers
    it gets and how long it runs, has a handler: none is answered 404 or 405 by the
    router. *)
Theorem worker_requests_routed worker_id org_id scenario ticks :
  seg org_id → emits routed (run_worker base worker_id org_id scenario ticks) (λ _, True).
Proof.
  intros Ho. unfold run_worker. assert (worker_ok (WorkerState_new worker_id org_id)) as Hs by done.
  revert Hs. generalize (WorkerState_new worker_id org_id). intros s Hs.
  apply emits_pbind. eapply emits_mono; [by apply execute_op_routed|]. intros [s1 r1] Hs1. cbn [fst].
  apply emits_pbind, patch_routed.
  { intros b. destruct Hs1 as [Ho1 _]. destruct s1 as [w1 o1 a1 t1 k1 n1]. cbn in Ho1.
    route PATCH ["orgs"%string; o1]. }
  intros _. apply emits_pbind. eapply emits_mono; [by apply execute_op_routed|].
  intros [s2 r2] Hs2. cbn [fst]. apply emits_pbind.
  eapply emits_mono; [by apply execute_op_routed|]. intros [s3 r3] Hs3. cbn [fst].
  apply emits_pbind. eapply emits_mono; [by apply execute_op_routed|]. intros [s4 r4] Hs4. cbn [fst].
  by apply worker_loop_routed.
Qed.
End Routed.
