(* ===== verification/Concurrency.v ===== *)
(** Requests that run at the same time.

    The gateway serves each request in a task of its own, so the effects of
    several operations interleave; a storage method is one transaction and one
    step.  [interleave] executes a pool of programs under a schedule.  [swp]
    proves an invariant of the content that every step of a program keeps,
    whatever the other tasks do in between, and [interleave_sound] carries it to
    every schedule and backend. *)
From S2P Require Import Prelude Text Extern Models Errors Effects Spec Wp.
From Stdlib Require Import ZArith.

#[local] Open Scope Z_scope.

(** ** Pools of tasks *)
Section Pool.
Context {St : Type} `{Backend St} (o : oracle) {A : Type}.

(** Task [i] performs its next effect. *)
Definition step_task (i : nat) (ps : list (prog A)) (w : world St) :
    list (prog A) * world St :=
  match ps !! i with
  | Some (Do e k) => let '(x, w) := exec o e w in (<[i := k x]> ps, w)
  | _ => (ps, w)
  end.

Fixpoint interleave (schedule : list nat) (ps : list (prog A)) (w : world St) :
    list (prog A) * world St :=
  match schedule with
  | [] => (ps, w)
  | i :: schedule => let '(ps, w) := step_task i ps w in interleave schedule ps w
  end.

Lemma interleave_app s1 s2 ps w :
  interleave (s1 ++ s2) ps w = let '(ps, w) := interleave s1 ps w in interleave s2 ps w.
Proof.
  revert ps w; induction s1 as [|i s1 IH]; intros ps w; [done|]. cbn.
  destruct (step_task i ps w). apply IH.
Qed.

(** A task that is left to run alone ends with the answer of [run]. *)
Lemma interleave_alone i p ps w :
  ps !! i = Some p →
  ∃ n, interleave (replicate n i) ps w = (<[i := Ret (run o p w).1]> ps, (run o p w).2).
Proof.
  revert ps w. induction p as [a|X e k IH]; intros ps w Hi.
  - exists 0%nat. cbn. by rewrite list_insert_id.
  - cbn [run]. destruct (exec o e w) as [x w1] eqn:E.
    destruct (IH x (<[i := k x]> ps) w1) as [n Hn].
    { apply list_lookup_insert_eq. by eapply lookup_lt_Some. }
    exists (S n). cbn [replicate interleave]. unfold step_task at 1. rewrite Hi, E, Hn.
    by rewrite list_insert_insert_eq.
Qed.

End Pool.

(** ** Invariants that every step keeps *)
Section Swp.
Context (I : db → Prop).

Definition swp_eff {X} (e : eff X) : (X → Prop) → Prop :=
  match e in eff X return (X → Prop) → Prop with
  | Store op => λ Q, ∀ m, I m →
      op_ok op ∧ (∀ r m', spec op m r m' → I m' ∧ Q (Ok r)) ∧ ∀ e, Q (Err e)
  | OsRng n => λ Q, ∀ b, length b = n → Q b
  | SystemTime => λ Q, ∀ t, Q t
  | Net _ => λ Q, ∀ rp, Q rp
  | Sleep _ => λ Q, Q tt
  end.

Fixpoint swp {A} (p : prog A) (Q : A → Prop) : Prop :=
  match p with
  | Ret a => Q a
  | Do e k => swp_eff e (λ x, swp (k x) Q)
  end.

Lemma swp_eff_mono {X} (e : eff X) (Q Q' : X → Prop) :
  (∀ x, Q x → Q' x) → swp_eff e Q → swp_eff e Q'.
Proof. intros HQ. destruct e; cbn; [|auto..]. naive_solver. Qed.

Lemma swp_mono {A} (p : prog A) (Q Q' : A → Prop) :
  swp p Q → (∀ a, Q a → Q' a) → swp p Q'.
Proof.
  intros Hp HQ. induction p as [a|X e k IH]; cbn in *; [auto|].
  eapply swp_eff_mono; [|exact Hp]. eauto.
Qed.

Lemma swp_pbind {A B} (p : prog A) (f : A → prog B) Q :
  swp p (λ a, swp (f a) Q) → swp (pbind p f) Q.
Proof.
  induction p as [a|X e k IH]; cbn; [done|]. apply swp_eff_mono. eauto.
Qed.

Lemma swp_mbind {E A B} (c : prog (result E A)) (f : A → prog (result E B)) Q :
  swp c (λ r, match r with Ok a => swp (f a) Q | Err e => Q (Err e) end) → swp (mbind c f) Q.
Proof. intros Hc. apply swp_pbind. eapply swp_mono; [exact Hc|]. by intros []. Qed.

Lemma swp_call {R} (op : StoreOp R) Q :
  (∀ m, I m → op_ok op) → (∀ m r m', I m → spec op m r m' → I m' ∧ Q (Ok r)) →
  (∀ e, Q (Err e)) → swp (call op) Q.
Proof. intros Hok Hs He. cbn. naive_solver. Qed.

Lemma swp_ret {A} (a : A) Q : Q a → swp (Ret a) Q.
Proof. done. Qed.
Lemma swp_now_ms Q : (∀ t, Q (wrap_u64 t)) → swp now_ms Q.
Proof. done. Qed.
Lemma swp_random_bytes n (Q : bytes → Prop) :
  (∀ b, length b = n → Q b) → swp (random_bytes n) Q.
Proof. done. Qed.

Lemma swp_no_store {A} (p : prog A) Q : no_store p → (∀ a, Q a) → swp p Q.
Proof.
  intros Hp HQ. induction p as [a|X e k IH]; cbn in *; [done|]. destruct Hp as [He Hk].
  destruct e; cbn in *; [done|..]; auto.
Qed.

(** *** Soundness *)
Context `{StorageSpec St rep} (o : oracle) {A : Type} (Q : A → Prop).

Lemma exec_sound {X} (e : eff X) (w : world St) (P : X → Prop) x w' m :
  exec o e w = (x, w') → rep (w_store w) m → I m → swp_eff e P →
  P x ∧ ∃ m', rep (w_store w') m' ∧ I m'.
Proof.
  intros E Hr HI He. destruct e as [R op| |n|rq|ms]; cbn in E, He;
    try (injection E as <- <-; split; [auto|by exists m]).
  - destruct (handle op (w_store w)) as [r s] eqn:Eh. injection E as <- <-.
    destruct (He m HI) as (Hok & Hs & Herr).
    pose proof (handle_spec op _ _ r s Hr Hok Eh) as Hspec. destruct r as [r|err].
    + destruct Hspec as (m' & Hm' & Hr'). destruct (Hs _ _ Hm'). eauto.
    + split; [auto|by exists m].
  - apply He, length_rng_bytes.
Qed.

Theorem interleave_sound schedule ps w m :
  rep (w_store w) m → I m → Forall (λ p, swp p Q) ps →
  let out := interleave o schedule ps w in
  Forall (λ p, swp p Q) out.1 ∧ ∃ m', rep (w_store out.2) m' ∧ I m'.
Proof.
  cbv zeta. revert ps w m. induction schedule as [|i sch IH]; intros ps w m Hr HI Hps; cbn.
  { split; [done|by exists m]. }
  unfold step_task. destruct (ps !! i) as [[a|X e k]|] eqn:Ei; [by eapply IH| |by eapply IH].
  destruct (exec o e w) as [x w'] eqn:E.
  pose proof (Forall_lookup_1 _ _ _ _ Hps Ei) as Hp. cbn in Hp.
  destruct (exec_sound e w _ x w' m E Hr HI Hp) as (Hx & m' & Hr' & HI').
  eapply IH; [done..|]. by apply Forall_insert.
Qed.
End Swp.
