(* ===== verification/ConcurrencySpec.v ===== *)
(** The tenant manager under concurrent requests.

    [rows_wf] is the part of the invariant that no interleaving of manager calls
    breaks.  The rest of the file shows what interleaving does break: the bound on a
    token's redemptions, its revocation, and that a token's organization exists. *)
From S2P Require Import Prelude Text Extern Models Errors Effects Spec Wp Crypto Manager Invariant ManagerInv Concurrency.
From Stdlib Require Import ZArith.

#[local] Open Scope Z_scope.

(** ** The invariant of single rows *)
Record rows_wf (m : db) : Prop := {
  rw_orgs o org : d_orgs m !! o = Some org → o_org_id org = o ∧ valid_identifier o;
  rw_formations o a f : d_formations m !! (o, a) = Some f →
    f_app_id f = a ∧ valid_identifier a ∧ nul_free o;
  rw_tokens o t tok : d_tokens m !! (o, t) = Some tok →
    t_org_id tok = o ∧ t_token_id tok = t ∧ nul_free o ∧ nul_free t ∧ token_ok tok;
  rw_sinks o s sink : d_sinks m !! (o, s) = Some sink →
    s_org_id sink = o ∧ s_sink_id sink = s ∧ nul_free o ∧ nul_free s ∧
    validate_sink_type (s_sink_type sink) = Ok tt;
  rw_idps o i idp : d_idps m !! (o, i) = Some idp →
    i_org_id idp = o ∧ i_idp_id idp = i ∧ nul_free o ∧ nul_free i ∧
    validate_issuer_url (i_issuer_url idp) = Ok tt;
  rw_rules o r rule : d_rules m !! (o, r) = Some rule →
    r_org_id rule = o ∧ r_rule_id rule = r;
  rw_audit o ts a e : d_audit m !! (o, ts, a) = Some e →
    a_org_id e = o ∧ a_timestamp_ms e = ts ∧ a_audit_id e = a;
}.

Lemma wf_rows_wf m : wf m → rows_wf m.
Proof.
  intros Hwf. pose proof Hwf as [Ho Hf Ht Hs Hi Hr Ha _].
  assert (∀ o, has_org o m → nul_free o) by (intros; by eapply wf_org_nul_free).
  split; [done|..]; intros; try (by eauto).
  - destruct (Hf _ _ _ H0) as (?&?&?); auto.
  - destruct (Ht _ _ _ H0) as (?&?&?&?&?); eauto 6.
  - destruct (Hs _ _ _ H0) as (?&?&?&?&?); eauto 6.
  - destruct (Hi _ _ _ H0) as (?&?&?&?&?); eauto 6.
  - destruct (Hr _ _ _ H0) as (?&?&?); auto.
Qed.

Lemma rows_wf_empty : rows_wf db_empty.
Proof. apply wf_rows_wf, wf_empty. Qed.

(** What a written row satisfies. *)
Definition op_row {R} (op : StoreOp R) : Prop :=
  op_ok op ∧
  match op with
  | CreateOrg org | UpdateOrg org => valid_identifier (o_org_id org)
  | CreateFormation o f => valid_identifier (f_app_id f)
  | CreateToken t | UpdateToken t => token_ok t
  | CreateSink s | UpdateSink s => validate_sink_type (s_sink_type s) = Ok tt
  | CreateIdp i | UpdateIdp i => validate_issuer_url (i_issuer_url i) = Ok tt
  | _ => True
  end.

Local Ltac lookup_cases :=
  repeat match goal with
  | H : <[_ := _]> _ !! _ = Some _ |- _ => apply lookup_insert_Some in H
  | H : delete _ _ !! _ = Some _ |- _ => apply lookup_delete_Some in H
  | H : rows_not_of _ _ !! _ = Some _ |- _ => apply rows_not_of_Some in H
  | H : _ ∧ _ |- _ => destruct H
  | H : _ ∨ _ |- _ => destruct H
  end; simplify_eq.

Lemma spec_rows_wf {R} (op : StoreOp R) m r m' :
  rows_wf m → op_row op → spec op m r m' → rows_wf m'.
Proof.
  intros Hwf [Hok Hop] Hs. pose proof Hwf as [Ho Hf Ht Hsk Hi Hr Ha].
  destruct op; cbn in Hok, Hop, Hs; destruct_and?; destruct_or?; destruct_and?; subst; try exact Hwf;
    constructor; cbn; intros; lookup_cases; try done; split_and?; try done;
    try (by eauto using valid_identifier_nul_free);
    try (by eapply Ho); try (by eapply Hf); try (by eapply Ht); try (by eapply Hsk);
    try (by eapply Hi); try (by eapply Hr); try (by eapply Ha).
  all: match goal with
      | H : d_formations _ !! _ = Some _ |- _ => by destruct (Hf _ _ _ H) as (?&?&?)
      | H : d_tokens _ !! _ = Some _ |- _ => by destruct (Ht _ _ _ H) as (?&?&?&?&?)
      | H : d_sinks _ !! _ = Some _ |- _ => by destruct (Hsk _ _ _ H) as (?&?&?&?&?)
      | H : d_idps _ !! _ = Some _ |- _ => by destruct (Hi _ _ _ H) as (?&?&?&?&?)
      end.
Qed.

(** ** Symbolic execution under interference *)
Section Steps.
Abbreviation swp := (swp rows_wf).

Lemma swp_write {R} (op : StoreOp R) Q :
  op_row op → (∀ r, Q (Ok r)) → (∀ e, Q (Err e)) → swp (call op) Q.
Proof.
  intros Hop HQ He. apply swp_call; [by intros; apply Hop| |done].
  intros m r m' HI Hs. split; [by eapply spec_rows_wf|done].
Qed.

Lemma swp_read {R} (op : StoreOp R) Q :
  op_ok op → is_read op → (∀ m r, rows_wf m → spec op m r m → Q (Ok r)) → (∀ e, Q (Err e)) →
  swp (call op) Q.
Proof.
  intros Hop Hr HQ He. apply swp_call; [done| |done]. intros m r m' HI Hs.
  pose proof (spec_read op _ _ _ Hr Hs) as ->. eauto.
Qed.

Lemma swp_get_org o Q :
  (∀ org, o_org_id org = o → valid_identifier o → Q (Ok org)) → (∀ e, Q (Err e)) →
  swp (get_org o) Q.
Proof.
  intros HQ He. unfold get_org. apply swp_mbind, swp_read; [done|done| |done].
  intros m r HI [-> _]. destruct (d_orgs m !! o) eqn:E; cbn; [|done].
  destruct (rw_orgs _ HI _ _ E). auto.
Qed.

Lemma swp_get_formation o a Q :
  (∀ f, Q (Ok f)) → (∀ e, Q (Err e)) → swp (get_formation o a) Q.
Proof.
  intros HQ He. unfold get_formation. apply swp_mbind, swp_read; [done|done| |done].
  intros m [f|] HI _; cbn; auto.
Qed.

Lemma swp_get_token o t Q :
  (∀ tok, t_org_id tok = o → t_token_id tok = t → nul_free o → nul_free t → token_ok tok →
     Q (Ok tok)) → (∀ e, Q (Err e)) → swp (get_token o t) Q.
Proof.
  intros HQ He. unfold get_token. apply swp_mbind, swp_read; [done|done| |done].
  intros m r HI [-> _]. destruct (d_tokens m !! (o, t)) eqn:E; cbn; [|done].
  destruct (rw_tokens _ HI _ _ _ E) as (?&?&?&?&?). auto.
Qed.

Lemma swp_get_sink o s Q :
  (∀ sink, s_org_id sink = o → s_sink_id sink = s → nul_free o → nul_free s →
     validate_sink_type (s_sink_type sink) = Ok tt → Q (Ok sink)) →
  (∀ e, Q (Err e)) → swp (get_sink o s) Q.
Proof.
  intros HQ He. unfold get_sink. apply swp_mbind, swp_read; [done|done| |done].
  intros m r HI [-> _]. destruct (d_sinks m !! (o, s)) eqn:E; cbn; [|done].
  destruct (rw_sinks _ HI _ _ _ E) as (?&?&?&?&?). auto.
Qed.

Lemma swp_get_idp o i Q :
  (∀ idp, i_org_id idp = o → i_idp_id idp = i → nul_free o → nul_free i →
     validate_issuer_url (i_issuer_url idp) = Ok tt → Q (Ok idp)) →
  (∀ e, Q (Err e)) → swp (get_idp o i) Q.
Proof.
  intros HQ He. unfold get_idp. apply swp_mbind, swp_read; [done|done| |done].
  intros m r HI [-> _]. destruct (d_idps m !! (o, i)) eqn:E; cbn; [|done].
  destruct (rw_idps _ HI _ _ _ E) as (?&?&?&?&?). auto.
Qed.
End Steps.

Ltac swp_step :=
  cbv beta iota;
  lazymatch goal with
  | |- True => exact I
  | |- ∀ _, _ => intros ?
  | |- swp _ (mbind _ _) _ => apply swp_mbind
  | |- swp _ (pbind _ _) _ => apply swp_pbind
  | |- swp _ (lift _) _ => apply swp_ret
  | |- swp _ (ok _) _ => apply swp_ret
  | |- swp _ (bail _) _ => apply swp_ret
  | |- swp _ (Ret _) _ => apply swp_ret
  | |- swp _ now_ms _ => apply swp_now_ms
  | |- swp _ (random_bytes _) _ => apply swp_random_bytes
  | |- swp _ (mesh_genesis_create _ _) _ => unfold mesh_genesis_create
  | |- swp _ (get_org _) _ => apply swp_get_org
  | |- swp _ (get_formation _ _) _ => apply swp_get_formation
  | |- swp _ (get_token _ _) _ => apply swp_get_token
  | |- swp _ (get_sink _ _) _ => apply swp_get_sink
  | |- swp _ (get_idp _ _) _ => apply swp_get_idp
  | |- match ?r with Ok _ => _ | Err _ => _ end => destruct r eqn:?
  | |- swp _ (if ?b then _ else _) _ => destruct b eqn:?
  | |- swp _ (match ?r with Some _ => _ | None => _ end) _ => destruct r eqn:?
  end.

(** The bodies of the operations, down to storage calls. *)
Ltac bodies :=
  unfold create_org, list_orgs, update_org, delete_org, create_formation, list_formations,
    delete_formation, load_genesis, count_recent_enrollments, list_tokens, revoke_token,
    delete_token, create_sink, list_sinks, toggle_sink, delete_sink, get_cursor, set_cursor,
    create_idp, list_idps, toggle_idp, delete_idp, create_policy_rule, list_policy_rules,
    delete_policy_rule, append_audit, list_audit, store.get_org, store.create_org,
    store.list_orgs, store.update_org, store.delete_org, store.create_formation,
    store.get_formation, store.list_formations, store.delete_formation, store.store_genesis,
    store.get_genesis, store.delete_genesis, store.list_tokens, store.update_token,
    store.delete_token, store.create_sink, store.list_sinks, store.update_sink,
    store.delete_sink, store.get_cursor, store.set_cursor, store.create_idp, store.list_idps,
    store.update_idp, store.delete_idp, store.create_policy_rule, store.list_policy_rules,
    store.delete_policy_rule, store.append_audit, store.list_audit.

(** ** Every call keeps the invariant at each of its steps *)
Section Calls.
Context `{HexLaws} `{AeadLib} `{MeshLib} (mgr : TenantManager).
Context (Hkp : KeyProviderLaws (key_provider mgr)).

Ltac side :=
  repeat match goal with
  | H : validate_identifier _ _ = Ok ?u |- _ => destruct u; apply validate_identifier_ok in H
  | H : validate_sink_type _ = Ok ?u |- _ => destruct u
  | H : validate_issuer_url _ = Ok ?u |- _ => destruct u
  end; cbn; subst; split_and?;
  first [ done | assumption | apply hex_nul_free | apply token_id_nul_free
        | by apply valid_identifier_nul_free | idtac ].
Ltac calls :=
  repeat first
    [ swp_step
    | apply swp_read; [solve [side]|exact I|intros ? ? ? _|intros ?]
    | apply swp_write; [split; solve [side]|intros ?|intros ?]
    | apply swp_no_store; [first [by apply seal_no_store|by apply open_no_store]|intros ?] ].

Lemma consume_token_safe o a t : swp rows_wf (validate_and_consume_token o a t) (λ _, True).
Proof.
  unfold validate_and_consume_token, store.update_token. repeat swp_step.
  all: apply swp_write; [|calls..]; (split; [side|]); cbn;
    eapply consumed_ok; [done| |done]; intros m Hm; simplify_eq; lia.
Qed.

Lemma create_token_safe o a l n e :
  from_option u32 True n → swp rows_wf (create_token o a l n e) (λ _, True).
Proof.
  intros Hn. unfold create_token, store.create_token. repeat swp_step.
  apply swp_write; [|calls..]. split; [side|]. split; [by unfold u32|].
  cbn. intros m ->. cbn in Hn. unfold u32 in *. split; lia.
Qed.

Lemma forget_safe {A} (p : M A) : swp rows_wf p (λ _, True) → swp rows_wf (forget p) (λ _, True).
Proof. intros Hp. apply swp_pbind. by eapply swp_mono. Qed.

Lemma perform_call_safe c : call_ok c → swp rows_wf (perform_call mgr c) (λ _, True).
Proof.
  intros Hok. destruct c; cbn in Hok; cbn [perform_call]; apply forget_safe; destruct_and?;
    lazymatch goal with
    | |- swp _ (create_token _ _ _ _ _) _ => apply create_token_safe; by case_match
    | |- swp _ (validate_and_consume_token _ _ _) _ => apply consume_token_safe
    | |- _ => bodies; calls
    end.
Qed.
End Calls.

(** ** Sound under every schedule *)
Section Interleaved.
Context `{StorageSpec St rep} `{HexLaws} `{AeadLib} `{MeshLib} (mgr : TenantManager).
Context (orc : oracle).

(** Whatever calls run at the same time, in whatever order their steps are
    taken and whichever storage calls fail, every row stays under its own key and
    validated, and no token counts more uses than its maximum. *)
Theorem concurrent_calls_rows_wf cs schedule w m :
  KeyProviderLaws (key_provider mgr) → Forall call_ok cs →
  rep (w_store w) m → rows_wf m →
  ∃ m', rep (w_store (interleave orc schedule (perform_call mgr <$> cs) w).2) m' ∧ rows_wf m'.
Proof.
  intros Hkp Hcs Hr Hm.
  destruct (interleave_sound rows_wf orc (λ _, True) schedule (perform_call mgr <$> cs) w m Hr Hm)
    as [_ Hout]; [|exact Hout].
  apply Forall_fmap. eapply Forall_impl; [exact Hcs|]. intros c Hc. by apply perform_call_safe.
Qed.
End Interleaved.

(** ** Races on a token *)
Section Races.
Context `{StorageSpec St rep} {Hrel : Reliable St rep} (orc : oracle).

Lemma handle_reliable {R} (op : StoreOp R) s m :
  rep s m → op_ok op → ∃ x s' m', handle op s = (Ok x, s') ∧ spec op m x m' ∧ rep s' m'.
Proof.
  intros Hr Hok. pose proof (handle_ok op s m Hr Hok) as Hh.
  destruct (handle op s) as [[x|e] s'] eqn:E; [|done].
  destruct (handle_spec op s m _ s' Hr Hok E) as (m' & ? & ?). eauto 8.
Qed.

(** A step that reads a token, a step that writes it back. *)
Lemma step_get_token {A} i (ps : list (prog A)) o t k w m :
  ps !! i = Some (Do (Store (GetToken o t)) k) → rep (w_store w) m →
  ∃ w', step_task orc i ps w = (<[i := k (Ok (d_tokens m !! (o, t)))]> ps, w') ∧
        rep (w_store w') m.
Proof.
  intros Hi Hr. unfold step_task. rewrite Hi. cbn [exec].
  destruct (handle_reliable (GetToken o t) _ m Hr I) as (x & s' & m' & -> & [-> ->] & Hr').
  by eexists.
Qed.

Lemma step_update_token {A} i (ps : list (prog A)) tok k w m :
  ps !! i = Some (Do (Store (UpdateToken tok)) k) → rep (w_store w) m →
  nul_free (t_org_id tok) → nul_free (t_token_id tok) →
  is_Some (d_tokens m !! (t_org_id tok, t_token_id tok)) →
  ∃ w', step_task orc i ps w = (<[i := k (Ok tt)]> ps, w') ∧
        rep (w_store w') (upd_tokens <[(t_org_id tok, t_token_id tok) := tok]> m).
Proof.
  intros Hi Hr Ho Ht [old Eold]. unfold step_task. rewrite Hi. cbn [exec].
  destruct (handle_reliable (UpdateToken tok) _ m Hr (conj Ho Ht))
    as ([] & s' & m' & -> & Hs & Hr'). cbn in Hs. destruct Hs as [->|[? _]]; [|congruence].
  by eexists.
Qed.

(** The next step of the schedule, from a store [Hr] knows. *)
Ltac reads Hr :=
  cbn [interleave];
  lazymatch goal with |- context [step_task _ ?i ?ps ?w] =>
    destruct (step_get_token i ps _ _ _ w _ eq_refl Hr) as (? & -> & ?) end;
  clear Hr; cbn [insert list_insert].
Ltac writes Hr Ho Ht Hin :=
  cbn [interleave];
  lazymatch goal with |- context [step_task _ ?i ?ps ?w] =>
    destruct (step_update_token i ps _ _ w _ eq_refl Hr Ho Ht Hin) as (? & -> & ?) end;
  clear Hr; cbn [insert list_insert].

Context (org_id app_id token_id : string) (tok : EnrollmentToken) (n : Z) (m : db).
Context (Hm : rows_wf m) (Htok : d_tokens m !! (org_id, token_id) = Some tok).
Context (Happ : t_app_id tok = app_id) (Hlive : t_revoked tok = false).
Context (Hexp : t_expires_at tok = None).
Context (Hmax : t_max_uses tok = Some n) (Hleft : t_uses tok < n).

Definition consumed : EnrollmentToken := with_uses tok (as_u32 (t_uses tok + 1)).
Definition written (tok : EnrollmentToken) (r : Result unit) : M EnrollmentToken :=
  match r with Ok _ => Ret (Ok tok) | Err e => Ret (Err e) end.

Lemma token_key : t_org_id tok = org_id ∧ t_token_id tok = token_id ∧ nul_free org_id ∧ nul_free token_id.
Proof. by destruct (rw_tokens _ Hm _ _ _ Htok) as (?&?&?&?&_). Qed.

Lemma consume_shape :
  ∃ k, validate_and_consume_token org_id app_id token_id = Do (Store (GetToken org_id token_id)) k ∧
       k (Ok (Some tok)) = Do (Store (UpdateToken consumed)) (written consumed).
Proof.
  eexists. split; [reflexivity|]. cbn. rewrite bool_decide_eq_false_2 by (intros Hne; by apply Hne).
  rewrite Hlive, Hexp. cbn. rewrite Hmax. destruct (Z.leb_spec n (t_uses tok)); [lia|]. reflexivity.
Qed.

Lemma revoke_shape :
  ∃ k, revoke_token org_id token_id = Do (Store (GetToken org_id token_id)) k ∧
       k (Ok (Some tok)) = Do (Store (UpdateToken (with_revoked tok))) (written (with_revoked tok)).
Proof. eexists. split; [reflexivity|]. cbn. by rewrite Hlive. Qed.

(** C36: Two requests that each read a token with one use left and then write it
    back both redeem it: it is used once more than allowed, and the stored count shows
    one use. *)
Theorem concurrent_redemptions w :
  rep (w_store w) m → n = t_uses tok + 1 →
  let redemption := validate_and_consume_token org_id app_id token_id in
  ∃ w' m', interleave orc [0; 1; 0; 1]%nat [redemption; redemption] w =
             ([Ret (Ok consumed); Ret (Ok consumed)], w') ∧
    rep (w_store w') m' ∧ d_tokens m' !! (org_id, token_id) = Some consumed ∧ t_uses consumed = n.
Proof.
  intros Hr Hn redemption. unfold redemption. destruct consume_shape as (k & -> & Hk).
  destruct token_key as (Eo & Et & Ho & Ht). rewrite <-Eo, <-Et in *. subst n.
  reads Hr. rename select (rep _ m) into Hr1. reads Hr1. rename select (rep _ m) into Hr2.
  rewrite Htok, Hk.
  assert (is_Some (d_tokens m !! (t_org_id consumed, t_token_id consumed))) as Hin
    by (exists tok; exact Htok).
  writes Hr2 Ho Ht Hin. rename select (rep _ _) into Hr3.
  assert (is_Some (d_tokens (upd_tokens <[(t_org_id consumed, t_token_id consumed) := consumed]> m)
                     !! (t_org_id consumed, t_token_id consumed))) as Hin'
    by (cbn; by rewrite lookup_insert_eq).
  writes Hr3 Ho Ht Hin'.
  rename select (rep _ _) into Hr4.
  do 2 eexists. split; [reflexivity|]. split; [exact Hr4|]. cbn. rewrite lookup_insert_eq.
  split; [done|]. unfold u32, as_u32 in *. rewrite Z.mod_small; [done|].
  destruct (rw_tokens _ Hm _ _ _ Htok) as (_ & _ & _ & _ & [_ Hmx]).
  destruct (Hmx _ Hmax) as [Hn32 _]. unfold u32 in Hn32. lia.
Qed.

(** C37: A redemption that reads the token before a revocation and writes it after
    undoes the revocation: both succeed, and the stored token is live. *)
Theorem revocation_lost w :
  rep (w_store w) m →
  ∃ w' m', interleave orc [0; 1; 1; 0]%nat
             [validate_and_consume_token org_id app_id token_id; revoke_token org_id token_id] w =
             ([Ret (Ok consumed); Ret (Ok (with_revoked tok))], w') ∧
    rep (w_store w') m' ∧ ∃ tok', d_tokens m' !! (org_id, token_id) = Some tok' ∧
      t_revoked tok' = false.
Proof.
  intros Hr. destruct consume_shape as (k & -> & Hk). destruct revoke_shape as (k' & -> & Hk').
  destruct token_key as (Eo & Et & Ho & Ht). rewrite <-Eo, <-Et in *.
  reads Hr. rename select (rep _ m) into Hr1. reads Hr1. rename select (rep _ m) into Hr2.
  rewrite Htok, Hk, Hk'.
  assert (is_Some (d_tokens m !! (t_org_id consumed, t_token_id consumed))) as Hin
    by (exists tok; exact Htok).
  writes Hr2 Ho Ht Hin. rename select (rep _ _) into Hr3.
  assert (is_Some (d_tokens (upd_tokens <[(t_org_id tok, t_token_id tok) := with_revoked tok]> m)
                     !! (t_org_id consumed, t_token_id consumed))) as Hin'
    by (cbn; by rewrite lookup_insert_eq).
  writes Hr3 Ho Ht Hin'.
  rename select (rep _ _) into Hr4.
  do 2 eexists. split; [reflexivity|]. split; [exact Hr4|]. cbn. rewrite lookup_insert_eq. eauto.
Qed.
End Races.

(** ** A race on an organization *)
Section Orphan.
Context `{StorageSpec St rep} {Hrel : Reliable St rep} `{HexLaws} (orc : oracle).
Context {A : Type}.
Implicit Types (ps : list (prog A)) (w : world St).

Lemma step_store {R} i ps (op : StoreOp R) k w m :
  ps !! i = Some (Do (Store op) k) → rep (w_store w) m → op_ok op →
  ∃ x w' m', step_task orc i ps w = (<[i := k (Ok x)]> ps, w') ∧ spec op m x m' ∧
             rep (w_store w') m' ∧ w_rpos w' = w_rpos w ∧ w_tick w' = w_tick w.
Proof.
  intros Hi Hr Hok. unfold step_task. rewrite Hi. cbn [exec].
  destruct (handle_reliable op _ m Hr Hok) as (x & s' & m' & -> & Hs & Hr').
  exists x, (set_store s' w), m'. by split_and!.
Qed.

Lemma step_env {X} i ps (e : eff X) k w :
  ps !! i = Some (Do e k) → eff_no_store e →
  ∃ x w', step_task orc i ps w = (<[i := k x]> ps, w') ∧ w_store w' = w_store w.
Proof.
  intros Hi He. unfold step_task. rewrite Hi. destruct e; [done|..]; cbn [exec]; by do 2 eexists.
Qed.
Lemma step_env_exact {X} i ps (e : eff X) k w :
  ps !! i = Some (Do e k) → eff_no_store e →
  step_task orc i ps w = (<[i := k (exec orc e w).1]> ps, (exec orc e w).2).
Proof. intros Hi He. unfold step_task. rewrite Hi. by destruct e. Qed.
End Orphan.

(** The next step of the schedule is a call of storage. *)
Ltac step orc Hr Hs :=
  cbn [interleave];
  lazymatch goal with |- context [step_task _ ?i ?ps ?w] =>
    let w' := fresh "w" in let Hr' := fresh "Hr" in
    destruct (step_store orc i ps _ _ w _ eq_refl Hr) as (? & w' & ? & -> & Hs & Hr' & ? & ?);
    [|clear Hr; rename Hr' into Hr; cbn [insert list_insert]]
  end.

Ltac step_other orc Hr :=
  cbn [interleave];
  lazymatch goal with |- context [step_task _ ?i ?ps ?w] =>
    let w' := fresh "w" in let Hw := fresh "Hw" in
    destruct (step_env orc i ps _ _ w eq_refl I) as (? & w' & -> & Hw);
    rewrite <-Hw in Hr; clear Hw; cbn [insert list_insert]
  end.

(** The next step is a clock reading or random bytes. *)
Ltac step_now orc :=
  cbn [interleave];
  lazymatch goal with |- context [step_task orc ?i ?ps ?w] =>
    rewrite (step_env_exact orc i ps _ _ w eq_refl I); cbn [insert list_insert exec fst snd]
  end.

Section OrphanToken.
Context `{StorageSpec St rep} {Hrel : Reliable St rep} `{HexLaws} (orc : oracle).

(** C35: An organization deleted between the checks of a token creation and its
    write leaves the token behind: both requests succeed, and the content then has a
    live token of an organization that does not exist. *)
Theorem orphan_token (w : world St) m org_id app_id label max_uses expires_at :
  rep (w_store w) m → nul_free org_id → is_Some (d_orgs m !! org_id) →
  is_Some (d_formations m !! (org_id, app_id)) → is_empty (trim label) = false →
  let creation := let! tok := create_token org_id app_id label max_uses expires_at in ok (Some tok) in
  let deletion := let! _ := delete_org org_id in ok None in
  ∃ w' m' tok,
    interleave orc [0; 0; 1; 0; 0; 0]%nat [creation; deletion] w =
      ([Ret (Ok (Some tok)); Ret (Ok None)], w') ∧
    rep (w_store w') m' ∧ d_orgs m' !! org_id = None ∧
    d_tokens m' !! (org_id, t_token_id tok) = Some tok ∧ t_revoked tok = false.
Proof.
  intros Hr Hnul [org Eorg] [f Ef] Hlabel creation deletion.
  unfold creation, deletion, create_token, validate_non_empty. rewrite Hlabel.
  step orc Hr Hs; [done|]. destruct Hs as [-> ->]. rewrite Eorg.
  step orc Hr Hs; [done|]. destruct Hs as [-> ->]. rewrite Ef.
  step orc Hr Hs; [done|]. destruct Hs as [-> ->]. rewrite bool_decide_eq_true_2 by eauto.
  step_other orc Hr. step_other orc Hr.
  step orc Hr Hs; [by split; [|apply token_id_nul_free]|].
  cbn in Hs. subst. do 3 eexists. split; [reflexivity|]. split; [exact Hr|]. split_and!.
  - cbn. by rewrite lookup_delete_eq.
  - cbn. by rewrite lookup_insert_eq.
  - done.
Qed.
End OrphanToken.
