(* ===== verification/RateLimit.v ===== *)
(** The enrollment rate limit.

    [window o t] counts the enrollments of an organization recorded within the
    hour from [t].  Requests served one after another keep every window within the
    organization's quota ([rate_limit_kept]); two requests served at the same time
    need not ([rate_limit_race]). *)
From S2P Require Import Prelude Text Extern Models Errors Effects Spec Wp Crypto Manager Invariant ManagerInv ManagerSpec Auth Enroll EnrollSpec Concurrency ConcurrencySpec.
From Stdlib Require Import ZArith.

#[local] Open Scope Z_scope.

Definition hour : Z := 3600000.
Definition in_window (o : string) (t : Z) (kv : (string * Z * string) * EnrollmentAuditEntry) : Prop :=
  org_of kv.1 = o ∧ t ≤ a_timestamp_ms kv.2 ≤ t + hour.
#[export] Instance in_window_dec o t kv : Decision (in_window o t kv).
Proof. unfold in_window. apply _. Defined.
Definition window (o : string) (t : Z) (m : db) : Z :=
  Z.of_nat (size (filter (in_window o t) (d_audit m))).

(** Every hour is within the quota of its organization. *)
Record rate_ok (m : db) : Prop := {
  ro_window o org t : d_orgs m !! o = Some org → window o t m ≤ max_enrollments_per_hour (o_quotas org);
  ro_stamps : map_Forall (λ _ e, 0 ≤ a_timestamp_ms e) (d_audit m);
}.

Lemma map_size_mono `{Countable K} {V} (m1 m2 : gmap K V) : m1 ⊆ m2 → (size m1 ≤ size m2)%nat.
Proof.
  intros Hm. rewrite <-!length_map_to_list. by apply submseteq_length, map_to_list_submseteq.
Qed.
Lemma map_size_insert_le `{Countable K} {V} (m : gmap K V) k v :
  (size (<[k := v]> m) ≤ S (size m))%nat.
Proof. rewrite map_size_insert. destruct (m !! k); unfold id; lia. Qed.
Lemma window_out o t e m :
  ¬ (a_org_id e = o ∧ t ≤ a_timestamp_ms e ≤ t + hour) →
  window o t (upd_audit <[(a_org_id e, a_timestamp_ms e, a_audit_id e) := e]> m) ≤ window o t m.
Proof.
  intros Hout. unfold window. cbn. rewrite map_filter_insert_False by exact Hout.
  assert (filter (in_window o t) (delete (a_org_id e, a_timestamp_ms e, a_audit_id e) (d_audit m))
          ⊆ filter (in_window o t) (d_audit m)) as Hsub by (apply map_filter_subseteq_mono, delete_subseteq).
  apply map_size_mono in Hsub. lia.
Qed.

Lemma window_in o t e m :
  window o t (upd_audit <[(a_org_id e, a_timestamp_ms e, a_audit_id e) := e]> m) ≤ window o t m + 1.
Proof.
  unfold window. cbn.
  destruct (decide (in_window o t ((a_org_id e, a_timestamp_ms e, a_audit_id e), e))) as [Hin|Hout].
  - rewrite map_filter_insert_True by done.
    pose proof (map_size_insert_le (filter (in_window o t) (d_audit m)) (a_org_id e, a_timestamp_ms e, a_audit_id e) e). lia.
  - pose proof (window_out o t e m Hout) as Hle. unfold window in Hle. cbn in Hle. lia.
Qed.

(** A window that has a later moment is counted by the check at [now]. *)
Lemma window_recent o t now ts m :
  rate_ok m → now ≤ ts → ts ≤ t + hour →
  window o t m ≤ recent_enrollments o (saturating_sub now hour) m.
Proof.
  intros Hm Hnow Hts. unfold window, recent_enrollments. apply inj_le, map_size_mono.
  apply map_filter_subseteq_ext. intros k e Hk [Ho Ht]. split; [done|]. cbn in *.
  pose proof (ro_stamps _ Hm _ _ Hk) as H0. cbn in H0. unfold saturating_sub. lia.
Qed.

Lemma recent_bound org_id since m : 0 ≤ recent_enrollments org_id since m ≤ Z.of_nat (size (d_audit m)).
Proof. unfold recent_enrollments. split; [lia|]. apply inj_le, map_size_filter. Qed.

Lemma recent_append org_id since m ts id e :
  d_audit m !! (org_id, ts, id) = None → since ≤ a_timestamp_ms e →
  recent_enrollments org_id since (upd_audit <[(org_id, ts, id) := e]> m) =
  recent_enrollments org_id since m + 1.
Proof.
  intros Hk Hts. unfold recent_enrollments. cbn. rewrite map_filter_insert_True by done.
  rewrite map_size_insert_None; [lia|]. apply map_lookup_filter_None. by left.
Qed.

(** ** Requests served one after another *)
(** Whose enrollment a request asks for, and the key of the entry an accepted one
    has in the log. *)
Definition enroll_request : Type := string * string * HeaderMap * option EnrollRequest.
Definition req_org (rq : enroll_request) : string := rq.1.1.1.
Abbreviation answer := (result ApiError EnrollmentResponse).
Abbreviation entry_key := (string * Z * string)%type.

Section Sequential.
Context `{HexLaws} `{AeadLib} `{MeshLib} `{HttpLaws} `{Serde Value} `{Serde Map}.
Context (o : oracle) (fl : bool) (mgr : TenantManager).
Context (Hkp : KeyProviderLaws (key_provider mgr)).
(** The clock does not go back. *)
Context (Hclock : ∀ i j, (i ≤ j)%nat → 0 ≤ o_clock o i ≤ o_clock o j ∧ o_clock o j < 2 ^ 64).

Lemma admitted_same policy org_id app_id headers body now sent_n m m1 d i s :
  admitted o policy org_id app_id headers body now sent_n m m1 d i s →
  d_orgs m1 = d_orgs m ∧ d_audit m1 = d_audit m.
Proof.
  destruct policy; cbn; [by intros (-> & _)| |done]. intros (b & _ & Hadm).
  destruct (starts_with b "peat_"); naive_solver.
Qed.
Lemma admitted_wf policy org_id app_id headers body now sent_n m m1 d i s :
  wf m → admitted o policy org_id app_id headers body now sent_n m m1 d i s → wf m1.
Proof.
  intros Hwf. destruct policy; cbn; [by intros (-> & _)| |done]. intros (b & _ & Hadm).
  destruct (starts_with b "peat_"); [|naive_solver].
  destruct Hadm as (tok & Htok & Hc & -> & _).
  destruct (wf_tokens _ Hwf _ _ _ Htok) as (Eo & Et & Hnul & Hok & Horg). subst org_id b.
  eapply (spec_wf (UpdateToken (with_uses tok (as_u32 (t_uses tok + 1)))) m tt); [done| |by left].
  split; [split; [by eapply wf_org_nul_free|done]|]. split; [|done].
  apply consumed_ok; [done| |done]. intros n Hn. unfold consume_error in Hc. rewrite Htok, Hn in Hc.
  destruct (Z.leb_spec n (t_uses tok)) as [Hle|]; [|done]. exfalso. revert Hc. unfold check. cbn.
  by repeat case_match.
Qed.

(** What is kept from one request to the next; [k] bounds how many entries there
    may be, below the width of the counter. *)
Definition serving (k : Z) (w : world db) : Prop :=
  wf (w_store w) ∧ rate_ok (w_store w) ∧ Z.of_nat (size (d_audit (w_store w))) ≤ k.

Lemma reading i : wrap_u64 (o_clock o i) = o_clock o i.
Proof. destruct (Hclock i i) as [[??] ?]; [done|]. unfold wrap_u64. by rewrite Z.mod_small. Qed.

(** One more entry, which the check counted before, stays within the quota. *)
Lemma rate_append m org n0 e :
  rate_ok m → Z.of_nat (size (d_audit m)) < 2 ^ 32 →
  d_orgs m !! a_org_id e = Some org → o_clock o n0 ≤ a_timestamp_ms e → 0 ≤ a_timestamp_ms e →
  as_u32 (recent_enrollments (a_org_id e) (saturating_sub (o_clock o n0) hour) m)
    < max_enrollments_per_hour (o_quotas org) →
  rate_ok (upd_audit <[(a_org_id e, a_timestamp_ms e, a_audit_id e) := e]> m).
Proof.
  intros Hm Hsize Horg Hle Hpos Hlt. split; cbn; [|apply map_Forall_insert_2; [done|apply Hm]].
  intros o' org' t Ho'. pose proof (ro_window _ Hm _ _ t Ho') as Hw.
  destruct (decide (a_org_id e = o' ∧ t ≤ a_timestamp_ms e ≤ t + hour)) as [[<- Ht]|Hout].
  - pose proof (window_in (a_org_id e) t e m) as Hin.
    pose proof (window_recent (a_org_id e) t (o_clock o n0) (a_timestamp_ms e) m Hm Hle ltac:(lia)) as Hr.
    pose proof (recent_bound (a_org_id e) (saturating_sub (o_clock o n0) hour) m) as Hb.
    unfold as_u32 in Hlt. rewrite Z.mod_small in Hlt by lia. simplify_eq. lia.
  - pose proof (window_out o' t e m Hout). lia.
Qed.

Lemma append_serving m org n0 e k :
  wf m → rate_ok m → Z.of_nat (size (d_audit m)) ≤ k → k < 2 ^ 32 →
  d_orgs m !! a_org_id e = Some org → o_clock o n0 ≤ a_timestamp_ms e < 2 ^ 64 →
  nul_free (a_audit_id e) →
  as_u32 (recent_enrollments (a_org_id e) (saturating_sub (o_clock o n0) hour) m)
    < max_enrollments_per_hour (o_quotas org) →
  let m' := upd_audit <[(a_org_id e, a_timestamp_ms e, a_audit_id e) := e]> m in
  wf m' ∧ rate_ok m' ∧ Z.of_nat (size (d_audit m')) ≤ k + 1.
Proof.
  intros Hwf Hm Hsize Hk Horg Hts Hid Hlt. cbv zeta. destruct (Hclock n0 n0) as [[? _] _]; [done|].
  split_and!.
  - eapply (spec_wf (AppendAudit e) m tt); [done| |done]. split; [|done].
    split_and!; [by eapply wf_org_nul_free, has_org_Some|done|unfold u64; lia].
  - apply (rate_append m org n0); [done|lia|done|lia|lia|done].
  - pose proof (map_size_insert_le (d_audit m) (a_org_id e, a_timestamp_ms e, a_audit_id e) e). cbn. lia.
Qed.

Definition has_entry (m : db) (k : entry_key) : Prop := is_Some (d_audit m !! k).

(** An accepted answer has its entry, dated by a clock reading after number [n0]. *)
Definition recorded (n0 : nat) (m : db) (org_id : string) (r : answer) : Prop :=
  ∀ resp, r = Ok resp →
    ∃ n, (n0 < n)%nat ∧ has_entry m (org_id, o_clock o n, resp_audit_id resp).

Lemma enroll_serving org_id app_id headers body k w :
  k < 2 ^ 32 → serving k w →
  wp o fl (enroll mgr org_id app_id headers body)
    (λ r w', serving (k + 1) w' ∧
       (∀ e, has_entry (w_store w) e → has_entry (w_store w') e) ∧
       (fl = false → recorded (w_tick w) (w_store w') org_id r)) w.
Proof.
  intros Hk (Hwf & Hrate & Hsize). eapply wp_mono.
  { apply enroll_outcome; [done| |done]. unfold usize_max. lia. }
  intros [resp|e] w' He; unfold serving, recorded, has_entry; cbn [enrolled] in He.
  2: { destruct He as [-> _]. split_and!; [done..|lia|done|done]. }
  destruct He as (org & f & idp & sub & n & m1 & Horg & _ & _ & Hlt & Hadm & Hn & (buf & _ & Hid) & Hw').
  destruct (admitted_same _ _ _ _ _ _ _ _ _ _ _ _ Hadm) as [Eo Ea].
  pose proof (admitted_wf _ _ _ _ _ _ _ _ _ _ _ _ Hwf Hadm) as Hwf1.
  assert (rate_ok m1) as Hrate1.
  { destruct Hrate as [Hr Hs]. split; [|by rewrite Ea]. unfold window in *. by rewrite Eo, Ea. }
  unfold within_rate in Hlt.
  destruct Hw' as [->|[-> ->]]; [|rewrite Ea; split_and!; [done..|lia|done|done]]. split.
  - apply (append_serving m1 org (w_tick w)
      {| a_audit_id := resp_audit_id resp; a_org_id := org_id; a_app_id := app_id; a_idp_id := idp;
         a_subject := sub; a_decision := resp_decision resp; a_timestamp_ms := wrap_u64 (o_clock o n) |});
      cbn; rewrite ?Eo, ?Ea; try done.
    + rewrite reading. destruct (Hclock (w_tick w) n) as [[_ ?] ?]; [lia|done].
    + rewrite Hid. apply hex_nul_free.
    + unfold recent_enrollments in *. rewrite Ea. unfold clock in Hlt. by rewrite reading in Hlt.
  - cbn. rewrite Ea, reading. split.
    + intros e He. destruct (decide (e = (org_id, o_clock o n, resp_audit_id resp))) as [->|Hne];
        [by rewrite lookup_insert_eq|by rewrite lookup_insert_ne].
    + intros _ resp' [= <-]. exists n. split; [done|]. by rewrite lookup_insert_eq.
Qed.

Fixpoint enroll_all (reqs : list enroll_request) : prog (list answer) :=
  match reqs with
  | [] => Ret []
  | (org_id, app_id, headers, body) :: reqs =>
      try! r := enroll mgr org_id app_id headers body in
      try! rs := enroll_all reqs in Ret (r :: rs)
  end.

(** The accepted ones, each with its organization and its audit identifier. *)
Fixpoint accepted (reqs : list enroll_request) (rs : list answer) : list (string * string) :=
  match reqs, rs with
  | rq :: reqs, Ok resp :: rs => (req_org rq, resp_audit_id resp) :: accepted reqs rs
  | _ :: reqs, Err _ :: rs => accepted reqs rs
  | _, _ => []
  end.

(** Different entries of the log in an hour are as many as the window counts, at most. *)
Lemma window_keys m org_id t (keys : list entry_key) :
  wf m → NoDup keys → Forall (has_entry m) keys →
  Z.of_nat (length (filter (λ k, k.1.1 = org_id ∧ t ≤ k.1.2 ≤ t + hour) keys)) ≤ window org_id t m.
Proof.
  intros Hwf Hnd Hkeys. unfold window. apply inj_le. rewrite <-size_dom.
  rewrite <-(size_list_to_set (C:=gset entry_key)) by by apply NoDup_filter. apply subseteq_size.
  intros k Hk. apply elem_of_list_to_set, list_elem_of_filter in Hk as [Hin Hk].
  eapply Forall_forall in Hkeys as [e He]; [|exact Hk]. apply elem_of_dom. exists e.
  apply map_lookup_filter_Some. split; [done|]. destruct k as [[o' ts] id].
  destruct (wf_audit _ Hwf _ _ _ _ He) as (_ & Ets & _). unfold in_window. cbn in *. by rewrite Ets.
Qed.

Lemma enroll_all_serving reqs k w :
  serving k w → k + Z.of_nat (length reqs) ≤ 2 ^ 32 →
  wp o fl (enroll_all reqs)
    (λ rs w', serving (k + Z.of_nat (length reqs)) w' ∧
       (∀ e, has_entry (w_store w) e → has_entry (w_store w') e) ∧
       (fl = false → ∃ keys, accepted reqs rs = (λ e, (e.1.1, e.2)) <$> keys ∧
          Forall (λ e, has_entry (w_store w') e ∧ ∃ n, (w_tick w < n)%nat ∧ e.1.2 = o_clock o n) keys)) w.
Proof.
  revert k w. induction reqs as [|[[[oid aid] h] b] reqs IH]; intros k w Hs Hk; cbn [enroll_all].
  { apply wp_ret. split_and!; [by rewrite Z.add_0_r|done|]. intros _. by exists []. }
  cbn [length] in *. apply wp_pbind. eapply wp_mono;
    [apply wp_tick, (enroll_serving oid aid h b k); [lia|done]|].
  intros r w1 [(Hs1 & Hkeep1 & Hrec) Htick]. apply wp_pbind. eapply wp_mono; [apply (IH (k + 1)); [done|lia]|].
  intros rs w2 (Hs2 & Hkeep2 & Hall). apply wp_ret. split_and!; [|by auto|].
  { by replace (k + Z.of_nat (S (length reqs))) with (k + 1 + Z.of_nat (length reqs)) by lia. }
  intros Hfl. destruct (Hall Hfl) as (keys & Eacc & Hkeys). specialize (Hrec Hfl).
  assert (Forall (λ e, has_entry (w_store w2) e ∧ ∃ n, (w_tick w < n)%nat ∧ e.1.2 = o_clock o n) keys) as Hrest.
  { eapply Forall_impl; [exact Hkeys|]. intros e (He & n & Hn & Et). split; [done|]. exists n. split; [lia|done]. }
  destruct r as [resp|e]; cbn [accepted]; [|by exists keys].
  destruct (Hrec resp eq_refl) as (n & Hn & He).
  exists ((oid, o_clock o n, resp_audit_id resp) :: keys). rewrite Eacc. split; [done|].
  constructor; [|done]. split; [by apply Hkeep2|by exists n].
Qed.

(** C16: Enrollments served one after another, with a clock that does not go back
    and fewer than 2^32 entries in the log: if no hour of the log is over an
    organization's quota before, none is after, also when storage calls fail. With
    reliable storage that bounds the accepted requests themselves: each has an entry
    dated by a clock reading made after its start, and as long as no two of them drew
    the same identifier in the same millisecond, no hour has more accepted requests of
    an organization than its quota. (When the write of an entry fails, the code
    accepts the request all the same; it is then not counted.) *)
Theorem rate_limit_kept reqs w :
  wf (w_store w) → rate_ok (w_store w) →
  Z.of_nat (size (d_audit (w_store w))) + Z.of_nat (length reqs) ≤ 2 ^ 32 →
  wp o fl (enroll_all reqs) (λ rs w',
    rate_ok (w_store w') ∧
    (fl = false →
     ∃ keys : list entry_key,
       accepted reqs rs = (λ e, (e.1.1, e.2)) <$> keys ∧
       Forall (λ e, has_entry (w_store w') e ∧ ∃ n, (w_tick w < n)%nat ∧ e.1.2 = o_clock o n) keys ∧
       (NoDup keys → ∀ org_id org t, d_orgs (w_store w') !! org_id = Some org →
          Z.of_nat (length (filter (λ e, e.1.1 = org_id ∧ t ≤ e.1.2 ≤ t + hour) keys))
            ≤ max_enrollments_per_hour (o_quotas org)))) w.
Proof.
  intros Hwf Hrate Hsize. eapply wp_mono;
    [apply (enroll_all_serving reqs (Z.of_nat (size (d_audit (w_store w))))); [by split_and!|done]|].
  intros rs w' ((Hwf' & Hrate' & _) & _ & Hall). split; [done|]. intros Hfl.
  destruct (Hall Hfl) as (keys & Eacc & Hkeys). exists keys. split_and!; [done..|].
  intros Hnd org_id org t Horg. etrans; [|by apply (ro_window _ Hrate' _ _ t Horg)].
  apply window_keys; [done..|]. eapply Forall_impl; [exact Hkeys|]. by intros e [? _].
Qed.
End Sequential.

(** ** Requests served at the same time *)
Section Race.
Context `{StorageSpec St rep} {Hrel : Reliable St rep} `{HexLaws} `{AeadLib} `{MeshLib} `{HttpLib}
  `{Serde Value} `{Serde Map}.
Context (orc : oracle) (mgr : TenantManager).

(** An anonymous enrollment, effect by effect. *)
Definition open_entry (org_id app_id : string) (buf : bytes) (t : Z) : EnrollmentAuditEntry := {|
  a_audit_id := hex_encode buf; a_org_id := org_id; a_app_id := app_id; a_idp_id := "none";
  a_subject := "anonymous"; a_decision := Approved Endpoint 0; a_timestamp_ms := wrap_u64 t |}.
Definition open_answer (buf : bytes) : EnrollmentResponse := {|
  resp_decision := Approved Endpoint 0; resp_audit_id := hex_encode buf; resp_certificate := None;
  resp_mesh_id := None; resp_authority_public_key := None |}.
Definition open_tail (org_id app_id : string) : prog (result ApiError EnrollmentResponse) :=
  Do (OsRng 8) (λ buf, Do SystemTime (λ t,
    Do (Store (AppendAudit (open_entry org_id app_id buf t))) (λ _, Ret (Ok (open_answer buf))))).

Lemma open_shape org_id app_id org f :
  f_enrollment_policy f = Open →
  ∃ k1 k2 k3 k4,
    enroll mgr org_id app_id [] None = Do (Store (GetOrg org_id)) k1 ∧
    k1 (Ok (Some org)) = Do (Store (GetFormation org_id app_id)) k2 ∧
    k2 (Ok (Some f)) = Do SystemTime k3 ∧
    (∀ t, k3 t = Do (Store (ListAudit org_id None usize_max)) (k4 t)) ∧
    ∀ t l, as_u32 (Z.of_nat (length (filter (λ e, saturating_sub (wrap_u64 t) hour ≤ a_timestamp_ms e) l)))
             < max_enrollments_per_hour (o_quotas org) →
      k4 t (Ok l) = open_tail org_id app_id.
Proof.
  intros Hf. do 4 eexists. split; [reflexivity|]. split; [reflexivity|]. split; [reflexivity|].
  split; [reflexivity|]. intros t l Hl. unfold hour in Hl. cbn.
  rewrite (proj2 (Z.leb_gt _ _) Hl), Hf. by rewrite bool_decide_eq_false_2.
Qed.

(** C33: With room for one more enrollment in the hour, two requests served at the
    same time may both read the log before either writes it: both are answered, and
    the organization ends one enrollment over its quota. *)
Theorem rate_limit_race (w : world St) m org_id app_id org f T :
  rep (w_store w) m → nul_free org_id →
  d_orgs m !! org_id = Some org → d_formations m !! (org_id, app_id) = Some f →
  f_enrollment_policy f = Open → Z.of_nat (size (d_audit m)) < 2 ^ 32 →
  (∀ i, o_clock orc i = T) → 0 ≤ T < 2 ^ 64 →
  let id r := hex_encode (rng_bytes orc r 8) in
  let fresh r := d_audit m !! (org_id, T, id r) = None in
  id (w_rpos w) ≠ id (w_rpos w + 8)%nat → fresh (w_rpos w) → fresh (w_rpos w + 8)%nat →
  let recent := recent_enrollments org_id (saturating_sub T hour) in
  recent m + 1 = max_enrollments_per_hour (o_quotas org) →
  ∃ r1 r2 w' m',
    interleave orc [0; 0; 0; 0; 1; 1; 1; 1; 0; 0; 0; 1; 1; 1]%nat
      [enroll mgr org_id app_id [] None; enroll mgr org_id app_id [] None] w =
      ([Ret (Ok r1); Ret (Ok r2)], w') ∧
    rep (w_store w') m' ∧ recent m' = max_enrollments_per_hour (o_quotas org) + 1.
Proof.
  intros Hr Hnul Eorg Ef Hopen Hsize HT HT64 id fresh Hid Hf1 Hf2 recent Hrecent.
  destruct (open_shape org_id app_id org f Hopen) as (k1 & k2 & k3 & k4 & -> & E1 & E2 & E3 & E4).
  assert (wrap_u64 T = T) as Ewrap by (by unfold wrap_u64; rewrite Z.mod_small).
  assert (∀ l m', spec (ListAudit org_id None usize_max) m l m' →
    k4 T (Ok l) = open_tail org_id app_id) as Etail.
  { intros l m' Hs. apply E4. rewrite Ewrap.
    rewrite (recent_count _ _ m l m' ltac:(unfold usize_max; lia) Hs). fold (recent m).
    pose proof (recent_bound org_id (saturating_sub T hour) m) as Hb. fold (recent m) in Hb.
    unfold as_u32. rewrite Z.mod_small; lia. }
  do 2 (step orc Hr Hs; [done|]; destruct Hs as [-> ->]; rewrite ?Eorg, ?E1, ?Ef, ?E2).
  step_now orc. rewrite HT, E3.
  step orc Hr Hs; [by split|]. rewrite (Etail _ _ Hs). destruct Hs as [_ ->].
  do 2 (step orc Hr Hs; [done|]; destruct Hs as [-> ->]; rewrite ?Eorg, ?E1, ?Ef, ?E2).
  step_now orc. rewrite HT, E3.
  step orc Hr Hs; [by split|]. rewrite (Etail _ _ Hs). destruct Hs as [_ ->]. unfold open_tail.
  do 2 step_now orc. step orc Hr Hs; [by split_and!; [|apply hex_nul_free|apply wrap_u64_u64]|].
  assert (w_rpos w5 = w_rpos w) as Epos by (cbn in *; congruence). cbn in Hs. subst.
  do 2 step_now orc. step orc Hr Hs; [by split_and!; [|apply hex_nul_free|apply wrap_u64_u64]|].
  assert (w_rpos w6 = w_rpos w + 8)%nat as Epos' by (cbn in *; congruence). cbn in Hs. subst.
  do 4 eexists. split; [reflexivity|]. split; [exact Hr|]. rewrite !HT, !Ewrap, Epos, Epos', <-Hrecent.
  unfold recent. rewrite !recent_append; [lia|..]; cbn [a_timestamp_ms open_entry]; rewrite ?Ewrap;
    try done; try (unfold saturating_sub, hour; lia).
  cbn. rewrite lookup_insert_ne; [done|]. intros [= E]. by apply Hid.
Qed.
End Race.
