(* ===== verification/Calls.v ===== *)
(** Which storage calls a program makes.

    [calls_only P p Q] says that every storage call of [p] satisfies [P], whatever
    the world answers, and that its answer satisfies [Q]; [calls_under] says it for
    a world whose content keeps an invariant.  [gwp] joins this with an
    invariant that [swp] proves, and [interleave_gwp] carries both to every schedule:
    the content keeps the invariant and moves by calls in [P] only.  [allowed] is
    the predicate of the tenant manager's calls under given [rights]: which
    organizations they name and delete, whether they list the organizations, and
    that genesis bytes are sealed when encryption is on. *)
From S2P Require Import Prelude Text Extern Models Errors Effects Spec Wp Crypto Manager Invariant ManagerInv Concurrency ConcurrencySpec.
From Stdlib Require Import ZArith.

#[local] Open Scope Z_scope.

Section CallsOnly.
Context (P : ∀ R, StoreOp R → Prop).

Definition calls_eff {X} (e : eff X) : (X → Prop) → Prop :=
  match e in eff X return (X → Prop) → Prop with
  | Store op => λ K, P _ op ∧ ∀ r, K r
  | OsRng n => λ K, ∀ b, length b = n → K b
  | SystemTime => λ K, ∀ t, K t
  | Net _ => λ K, ∀ rp, K rp
  | Sleep _ => λ K, K tt
  end.
Fixpoint calls_only {A} (p : prog A) (Q : A → Prop) : Prop :=
  match p with
  | Ret a => Q a
  | Do e k => calls_eff e (λ x, calls_only (k x) Q)
  end.

Lemma calls_mono {A} (p : prog A) (Q Q' : A → Prop) :
  calls_only p Q → (∀ a, Q a → Q' a) → calls_only p Q'.
Proof.
  intros Hp HQ. induction p as [a|X e k IH]; cbn in *; [auto|]. destruct e; cbn in *; naive_solver.
Qed.
Lemma calls_pbind {A B} (p : prog A) (f : A → prog B) Q :
  calls_only p (λ a, calls_only (f a) Q) → calls_only (pbind p f) Q.
Proof.
  induction p as [a|X e k IH]; cbn; [done|]. destruct e; cbn; intros Hp; naive_solver.
Qed.
Lemma calls_mbind {E A B} (c : prog (result E A)) (f : A → prog (result E B)) Q :
  calls_only c (λ r, match r with Ok a => calls_only (f a) Q | Err e => Q (Err e) end) →
  calls_only (mbind c f) Q.
Proof. intros Hc. apply calls_pbind. eapply calls_mono; [exact Hc|]. by intros []. Qed.
Lemma calls_call {R} (op : StoreOp R) Q : P _ op → (∀ r, Q r) → calls_only (call op) Q.
Proof. by split. Qed.
Lemma calls_no_store {A} (p : prog A) Q : no_store p → (∀ a, Q a) → calls_only p Q.
Proof.
  intros Hp HQ. induction p as [a|X e k IH]; cbn in *; [done|]. destruct Hp as [He Hk].
  destruct e; cbn in *; [done|..]; auto.
Qed.

End CallsOnly.

(** *** Under an invariant of the content *)
Section CallsUnder.
Context (I : db → Prop) (P : ∀ R, StoreOp R → Prop).

Definition under_eff {X} (e : eff X) : (X → Prop) → Prop :=
  match e in eff X return (X → Prop) → Prop with
  | Store op => λ K, P _ op ∧ (∀ m r m', I m → spec op m r m' → K (Ok r)) ∧ ∀ e, K (Err e)
  | e => calls_eff P e
  end.
Fixpoint calls_under {A} (p : prog A) (Q : A → Prop) : Prop :=
  match p with
  | Ret a => Q a
  | Do e k => under_eff e (λ x, calls_under (k x) Q)
  end.

Lemma under_mono {A} (p : prog A) (Q Q' : A → Prop) :
  calls_under p Q → (∀ a, Q a → Q' a) → calls_under p Q'.
Proof.
  intros Hp HQ. induction p as [a|X e k IH]; cbn in *; [auto|]. destruct e; cbn in *; naive_solver.
Qed.
Lemma under_pbind {A B} (p : prog A) (f : A → prog B) Q :
  calls_under p (λ a, calls_under (f a) Q) → calls_under (pbind p f) Q.
Proof.
  induction p as [a|X e k IH]; cbn; [done|]. destruct e; cbn; intros Hp; naive_solver.
Qed.
Lemma under_mbind {E A B} (c : prog (result E A)) (f : A → prog (result E B)) Q :
  calls_under c (λ r, match r with Ok a => calls_under (f a) Q | Err e => Q (Err e) end) →
  calls_under (mbind c f) Q.
Proof. intros Hc. apply under_pbind. eapply under_mono; [exact Hc|]. by intros []. Qed.
Lemma under_call {R} (op : StoreOp R) Q :
  P _ op → (∀ m r m', I m → spec op m r m' → Q (Ok r)) → (∀ e, Q (Err e)) → calls_under (call op) Q.
Proof. by split. Qed.
Lemma under_only {A} (p : prog A) Q : calls_only P p Q → calls_under p Q.
Proof.
  induction p as [a|X e k IH]; cbn; [done|]. destruct e; cbn; intros Hp; naive_solver.
Qed.
End CallsUnder.

Lemma under_weaken (I I' : db → Prop) P {A} (p : prog A) Q :
  (∀ m, I' m → I m) → calls_under I P p Q → calls_under I' P p Q.
Proof.
  intros HI. induction p as [a|X e k IH]; cbn; [done|]. destruct e; cbn; intros Hp; naive_solver.
Qed.

(** ** Invariants, and which calls keep them *)
(** What the content goes through when calls that satisfy [P] are answered. *)
Definition db_step (P : ∀ R, StoreOp R → Prop) (m m' : db) : Prop :=
  ∃ R (op : StoreOp R) r, P R op ∧ spec op m r m'.

Section Guarantee.
Context (I : db → Prop) (P : ∀ R, StoreOp R → Prop).

(** [swp], with every storage call of the program in [P] besides. *)
Definition gwp_eff {X} (e : eff X) : (X → Prop) → Prop :=
  match e in eff X return (X → Prop) → Prop with
  | Store op => λ Q, P _ op ∧ swp_eff I (Store op) Q
  | e => swp_eff I e
  end.
Fixpoint gwp {A} (p : prog A) (Q : A → Prop) : Prop :=
  match p with
  | Ret a => Q a
  | Do e k => gwp_eff e (λ x, gwp (k x) Q)
  end.

Lemma gwp_eff_mono {X} (e : eff X) (Q Q' : X → Prop) :
  (∀ x, Q x → Q' x) → gwp_eff e Q → gwp_eff e Q'.
Proof.
  intros HQ. destruct e; cbn [gwp_eff]; [|by apply swp_eff_mono..].
  intros [HP He]. split; [done|]. by eapply swp_eff_mono.
Qed.
Lemma gwp_mono {A} (p : prog A) (Q Q' : A → Prop) : gwp p Q → (∀ a, Q a → Q' a) → gwp p Q'.
Proof.
  intros Hp HQ. induction p as [a|X e k IH]; cbn in *; [auto|].
  eapply gwp_eff_mono; [|exact Hp]. auto.
Qed.
Lemma gwp_pbind {A B} (p : prog A) (f : A → prog B) Q :
  gwp p (λ a, gwp (f a) Q) → gwp (pbind p f) Q.
Proof. induction p as [a|X e k IH]; cbn; [done|]. apply gwp_eff_mono. auto. Qed.
Lemma gwp_unbind {A B} (p : prog A) (f : A → prog B) Q :
  gwp (pbind p f) Q → gwp p (λ a, gwp (f a) Q).
Proof. induction p as [a|X e k IH]; cbn; [done|]. apply gwp_eff_mono. auto. Qed.
Lemma gwp_mbind {E A B} (c : prog (result E A)) (f : A → prog (result E B)) Q :
  gwp c (λ r, match r with Ok a => gwp (f a) Q | Err e => Q (Err e) end) → gwp (mbind c f) Q.
Proof. intros Hc. apply gwp_pbind. eapply gwp_mono; [exact Hc|]. by intros []. Qed.
Lemma gwp_map_err {E F A} (f : E → F) (c : prog (result E A)) Q :
  gwp c (λ r, Q (map_err f r)) → gwp (mmap_err f c) Q.
Proof. intros Hc. by apply gwp_pbind. Qed.
Lemma gwp_ret {A} (a : A) (Q : A → Prop) : Q a → gwp (Ret a) Q.
Proof. done. Qed.
Lemma gwp_now_ms (Q : Z → Prop) : (∀ t, Q (wrap_u64 t)) → gwp now_ms Q.
Proof. done. Qed.
Lemma gwp_random_bytes n (Q : bytes → Prop) : (∀ b, length b = n → Q b) → gwp (random_bytes n) Q.
Proof. done. Qed.
Lemma gwp_call {R} (op : StoreOp R) Q : P R op → swp I (call op) Q → gwp (call op) Q.
Proof. by split. Qed.
Lemma gwp_no_store {A} (p : prog A) (Q : A → Prop) : no_store p → (∀ a, Q a) → gwp p Q.
Proof.
  intros Hp HQ. induction p as [a|X e k IH]; cbn in *; [done|]. destruct Hp as [He Hk].
  destruct e; cbn in *; [done|..]; auto.
Qed.
Lemma gwp_join {A} (p : prog A) (Q Q' : A → Prop) :
  swp I p Q → calls_under I P p Q' → gwp p (λ a, Q a ∧ Q' a).
Proof.
  intros Hs Hc. induction p as [a|X e k IH]; cbn in *; [done|]. destruct e; cbn in *; auto.
  destruct Hc as (HP & Hc & Hce). split; [done|]. intros m Hm. destruct (Hs m Hm) as (Hok & Hk & He).
  split_and!; [done| |auto]. intros r m' Hsp. destruct (Hk _ _ Hsp). eauto.
Qed.

(** *** Soundness: the invariant holds, and the content moves by calls in [P]. *)
Context `{StorageSpec St rep} (o : oracle) {A : Type} (Q : A → Prop).

Lemma exec_gwp {X} (e : eff X) (w : world St) (K : X → Prop) x w' m :
  exec o e w = (x, w') → rep (w_store w) m → I m → gwp_eff e K →
  K x ∧ ∃ m', rep (w_store w') m' ∧ I m' ∧ rtc (db_step P) m m'.
Proof.
  intros E Hr HI He. destruct e as [R op| |n|rq|ms]; cbn in E, He;
    try (injection E as <- <-; split; [by auto using length_rng_bytes|by exists m]).
  destruct (handle op (w_store w)) as [r s] eqn:Eh. injection E as <- <-.
  destruct He as [HP He]. destruct (He m HI) as (Hok & Hs & Herr).
  pose proof (handle_spec op _ _ r s Hr Hok Eh) as Hspec. destruct r as [r|err].
  - destruct Hspec as (m' & Hm' & Hr'). destruct (Hs _ _ Hm'). split; [done|]. exists m'.
    split_and!; [done..|]. apply rtc_once. by exists R, op, r.
  - split; [auto|by exists m].
Qed.

Theorem interleave_gwp schedule ps w m :
  rep (w_store w) m → I m → Forall (λ p, gwp p Q) ps →
  let out := interleave o schedule ps w in
  Forall (λ p, gwp p Q) out.1 ∧ ∃ m', rep (w_store out.2) m' ∧ I m' ∧ rtc (db_step P) m m'.
Proof.
  cbv zeta. revert ps w m. induction schedule as [|i sch IH]; intros ps w m Hr HI Hps; cbn.
  { split; [done|by exists m]. }
  unfold step_task. destruct (ps !! i) as [[a|X e k]|] eqn:Ei; [by eapply IH| |by eapply IH].
  destruct (exec o e w) as [x w'] eqn:E.
  pose proof (Forall_lookup_1 _ _ _ _ Hps Ei) as Hp. cbn in Hp.
  destruct (exec_gwp e w _ x w' m E Hr HI Hp) as (Hx & m' & Hr' & HI' & Hsteps).
  destruct (IH (<[i:=k x]> ps) w' m' Hr' HI') as (Hout & m'' & Hr'' & HI'' & Hsteps').
  { by apply Forall_insert. }
  split; [done|]. exists m''. split_and!; [done..|]. by etrans.
Qed.
End Guarantee.

(** ** The calls of the tenant manager *)
(** The organization a method names; [ListOrgs] names none. *)
Definition op_names {R} (op : StoreOp R) : option string :=
  match op with
  | GetOrg o | GetFormation o _ | ListFormations o | GetToken o _ | ListTokens o _ | GetSink o _
  | ListSinks o | GetIdp o _ | ListIdps o | ListPolicyRules o | ListAudit o _ _
  | GetGenesis o _ | GetCursor o _ _ => Some o
  | op => op_org op
  end.

(** What a program may do: the organizations whose rows it reads and writes, whether
    it lists all organizations, and which ones it deletes. *)
Record rights := {
  may_touch : string → Prop;
  may_list : Prop;
  may_delete : string → Prop;
}.
Definition rights_le (r r' : rights) : Prop :=
  (∀ o, may_touch r o → may_touch r' o) ∧ (may_list r → may_list r') ∧
  (∀ o, may_delete r o → may_delete r' o).

Section Allowed.
Context (mgr : TenantManager) (rt : rights).

Definition sealed_bytes (b : bytes) : Prop := encrypt_enabled mgr = true → is_envelope b = true.
Definition allowed R (op : StoreOp R) : Prop :=
  from_option (may_touch rt) (may_list rt) (op_names op) ∧
  match op with
  | DeleteOrg o => may_delete rt o
  | StoreGenesis _ _ b => sealed_bytes b
  | _ => True
  end.
(** The calls of the manager that have the rights they need. *)
Definition call_allowed (c : tenant_call) : Prop :=
  match c with
  | CallListOrgs => may_list rt
  | CallDeleteOrg o => may_touch rt o ∧ may_delete rt o
  | c => may_touch rt (call_org c)
  end.
End Allowed.

Lemma calls_seal `{AeadLib} P kp plaintext (Q : Result bytes → Prop) :
  KeyProviderLaws kp → (∀ b, is_envelope b = true → Q (Ok b)) → (∀ e, Q (Err e)) →
  calls_only P (seal kp plaintext) Q.
Proof.
  intros Hkp HQ He. unfold seal. apply calls_pbind, calls_no_store; [done|intros dek].
  apply calls_pbind, calls_no_store; [done|intros nonce].
  apply calls_mbind, calls_no_store; [apply Hkp|]. intros [wrapped|e]; [|apply He].
  case_match; [apply He|]. apply calls_mbind. unfold context. cbn.
  destruct (aead_new_from_slice dek); cbn; [|apply He].
  destruct (aead_encrypt _ _ _); cbn; [|apply He]. apply HQ, is_envelope_envelope.
Qed.

Ltac calls_step :=
  cbv beta iota;
  lazymatch goal with
  | |- True => exact I
  | |- ∀ _, _ => intros ?
  | |- calls_only _ (mbind _ _) _ => apply calls_mbind
  | |- calls_only _ (pbind _ _) _ => apply calls_pbind
  | |- calls_only _ (call _) _ => apply calls_call; [first [exact I|idtac]|intros ?]
  | |- calls_only _ (lift _) _ => cbv [lift]
  | |- calls_only _ (ok _) _ => cbv [ok]
  | |- calls_only _ (bail _) _ => cbv [bail]
  | |- calls_only _ (Ret _) _ => cbn [calls_only]
  | |- calls_only _ now_ms _ => apply calls_no_store; [done|intros ?]
  | |- calls_only _ (random_bytes _) _ => apply calls_no_store; [done|intros ?]
  | |- calls_only _ (perform SystemTime) _ => apply calls_no_store; [done|intros ?]
  | |- calls_only _ (mesh_genesis_create _ _) _ => unfold mesh_genesis_create
  | |- calls_only _ (open _ _) _ => apply calls_no_store; [by apply open_no_store|intros ?]
  | |- calls_only _ (get_org _) _ => unfold get_org, store.get_org
  | |- calls_only _ (get_formation _ _) _ => unfold get_formation, store.get_formation
  | |- calls_only _ (get_token _ _) _ => unfold get_token, store.get_token
  | |- calls_only _ (get_sink _ _) _ => unfold get_sink, store.get_sink
  | |- calls_only _ (get_idp _ _) _ => unfold get_idp, store.get_idp
  | |- match ?r with Ok _ => _ | Err _ => _ end => destruct r eqn:?
  | |- calls_only _ (if ?b then _ else _) _ => destruct b eqn:?
  | |- calls_only _ (match ?r with Some _ => _ | None => _ end) _ => destruct r eqn:?
  end.

(** What is read of a row that sits under its own key. *)
Section UnderReads.
Context (P : ∀ R, StoreOp R → Prop).
Abbreviation under := (calls_under rows_wf P).

Lemma under_get_org o Q :
  P _ (GetOrg o) → (∀ org, o_org_id org = o → Q (Ok org)) → (∀ e, Q (Err e)) → under (get_org o) Q.
Proof.
  intros HP HQ He. unfold get_org. apply under_mbind, under_call; [done| |done].
  intros m r m' HI [-> _]. destruct (d_orgs m !! o) eqn:E; cbn; [|done].
  apply HQ. by destruct (rw_orgs _ HI _ _ E).
Qed.
Lemma under_get_token o t Q :
  P _ (GetToken o t) → (∀ tok, t_org_id tok = o → Q (Ok tok)) → (∀ e, Q (Err e)) →
  under (get_token o t) Q.
Proof.
  intros HP HQ He. unfold get_token. apply under_mbind, under_call; [done| |done].
  intros m r m' HI [-> _]. destruct (d_tokens m !! (o, t)) eqn:E; cbn; [|done].
  apply HQ. by destruct (rw_tokens _ HI _ _ _ E).
Qed.
Lemma under_get_sink o s Q :
  P _ (GetSink o s) → (∀ sink, s_org_id sink = o → Q (Ok sink)) → (∀ e, Q (Err e)) →
  under (get_sink o s) Q.
Proof.
  intros HP HQ He. unfold get_sink. apply under_mbind, under_call; [done| |done].
  intros m r m' HI [-> _]. destruct (d_sinks m !! (o, s)) eqn:E; cbn; [|done].
  apply HQ. by destruct (rw_sinks _ HI _ _ _ E).
Qed.
Lemma under_get_idp o i Q :
  P _ (GetIdp o i) → (∀ idp, i_org_id idp = o → Q (Ok idp)) → (∀ e, Q (Err e)) →
  under (get_idp o i) Q.
Proof.
  intros HP HQ He. unfold get_idp. apply under_mbind, under_call; [done| |done].
  intros m r m' HI [-> _]. destruct (d_idps m !! (o, i)) eqn:E; cbn; [|done].
  apply HQ. by destruct (rw_idps _ HI _ _ _ E).
Qed.
End UnderReads.

Ltac under_step :=
  cbv beta iota;
  lazymatch goal with
  | |- True => exact I
  | |- ∀ _, _ => intros ?
  | |- calls_under _ _ (mbind _ _) _ => apply under_mbind
  | |- calls_under _ _ (pbind _ _) _ => apply under_pbind
  | |- calls_under _ _ (get_org _) _ => apply under_get_org; [|intros ? ?|intros ?]
  | |- calls_under _ _ (get_token _ _) _ => apply under_get_token; [|intros ? ?|intros ?]
  | |- calls_under _ _ (get_sink _ _) _ => apply under_get_sink; [|intros ? ?|intros ?]
  | |- calls_under _ _ (get_idp _ _) _ => apply under_get_idp; [|intros ? ?|intros ?]
  | |- calls_under _ _ (get_formation _ _) _ => unfold get_formation, store.get_formation
  | |- calls_under _ _ (call _) _ => apply under_call; [|intros ? ? ? _ _|intros ?]
  | |- calls_under _ _ (lift _) _ => cbv [lift]
  | |- calls_under _ _ (ok _) _ => cbv [ok]
  | |- calls_under _ _ (bail _) _ => cbv [bail]
  | |- calls_under _ _ (Ret _) _ => cbn [calls_under]
  | |- calls_under _ _ (mesh_genesis_create _ _) _ => unfold mesh_genesis_create
  | |- calls_under _ _ now_ms _ => apply under_only, calls_no_store; [done|intros ?]
  | |- calls_under _ _ (random_bytes _) _ => apply under_only, calls_no_store; [done|intros ?]
  | |- calls_under _ _ (perform SystemTime) _ => apply under_only, calls_no_store; [done|intros ?]
  | |- calls_under _ _ (open _ _) _ => apply under_only, calls_no_store; [by apply open_no_store|intros ?]
  | |- match ?r with Ok _ => _ | Err _ => _ end => destruct r eqn:?
  | |- calls_under _ _ (if ?b then _ else _) _ => destruct b eqn:?
  | |- calls_under _ _ (match ?r with Some _ => _ | None => _ end) _ => destruct r eqn:?
  | |- allowed _ _ _ _ => split; cbn; [subst|]; try done
  end.

Section Calls.
Context `{HexLib} `{AeadLib} `{MeshLib} (mgr : TenantManager).
Context (Hkp : KeyProviderLaws (key_provider mgr)).

Lemma perform_call_under (rt : rights) c :
  call_allowed rt c → calls_under rows_wf (allowed mgr rt) (perform_call mgr c) (λ _, True).
Proof.
  intros Hc. destruct c; cbn in Hc; destruct_and?; cbn [perform_call]; unfold forget; apply under_pbind.
  all: try (unfold create_token, validate_and_consume_token, store.create_token, store.update_token;
            bodies; repeat under_step; fail).
  bodies. repeat under_step; [|by intros ?; congruence].
  eapply under_mono.
  { apply under_only, (calls_seal _ _ _ (λ r, match r with Ok b => is_envelope b = true | _ => True end)); done. }
  intros [b|e] Hb; repeat under_step. by intros _.
Qed.
End Calls.
