(* ===== verification/WatcherEquiv.v ===== *)
(** The watcher against a reference that keeps its memory to itself.

    [remembering] is the watcher of a formation with the hashes it has seen in a
    map of its own, where [watch_loop] keeps them in storage.  On reliable storage
    the two send the same messages ([watch_loop_remembers]). *)
From S2P Require Import Prelude Text Extern Models Errors Effects Spec Wp Crypto Manager Invariant ManagerInv Cdc CdcSpec Watcher Concurrency ConcurrencySpec Calls.
From Stdlib Require Import ZArith.

#[local] Open Scope Z_scope.

(** ** Programs that ignore the cursors *)
Definition reads_no_cursor R (op : StoreOp R) : Prop :=
  is_read op ∧ match op with GetCursor _ _ _ => False | _ => True end.
Definition with_cursors (c : gmap (string * string * string) string) (w : world db) : world db :=
  set_store (upd_cursors (λ _, c) (w_store w)) w.

Lemma spec_no_cursor {R} (op : StoreOp R) c m r m' :
  reads_no_cursor R op → spec op (upd_cursors (λ _, c) m) r m' →
  spec op m r m ∧ m' = upd_cursors (λ _, c) m.
Proof.
  intros [Hr Hc] Hs. pose proof (spec_read op _ _ _ Hr Hs) as ->. split; [|done].
  destruct op; cbn in *; try done; destruct_and?; (split; [|done]); assumption.
Qed.

Lemma wp_no_cursor o {A} (p : prog A) Q c w :
  calls_only reads_no_cursor p (λ _, True) → wp o false p Q w →
  wp o false p (λ a w', ∃ w1, w' = with_cursors c w1 ∧ w_store w1 = w_store w ∧ Q a w1) (with_cursors c w).
Proof.
  revert w; induction p as [a|X e k IH]; intros w Hc Hp; cbn in *; [by exists w|].
  destruct e; cbn in *.
  - destruct Hc as [Hop Hc], Hp as (Hok & Hs & _). split; [done|]. split; [|done]. intros r m' Hm'.
    destruct (spec_no_cursor op c _ r m' Hop Hm') as [Hm ->].
    specialize (Hs r _ Hm). rewrite set_store_id in Hs. exact (IH (Ok r) w (Hc (Ok r)) Hs).
  - exact (IH _ (ticked w) (Hc _) Hp).
  - exact (IH _ (drawn n w) (Hc _ (length_rng_bytes _ _ _)) Hp).
  - exact (IH _ (sent o rq w) (Hc _) Hp).
  - exact (IH _ (slept ms w) Hc Hp).
Qed.

Section Equiv.
Context `{HttpLib} `{Serde CdcEvent} `{Serde Value} `{StdHasher} (o : oracle).
Context (engine : CdcEngine) (org app : string).

Abbreviation memory := (gmap string string).

(** Publish; on success remember the hash. *)
Definition publish_and_remember (seen : memory) (event : CdcEvent) : prog memory :=
  try! published := publish engine event in
  match published with
  | Err _ => Ret seen
  | Ok _ => Ret (<[e_document_id event := e_change_hash event]> seen)
  end.
Definition update_event (d : Document) : CdcEvent :=
  let doc_id := default "unknown"%string (doc_id d) in
  let timestamp_ms := since_epoch (doc_updated_at d) in
  {| e_org_id := org; e_app_id := app; e_document_id := doc_id;
     e_change_hash := fmt_x (hash_fields doc_id (doc_fields d) timestamp_ms);
     e_actor_id := default "unknown"%string (v ← doc_fields d !! "_actor"%string; as_str v);
     e_timestamp_ms := timestamp_ms; e_patches := fields_to_value (doc_fields d) |}.
Definition removal_event (doc_id : string) (now : Z) : CdcEvent :=
  let timestamp_ms := since_epoch now in
  {| e_org_id := org; e_app_id := app; e_document_id := doc_id;
     e_change_hash := fmt_x (hash_fields doc_id ∅ timestamp_ms);
     e_actor_id := "system"; e_timestamp_ms := timestamp_ms;
     e_patches := JObject [("_deleted"%string, JBool true)] |}.

Fixpoint remembering (seen : memory) (stream : list ChangeEvent) : prog memory :=
  match stream with
  | [] => Ret seen
  | Updated d :: stream =>
      let event := update_event d in
      if decide (seen !! e_document_id event = Some (e_change_hash event))
      then remembering seen stream
      else try! seen := publish_and_remember seen event in remembering seen stream
  | Removed doc_id :: stream =>
      try! now := perform SystemTime in
      try! seen := publish_and_remember seen (removal_event doc_id now) in
      remembering seen stream
  | Initial _ :: stream => remembering seen stream
  end.

(** The stored cursors of the formation are what the reference remembers. *)
Definition remembered (c : gmap (string * string * string) string) (seen : memory) : Prop :=
  ∀ doc_id, c !! (org, app, doc_id) = seen !! doc_id.

Lemma remembered_insert c seen doc_id hash :
  remembered c seen → remembered (<[(org, app, doc_id) := hash]> c) (<[doc_id := hash]> seen).
Proof.
  intros Hc doc_id'. destruct (decide (doc_id' = doc_id)) as [->|Hne].
  - by rewrite !lookup_insert_eq.
  - rewrite !lookup_insert_ne; [apply Hc|done|]. by intros [= ->].
Qed.

Lemma publish_no_cursor event : calls_only reads_no_cursor (publish engine event) (λ _, True).
Proof.
  unfold publish, list_sinks, get_org. apply calls_mbind, calls_mbind, calls_mbind.
  apply calls_call; [by split|]. intros [[x|]|e]; cbn [lift ok_or calls_only]; try done.
  apply calls_call; [by split|]. intros [sinks|e]; [|done].
  apply calls_pbind, calls_no_store; [|done]. eapply only_net_no_store, publish_all_only_net.
Qed.

Section Loop.
Context (Horg : nul_free org) (Happ : nul_free app).

(** One event that is sent: the stored cursor follows the memory. *)
Lemma advance_remembers event seen c w Q :
  e_org_id event = org → e_app_id event = app → remembered c seen →
  wp o false (publish_and_remember seen event)
    (λ seen' w', ∀ c', remembered c' seen' → Q tt (with_cursors c' w')) w →
  wp o false (publish_and_advance engine event) Q (with_cursors c w).
Proof.
  intros Eo Ea Hc Hp. unfold publish_and_remember in Hp. apply wp_pbind in Hp.
  apply wp_pbind. eapply wp_mono; [apply wp_no_cursor; [apply publish_no_cursor|exact Hp]|].
  intros [[]|e] w' (w1 & -> & _ & HQ); cbn in HQ; [|by apply wp_ret, HQ].
  apply wp_pbind, wp_call; [by rewrite Eo, Ea|intros [] m' ->|done]. apply wp_ret. rewrite Eo, Ea.
  by apply (HQ (<[(org, app, e_document_id event) := e_change_hash event]> c)), remembered_insert.
Qed.

Lemma loop_remembers stream seen c w (Q : world db → Prop) :
  remembered c seen →
  wp o false (remembering seen stream)
    (λ seen' w', ∀ c', remembered c' seen' → Q (with_cursors c' w')) w →
  wp o false (watch_loop engine org app stream) (λ _ w', Q w') (with_cursors c w).
Proof.
  revert seen c w. induction stream as [|[d|id|ds] stream IH]; intros seen c w Hc Hp;
    cbn [remembering watch_loop handle_change] in *.
  - by apply wp_ret, Hp.
  - apply wp_pbind. fold (update_event d). unfold get_cursor, store.get_cursor.
    apply wp_pbind, wp_call_read; [done|done|intros r [-> _]|done].
    assert (d_cursors (w_store (with_cursors c w)) !! (org, app, default "unknown"%string (doc_id d)) =
            seen !! e_document_id (update_event d)) as -> by apply Hc.
    change (fmt_x _) with (e_change_hash (update_event d)). case_decide as Hseen.
    + rewrite Hseen, bool_decide_eq_true_2 by done. apply wp_ret. by apply (IH seen).
    + assert (match seen !! e_document_id (update_event d) with
              | Some cursor => bool_decide (cursor = e_change_hash (update_event d))
              | None => false end = false) as ->.
      { destruct (seen !! _) as [s|] eqn:E; [|done]. apply bool_decide_eq_false_2. congruence. }
      apply (advance_remembers _ seen); [done..|]. apply wp_pbind in Hp.
      eapply wp_mono; [exact Hp|]. intros seen' w' Hp' c' Hc'. by apply (IH seen').
  - apply wp_pbind, wp_pbind. apply wp_pbind in Hp.
    apply (advance_remembers (removal_event id (o_clock o (w_tick w))) seen c (ticked w)); [done..|].
    change (wp o false (try! seen := publish_and_remember seen (removal_event id (o_clock o (w_tick w)))
                        in remembering seen stream)
              (λ seen' w', ∀ c', remembered c' seen' → Q (with_cursors c' w')) (ticked w)) in Hp.
    apply wp_pbind in Hp. eapply wp_mono; [exact Hp|]. intros seen' w' Hp' c' Hc'. by apply (IH seen').
  - apply wp_pbind, wp_ret. by apply (IH seen).
Qed.
End Loop.

(** C22: On reliable storage, for organization and application names free of NUL,
    the watcher, which decides from cursors it reads back from storage, sends exactly
    what a reference that keeps its memory in the program sends: each change whose
    hash is not the last one the engine accepted for that document, in order, and
    every removal; it leaves cursors equal to the memory the reference ends with. The
    memory holds what was handed to the engine and accepted by it, whatever the sinks
    then answered: it does not say that a sink has received the event. *)
Theorem watch_loop_remembers stream seen w (Q : memory → list event → Prop) :
  nul_free org → nul_free app → remembered (d_cursors (w_store w)) seen →
  wp o false (remembering seen stream) (λ seen' w', Q seen' (w_trace w')) w →
  wp o false (watch_loop engine org app stream)
    (λ _ w', ∃ seen', Q seen' (w_trace w') ∧ remembered (d_cursors (w_store w')) seen') w.
Proof.
  intros Horg Happ Hc Hp. replace w with (with_cursors (d_cursors (w_store w)) w) at 1
    by (destruct w as [[]]; reflexivity).
  apply (loop_remembers Horg Happ stream seen); [done|]. eapply wp_mono; [exact Hp|].
  intros seen' w' HQ c' Hc'. by exists seen'.
Qed.
End Equiv.
