(* ===== verification/Typing.v ===== *)
(** Machine widths.

    A [u32] or [u64] field of the source is a [Z] here.  [typed] says that every
    number in storage fits the type of its field; it is kept by every step of every
    call under any interleaving, provided the arguments fit theirs. *)
From S2P Require Import Prelude Text Extern Models Errors Effects Spec Wp Crypto Manager Invariant ManagerInv Concurrency ConcurrencySpec.
From Stdlib Require Import ZArith.

#[local] Open Scope Z_scope.

(** ** Typed records *)
Definition opt (P : Z → Prop) (n : option Z) : Prop := from_option P True n.
Definition quotas_typed (q : OrgQuotas) : Prop :=
  u32 (max_formations q) ∧ u32 (max_peers_per_formation q) ∧ u32 (max_documents_per_formation q) ∧
  u32 (max_cdc_sinks q) ∧ u32 (max_enrollments_per_hour q).
Definition org_typed (o : Organization) : Prop := quotas_typed (o_quotas o) ∧ u64 (o_created_at o).
Definition token_typed (t : EnrollmentToken) : Prop :=
  opt u32 (t_max_uses t) ∧ u32 (t_uses t) ∧ opt u64 (t_expires_at t) ∧ u64 (t_created_at t).
Definition sink_typed (s : CdcSinkConfig) : Prop := u64 (s_created_at s).
Definition idp_typed (i : IdpConfig) : Prop := u64 (i_created_at i).
Definition rule_typed (r : PolicyRule) : Prop := u32 (r_permissions r) ∧ u32 (r_priority r).
Definition decision_typed (d : EnrollmentDecision) : Prop :=
  match d with Approved _ perms => u32 perms | Denied _ => True end.
Definition audit_typed (e : EnrollmentAuditEntry) : Prop :=
  decision_typed (a_decision e) ∧ u64 (a_timestamp_ms e).

Record typed (m : db) : Prop := {
  ty_orgs : map_Forall (λ _, org_typed) (d_orgs m);
  ty_tokens : map_Forall (λ _, token_typed) (d_tokens m);
  ty_sinks : map_Forall (λ _, sink_typed) (d_sinks m);
  ty_idps : map_Forall (λ _, idp_typed) (d_idps m);
  ty_rules : map_Forall (λ _, rule_typed) (d_rules m);
  ty_audit : map_Forall (λ _, audit_typed) (d_audit m);
}.
Lemma typed_empty : typed db_empty.
Proof. split; apply map_Forall_empty. Qed.

(** A row that a method writes fits. *)
Definition op_typed {R} (op : StoreOp R) : Prop :=
  match op with
  | CreateOrg o | UpdateOrg o => org_typed o
  | CreateToken t | UpdateToken t => token_typed t
  | CreateSink s | UpdateSink s => sink_typed s
  | CreateIdp i | UpdateIdp i => idp_typed i
  | CreatePolicyRule r => rule_typed r
  | AppendAudit e => audit_typed e
  | _ => True
  end.

Lemma rows_typed `{Countable K, OrgKey K} {V} (P : V → Prop) (m : gmap K V) o :
  map_Forall (λ _, P) m → map_Forall (λ _, P) (rows_not_of o m).
Proof. intros Hm k v [Ev _]%map_lookup_filter_Some. by eapply Hm. Qed.

Lemma spec_typed {R} (op : StoreOp R) m r m' :
  typed m → op_typed op → spec op m r m' → typed m'.
Proof.
  intros Hm Hop Hs. pose proof Hm as [].
  destruct op; cbn in Hop, Hs; destruct_and?; destruct_or?; destruct_and?; subst; try exact Hm;
    constructor; cbn; try assumption;
    first [ by apply map_Forall_insert_2 | by apply map_Forall_delete | by apply rows_typed ].
Qed.

(** ** Symbolic execution *)
Definition twp_eff {X} (e : eff X) : (X → Prop) → Prop :=
  match e in eff X return (X → Prop) → Prop with
  | Store op => λ Q, op_typed op ∧
      (∀ m r m', typed m → spec op m r m' → Q (Ok r)) ∧ ∀ e, Q (Err e)
  | OsRng n => λ Q, ∀ b, length b = n → Q b
  | SystemTime => λ Q, ∀ t, Q t
  | Net _ => λ Q, ∀ rp, Q rp
  | Sleep _ => λ Q, Q tt
  end.
Fixpoint twp {A} (p : prog A) (Q : A → Prop) : Prop :=
  match p with
  | Ret a => Q a
  | Do e k => twp_eff e (λ x, twp (k x) Q)
  end.

Lemma twp_mono {A} (p : prog A) (Q Q' : A → Prop) : twp p Q → (∀ a, Q a → Q' a) → twp p Q'.
Proof.
  intros Hp HQ. induction p as [a|X e k IH]; cbn in *; [auto|]. destruct e; cbn in *; naive_solver.
Qed.
Lemma twp_pbind {A B} (p : prog A) (f : A → prog B) Q :
  twp p (λ a, twp (f a) Q) → twp (pbind p f) Q.
Proof.
  induction p as [a|X e k IH]; cbn; [done|]. destruct e; cbn; intros Hp; naive_solver.
Qed.
Lemma twp_mbind {E A B} (c : prog (result E A)) (f : A → prog (result E B)) Q :
  twp c (λ r, match r with Ok a => twp (f a) Q | Err e => Q (Err e) end) → twp (mbind c f) Q.
Proof. intros Hc. apply twp_pbind. eapply twp_mono; [exact Hc|]. by intros []. Qed.
Lemma twp_call {R} (op : StoreOp R) Q :
  op_typed op → (∀ m r m', typed m → spec op m r m' → Q (Ok r)) → (∀ e, Q (Err e)) →
  twp (call op) Q.
Proof. intros Hok Hs He. cbn. naive_solver. Qed.
Lemma twp_ret {A} (a : A) Q : Q a → twp (Ret a) Q.
Proof. done. Qed.
Lemma twp_now_ms (Q : Z → Prop) : (∀ t, u64 t → Q t) → twp now_ms Q.
Proof. intros HQ t. apply HQ, wrap_u64_u64. Qed.
Lemma twp_random_bytes n (Q : bytes → Prop) : (∀ b, Q b) → twp (random_bytes n) Q.
Proof. cbn. auto. Qed.
Lemma twp_no_store {A} (p : prog A) Q : no_store p → (∀ a, Q a) → twp p Q.
Proof.
  intros Hp HQ. induction p as [a|X e k IH]; cbn in *; [done|]. destruct Hp as [He Hk].
  destruct e; cbn in *; [done|..]; auto.
Qed.

(** It joins what [swp] proves of the same program. *)
Lemma swp_twp {A} I (p : prog A) Q Q' :
  swp I p Q → twp p Q' → swp (λ m, I m ∧ typed m) p (λ a, Q a ∧ Q' a).
Proof.
  intros Hs Ht. induction p as [a|X e k IH]; cbn in *; [done|]. destruct e; cbn in *; auto.
  destruct Ht as (Hop & Hok & Herr). intros m [HI Hm]. destruct (Hs m HI) as (Ho & Hs1 & He).
  split_and!; [done| |auto]. intros r m' Hsp. destruct (Hs1 _ _ Hsp) as [HI' Hk].
  split; [split; [done|by eapply spec_typed]|]. by eauto.
Qed.

(** ** The operations of the manager *)
Lemma twp_get_org o (Q : Result Organization → Prop) :
  (∀ org, org_typed org → Q (Ok org)) → (∀ e, Q (Err e)) → twp (get_org o) Q.
Proof.
  intros HQ He. unfold get_org. apply twp_mbind, twp_call; [done| |done].
  intros m r m' Hm [-> _]. destruct (d_orgs m !! o) eqn:E; cbn; [|done].
  apply HQ. by eapply ty_orgs.
Qed.
Lemma twp_get_token o t (Q : Result EnrollmentToken → Prop) :
  (∀ tok, token_typed tok → Q (Ok tok)) → (∀ e, Q (Err e)) → twp (get_token o t) Q.
Proof.
  intros HQ He. unfold get_token. apply twp_mbind, twp_call; [done| |done].
  intros m r m' Hm [-> _]. destruct (d_tokens m !! (o, t)) eqn:E; cbn; [|done].
  apply HQ. by eapply ty_tokens.
Qed.
Lemma twp_get_sink o s (Q : Result CdcSinkConfig → Prop) :
  (∀ sink, sink_typed sink → Q (Ok sink)) → (∀ e, Q (Err e)) → twp (get_sink o s) Q.
Proof.
  intros HQ He. unfold get_sink. apply twp_mbind, twp_call; [done| |done].
  intros m r m' Hm [-> _]. destruct (d_sinks m !! (o, s)) eqn:E; cbn; [|done].
  apply HQ. by eapply ty_sinks.
Qed.
Lemma twp_get_idp o i (Q : Result IdpConfig → Prop) :
  (∀ idp, idp_typed idp → Q (Ok idp)) → (∀ e, Q (Err e)) → twp (get_idp o i) Q.
Proof.
  intros HQ He. unfold get_idp. apply twp_mbind, twp_call; [done| |done].
  intros m r m' Hm [-> _]. destruct (d_idps m !! (o, i)) eqn:E; cbn; [|done].
  apply HQ. by eapply ty_idps.
Qed.

(** The arguments of a call fit their types. *)
Definition call_typed (c : tenant_call) : Prop :=
  match c with
  | CallUpdateOrg _ _ quotas => from_option quotas_typed True quotas
  | CallCreateToken _ _ _ max_uses expires_at => opt u32 max_uses ∧ opt u64 expires_at
  | CallCreateRule _ _ _ _ perms priority => u32 perms ∧ u32 priority
  | CallAppendAudit e => audit_typed e
  | _ => True
  end.

Ltac twp_step :=
  cbv beta iota;
  lazymatch goal with
  | |- True => exact I
  | |- ∀ _, _ => intros ?
  | |- twp (mbind _ _) _ => apply twp_mbind
  | |- twp (pbind _ _) _ => apply twp_pbind
  | |- twp (lift _) _ => apply twp_ret
  | |- twp (ok _) _ => apply twp_ret
  | |- twp (bail _) _ => apply twp_ret
  | |- twp (Ret _) _ => apply twp_ret
  | |- twp now_ms _ => apply twp_now_ms
  | |- twp (random_bytes _) _ => apply twp_random_bytes
  | |- twp (mesh_genesis_create _ _) _ => unfold mesh_genesis_create
  | |- twp (get_org _) _ => apply twp_get_org
  | |- twp (get_formation _ _) _ => unfold get_formation
  | |- twp (get_token _ _) _ => apply twp_get_token
  | |- twp (get_sink _ _) _ => apply twp_get_sink
  | |- twp (get_idp _ _) _ => apply twp_get_idp
  | |- match ?r with Ok _ => _ | Err _ => _ end => destruct r eqn:?
  | |- twp (if ?b then _ else _) _ => destruct b eqn:?
  | |- twp (match ?r with Some _ => _ | None => _ end) _ => destruct r eqn:?
  end.

Section Calls.
Context `{HexLaws} `{AeadLib} `{MeshLib} (mgr : TenantManager).
Context (Hkp : KeyProviderLaws (key_provider mgr)).

Lemma default_quotas_typed : quotas_typed default_quotas.
Proof. unfold quotas_typed, u32. cbn. lia. Qed.
Lemma as_u32_typed z : u32 (as_u32 z).
Proof. unfold u32, as_u32. apply Z.mod_pos_bound. lia. Qed.
Lemma zero_u32 : u32 0.
Proof. unfold u32. lia. Qed.

Lemma with_uses_typed tok n : token_typed tok → token_typed (with_uses tok (as_u32 n)).
Proof. intros (? & _ & ? & ?). split_and!; [done|apply as_u32_typed|done|done]. Qed.

Ltac fits :=
  try (apply with_uses_typed; assumption);
  unfold org_typed, token_typed, sink_typed, idp_typed, rule_typed, call_typed in *; cbn in *;
  destruct_and?; split_and?;
  first [ done | assumption | apply default_quotas_typed | apply as_u32_typed | apply zero_u32
 ].
Ltac calls :=
  repeat first
    [ twp_step
    | apply twp_call; [solve [fits]|intros ? ? ? ? _|intros ?]
    | apply twp_no_store; [first [by apply seal_no_store|by apply open_no_store]|intros ?] ].

Lemma forget_twp {A} (p : M A) : twp p (λ _, True) → twp (forget p) (λ _, True).
Proof. intros Hp. apply twp_pbind. by eapply twp_mono. Qed.

Lemma perform_call_typed c : call_typed c → twp (perform_call mgr c) (λ _, True).
Proof.
  intros Hc. destruct c; cbn [perform_call]; apply forget_twp.
  all: try (bodies; calls; fail).
  all: try (unfold create_token; bodies; calls; fail).
  - destruct quotas; bodies; calls.
  - unfold validate_and_consume_token, store.update_token. calls.
Qed.
End Calls.
