(* ===== verification/Quota.v ===== *)
(** The quotas of an organization.

    [quota_ok] says that no organization has more formations or CDC sinks than its
    quotas allow.  Calls made one after another keep it as long as no quota is
    changed meanwhile ([quotas_kept]), whichever storage calls fail; calls made at the
    same time need not ([quota_race]). *)
From S2P Require Import Prelude Text Extern Models Errors Effects Spec Wp Crypto Manager Invariant ManagerInv ManagerSpec Concurrency ConcurrencySpec Calls Typing RateLimit.
From Stdlib Require Import ZArith.

#[local] Open Scope Z_scope.

(** ** The invariant *)
Record quota_ok (m : db) : Prop := {
  qo_typed o org : d_orgs m !! o = Some org → quotas_typed (o_quotas org);
  qo_formations o org : d_orgs m !! o = Some org →
    formation_count o m ≤ max_formations (o_quotas org);
  qo_sinks o org : d_orgs m !! o = Some org → sink_count o m ≤ max_cdc_sinks (o_quotas org);
}.

Lemma quota_ok_empty : quota_ok db_empty.
Proof. split; intros *; cbn; by rewrite lookup_empty. Qed.

(** When a method keeps it: a new organization has no rows, an update keeps the
    quotas, a new row has room, an update finds its row. *)
Definition op_quota {R} (op : StoreOp R) (m : db) : Prop :=
  match op with
  | CreateOrg org =>
      quotas_typed (o_quotas org) ∧ formation_count (o_org_id org) m ≤ max_formations (o_quotas org) ∧
      sink_count (o_org_id org) m ≤ max_cdc_sinks (o_quotas org)
  | UpdateOrg org => ∃ old, d_orgs m !! o_org_id org = Some old ∧ o_quotas org = o_quotas old
  | CreateFormation o _ =>
      ∃ org, d_orgs m !! o = Some org ∧ formation_count o m < max_formations (o_quotas org)
  | CreateSink s =>
      ∃ org, d_orgs m !! s_org_id s = Some org ∧ sink_count (s_org_id s) m < max_cdc_sinks (o_quotas org)
  | UpdateSink s => is_Some (d_sinks m !! (s_org_id s, s_sink_id s))
  | _ => True
  end.

Section Counts.
Context {V : Type}.
Implicit Types m : gmap (string * string) V.

Lemma rows_insert_le o k v m :
  (size (rows_of o (<[k := v]> m)) ≤ S (size (rows_of o m)))%nat.
Proof.
  unfold rows_of. destruct (decide (org_of k = o)) as [E|E].
  - rewrite map_filter_insert_True by done. apply map_size_insert_le.
  - rewrite map_filter_insert_False by done. apply le_S, map_size_mono, map_filter_subseteq_mono,
      delete_subseteq.
Qed.
Lemma rows_insert_other o k v m :
  org_of k ≠ o ∨ is_Some (m !! k) → (size (rows_of o (<[k := v]> m)) ≤ size (rows_of o m))%nat.
Proof.
  intros Hk. unfold rows_of. destruct (decide (org_of k = o)) as [E|E].
  - destruct Hk as [?|[v' Hk]]; [done|]. rewrite map_filter_insert_True by done.
    rewrite map_size_insert_Some; [done|]. exists v'. by apply map_lookup_filter_Some.
  - rewrite map_filter_insert_False by done. apply map_size_mono, map_filter_subseteq_mono,
      delete_subseteq.
Qed.
Lemma rows_delete_le o k m : (size (rows_of o (delete k m)) ≤ size (rows_of o m))%nat.
Proof. apply map_size_mono, map_filter_subseteq_mono, delete_subseteq. Qed.
Lemma rows_not_of_le o o' m : (size (rows_of o (rows_not_of o' m)) ≤ size (rows_of o m))%nat.
Proof. apply map_size_mono, map_filter_subseteq_mono, map_filter_subseteq. Qed.
End Counts.

Lemma quota_ok_mono m m' :
  quota_ok m →
  (∀ o org', d_orgs m' !! o = Some org' →
     ∃ org, d_orgs m !! o = Some org ∧ o_quotas org' = o_quotas org ∧
       formation_count o m' ≤ formation_count o m ∧ sink_count o m' ≤ sink_count o m) →
  quota_ok m'.
Proof.
  intros [Ht Hf Hs] Hm. split; intros o org' Ho; destruct (Hm o org' Ho) as (org & Eo & -> & ? & ?).
  - by eapply Ht.
  - specialize (Hf _ _ Eo). lia.
  - specialize (Hs _ _ Eo). lia.
Qed.

Lemma spec_quota {R} (op : StoreOp R) m r m' :
  quota_ok m → op_quota op m → spec op m r m' → quota_ok m'.
Proof.
  intros Hq Hop Hs.
  destruct op; cbn in Hop, Hs; destruct_and?; destruct_or?; destruct_and?; subst; try exact Hq;
    try (eapply quota_ok_mono; [exact Hq|]; intros o org' Ho; exists org'; cbn in Ho; split_and!;
    try done; unfold formation_count, sink_count; apply inj_le; first [done|apply rows_delete_le]; fail).
  - destruct Hq as [Ht Hf Hk]. split; cbn; intros o org' [[<- <-]|[Hne Ho]]%lookup_insert_Some;
      first [assumption|by eapply Ht|by eapply Hf|by eapply Hk].
  - destruct Hop as (old & Eo & Eq). apply (quota_ok_mono m); [done|]. cbn.
    intros o org' [[<- <-]|[Hne Ho]]%lookup_insert_Some; [by exists old|by exists org'].
  - apply (quota_ok_mono m); [done|]. cbn. intros o org' [Hne Ho]%lookup_delete_Some. exists org'.
    split_and!; try done; unfold formation_count, sink_count; apply inj_le, rows_not_of_le.
  - destruct Hop as (org & Eo & Hlt). destruct Hq as [Ht Hf Hk]. split; cbn; [exact Ht| |exact Hk].
    intros o org' Ho. specialize (Hf _ _ Ho). unfold formation_count in *. cbn.
    destruct (decide (org_id = o)) as [->|Hne].
    + pose proof (rows_insert_le o (o, f_app_id formation) formation (d_formations m)). simplify_eq. lia.
    + pose proof (rows_insert_other o (org_id, f_app_id formation) formation (d_formations m)
        (or_introl Hne)). lia.
  - destruct Hop as (org & Eo & Hlt). destruct Hq as [Ht Hf Hk]. split; cbn; [exact Ht|exact Hf|].
    intros o org' Ho. specialize (Hk _ _ Ho). unfold sink_count in *. cbn.
    destruct (decide (s_org_id sink = o)) as [<-|Hne].
    + pose proof (rows_insert_le (s_org_id sink) (s_org_id sink, s_sink_id sink) sink (d_sinks m)).
      simplify_eq. lia.
    + pose proof (rows_insert_other o (s_org_id sink, s_sink_id sink) sink (d_sinks m)
        (or_introl Hne)). lia.
  - apply (quota_ok_mono m); [done|]. cbn. intros o org' Ho. exists org'. split_and!; try done.
    unfold sink_count. apply inj_le, rows_insert_other. by right.
Qed.

(** ** The calls *)
(** The methods that never take a row more. *)
Definition plain R (op : StoreOp R) : Prop :=
  match op with
  | CreateOrg _ | UpdateOrg _ | CreateFormation _ _ | CreateSink _ | UpdateSink _ => False
  | _ => True
  end.
Lemma plain_quota {R} (op : StoreOp R) m : plain R op → op_quota op m.
Proof. by destruct op. Qed.

Lemma wp_calls o fl P J {A} (p : prog A) Q w :
  wp o fl p Q w → calls_only P p (λ _, True) →
  (∀ R (op : StoreOp R) m r m', P R op → J m → spec op m r m' → J m') → J (w_store w) →
  wp o fl p (λ a w', Q a w' ∧ J (w_store w')) w.
Proof.
  intros Hp Hc HJ. revert w Hp; induction p as [a|X e k IH]; intros w Hp Hw; cbn in *; [done|].
  destruct e; cbn in *; [|auto using length_rng_bytes..]. destruct Hc as [HP Hc]. unfold wp_store in *.
  destruct Hp as (Hok & Hs & He). split_and!; [done|..]; intros; apply IH; auto. by eapply HJ.
Qed.

Section Kept.
Context `{HexLaws} `{AeadLib} `{MeshLib} (mgr : TenantManager) (o : oracle) (fl : bool).
Context (Hkp : KeyProviderLaws (key_provider mgr)).

(** A call changes no quota. *)
Definition quota_call (c : tenant_call) : Prop :=
  match c with CallUpdateOrg _ _ (Some _) => False | _ => True end.
Definition special (c : tenant_call) : Prop :=
  match c with
  | CallCreateOrg _ _ | CallUpdateOrg _ _ _ | CallCreateFormation _ _ _ | CallCreateSink _ _
  | CallToggleSink _ _ _ => True
  | _ => False
  end.

Lemma plain_calls c : ¬ special c → calls_only plain (perform_call mgr c) (λ _, True).
Proof.
  intros Hc. destruct c; cbn in Hc; try (by destruct Hc); cbn [perform_call]; unfold forget; apply calls_pbind.
  all: unfold create_token, validate_and_consume_token, store.create_token, store.update_token,
              store.get_token, store.get_sink, store.get_idp; bodies; repeat calls_step.
Qed.

Lemma wp_quota_write {R} (op : StoreOp R) Q w :
  op_ok op → quota_ok (w_store w) → op_quota op (w_store w) →
  (∀ r m', quota_ok m' → Q (Ok r) (set_store m' w)) → (∀ e, Q (Err e) w) → wp o fl (call op) Q w.
Proof.
  intros Hok Hq Hop HQ He. apply wp_call; [done| |done]. intros r m' Hs. apply HQ. by eapply spec_quota.
Qed.

(** The room that the check of a quota leaves. *)
Lemma quota_room max n : 0 ≤ n ≤ max → u32 max → (max <=? as_u32 n) = false → n < max.
Proof. unfold u32, as_u32. intros Hn Hm Hlt%Z.leb_gt. rewrite Z.mod_small in Hlt; lia. Qed.

Abbreviation kept p w := (wp o fl p (λ _ w', quota_ok (w_store w')) w).

Lemma create_org_quota id name w :
  wf (w_store w) → quota_ok (w_store w) → kept (create_org id name) w.
Proof.
  intros Hwf Hq. unfold create_org, store.get_org, store.create_org. repeat wp_step; try done.
  apply wp_call_read; [done|done|intros r [-> _]|done]. repeat wp_step; try done.
  rename select (bool_decide _ = false) into Hno. apply bool_decide_eq_false in Hno.
  apply wp_quota_write; [done|done| |intros; by repeat wp_step|done]. cbn.
  split; [apply default_quotas_typed|].
  assert (∀ V (t : gmap (string * string) V),
    (∀ k v, t !! (id, k) = Some v → has_org id (w_store w)) → size (rows_of id t) = 0%nat) as Hnone.
  { intros V t Ht. apply map_size_empty_iff, map_empty_filter. intros [i k] v Hk E. cbn in E. subst.
    apply Hno. by apply (Ht k v). }
  unfold formation_count, sink_count. rewrite !Hnone; [done| |].
  - intros k v Hk. by destruct (wf_sinks _ Hwf _ _ _ Hk) as (_ & _ & _ & _ & ?).
  - intros k v Hk. by destruct (wf_formations _ Hwf _ _ _ Hk) as (_ & _ & ?).
Qed.

Lemma rename_org_quota id name w :
  wf (w_store w) → quota_ok (w_store w) → kept (update_org id name None) w.
Proof.
  intros Hwf Hq. unfold update_org, store.update_org. repeat wp_step; try done.
  rename select (d_orgs _ !! _ = Some _) into Eo. destruct (wf_orgs _ Hwf _ _ Eo) as [Eid _].
  apply wp_quota_write; [done|done| |intros; by repeat wp_step|done]. cbn. rewrite Eid. by eexists.
Qed.

Lemma create_formation_quota id a p w :
  wf (w_store w) → quota_ok (w_store w) → kept (create_formation mgr id a p) w.
Proof.
  intros Hwf Hq. unfold create_formation, store.list_formations, store.get_formation,
    store.create_formation, store.store_genesis. repeat wp_step; try done.
  match goal with H : validate_identifier _ _ = Ok ?u |- _ => rename H into Hid; destruct u end.
  apply validate_identifier_ok, valid_identifier_nul_free in Hid.
  rename select (d_orgs _ !! _ = Some _) into Eo.
  pose proof (wf_org_nul_free _ _ Hwf (has_org_Some _ _ _ Eo)) as Hnul.
  apply wp_call_read; [done|done|intros fs [Hfs _]|done]. rewrite (listing_length _ _ _ Hfs).
  repeat wp_step; try done. rename select (_ = false) into Hroom.
  apply quota_room in Hroom; [|split; [lia|by apply (qo_formations _ Hq _ _ Eo)]
    |by apply (qo_typed _ Hq _ _ Eo)].
  assert (∀ f b w1, w_store w1 = w_store w → f_app_id f = a →
    kept (let! _ := call (CreateFormation id f) in let! _ := call (StoreGenesis id a b) in ok f) w1)
    as Hwrite.
  { intros f b w1 Hw1 Ef. apply wp_mbind, wp_quota_write; rewrite ?Hw1; [cbn; by rewrite Ef|done|by eexists| |done].
    intros _ m1 Hq1. apply wp_mbind, wp_quota_write; [done..|by intros; apply wp_ret|done]. }
  apply wp_call_read; [done|done|intros ? _|done]. repeat wp_step; try done.
  - apply wp_no_store; [by apply seal_no_store|]. intros [b|e] w1 Hw1; cbn in Hw1; [|by rewrite Hw1].
    by apply Hwrite.
  - apply wp_mbind. by apply (Hwrite _ _ (drawn 64 w)).
Qed.

Lemma create_sink_quota id t w :
  wf (w_store w) → quota_ok (w_store w) → kept (create_sink id t) w.
Proof.
  intros Hwf Hq. unfold create_sink, store.list_sinks, store.create_sink. repeat wp_step; try done.
  rename select (d_orgs _ !! _ = Some _) into Eo.
  pose proof (wf_org_nul_free _ _ Hwf (has_org_Some _ _ _ Eo)) as Hnul.
  apply wp_call_read; [done|done|intros l [Hl _]|done]. rewrite (listing_length _ _ _ Hl).
  repeat wp_step; try done. rename select (_ = false) into Hroom.
  apply quota_room in Hroom; [|split; [lia|by apply (qo_sinks _ Hq _ _ Eo)]|by apply (qo_typed _ Hq _ _ Eo)].
  apply wp_quota_write; [split; [done|apply hex_nul_free]|done|by eexists|intros; by repeat wp_step|done].
Qed.

Lemma toggle_sink_quota id s b w :
  wf (w_store w) → quota_ok (w_store w) → kept (toggle_sink id s b) w.
Proof.
  intros Hwf Hq. unfold toggle_sink, store.update_sink. repeat wp_step; try done.
  rename select (d_sinks _ !! _ = Some _) into Es.
  destruct (wf_sinks _ Hwf _ _ _ Es) as (Eo & Ei & Hs & _ & Horg).
  apply wp_quota_write; [|done| |intros; by repeat wp_step|done]; cbn; rewrite Eo, Ei.
  - split; [by eapply wf_org_nul_free|done].
  - by eexists.
Qed.

Lemma call_quota c w :
  call_ok c → quota_call c → wf (w_store w) → quota_ok (w_store w) →
  wp o fl (perform_call mgr c) (λ _ w', wf (w_store w') ∧ quota_ok (w_store w')) w.
Proof.
  intros Hok Hc Hwf Hq.
  assert (wp o fl (perform_call mgr c) (λ _ w', wf (w_store w')) w) as Hgood.
  { eapply wp_mono; [by apply perform_call_good|]. by intros ? ? []. }
  assert (special c ∨ ¬ special c) as [Hs|Hs] by (destruct c; cbn; tauto).
  - apply wp_and; [done|].
    destruct c; cbn in Hs; try done; cbn [perform_call]; apply wp_pbind; try destruct quotas; try done.
    all: eapply wp_mono; [|by intros a w' Hw'; exact Hw'].
    + by apply create_org_quota.
    + by apply rename_org_quota.
    + by apply create_formation_quota.
    + by apply create_sink_quota.
    + by apply toggle_sink_quota.
  - eapply wp_calls; [done|by apply plain_calls| |done]. intros R op m r m' Hop Hm. eapply spec_quota; [done|].
    by apply plain_quota.
Qed.

(** C17: Calls made one after another never take an organization over its quota of
    formations or sinks, whichever storage calls fail, as long as the calls do not
    change a quota. *)
Theorem quotas_kept cs w :
  Forall call_ok cs → Forall quota_call cs → wf (w_store w) → quota_ok (w_store w) →
  wp o fl (perform_all mgr cs) (λ _ w', quota_ok (w_store w')) w.
Proof.
  intros Hok. revert w. induction Hok as [|c cs Hc _ IH]; intros w Hqs Hwf Hq; cbn [perform_all]; [done|].
  apply Forall_cons in Hqs as [? ?]. apply wp_pbind. eapply wp_mono; [by apply call_quota|].
  intros _ w1 [??]. by apply IH.
Qed.
End Kept.

(** ** Calls made at the same time *)
Section Race.
Context `{StorageSpec St rep} {Hrel : Reliable St rep} `{HexLaws} (orc : oracle).

Lemma sink_count_insert o id s m :
  d_sinks m !! (o, id) = None → sink_count o (upd_sinks <[(o, id) := s]> m) = sink_count o m + 1.
Proof.
  intros Hs. unfold sink_count, rows_of. cbn. rewrite map_filter_insert_True by done.
  rewrite map_size_insert_None; [lia|]. apply map_lookup_filter_None. by left.
Qed.

(** C34: On any reliable backend, from any content where an organization has room
    for one more sink, two creations of a valid sink whose checks both run before
    either writes succeed, and the organization has one sink more than its quota (the
    two random identifiers being different and unused). *)
Theorem quota_race (w : world St) m org_id org t :
  rep (w_store w) m → nul_free org_id → d_orgs m !! org_id = Some org →
  validate_sink_type t = Ok tt → sink_count org_id m < 2 ^ 32 →
  sink_count org_id m + 1 = max_cdc_sinks (o_quotas org) →
  let id r := hex_encode (rng_bytes orc r 8) in
  let fresh r := d_sinks m !! (org_id, id r) = None in
  id (w_rpos w) ≠ id (w_rpos w + 8)%nat → fresh (w_rpos w) → fresh (w_rpos w + 8)%nat →
  ∃ s1 s2 w' m',
    interleave orc [0; 0; 1; 1; 0; 0; 0; 1; 1; 1]%nat [create_sink org_id t; create_sink org_id t] w =
      ([Ret (Ok s1); Ret (Ok s2)], w') ∧
    rep (w_store w') m' ∧ sink_count org_id m' = max_cdc_sinks (o_quotas org) + 1.
Proof.
  intros Hr Hnul Eorg Ht Hsize Hroom id fresh Hid Hf1 Hf2.
  assert (∀ l m', spec (ListSinks org_id) m l m' →
    (max_cdc_sinks (o_quotas org) <=? as_u32 (Z.of_nat (length l))) = false) as Hcheck.
  { intros l m' [Hl _]. rewrite (listing_length _ _ _ Hl). fold (sink_count org_id m).
    apply Z.leb_gt. unfold as_u32. rewrite Z.mod_small; [lia|]. unfold sink_count in *. lia. }
  unfold create_sink. rewrite Ht.
  do 2 (step orc Hr Hs; [done|]; destruct Hs as [-> ->]; rewrite Eorg;
    step orc Hr Hs; [done|]; rewrite (Hcheck _ _ Hs); destruct Hs as [_ ->]).
  do 2 step_now orc. step orc Hr Hs; [by split; [|apply hex_nul_free]|].
  do 2 step_now orc. step orc Hr Hs'; [by split; [|apply hex_nul_free]|].
  assert (w_rpos w3 = w_rpos w) as Ep by congruence.
  assert (w_rpos w4 = w_rpos w + 8)%nat as Ep' by (cbn in *; congruence).
  cbn in Hs, Hs'. subst. do 4 eexists. split; [reflexivity|]. split; [exact Hr|].
  rewrite Ep, Ep', <-Hroom, !sink_count_insert; [lia|done|].
  cbn. rewrite lookup_insert_ne; [done|]. intros [= E]. by apply Hid.
Qed.
End Race.
