(* ===== verification/Requests.v ===== *)
(** Requests as calls of the tenant manager.

    Every route of orgs.rs, tokens.rs, sinks.rs and identity.rs answers a request
    by one call of the manager, or refuses it without one.  [performs] states this
    of a handler, and [manager_routes] proves it of the routes, with what is known
    of the call's arguments when the request decodes as its Rust types require. *)
From S2P Require Import Prelude Text Extern Models Errors Effects Spec Wp Crypto Manager Invariant ManagerInv Auth Enroll Cdc Watcher MeshIngest Formations Api Concurrency ConcurrencySpec Typing.
From Stdlib Require Import ZArith.

#[local] Open Scope Z_scope.

(** ** Requests that decode as typed *)
Section RequestOk.
Context `{AxumLib}.
Context `{Serde UpdateOrgRequest} `{Serde CreateTokenRequest} `{Serde CreatePolicyRuleRequest}.

(** No path segment has a NUL, and the numbers of a body that decodes fit the types
    of their fields. *)
Record request_ok (rq : Request) : Prop := {
  rq_path_ok : Forall nul_free (rq_path rq);
  rq_quotas_ok (b : UpdateOrgRequest) q :
    extract_json (rq_headers rq) (rq_body rq) = Ok b → uo_quotas b = Some q → quotas_typed q;
  rq_token_ok (b : CreateTokenRequest) :
    extract_json (rq_headers rq) (rq_body rq) = Ok b →
    opt u32 (ct_max_uses b) ∧ opt u64 (ct_expires_at b);
  rq_rule_ok (b : CreatePolicyRuleRequest) :
    extract_json (rq_headers rq) (rq_body rq) = Ok b →
    opt u32 (cr_permissions b) ∧ opt u32 (cr_priority b);
  rq_limit_ok q : extract_query (rq_query rq) = Ok q → opt u64 (aq_limit q);
}.
End RequestOk.

Lemma match_path_params P pattern path ps :
  match_path pattern path = Some ps → Forall P path → Forall P ps.
Proof.
  revert path ps; induction pattern as [|[s|] pattern IH]; intros [|x path] ps; cbn; try done.
  - intros [= <-] _. constructor.
  - case_decide; [|done]. intros Hm [_ Hp]%Forall_cons. by eapply IH.
  - destruct (is_empty x); [done|]. intros (qs & Hm & [= <-])%bind_Some [Hx Hp]%Forall_cons.
    constructor; [done|]. by eapply IH.
Qed.

(** ** Which route answered *)
Lemma find_method_Some m (es : list (method * endpoint)) e : find_method m es = Some e → (m, e) ∈ es.
Proof.
  induction es as [|[m' e'] es IH]; cbn; [done|]. case_decide as E.
  - intros [= ->]. rewrite E. left.
  - intros He. right. by apply IH.
Qed.

Lemma find_route_Some (rs : list route) rq h :
  find_route rs rq = Some h →
  ∃ r e ps, r ∈ rs ∧ (rq_method rq, e) ∈ r.2 ∧ match_path r.1 (rq_path rq) = Some ps ∧ h = e ps rq.
Proof.
  induction rs as [|[p es] rs IH]; cbn; [done|]. destruct (match_path p (rq_path rq)) as [ps|] eqn:Ep.
  - intros (e & He & [= <-])%bind_Some. exists (p, es), e, ps.
    split_and!; [left|by apply find_method_Some|done|done].
  - intros (r & e & ps & ? & ? & ? & ?)%IH. exists r, e, ps. split_and!; [by right|done..].
Qed.

(** ** Handlers that are calls *)
Section Performs.
Context `{HexLib} `{AeadLib} `{MeshLib} (mgr : TenantManager).

Definition performs (P : tenant_call → Prop) (h : handler) : Prop :=
  (∃ r, h = Ret r) ∨
  ∃ k A status (body : A → payload) err (c : M A),
    P k ∧ perform_call mgr k = forget c ∧ h = answer status body err c.

Lemma performs_answer P k {A} status (body : A → payload) err (c : M A) :
  P k → perform_call mgr k = forget c → performs P (answer status body err c).
Proof. intros. right. by exists k, A, status, body, err, c. Qed.
End Performs.

(** The call that a manager method is. *)
Ltac call_of c :=
  lazymatch c with
  | create_org ?a ?b => constr:(CallCreateOrg a b)
  | list_orgs => constr:(CallListOrgs)
  | get_org ?a => constr:(CallGetOrg a)
  | update_org ?a ?b ?q => constr:(CallUpdateOrg a b q)
  | delete_org ?a => constr:(CallDeleteOrg a)
  | create_formation _ ?a ?b ?p => constr:(CallCreateFormation a b p)
  | list_formations ?a => constr:(CallListFormations a)
  | get_formation ?a ?b => constr:(CallGetFormation a b)
  | delete_formation ?a ?b => constr:(CallDeleteFormation a b)
  | create_token ?a ?b ?l ?n ?e => constr:(CallCreateToken a b l n e)
  | list_tokens ?a ?b => constr:(CallListTokens a b)
  | get_token ?a ?b => constr:(CallGetToken a b)
  | revoke_token ?a ?b => constr:(CallRevokeToken a b)
  | delete_token ?a ?b => constr:(CallDeleteToken a b)
  | create_sink ?a ?s => constr:(CallCreateSink a s)
  | list_sinks ?a => constr:(CallListSinks a)
  | get_sink ?a ?b => constr:(CallGetSink a b)
  | toggle_sink ?a ?b ?e => constr:(CallToggleSink a b e)
  | delete_sink ?a ?b => constr:(CallDeleteSink a b)
  | create_idp ?a ?u ?i ?s => constr:(CallCreateIdp a u i s)
  | list_idps ?a => constr:(CallListIdps a)
  | get_idp ?a ?b => constr:(CallGetIdp a b)
  | toggle_idp ?a ?b ?e => constr:(CallToggleIdp a b e)
  | delete_idp ?a ?b => constr:(CallDeleteIdp a b)
  | create_policy_rule ?a ?k ?v ?t ?p ?pr => constr:(CallCreateRule a k v t p pr)
  | list_policy_rules ?a => constr:(CallListRules a)
  | delete_policy_rule ?a ?b => constr:(CallDeleteRule a b)
  | list_audit ?a ?b ?n => constr:(CallListAudit a b n)
  end.

Section Routes.
Context `{HexLib} `{AeadLib} `{MeshLib} `{HttpLib} `{AxumLib} `{Serde Value} `{Serde Map}.
Context `{Serde CreateOrgRequest} `{Serde UpdateOrgRequest} `{Serde CreateFormationRequest}
  `{Serde CreateTokenRequest} `{Serde CreateSinkRequest} `{Serde ToggleSinkRequest}
  `{Serde CreateIdpRequest} `{Serde ToggleIdpRequest} `{Serde CreatePolicyRuleRequest}
  `{Serde EnrollRequest}.
Context (mgr : TenantManager).

(** The organization a call names: the one of the path, or of the body of a
    request to create one. *)
Definition route_org (pattern : list segment) (m : method) (ps : list string) (rq : Request)
    (k : tenant_call) : Prop :=
  match pattern with
  | [] =>
      match m with
      | POST => ∃ b : CreateOrgRequest,
          extract_json (rq_headers rq) (rq_body rq) = Ok b ∧ k ≠ CallListOrgs ∧ call_org k = co_org_id b
      | _ => m = GET ∧ k = CallListOrgs
      end
  | _ => head pattern = Some Param ∧ k ≠ CallListOrgs ∧ head ps = Some (call_org k)
  end.
(** What is known of the call: its arguments are in range, it names the request's
    organization, and only the route that deletes organizations deletes one. *)
Definition route_call (pattern : list segment) (m : method) (ps : list string) (rq : Request)
    (k : tenant_call) : Prop :=
  (call_ok k ∧ call_typed k) ∧ route_org pattern m ps rq k ∧
  ∀ o, k = CallDeleteOrg o → pattern = [Param] ∧ m = DELETE ∧ ps = [o].

Ltac in_range :=
  split; [split|split; [first [by split_and!|by eexists]|by intros ? [= <-]]];
  cbn; unfold opt in *; try done; try assumption;
  repeat match goal with
  | H : Forall nul_free (_ :: _) |- _ => apply Forall_cons in H as [??]
  end; try assumption.
Ltac as_call :=
  unfold orgs.create_org, orgs.list_orgs, orgs.get_org, orgs.update_org, orgs.delete_org,
    orgs.create_formation, orgs.list_formations, orgs.get_formation, orgs.delete_formation,
    tokens.create_token, tokens.list_tokens, tokens.get_token, tokens.revoke_token,
    tokens.delete_token, sinks.create_sink, sinks.list_sinks, sinks.get_sink, sinks.toggle_sink,
    sinks.delete_sink, identity.create_idp, identity.list_idps, identity.get_idp,
    identity.toggle_idp, identity.delete_idp, identity.create_policy_rule,
    identity.list_policy_rules, identity.delete_policy_rule, identity.list_audit;
  lazymatch goal with
  | |- performs _ _ (answer _ _ _ ?c) =>
      let k := call_of c in apply (performs_answer _ _ k); [|reflexivity]
  end.

Lemma manager_routes :
  Forall (λ r : route, Forall (λ me, ∀ ps rq, Forall nul_free ps → request_ok rq →
      performs mgr (route_call r.1 me.1 ps rq) (me.2 ps rq)) r.2)
    (orgs_routes mgr ++ tokens_routes ++ sinks_routes ++ identity_routes).
Proof.
  unfold orgs_routes, tokens_routes, sinks_routes, identity_routes. cbn [app].
  repeat (apply Forall_cons; split); try apply Forall_nil_2; cbn [snd];
    repeat (apply Forall_cons; split); try apply Forall_nil_2; cbn [fst snd]; intros ps rq Hps Hrq.
  all: unfold path0, path1, path2, with_json, no_body; destruct ps as [|a [|b [|c ps]]];
    try (left; eexists; reflexivity).
  all: try (destruct (extract_json _ _) as [req|e] eqn:Ereq; [|left; eexists; reflexivity];
    cbn [lift mbind pbind]).
  all: try (destruct (extract_query _) as [q|e] eqn:Eq; [|left; eexists; reflexivity];
    cbn [lift mbind pbind]).
  all: as_call; in_range.
  - destruct (uo_quotas req) eqn:Eq; [by eapply rq_quotas_ok|done].
  - destruct (rq_token_ok _ Hrq _ Ereq) as [Hm _]. by destruct (ct_max_uses req).
  - by apply (rq_token_ok _ Hrq).
  - destruct (rq_rule_ok _ Hrq _ Ereq) as [Hp Hr]. unfold u32 in *.
    destruct (cr_permissions req), (cr_priority req); cbn in *; unfold default_priority; lia.
  - pose proof (rq_limit_ok _ Hrq _ Eq) as Hl. unfold u64 in *.
    destruct (aq_limit q); cbn in *; unfold default_limit; lia.
Qed.
End Routes.
