(* ===== verification/System.v ===== *)
(** The gateway at work: everything that runs beside everything else.

    A [task] is a request through the assembled router, a watcher on its stream, a
    poller of a remote broker, or the key migration; [task_prog] is its program.
    The theorems are about pools of tasks under every schedule of their storage
    calls, on every backend that keeps its contract. *)
From S2P Require Import Prelude Text Extern Models Errors Effects Spec Wp Config Crypto Manager Invariant ManagerInv Auth Enroll EnrollSpec Cdc CdcSpec Watcher Migrate MeshIngest MeshIngestSpec Formations Api ApiSpec Concurrency ConcurrencySpec Calls Typing Requests.
From Stdlib Require Import ZArith.

#[local] Open Scope Z_scope.

(** ** Tasks *)
Inductive task :=
| ServeRequest (mesh : MeshStateRegistry) (rq : Request)
| WatchFormation (org_id app_id : string) (stream : list ChangeEvent)
| PollBroker (st : RemoteBrokerState) (turns : nat)
| Migration (dry_run : bool).

Definition discard {A} (p : prog A) : prog unit := pbind p (λ _, Ret tt).

Section Tasks.
Context `{HexLib} `{AeadLib} `{MeshLib} `{HttpLib} `{AxumLib} `{StdHasher} `{HashIter}.
Context `{Serde Value} `{Serde Map}.
Context `{Serde CreateOrgRequest} `{Serde UpdateOrgRequest} `{Serde CreateFormationRequest}
  `{Serde CreateTokenRequest} `{Serde CreateSinkRequest} `{Serde ToggleSinkRequest}
  `{Serde CreateIdpRequest} `{Serde ToggleIdpRequest} `{Serde CreatePolicyRuleRequest}
  `{Serde EnrollRequest} `{Serde CdcEvent} `{Serde cdc_test.TestEventPayload}.
Context `{Serde NodeInfoDto} `{Serde TopologyDto} `{Serde ReadinessDto} `{Serde PeersEnvelope}
  `{Serde DocumentsEnvelope}.
Context (oidc loadtest : bool) (mgr : TenantManager) (engine : CdcEngine).
Context (ui_dir admin_token : option string).

(** The polling loop, for some turns. *)
Fixpoint poll (turns : nat) (st : RemoteBrokerState) : prog RemoteBrokerState :=
  match turns with
  | O => Ret st
  | S turns => try! st := refresh_tick st in poll turns st
  end.

Definition task_prog (t : task) : prog unit :=
  match t with
  | ServeRequest mesh rq =>
      match router_with_mesh oidc loadtest mgr engine ui_dir admin_token mesh rq with
      | Some (Handler h) => discard h
      | Some (TestEvent h) => discard h
      | Some (StaticFile _ _) | None => Ret tt
      end
  | WatchFormation org_id app_id stream => watch_loop engine org_id app_id stream
  | PollBroker st turns => discard (poll turns st)
  | Migration dry_run => discard (migrate_store (key_provider mgr) dry_run)
  end.

Definition task_ok (t : task) : Prop :=
  match t with
  | ServeRequest _ rq => request_ok rq
  | WatchFormation org_id app_id _ => nul_free org_id ∧ nul_free app_id
  | _ => True
  end.

(** The organization of a request: the one of its path, or of its body when it
    creates one. *)
Definition request_org (rq : Request) : option string :=
  match rq_path rq with
  | "orgs" :: o :: _ => Some o
  | ["orgs"] =>
      match rq_method rq, extract_json (A:=CreateOrgRequest) (rq_headers rq) (rq_body rq) with
      | POST, Ok b => Some (co_org_id b)
      | _, _ => None
      end
  | _ => None
  end%string.

(** What a task has the rights to do.  A request, a watcher and a poller work for one
    organization; GET /orgs lists them all, and so does the migration, which writes
    the genesis records of all. *)
Definition task_rights (t : task) : rights :=
  match t with
  | ServeRequest _ rq =>
      {| may_touch o := request_org rq = Some o;
         may_list := rq_method rq = GET ∧ rq_path rq = ["orgs"]%string;
         may_delete o := rq_method rq = DELETE ∧ rq_path rq = ["orgs"; o]%string |}
  | WatchFormation org_id _ _ =>
      {| may_touch o := o = org_id; may_list := False; may_delete _ := False |}
  | PollBroker st _ =>
      {| may_touch o := o = mb_org_id (rb_mapping st); may_list := False; may_delete _ := False |}
  | Migration _ => {| may_touch _ := True; may_list := True; may_delete _ := False |}
  end.

(** ** The invariant of rows, and the calls that tasks make *)
(** [rt] is what all that runs meanwhile may do. *)
Context (rt : rights).
Definition rows_ok (m : db) : Prop := rows_wf m ∧ typed m.
Abbreviation gw := (gwp rows_ok (allowed mgr rt)).
Abbreviation safe p := (gw p (λ _, True)).

Lemma gw_pbind {A B} (p : prog A) (f : A → prog B) Q :
  safe p → (∀ a, gw (f a) Q) → gw (pbind p f) Q.
Proof. intros Hp Hf. apply gwp_pbind. eapply gwp_mono; [exact Hp|]. auto. Qed.
Lemma gw_mbind {E A B} (p : prog (result E A)) (f : A → prog (result E B)) Q :
  safe p → (∀ a, gw (f a) Q) → (∀ e, Q (Err e)) → gw (mbind p f) Q.
Proof. intros Hp Hf He. apply gw_pbind; [done|]. intros []; [done|apply He]. Qed.
Lemma safe_pbind {A B} (p : prog A) (f : A → prog B) : safe p → (∀ a, safe (f a)) → safe (pbind p f).
Proof. apply gw_pbind. Qed.
Lemma safe_mbind {E A B} (p : prog (result E A)) (f : A → prog (result E B)) :
  safe p → (∀ a, safe (f a)) → safe (mbind p f).
Proof. intros. by apply gw_mbind. Qed.
Lemma safe_unbind {A B} (p : prog A) (f : A → prog B) : safe (pbind p f) → safe p.
Proof. intros Hp. eapply gwp_mono; [by eapply gwp_unbind|done]. Qed.
Lemma safe_answer {A} status (body : A → payload) err (c : M A) :
  safe (forget c) → safe (answer status body err c).
Proof. intros Hc. apply safe_pbind; [by eapply safe_unbind|done]. Qed.
Lemma safe_no_store {A} (p : prog A) : no_store p → safe p.
Proof. intros Hp. by apply gwp_no_store. Qed.

Lemma ok_write {R} (op : StoreOp R) Q :
  op_row op → op_typed op → allowed mgr rt R op → (∀ r, Q (Ok r)) → (∀ e, Q (Err e)) →
  gw (call op) Q.
Proof.
  intros Hop Ht Ha HQ He. apply gwp_call; [done|]. apply swp_call; [by intros; apply Hop| |done].
  intros m r m' [Hr Hm] Hs. split; [split; [by eapply spec_rows_wf|by eapply spec_typed]|done].
Qed.
Lemma ok_read {R} (op : StoreOp R) Q :
  op_ok op → is_read op → allowed mgr rt R op →
  (∀ m r, rows_ok m → spec op m r m → Q (Ok r)) → (∀ e, Q (Err e)) → gw (call op) Q.
Proof.
  intros Hop Hr Ha HQ He. apply gwp_call; [done|]. apply swp_call; [done| |done].
  intros m r m' HI Hs. pose proof (spec_read op _ _ _ Hr Hs) as ->. eauto.
Qed.

Context {HL : HexLaws} (Hkp : KeyProviderLaws (key_provider mgr)).

(** *** Requests *)
Lemma call_safe c :
  call_ok c → call_typed c → call_allowed rt c → safe (perform_call mgr c).
Proof.
  intros Hok Ht Ha. eapply gwp_mono; [apply gwp_join|done].
  - apply swp_twp; [by apply perform_call_safe|by apply perform_call_typed].
  - apply (under_weaken rows_wf); [by intros m []|]. by apply perform_call_under.
Qed.
Lemma op_safe {A} c (p : M A) :
  perform_call mgr c = forget p → call_ok c → call_typed c → call_allowed rt c → safe p.
Proof.
  intros Ec ? ? Hc. apply (safe_unbind p (λ _, Ret tt)). change (pbind p _) with (forget p).
  rewrite <-Ec. by apply call_safe.
Qed.
Lemma performs_safe P h :
  performs mgr P h →
  (∀ k, P k → (call_ok k ∧ call_typed k) ∧ call_allowed rt k) → safe h.
Proof.
  intros [[r ->]|(k & A & status & body & err & c & Hk & Ec & ->)] HP; [done|].
  apply safe_answer. rewrite <-Ec. apply HP in Hk as [[??]?]. by apply call_safe.
Qed.

Lemma get_org_ok o (Q : Result Organization → Prop) :
  may_touch rt o → (∀ org, nul_free o → org_typed org → Q (Ok org)) → (∀ e, Q (Err e)) →
  gw (get_org o) Q.
Proof.
  intros Ho HQ He. unfold get_org. apply gwp_mbind, ok_read; [done|done|done| |done].
  intros m r [Hr Ht] [-> _]. destruct (d_orgs m !! o) eqn:E; cbn; [|done].
  apply HQ; [|by eapply ty_orgs]. destruct (rw_orgs _ Hr _ _ E). by apply valid_identifier_nul_free.
Qed.
Lemma get_formation_ok o a (Q : Result FormationConfig → Prop) :
  may_touch rt o → (∀ f, nul_free o → Q (Ok f)) → (∀ e, Q (Err e)) → gw (get_formation o a) Q.
Proof.
  intros Ho HQ He. unfold get_formation. apply gwp_mbind, ok_read; [done|done|done| |done].
  intros m r [Hr _] [-> _]. destruct (d_formations m !! (o, a)) eqn:E; cbn; [|done].
  apply HQ. by destruct (rw_formations _ Hr _ _ _ E) as (? & ? & ?).
Qed.

Lemma load_genesis_safe o a : may_touch rt o → safe (load_genesis mgr o a).
Proof. intros. by apply (op_safe (CallLoadGenesis o a)). Qed.
Lemma list_sinks_safe o : may_touch rt o → safe (list_sinks o).
Proof. intros. by apply (op_safe (CallListSinks o)). Qed.

Lemma view_safe {A} (body : A → payload) c : safe c → safe (view body c).
Proof. intros Hc. by apply safe_mbind. Qed.

(** The read-only views of a formation. *)
Lemma list_peers_safe mesh o a : may_touch rt o → safe (list_peers mesh o a).
Proof.
  intros Hrt. apply gwp_mbind, gwp_map_err, get_formation_ok; [done| |done]. intros f _. cbn [map_err].
  by destruct (registry.get o a mesh).
Qed.
Lemma list_documents_safe mesh o a : may_touch rt o → safe (list_documents mesh o a).
Proof.
  intros Hrt. apply gwp_mbind, gwp_map_err, get_formation_ok; [done| |done]. intros f _. cbn [map_err].
  by destruct (registry.get o a mesh).
Qed.
Lemma list_certificates_safe o a : may_touch rt o → safe (list_certificates mgr o a).
Proof.
  intros Hrt. apply gwp_mbind, gwp_map_err, get_formation_ok; [done| |done]. intros f Ho. cbn [map_err].
  apply safe_mbind; [apply safe_pbind; [by apply load_genesis_safe|done]|]. intros g.
  apply safe_mbind; [|done]. apply safe_pbind; [|done].
  by apply (op_safe (CallListAudit o (Some a) 1000)).
Qed.

(** *** Enrollment *)
Lemma evaluate_policy_typed rules claims :
  Forall rule_typed rules → decision_typed (evaluate_policy rules claims).
Proof.
  intros Hr. destruct (evaluate_policy_cases rules claims) as [(i & r & Hi & _ & -> & _)|[_ ->]].
  - by destruct (Forall_lookup_1 _ _ _ _ Hr Hi).
  - cbn. unfold u32. lia.
Qed.
Lemma list_policy_rules_ok o (Q : Result (list PolicyRule) → Prop) :
  may_touch rt o → (∀ rules, Forall rule_typed rules → Q (Ok rules)) → (∀ e, Q (Err e)) →
  gw (list_policy_rules o) Q.
Proof.
  intros Hrt HQ He. unfold list_policy_rules. apply gwp_mbind, get_org_ok; [done| |done]. intros org _ _.
  apply ok_read; [done|done|done| |done]. intros m rules [_ Ht] [Hl _]. apply HQ, Forall_forall.
  intros r Hr. destruct (listing_elem _ _ _ _ Hl Hr) as (k & Hk & _). by eapply ty_rules.
Qed.

Definition decided (r : result ApiError (EnrollmentDecision * string * string)) : Prop :=
  match r with Ok (d, _, _) => decision_typed d | Err _ => True end.

Lemma endpoint_typed : decision_typed (Approved Endpoint 0).
Proof. cbn. unfold u32. lia. Qed.

Lemma decide_controlled_safe o a headers body :
  may_touch rt o → gw (decide_controlled o a headers body) decided.
Proof.
  intros Hrt. unfold decide_controlled. apply gwp_mbind, gwp_ret.
  destruct (extract_bearer headers body) as [b|]; cbn [ok_or]; [|done].
  destruct (starts_with b "peat_").
  { apply gwp_pbind. eapply gwp_mono; [by apply (op_safe (CallConsumeToken o a b))|].
    intros [tok|e] _; [apply endpoint_typed|done]. }
  apply gwp_mbind, gwp_map_err. eapply gwp_mono; [by apply (op_safe (CallListIdps o))|].
  intros [idps|e] _; [|done]. cbn [map_err]. apply gwp_mbind, gwp_ret.
  destruct (head _) as [idp|]; cbn [ok_or]; [|done].
  apply gwp_mbind, gwp_map_err, gwp_no_store; [apply introspect_no_store|]. intros [claims|e]; [|done].
  cbn [map_err]. apply gwp_mbind, gwp_map_err, list_policy_rules_ok; [done| |done]. intros rules Hr.
  by apply evaluate_policy_typed.
Qed.

Lemma certificate_safe o a d body : may_touch rt o → safe (try_issue_certificate mgr o a d body).
Proof.
  intros Hrt. unfold try_issue_certificate. repeat (case_match; try done).
  apply safe_pbind; [by apply load_genesis_safe|]. by intros [].
Qed.

Lemma append_audit_safe e :
  may_touch rt (a_org_id e) → nul_free (a_org_id e) → nul_free (a_audit_id e) → audit_typed e →
  safe (append_audit e).
Proof. intros Hrt Ho Ha Ht. apply ok_write; try done. by split_and!; destruct Ht. Qed.

Lemma enroll_safe o a headers body : may_touch rt o → safe (enroll mgr o a headers body).
Proof.
  intros Hrt. unfold enroll. apply gwp_mbind, gwp_map_err, get_org_ok; [done| |done].
  intros org Ho _. cbn [map_err].
  apply gwp_mbind, gwp_map_err, get_formation_ok; [done| |done]. intros f _. cbn [map_err].
  apply safe_mbind; [done|]. intros _. apply gwp_pbind, gwp_now_ms. intros t.
  apply safe_mbind; [apply safe_pbind; [|done]; by apply (op_safe (CallCountRecent o (saturating_sub (wrap_u64 t) 3600000)))|].
  intros recent. case_match; [done|]. case_bool_decide; [done|]. apply gwp_mbind.
  assert (gw (match f_enrollment_policy f with
            | Open => ok (Approved Endpoint 0, "none"%string, "anonymous"%string)
            | _ => decide_controlled o a headers body end) decided) as Hd.
  { destruct (f_enrollment_policy f); [apply endpoint_typed|by apply decide_controlled_safe..]. }
  eapply gwp_mono; [exact Hd|]. clear Hd. intros [[[d i] s]|e] Hd; [|done]. cbn [decided] in Hd.
  apply gwp_pbind, gwp_pbind, gwp_random_bytes. intros buf _. apply gwp_ret.
  apply gwp_pbind, gwp_pbind, gwp_now_ms. intros now. apply gwp_ret.
  apply safe_pbind.
  - apply append_audit_safe; cbn; [done|done|apply hex_nul_free|]. split; [done|]. apply wrap_u64_u64.
  - intros _. destruct d; [|done]. apply safe_pbind; [by apply certificate_safe|]. by intros [[]].
Qed.

(** *** Change events *)
Lemma publish_safe eng event : may_touch rt (e_org_id event) → safe (publish eng event).
Proof.
  intros Hrt. apply safe_mbind; [by apply list_sinks_safe|]. intros sinks. apply safe_pbind; [|done].
  by eapply safe_no_store, only_net_no_store, publish_all_only_net.
Qed.
Lemma publish_test_event_safe o p :
  may_touch rt o → safe (cdc_test.publish_test_event engine o p).
Proof.
  intros Hrt. apply gwp_pbind, get_org_ok; [done| |done]. intros org _ _. apply gwp_pbind, gwp_random_bytes.
  intros buf _. apply gwp_pbind, gwp_now_ms. intros t.
  apply safe_pbind; [by apply publish_safe|]. by intros [].
Qed.

Lemma write_safe {R} (op : StoreOp R) :
  op_row op → op_typed op → allowed mgr rt R op → safe (call op).
Proof. intros. by apply ok_write. Qed.

Lemma publish_and_advance_safe ev :
  may_touch rt (e_org_id ev) → nul_free (e_org_id ev) → nul_free (e_app_id ev) →
  safe (publish_and_advance engine ev).
Proof.
  intros Hrt Ho Ha. apply safe_pbind; [by apply publish_safe|]. intros [u|e]; [|done].
  apply safe_pbind; [|done]. by apply write_safe.
Qed.
Lemma watch_loop_safe o a stream :
  may_touch rt o → nul_free o → nul_free a → safe (watch_loop engine o a stream).
Proof.
  intros Hrt Ho Ha. induction stream as [|ev stream IH]; cbn [watch_loop]; [done|].
  apply safe_pbind; [|done]. destruct ev as [d|id|ds]; cbn [handle_change]; [| |done].
  - apply safe_pbind; [by apply write_safe|]. intros c.
    destruct (match c with Ok (Some _) => _ | _ => _ end); [done|]. by apply publish_and_advance_safe.
  - intros t. by apply publish_and_advance_safe.
Qed.

(** *** Polling *)
Lemma publish_docs_safe eng mapping ts c old docs :
  may_touch rt (mb_org_id mapping) → safe (publish_docs eng mapping ts c old docs).
Proof.
  intros Hrt. induction docs as [|doc docs IH]; cbn [publish_docs]; [done|].
  destruct (document_id doc); [|done]. case_bool_decide; [done|].
  apply safe_pbind; [by apply publish_safe|done].
Qed.
Lemma publish_collections_safe eng mapping ts old cs :
  may_touch rt (mb_org_id mapping) → safe (publish_collections eng mapping ts old cs).
Proof.
  intros Hrt. induction cs as [|[c docs] cs IH]; cbn [publish_collections]; [done|].
  apply safe_pbind; [by apply publish_docs_safe|done].
Qed.
Lemma get_json_safe {T} `{Serde T} mapping path : safe (get_json (T:=T) mapping path).
Proof. eapply safe_no_store, only_net_no_store, get_json_only_net. Qed.
Lemma refresh_once_safe st :
  may_touch rt (mb_org_id (rb_mapping st)) →
  gw (refresh_once st) (λ r, match r with Ok st' => rb_mapping st' = rb_mapping st | Err _ => True end).
Proof.
  intros Hrt. unfold refresh_once.
  apply gw_mbind; [apply get_json_safe|intros node|done].
  apply gw_mbind; [apply get_json_safe|intros topo|done].
  apply gw_pbind; [apply get_json_safe|intros ready].
  apply gw_mbind; [apply get_json_safe|intros peers|done]. apply gw_pbind.
  { eapply safe_no_store, only_net_no_store, fetch_documents_only_net. }
  intros docs. apply gw_pbind; [done|intros now]. apply gw_pbind; [|done].
  destruct (rb_cdc_engine st); [by apply publish_collections_safe|done].
Qed.
Lemma refresh_tick_safe st :
  may_touch rt (mb_org_id (rb_mapping st)) →
  gw (refresh_tick st) (λ st', rb_mapping st' = rb_mapping st).
Proof.
  intros Hrt. apply gwp_pbind. eapply gwp_mono; [by apply refresh_once_safe|]. by intros [].
Qed.
Lemma poll_safe turns st : may_touch rt (mb_org_id (rb_mapping st)) → safe (poll turns st).
Proof.
  revert st; induction turns as [|turns IH]; intros st Hrt; cbn [poll]; [done|].
  apply gwp_pbind. eapply gwp_mono; [by apply refresh_tick_safe|]. intros st' E. apply IH. by rewrite E.
Qed.

(** *** The migration *)
Lemma seal_safe raw :
  gw (seal (key_provider mgr) raw) (λ r, match r with Ok b => is_envelope b = true | Err _ => True end).
Proof.
  eapply gwp_mono; [apply gwp_join|].
  - by apply swp_no_store with (Q := λ _, True); [apply seal_no_store|].
  - by apply under_only, (calls_seal _ _ _ (λ r, match r with Ok b => is_envelope b = true | Err _ => True end)).
  - by intros r [_ ?].
Qed.
Lemma migrate_formation_safe dry o f s :
  may_touch rt o → nul_free o → nul_free (f_app_id f) → safe (migrate_formation (key_provider mgr) dry o f s).
Proof.
  intros Hrt Ho Ha. unfold migrate_formation. apply gwp_mbind, ok_read; [done|done|done| |done].
  intros m [raw|] _ _; [|done]. case_match; [done|]. destruct dry; [done|].
  apply gwp_mbind. eapply gwp_mono; [by apply seal_safe|]. intros [sealed|e] Hs; [|done].
  apply safe_mbind; [by apply safe_no_store, open_no_store|intros opened].
  apply safe_mbind; [done|intros plain]. case_bool_decide; [done|].
  apply safe_mbind; [|done]. apply write_safe; [done..|]. split; [done|by intros _].
Qed.
Lemma migrate_formations_safe dry o fs s :
  may_touch rt o → nul_free o → Forall (λ f, nul_free (f_app_id f)) fs →
  safe (migrate_formations (key_provider mgr) dry o fs s).
Proof.
  intros Hrt Ho Hfs. revert s; induction Hfs as [|f fs Hf _ IH]; intros s; cbn [migrate_formations]; [done|].
  apply safe_mbind; [by apply migrate_formation_safe|done].
Qed.
Lemma migrate_orgs_safe dry orgs s :
  (∀ o, may_touch rt o) → Forall (λ o, nul_free (o_org_id o)) orgs →
  safe (migrate_orgs (key_provider mgr) dry orgs s).
Proof.
  intros Hrt Hos. revert s; induction Hos as [|o os Ho _ IH]; intros s; cbn [migrate_orgs]; [done|].
  apply gwp_mbind, ok_read; [done|done|by split; [apply Hrt|]| |done]. intros m fs [Hr _] [Hl _].
  apply safe_mbind; [|done]. apply migrate_formations_safe; [done..|]. apply Forall_forall. intros f Hf.
  destruct (listing_elem _ _ _ _ Hl Hf) as ([o' a] & Hk & _).
  destruct (rw_formations _ Hr _ _ _ Hk) as (-> & Ha & _). by apply valid_identifier_nul_free.
Qed.
Lemma migrate_store_safe dry :
  (∀ o, may_touch rt o) → may_list rt → safe (migrate_store (key_provider mgr) dry).
Proof.
  intros Hrt Hl'. apply gwp_mbind, ok_read; [done|done|done| |done]. intros m orgs [Hr _] [Hl _].
  apply migrate_orgs_safe, Forall_forall; [done|]. intros org Ho. rewrite Hl in Ho.
  apply list_elem_of_fmap in Ho as ([o org'] & -> & Hin). apply elem_of_map_to_list in Hin.
  destruct (rw_orgs _ Hr _ _ Hin) as [E Hv]. cbn. rewrite E. by apply valid_identifier_nul_free.
Qed.

(** *** Every task *)
Lemma org_param_path pattern rq ps o :
  match_path (Lit "orgs" :: Param :: pattern) (rq_path rq) = Some ps → head ps = Some o →
  request_org rq = Some o.
Proof.
  unfold request_org. destruct (rq_path rq) as [|p path]; cbn; [done|]. case_decide; [|done]. subst p.
  destruct path as [|x path]; [done|]. destruct (is_empty x); [done|].
  by intros (qs & _ & [= <-])%bind_Some [= ->].
Qed.
Lemma route_call_allowed mesh rq pattern ps k :
  rights_le (task_rights (ServeRequest mesh rq)) rt →
  match_path (Lit "orgs" :: pattern) (rq_path rq) = Some ps →
  route_call pattern (rq_method rq) ps rq k → call_allowed rt k.
Proof.
  intros (Ht & Hl & Hd) Hm (_ & Hk & Hdel). unfold task_rights, request_org in *. cbn in Ht, Hl, Hd, Hm.
  destruct (rq_path rq) as [|p path]; [done|]. case_decide; [|done]. subst p.
  destruct pattern as [|[l|] pattern]; cbn in Hk, Hm.
  - destruct path; [|done]. destruct (rq_method rq).
    2: { destruct Hk as (b & Eb & Hne & Hc). rewrite Eb in Ht.
         destruct k; try done; try (apply Ht; cbn in *; congruence). by destruct (Hdel _ eq_refl). }
    all: destruct Hk as [? ->]; try done. by apply Hl.
  - by destruct Hk.
  - destruct Hk as (_ & Hne & Hk). destruct path as [|x path]; [done|]. destruct (is_empty x); [done|].
    apply bind_Some in Hm as (qs & Hqs & [= <-]). injection Hk as Hk.
    assert (may_touch rt (call_org k)) as Hkt by (apply Ht; by rewrite <-Hk).
    destruct k; try done. split; [done|]. destruct (Hdel _ eq_refl) as ([= ->] & Em & [= -> ->]).
    apply Hd. by destruct path.
Qed.
Lemma admin_routes_safe mesh rq h :
  request_ok rq → rights_le (task_rights (ServeRequest mesh rq)) rt →
  find_route (admin_routes mgr mesh) rq = Some h → safe h.
Proof.
  intros Hrq Hd (r & e & ps & Hr & He & Hm & ->)%find_route_Some.
  assert (Forall nul_free ps) as Hps by (eapply match_path_params; [done|by apply rq_path_ok]).
  unfold admin_routes, nest in Hr. rewrite <-!fmap_app in Hr.
  apply list_elem_of_fmap in Hr as (r0 & -> & Hr). cbn [fst snd] in He, Hm.
  rewrite !app_assoc in Hr. apply elem_of_app in Hr as [Hr|Hr].
  - pose proof (manager_routes mgr) as Hall. rewrite <-!app_assoc in Hr.
    rewrite Forall_forall in Hall. specialize (Hall _ Hr). rewrite Forall_forall in Hall.
    specialize (Hall _ He ps rq Hps Hrq). eapply performs_safe; [exact Hall|].
    intros k Hk. split; [apply Hk|]. by eapply route_call_allowed.
  - assert (∀ o, head ps = Some o → may_touch rt o) as Ho.
    { intros o Ho. apply Hd. cbn. unfold formations_routes in Hr.
      repeat (apply elem_of_cons in Hr as [->|Hr]; [by eapply org_param_path|]).
      by apply elem_of_nil in Hr. }
    unfold formations_routes in Hr.
    repeat (apply elem_of_cons in Hr as [->|Hr]; [apply list_elem_of_singleton in He as [= _ ->];
      unfold path2, no_body; destruct ps as [|? [|? []]]; try done; specialize (Ho _ eq_refl);
      apply view_safe;
      first [by apply list_peers_safe|by apply list_documents_safe|by apply list_certificates_safe]|]).
    by apply elem_of_nil in Hr.
Qed.
Lemma public_routes_safe mesh rq h :
  request_ok rq → rights_le (task_rights (ServeRequest mesh rq)) rt →
  find_route (public_routes mgr oidc) rq = Some h → safe h.
Proof.
  intros Hrq Hd (r & e & ps & Hr & He & Hm & ->)%find_route_Some.
  unfold public_routes in Hr. apply elem_of_app in Hr as [Hr|Hr].
  - apply list_elem_of_fmap in Hr as (r0 & -> & Hr). unfold enroll_routes in Hr.
    destruct oidc; [|by apply elem_of_nil in Hr]. apply list_elem_of_singleton in Hr as ->.
    apply list_elem_of_singleton in He as [= _ ->]. cbn [fst] in Hm.
    unfold path2. destruct ps as [|o [|? []]]; try done. apply view_safe, enroll_safe.
    apply Hd. by eapply org_param_path.
  - unfold health_routes in Hr.
    repeat (apply elem_of_cons in Hr as [->|Hr];
      [apply list_elem_of_singleton in He as [= _ ->]; by destruct ps|]).
    by apply elem_of_nil in Hr.
Qed.
Lemma serve_safe mesh rq h :
  request_ok rq → rights_le (task_rights (ServeRequest mesh rq)) rt →
  serve mgr mesh oidc admin_token rq = Some h → safe h.
Proof.
  intros Hrq Hd. unfold serve. destruct (find_route (admin_routes mgr mesh) rq) as [h'|] eqn:E.
  - intros [= <-]. apply safe_mbind; [|by intros []]. unfold require_admin_token.
    assert (safe h') as Hh by (by eapply admin_routes_safe).
    destruct admin_token; [|by apply safe_pbind].
    repeat (case_match; try done). by apply safe_pbind.
  - by eapply public_routes_safe.
Qed.
Lemma task_safe t : task_ok t → rights_le (task_rights t) rt → safe (task_prog t).
Proof.
  intros Ht Hd. revert Ht. destruct t as [mesh rq|o a stream|st turns|dry]; cbn [task_ok task_prog].
  - intros Hrq. unfold router_with_mesh, app_authenticated_with_mesh.
    destruct (serve mgr mesh oidc admin_token rq) as [h|] eqn:E.
    { apply safe_pbind; [by eapply serve_safe|done]. }
    destruct loadtest; [|by repeat case_match]. destruct (cdc_test_router engine rq) as [h|] eqn:Er;
      [|by repeat case_match].
    apply safe_pbind; [|done]. revert Er. unfold cdc_test_router.
    destruct (match_path _ _) as [[|o []]|] eqn:Em; try done. destruct (rq_method rq); try done.
    intros <-%(inj Some). apply safe_mbind; [done|]. intros p.
    apply safe_pbind; [apply publish_test_event_safe|done].
    apply Hd. by eapply (org_param_path _ _ _ _ Em).
  - intros [Ho Ha]. apply watch_loop_safe; [by apply Hd|done..].
  - intros _. apply safe_pbind; [by apply poll_safe, Hd|done].
  - intros _. apply safe_pbind; [|done]. by apply migrate_store_safe; [intros o|]; apply Hd.
Qed.


(** ** What the calls keep *)
(** A genesis record is an envelope, or was there before. *)
Definition sealed_since (m m' : db) : Prop :=
  encrypt_enabled mgr = true →
  ∀ k b, d_genesis m' !! k = Some b → is_envelope b = true ∨ d_genesis m !! k = Some b.

Lemma sealed_step m m' : db_step (allowed mgr rt) m m' → sealed_since m m'.
Proof.
  intros (R & op & r & [_ Hop] & Hs) He k b Hb.
  destruct op; cbn in Hop, Hs; destruct_and?; destruct_or?; destruct_and?; subst; try (by right);
    cbn in Hb.
  - apply map_lookup_filter_Some in Hb as [Hb _]. by right.
  - apply lookup_insert_Some in Hb as [[_ <-]|[_ Hb]]; [left; by apply Hop|by right].
  - apply lookup_delete_Some in Hb as [_ Hb]. by right.
Qed.

Lemma sealed_steps m m' : rtc (db_step (allowed mgr rt)) m m' → sealed_since m m'.
Proof.
  intros Hs He. induction Hs as [m|m m1 m' Hm _ IH]; [by right|]. intros k b Hb.
  destruct (IH k b Hb) as [?|Hb1]; [by left|]. by apply (sealed_step m m1 Hm He).
Qed.

End Tasks.

(** ** The gateway, under every schedule *)
Section Gateway.
Context `{StorageSpec St rep} `{HexLaws} `{AeadLib} `{MeshLib} `{HttpLib} `{AxumLib} `{StdHasher}
  `{HashIter}.
Context `{Serde Value} `{Serde Map}.
Context `{Serde CreateOrgRequest} `{Serde UpdateOrgRequest} `{Serde CreateFormationRequest}
  `{Serde CreateTokenRequest} `{Serde CreateSinkRequest} `{Serde ToggleSinkRequest}
  `{Serde CreateIdpRequest} `{Serde ToggleIdpRequest} `{Serde CreatePolicyRuleRequest}
  `{Serde EnrollRequest} `{Serde CdcEvent} `{Serde cdc_test.TestEventPayload}.
Context `{Serde NodeInfoDto} `{Serde TopologyDto} `{Serde ReadinessDto} `{Serde PeersEnvelope}
  `{Serde DocumentsEnvelope}.
Context (oidc loadtest : bool) (mgr : TenantManager) (engine : CdcEngine).
Context (ui_dir admin_token : option string) (orc : oracle).
Context (Hkp : KeyProviderLaws (key_provider mgr)).

Abbreviation start ts :=
  (task_prog oidc loadtest mgr engine ui_dir admin_token <$> ts).
(** The rights of a pool: those of its tasks. *)
Definition pool_rights (ts : list task) : rights := {|
  may_touch o := ∃ t, t ∈ ts ∧ may_touch (task_rights t) o;
  may_list := ∃ t, t ∈ ts ∧ may_list (task_rights t);
  may_delete o := ∃ t, t ∈ ts ∧ may_delete (task_rights t) o |}.

Lemma tasks_safe ts :
  Forall task_ok ts →
  Forall (λ p, gwp rows_ok (allowed mgr (pool_rights ts)) p (λ _, True)) (start ts).
Proof.
  intros Hts. apply Forall_fmap, Forall_forall. intros t Ht. rewrite Forall_forall in Hts.
  apply task_safe; [typeclasses eauto|done|by apply Hts|].
  split_and!; [intros o Ho|intros Hl|intros o Ho]; by exists t.
Qed.

Lemma tasks_interleave ts schedule (w : world St) m :
  Forall task_ok ts → rep (w_store w) m → rows_wf m → typed m →
  ∃ m', rep (w_store (interleave orc schedule (start ts) w).2) m' ∧ rows_ok m' ∧
        rtc (db_step (allowed mgr (pool_rights ts))) m m'.
Proof.
  intros Hts Hr Hm Ht.
  destruct (interleave_gwp rows_ok _ orc _ schedule (start ts) w m Hr (conj Hm Ht) (tasks_safe ts Hts))
    as (_ & m' & Hr' & Hok & Hs). by exists m'.
Qed.

(** C6: Whatever the gateway is asked to do at once (by requests whose decoded
    path segments have no NUL and whose numbers fit their fields, on contents that are
    well formed), at every moment every row in storage is under its own key and
    validated, and with encryption on every genesis record is a sealed envelope or is
    one that was there, byte for byte, before: nothing writes a genesis in the clear.
    *)
Theorem gateway_invariant ts schedule (w : world St) m :
  Forall task_ok ts → rep (w_store w) m → rows_wf m → typed m →
  ∃ m', rep (w_store (interleave orc schedule (start ts) w).2) m' ∧ rows_wf m' ∧
        (encrypt_enabled mgr = true →
         ∀ o a b, d_genesis m' !! (o, a) = Some b →
           is_envelope b = true ∨ d_genesis m !! (o, a) = Some b).
Proof.
  intros Hts Hr Hm Ht. destruct (tasks_interleave ts schedule w m Hts Hr Hm Ht) as (m' & ? & [? _] & Hs).
  exists m'. split_and!; [done..|]. intros He o a. by eapply (sealed_steps _ _ m m' Hs He).
Qed.

End Gateway.
