(* ===== verification/Isolation.v ===== *)
(** The tenants of the gateway, kept apart.

    Under the rights of [System.v] an organization that no task works for keeps its
    rows whatever the others do ([tenant_isolated]), and what a request for an
    organization is answered, sends and leaves does not depend on the rows of the
    others, on every backend whose methods are blind to them
    ([requests_noninterference], [tasks_noninterference]). *)
From S2P Require Import Prelude Text Extern Models Errors Effects Spec Wp Config Crypto Manager Mem Invariant ManagerInv Auth Enroll Cdc Watcher MeshIngest Formations Api Concurrency ConcurrencySpec Calls Typing Requests System.
From Stdlib Require Import ZArith.

#[local] Open Scope Z_scope.

(** ** What others leave alone *)
Lemma op_org_names {R} (op : StoreOp R) o : op_org op = Some o → op_names op = Some o.
Proof. by destruct op. Qed.

Lemma allowed_frame mgr rt m m' o :
  db_step (allowed mgr rt) m m' → ¬ may_touch rt o → same_tenant o m m'.
Proof.
  intros (R & op & r & [Ht _] & Hs) Ho. eapply spec_frame; [exact Hs|]. intros E.
  rewrite (op_org_names _ _ E) in Ht. by apply Ho.
Qed.
Lemma allowed_frames mgr rt m m' o :
  rtc (db_step (allowed mgr rt)) m m' → ¬ may_touch rt o → same_tenant o m m'.
Proof.
  intros Hs Ho. induction Hs as [m|m m1 m' Hm _ IH]; [done|]. etrans; [|exact IH].
  by eapply allowed_frame.
Qed.

(** ** Contents that agree on some organizations *)
Section Agree.
Context (S : string → Prop).

Definition agree (m m' : db) : Prop := ∀ o, S o → same_tenant o m m'.
#[export] Instance agree_equiv : Equivalence agree.
Proof.
  split.
  - by intros m o _.
  - intros m m' Hm o Ho. symmetry. by apply Hm.
  - intros m m1 m' H1 H2 o Ho. etrans; [by apply H1|by apply H2].
Qed.
(** *** Changes made on both sides *)
Section Both.
Context `{Countable K} {V : Type}.
Implicit Types t : gmap K V.

Lemma both_insert t t' i j v : t' !! j = t !! j → <[i := v]> t' !! j = <[i := v]> t !! j.
Proof. destruct (decide (i = j)) as [->|]; [by rewrite !lookup_insert_eq|by rewrite !lookup_insert_ne]. Qed.
Lemma both_delete t t' i j : t' !! j = t !! j → delete i t' !! j = delete i t !! j.
Proof. destruct (decide (i = j)) as [->|]; [by rewrite !lookup_delete_eq|by rewrite !lookup_delete_ne]. Qed.
Lemma both_filter t t' (P : K * V → Prop) `{∀ x, Decision (P x)} j :
  t' !! j = t !! j → filter P t' !! j = filter P t !! j.
Proof. intros E. apply option_eq. intros v. by rewrite !map_lookup_filter_Some, E. Qed.
Lemma filter_agree `{OrgKey K} t t' (P : K * V → Prop) `{∀ x, Decision (P x)} o :
  (∀ k v, P (k, v) → org_of k = o) → (∀ k, org_of k = o → t' !! k = t !! k) →
  filter P t' = filter P t.
Proof.
  intros HP Ht. apply map_eq. intros k. apply option_eq. intros v. rewrite !map_lookup_filter_Some.
  split; intros [E Hk]; (split; [|done]); specialize (Ht k (HP k v Hk)); congruence.
Qed.
End Both.

(** The rows of an organization that two contents agree on. *)
Lemma rows_agree {V} (o : string) (t t' : gmap (string * string) V) :
  (∀ a, t' !! (o, a) = t !! (o, a)) → mem_list o t' = mem_list o t.
Proof.
  intros Ht. unfold mem_list, rows_of. do 2 f_equal. apply (filter_agree _ _ _ o); [by intros ???|].
  by intros [? a] <-.
Qed.
Lemma audit_agree o m m' app : same_tenant o m m' → mem_audit o app m' = mem_audit o app m.
Proof.
  intros Hm. unfold mem_audit. do 2 f_equal. apply (filter_agree _ _ _ o); [by intros ?? []|].
  intros [[? t] a] <-. apply Hm.
Qed.

(** A method that names an organization the contents agree on. *)
Lemma handle_agree {R} (op : StoreOp R) m m' :
  from_option S False (op_names op) → agree m m' →
  (handle op m).1 = (handle op m').1 ∧ agree (handle op m).2 (handle op m').2.
Proof.
  intros Ho Hm. destruct (op_names op) as [o|] eqn:Eo; [|done]. cbn in Ho.
  pose proof (Hm o Ho) as [Horg Hf Ht Hs Hi Hr Ha Hg Hc]. split.
  - destruct op; cbn in Eo |- *; simplify_eq; try done; by rewrite
      ?Horg, ?Hf, ?Ht, ?Hs, ?Hi, ?Hr, ?Hg, ?Hc, ?(audit_agree _ _ _ _ (Hm _ Ho)),
      ?(rows_agree _ _ _ Hf), ?(rows_agree _ _ _ Ht), ?(rows_agree _ _ _ Hs), ?(rows_agree _ _ _ Hi),
      ?(rows_agree _ _ _ Hr).
  - clear - Hm. intros o' Ho'. destruct (Hm o' Ho').
    destruct op; cbn; constructor; cbn; intros;
      first [done|apply both_insert; auto|apply both_delete; auto|apply both_filter; auto].
Qed.

End Agree.

(** ** Backends that answer one organization without looking at the others *)
(** What a method that succeeds makes of the content. *)
Definition effect {R} (op : StoreOp R) (m : db) : db := (handle op m).2.

(** [env] is what else an answer may depend on: the failures to come. *)
Class Blind (St : Type) `{Backend St} (rep : St → db → Prop) {E : Type} (env : St → E) : Prop := {
  (** a method that names an organization answers by the rows of that organization *)
  blind_answer {R} (op : StoreOp R) s s' m m' o :
    rep s m → rep s' m' → env s = env s' → op_ok op → op_names op = Some o →
    same_tenant o m m' → (handle op s).1 = (handle op s').1;
  blind_effect {R} (op : StoreOp R) s m :
    rep s m → op_ok op →
    rep (handle op s).2 (if is_ok (handle op s).1 then effect op m else m);
  blind_env {R} (op : StoreOp R) s s' :
    env s = env s' → env (handle op s).2 = env (handle op s').2;
}.

#[export] Instance mem_blind : Blind db eq (λ _, tt).
Proof.
  split; [|by intros R op s m <- _; destruct op|done].
  intros R op s s' m m' o <- <- _ _ Eo Ho.
  apply (handle_agree (λ o', o' = o)); [by rewrite Eo|by intros o' ->].
Qed.

(** ** Two worlds in lockstep *)
Section Lockstep.
Context `{StorageSpec St rep} {E : Type} (env : St → E) `{!Blind St rep env}.
Context (mgr : TenantManager) (orc : oracle) (S : string → Prop) (rt : rights).
Context (HS : ∀ o, may_touch rt o → S o) (Hl : ¬ may_list rt).

(** Stores that may differ in the organizations outside [S]; the rest of the worlds
    is the same. *)
Record alike (w w' : world St) : Prop := {
  al_store : ∃ m m', rep (w_store w) m ∧ rep (w_store w') m' ∧ rows_ok m ∧ rows_ok m' ∧ agree S m m';
  al_env : env (w_store w) = env (w_store w');
  al_tick : w_tick w = w_tick w';
  al_rpos : w_rpos w = w_rpos w';
  al_sent : w_sent w = w_sent w';
  al_trace : w_trace w = w_trace w';
}.

Lemma effect_ok {R} (op : StoreOp R) (K : Result R → Prop) m :
  swp_eff rows_ok (Store op) K → rows_ok m → rows_ok (effect op m).
Proof.
  intros Hop Hm. destruct (Hop m Hm) as (Hok & Hs & _). unfold effect.
  destruct (handle op m) as [r m1] eqn:Eh.
  pose proof (handle_spec (StorageSpec:=mem_storage_spec) op m m r m1 eq_refl Hok Eh) as Hspec.
  destruct r as [x|e]; [|by subst]. destruct Hspec as (m2 & Hm2 & ->). by eapply Hs.
Qed.

Lemma exec_alike {X} (e : eff X) w w' (K : X → Prop) :
  gwp_eff rows_ok (allowed mgr rt) e K → alike w w' →
  (exec orc e w).1 = (exec orc e w').1 ∧ K (exec orc e w).1 ∧
  alike (exec orc e w).2 (exec orc e w').2.
Proof.
  intros He [(m & m' & Hr & Hr' & Hm & Hm' & Ha) Een Et Er Es Etr].
  destruct e as [R op| |n|rq|ms]; cbn in He |- *;
    try (rewrite ?Et, ?Er, ?Es; split; [done|]; split; [by auto using length_rng_bytes|];
         constructor; cbn; rewrite ?Et, ?Er, ?Es, ?Etr; [by exists m, m'|done..]).
  destruct He as [[Ho _] Hop]. destruct (Hop m Hm) as (Hok & Hs & Herr).
  destruct (op_names op) as [o|] eqn:Eo; [cbn in Ho|done].
  pose proof (blind_answer op _ _ _ _ o Hr Hr' Een Hok Eo (Ha o (HS o Ho))) as Eans.
  pose proof (blind_effect op _ _ Hr Hok) as Heff. pose proof (blind_effect op _ _ Hr' Hok) as Heff'.
  pose proof (blind_env op _ _ Een) as Eenv.
  pose proof (effect_ok op K m Hop Hm) as Hok1. pose proof (effect_ok op K m' Hop Hm') as Hok1'.
  assert (agree S (effect op m) (effect op m')) as Ha1.
  { apply (handle_agree S op m m'); [rewrite Eo; by apply HS|done]. }
  destruct (handle op (w_store w)) as [r s] eqn:Eh, (handle op (w_store w')) as [r' s'].
  cbn in Eans, Heff, Heff', Eenv |- *. subst r'.
  pose proof (handle_spec op _ _ r s Hr Hok Eh) as Hspec. split; [done|].
  destruct r as [x|err]; cbn in Heff, Heff'.
  - destruct Hspec as (m2 & Hm2 & _). split; [by eapply Hs|]. constructor; cbn; [by eauto 10|done..].
  - split; [by apply Herr|]. constructor; cbn; [by eauto 10|done..].
Qed.

Lemma interleave_alike {A} schedule (ps : list (prog A)) (w w' : world St) :
  Forall (λ p, gwp rows_ok (allowed mgr rt) p (λ _, True)) ps → alike w w' →
  (interleave orc schedule ps w).1 = (interleave orc schedule ps w').1 ∧
  alike (interleave orc schedule ps w).2 (interleave orc schedule ps w').2.
Proof.
  revert ps w w'. induction schedule as [|i schedule IH]; intros ps w w' Hps Ha; cbn; [done|].
  unfold step_task. destruct (ps !! i) as [[a|X e k]|] eqn:Ei; [by apply IH| |by apply IH].
  pose proof (Forall_lookup_1 _ _ _ _ Hps Ei) as Hp. cbn in Hp.
  destruct (exec_alike e w w' _ Hp Ha) as (Ex & Hk & Ha1).
  destruct (exec orc e w) as [x w1], (exec orc e w') as [x' w1']. cbn in Ex, Hk, Ha1. subst x'.
  apply IH; [by apply Forall_insert|done].
Qed.
End Lockstep.

(** ** The gateway *)
Section Tenants.
Context `{HexLaws} `{AeadLib} `{MeshLib} `{HttpLib} `{AxumLib} `{StdHasher} `{HashIter}.
Context `{Serde Value} `{Serde Map}.
Context `{Serde CreateOrgRequest} `{Serde UpdateOrgRequest} `{Serde CreateFormationRequest}
  `{Serde CreateTokenRequest} `{Serde CreateSinkRequest} `{Serde ToggleSinkRequest}
  `{Serde CreateIdpRequest} `{Serde ToggleIdpRequest} `{Serde CreatePolicyRuleRequest}
  `{Serde EnrollRequest} `{Serde CdcEvent} `{Serde cdc_test.TestEventPayload}.
Context `{Serde NodeInfoDto} `{Serde TopologyDto} `{Serde ReadinessDto} `{Serde PeersEnvelope}
  `{Serde DocumentsEnvelope}.
Context (oidc loadtest : bool) (mgr : TenantManager) (engine : CdcEngine).
Context (ui_dir admin_token : option string) (orc : oracle).
Context (Hkp : KeyProviderLaws (key_provider mgr)).

Abbreviation start ts :=
  (task_prog oidc loadtest mgr engine ui_dir admin_token <$> ts).

(** C7: Whatever the gateway is asked to do at once, the rows of an organization
    that none of the requests, watchers and pollers works for stay as they are, on
    every backend, under every schedule and whichever storage calls fail, provided
    that the requests' decoded path segments have no NUL (redb joins the parts of a
    key with one), their numbers fit their fields, and the content is well formed. *)
Theorem tenant_isolated `{StorageSpec St rep} ts schedule (w : world St) m org :
  Forall task_ok ts → rep (w_store w) m → rows_wf m → typed m →
  ¬ may_touch (pool_rights ts) org →
  ∃ m', rep (w_store (interleave orc schedule (start ts) w).2) m' ∧ same_tenant org m m'.
Proof.
  intros Hts Hr Hm Ht Ho.
  destruct (tasks_interleave oidc loadtest mgr engine ui_dir admin_token orc Hkp ts schedule w m Hts
    Hr Hm Ht) as (m' & Hr' & _ & Hs).
  exists m'. split; [exact Hr'|]. by eapply allowed_frames.
Qed.

(** The requests that work for organizations of [S]. *)
Definition works_for (S : string → Prop) (rq : Request) : Prop :=
  ∃ o, request_org rq = Some o ∧ S o.
Definition rights_for (S : string → Prop) : rights :=
  {| may_touch := S; may_list := False; may_delete _ := True |}.

Lemma works_for_rights S mesh rq :
  works_for S rq → rights_le (task_rights (ServeRequest mesh rq)) (rights_for S).
Proof.
  intros (o & Eo & Ho). split_and!; cbn; [|intros [Em Ep]|done].
  - intros o' Eo'. by simplify_eq.
  - unfold request_org in Eo. by rewrite Ep, Em in Eo.
Qed.

(** What requests for some organizations are answered, send and leave behind does
    not depend on the rows of the other organizations. *)
Lemma requests_noninterference `{StorageSpec St rep} {E} (env : St → E) `{!Blind St rep env}
    mesh rqs handlers schedule S (w w' : world St) :
  Forall2 (λ rq h, request_ok rq ∧ works_for S rq ∧ serve mgr mesh oidc admin_token rq = Some h)
    rqs handlers →
  alike (rep:=rep) env S w w' →
  (interleave orc schedule handlers w).1 = (interleave orc schedule handlers w').1 ∧
  alike (rep:=rep) env S (interleave orc schedule handlers w).2 (interleave orc schedule handlers w').2.
Proof.
  intros Hrqs Ha. apply (interleave_alike env mgr orc S (rights_for S)); [done|by intros []| |done].
  induction Hrqs as [|rq h rqs hs (Hok & Hs & Eh) _ IH]; constructor; [|done].
  eapply serve_safe; [typeclasses eauto|exact Hkp|exact Hok|by eapply works_for_rights|exact Eh].
Qed.

(** The same of whole pools, watchers and pollers included: what they send and store
    does not depend on the rows of organizations that no task works for. *)
Lemma tasks_noninterference `{StorageSpec St rep} {E} (env : St → E) `{!Blind St rep env}
    ts schedule (w w' : world St) :
  Forall task_ok ts → ¬ may_list (pool_rights ts) →
  alike (rep:=rep) env (may_touch (pool_rights ts)) w w' →
  (interleave orc schedule (start ts) w).1 = (interleave orc schedule (start ts) w').1 ∧
  alike (rep:=rep) env (may_touch (pool_rights ts)) (interleave orc schedule (start ts) w).2
    (interleave orc schedule (start ts) w').2.
Proof.
  intros Hts Hl Ha.
  apply (interleave_alike env mgr orc _ (pool_rights ts)); [done|done| |done].
  exact (tasks_safe oidc loadtest mgr engine ui_dir admin_token Hkp ts Hts).
Qed.
End Tenants.
