(* ===== verification/RedbIsolation.v ===== *)
(** The redb backend keeps tenants apart.

    A method that names an organization answers by the rows under that
    organization's key prefix, in key order, whatever else the tables hold
    ([redb_blind]); so the requests of some organizations learn nothing of the
    others ([tenant_noninterference]). *)
From S2P Require Import Prelude Text Extern Models Errors Effects Spec Redb RedbSpec Wp Config Crypto Manager Mem Invariant ManagerInv Auth Enroll Cdc Watcher MeshIngest Formations Api Concurrency ConcurrencySpec Calls Typing Requests System Isolation.
From Stdlib Require Import ZArith.

#[local] Open Scope Z_scope.

(** ** Rows in key order *)
(** Entries in the order of their encoded keys; such a list is determined by its
    elements. *)
Section KeyOrder.
Context {K V : Type} (kf : K → string).

Definition key_order (x y : K * V) : Prop := str_lt (kf x.1) (kf y.1).

#[export] Instance key_order_asymm : AntiSymm (=) key_order.
Proof.
  intros x y Hxy Hyx. exfalso. apply (irreflexivity str_lt (kf x.1)). by etrans.
Qed.

Lemma rows_key_order {B} (dec : B → V → Prop) okk rows (kvs : list (K * V)) :
  Forall2 (row_rep kf okk dec) rows kvs → StronglySorted str_lt rows.*1 →
  StronglySorted key_order kvs.
Proof.
  intros Hr. induction Hr as [|[k b] [i v] rows kvs (E & _ & _) Hr IH]; [constructor|].
  cbn in *. subst k. intros [Hhd Hs]%StronglySorted_cons. constructor; [by apply IH|].
  apply Forall_forall. intros [j v'] [n Hn]%list_elem_of_lookup.
  eapply Forall2_lookup_r in Hr as ([k b'] & Hrow & (E & _)); [|done]. cbn in *. subst k.
  unfold key_order. cbn. rewrite Forall_forall in Hhd. apply Hhd.
  apply list_elem_of_lookup. exists n. by rewrite list_lookup_fmap, Hrow.
Qed.

Lemma key_order_filter (P : K * V → Prop) `{∀ x, Decision (P x)} kvs :
  StronglySorted key_order kvs → StronglySorted key_order (filter P kvs).
Proof.
  intros Hs. induction Hs as [|x l Hs IH Hx]; [constructor|]. rewrite filter_cons.
  case_decide; [|done]. constructor; [done|].
  rewrite Forall_forall in Hx |- *. by intros y [_ Hy]%list_elem_of_filter; apply Hx.
Qed.

Lemma key_order_unique (l l' : list (K * V)) :
  StronglySorted key_order l → StronglySorted key_order l' → l ≡ₚ l' → l = l'.
Proof. intros Hs Hs'. by apply (StronglySorted_unique key_order). Qed.
End KeyOrder.

(** Two tables whose maps have the same rows that satisfy [P]: in key order those
    rows are the same list. *)
Lemma same_rows `{RedbTableLaws T} `{Countable K} {B V} (kf : K → string) (okk okq : K → Prop)
    (dec : B → V → Prop) (P : K * V → Prop) `{∀ x, Decision (P x)} (t t' : T B) (m m' : gmap K V) :
  (∀ i j, okk i → okq j → kf i = kf j → i = j) → (∀ i, okk i → okq i) →
  table_rep kf okk dec t m → table_rep kf okk dec t' m' → filter P m = filter P m' →
  ∃ kvs kvs', Forall2 (row_rep kf okk dec) (t_iter t) kvs ∧
    Forall2 (row_rep kf okk dec) (t_iter t') kvs' ∧ filter P kvs = filter P kvs'.
Proof.
  intros Hinj Hokq Hr Hr' Hm.
  destruct (rep_iter kf okk okq dec Hinj Hokq t m Hr) as (kvs & Hp & Hrows).
  destruct (rep_iter kf okk okq dec Hinj Hokq t' m' Hr') as (kvs' & Hp' & Hrows').
  exists kvs, kvs'. split_and!; [done..|]. apply (key_order_unique kf).
  - eapply key_order_filter, rows_key_order; [done|apply t_iter_sorted].
  - eapply key_order_filter, rows_key_order; [done|apply t_iter_sorted].
  - by rewrite (map_to_list_filter P m kvs Hp), (map_to_list_filter P m' kvs' Hp'), Hm.
Qed.

(** ** The answers of the redb backend *)
Section Answers.
Context `{RedbTableLaws T}.
Context `{SerdeLaws Organization} `{SerdeLaws FormationConfig} `{SerdeLaws EnrollmentToken}
  `{SerdeLaws CdcSinkConfig} `{SerdeLaws IdpConfig} `{SerdeLaws PolicyRule}
  `{SerdeLaws EnrollmentAuditEntry}.
Implicit Types s : Database T.

(** Two transactions that meet the same faults and whose bodies agree answer the
    same. *)
Lemma begin_write_same {A} (b b' : tables T → Result A * tables T) s s' :
  db_faults s = db_faults s' → (b (db_tables s)).1 = (b' (db_tables s')).1 →
  (begin_write b s).1 = (begin_write b' s').1.
Proof.
  intros Hf Hb. unfold begin_write. rewrite <-Hf. destruct (head (db_faults s)) as [[e|]|]; [done|..];
    destruct (b (db_tables s)) as [[x|e] ts], (b' (db_tables s')) as [[x'|e'] ts'];
    cbn in Hb |- *; congruence.
Qed.
Lemma begin_write_faults {A} (b : tables T → Result A * tables T) s :
  db_faults (begin_write b s).2 = tail (db_faults s).
Proof.
  unfold begin_write. destruct (head (db_faults s)) as [[e|]|]; [done|..];
    by destruct (b (db_tables s)) as [[x|e] ts].
Qed.

Lemma insert_row_same d d' key key' (v : Result bytes) s s' :
  db_faults s = db_faults s' → (insert_row d key v s).1 = (insert_row d' key' v s').1.
Proof. intros Hf. unfold insert_row. destruct v; [by apply begin_write_same|done]. Qed.

Lemma get_row_body `{Countable K} {A} `{Serde A} kf (okk okq : K → Prop) (t : T bytes) (mm : gmap K A) i :
  (∀ i j, okk i → okq j → kf i = kf j → i = j) → okq i →
  table_rep kf okk decodes t mm →
  match t_get t (kf i) with
  | Some v => result_map Some (deserialize v)
  | None => Ok None
  end = Ok (mm !! i).
Proof.
  intros Hinj Hi Hr. pose proof (rep_get kf okk okq decodes Hinj t mm i Hr Hi) as Hg.
  destruct (t_get t (kf i)) as [b|]; [|by rewrite Hg].
  destruct Hg as (v & -> & Hd). by rewrite (deserialize_ok b v Hd).
Qed.

Lemma get_row_same {A} `{Serde A} (d : table_def) (o a : string) (mm mm' : gmap (string * string) A) s s' :
  db_faults s = db_faults s' →
  table_rep key2 ok2 decodes (open_table (db_tables s) d) mm →
  table_rep key2 ok2 decodes (open_table (db_tables s') d) mm' →
  mm' !! (o, a) = mm !! (o, a) →
  (get_row (A:=A) d (o +:+ NUL +:+ a) s).1 = (get_row (A:=A) d (o +:+ NUL +:+ a) s').1.
Proof.
  intros Hf Hr Hr' Hm. apply begin_write_same; [done|]. cbn [fst].
  change (o +:+ NUL +:+ a) with (key2 (o, a)).
  rewrite !(get_row_body key2 ok2 any _ _ (o, a) key2_inj I) by done. by rewrite Hm.
Qed.

Lemma remove_row_same {V} (dec : bytes → V → Prop) (d : table_def) (o a : string) (mm mm' : gmap (string * string) V) s s' :
  db_faults s = db_faults s' →
  table_rep key2 ok2 dec (open_table (db_tables s) d) mm →
  table_rep key2 ok2 dec (open_table (db_tables s') d) mm' →
  mm' !! (o, a) = mm !! (o, a) →
  (remove_row d (o +:+ NUL +:+ a) s).1 = (remove_row d (o +:+ NUL +:+ a) s').1.
Proof.
  intros Hf Hr Hr' Hm. apply begin_write_same; [done|]. cbn [fst]. f_equal.
  by rewrite (rep_present2 dec _ _ o a Hr), (rep_present2 dec _ _ o a Hr'), Hm.
Qed.

Lemma rows_of_same {V} (o : string) (mm mm' : gmap (string * string) V) :
  (∀ a, mm' !! (o, a) = mm !! (o, a)) → rows_of o mm = rows_of o mm'.
Proof.
  intros Hm. symmetry. unfold rows_of. apply (filter_agree _ _ _ o); [by intros ???|].
  by intros [? a] <-.
Qed.

(** A scan under an organization's prefix reads that organization's rows. *)
Lemma collect_same {A} `{Serde A} (o : string) (t t' : T bytes) (mm mm' : gmap (string * string) A) :
  table_rep key2 ok2 decodes t mm → table_rep key2 ok2 decodes t' mm' →
  (∀ a, mm' !! (o, a) = mm !! (o, a)) →
  collect_prefix (A:=A) (o +:+ NUL) (t_iter t) = collect_prefix (A:=A) (o +:+ NUL) (t_iter t').
Proof.
  intros Hr Hr' Hm%rows_of_same.
  destruct (same_rows key2 ok2 any decodes (λ kv, org_of kv.1 = o) t t' mm mm' key2_inj (λ _ _, I)
    Hr Hr' Hm) as (kvs & kvs' & Hk & Hk' & E).
  rewrite (collect_prefix_ok key2 ok2 _ o (key2_prefix o) _ _ Hk).
  by rewrite (collect_prefix_ok key2 ok2 _ o (key2_prefix o) _ _ Hk'), E.
Qed.

Lemma scan_rows_same {A} `{Serde A} (d : table_def) (o : string) (mm mm' : gmap (string * string) A) s s' :
  db_faults s = db_faults s' →
  table_rep key2 ok2 decodes (open_table (db_tables s) d) mm →
  table_rep key2 ok2 decodes (open_table (db_tables s') d) mm' →
  (∀ a, mm' !! (o, a) = mm !! (o, a)) →
  (scan_rows (A:=A) d (o +:+ NUL) s).1 = (scan_rows (A:=A) d (o +:+ NUL) s').1.
Proof. intros Hf Hr Hr' Hm. apply begin_write_same; [done|]. cbn [fst]. by eapply collect_same. Qed.

Lemma list_tokens_same o a s s' m m' :
  redb_rep s m → redb_rep s' m' → db_faults s = db_faults s' → same_tenant o m m' →
  (Redb.list_tokens o a s).1 = (Redb.list_tokens o a s').1.
Proof.
  intros Hr Hr' Hf Hm. apply begin_write_same; [done|]. cbn [fst]. unfold token_prefix.
  by rewrite (collect_same o _ _ _ _ (tr_tokens _ _ Hr) (tr_tokens _ _ Hr') (st_tokens _ _ _ Hm)).
Qed.

Lemma list_audit_same o app limit s s' m m' :
  redb_rep s m → redb_rep s' m' → db_faults s = db_faults s' → same_tenant o m m' → nul_free o →
  (Redb.list_audit o app limit s).1 = (Redb.list_audit o app limit s').1.
Proof.
  intros Hr Hr' Hf Hm Ho. apply begin_write_same; [done|]. cbn [fst].
  assert (filter (audit_match o app) (d_audit m) = filter (audit_match o app) (d_audit m')) as Ea.
  { symmetry. apply (filter_agree _ _ _ o); [by intros ?? []|]. intros [[? t] a] <-. apply Hm. }
  destruct (same_rows akey oka oka decodes (audit_match o app) _ _ _ _ akey_inj (λ _ Hi, Hi)
    (tr_audit _ _ Hr) (tr_audit _ _ Hr') Ea) as (kvs & kvs' & Hk & Hk' & E).
  rewrite (audit_scan_ok o app Ho limit _ (reverse kvs) []); [|by apply Forall2_reverse|cbn; lia].
  rewrite (audit_scan_ok o app Ho limit _ (reverse kvs') []); [|by apply Forall2_reverse|cbn; lia].
  by rewrite !filter_reverse, E.
Qed.

Lemma redb_answer {R} (op : StoreOp R) s s' m m' o :
  redb_rep s m → redb_rep s' m' → db_faults s = db_faults s' → op_ok op → op_names op = Some o →
  same_tenant o m m' → (handle op s).1 = (handle op s').1.
Proof.
  intros Hr Hr' Hf Hok Eo Hm. pose proof Hm as [Horg Hfo Hto Hsi Hid Hru Hau Hge Hcu].
  destruct op; cbn in Eo, Hok; simplify_eq; cbn [handle redb_backend];
    try by apply insert_row_same.
  all: try (eapply get_row_same; [done|apply Hr|apply Hr'|done]).
  all: try (eapply scan_rows_same; [done|apply Hr|apply Hr'|done]).
  all: try (eapply remove_row_same; [done|apply Hr|apply Hr'|done]).
  - apply begin_write_same; [done|]. cbn [fst].
    pose proof (get_row_body id any any _ _ o id_inj I (tr_orgs _ _ Hr)) as E.
    pose proof (get_row_body id any any _ _ o id_inj I (tr_orgs _ _ Hr')) as E'. unfold id in E, E'.
    by rewrite E, E', Horg.
  - apply begin_write_same; [done|]. cbn [fst]. f_equal.
    by rewrite (rep_present_org decodes _ _ _ (tr_orgs _ _ Hr)),
      (rep_present_org decodes _ _ _ (tr_orgs _ _ Hr')), Horg.
  - by eapply list_tokens_same.
  - by eapply list_audit_same; [..|apply Hok].
  - apply begin_write_same; [done|]. cbn [fst]. f_equal.
    change (formation_key o app_id) with (key2 (o, app_id)).
    by rewrite (rep_get_eq key2 ok2 any _ _ (o, app_id) key2_inj (tr_genesis _ _ Hr) I),
      (rep_get_eq key2 ok2 any _ _ (o, app_id) key2_inj (tr_genesis _ _ Hr') I), Hge.
  - apply begin_write_same; [done|]. cbn [fst]. f_equal.
    change (cursor_key o app_id document_id) with (ckey (o, app_id, document_id)).
    by rewrite (rep_get_eq ckey okc okc _ _ (o, app_id, document_id) ckey_inj (tr_cursors _ _ Hr) Hok),
      (rep_get_eq ckey okc okc _ _ (o, app_id, document_id) ckey_inj (tr_cursors _ _ Hr') Hok), Hcu.
  - by apply begin_write_same.
Qed.

(** An update writes like a creation does; the contract of every other writing method
    determines the content. *)
Lemma redb_effect {R} (op : StoreOp R) s m :
  redb_rep s m → op_ok op →
  redb_rep (handle op s).2 (if is_ok (handle op s).1 then effect op m else m).
Proof.
  intros Hr Hok.
  assert (∀ R (op : StoreOp R), op_ok op → (∀ r m', spec op m r m' → m' = effect op m) →
    redb_rep (handle op s).2 (if is_ok (handle op s).1 then effect op m else m)) as Hdet.
  { clear R op Hok. intros R op Hok Hd. pose proof (redb_outcome op m s Hr Hok) as Hout.
    unfold outcome in Hout. destruct (handle op s) as [[x|e] s1]; cbn in Hout |- *; [|done].
    destruct Hout as (m1 & Hs & Hr1). by rewrite <-(Hd _ _ Hs). }
  destruct op; try (apply Hdet; [done|]; cbn; intros; by destruct_and?).
  - exact (Hdet _ (CreateOrg org) I (λ _ _ E, E)).
  - exact (Hdet _ (CreateToken token) Hok (λ _ _ E, E)).
  - exact (Hdet _ (CreateSink sink) Hok (λ _ _ E, E)).
  - exact (Hdet _ (CreateIdp idp) Hok (λ _ _ E, E)).
Qed.

Lemma insert_row_faults `{SerdeLaws A} d key (x : A) s :
  db_faults (insert_row d key (serialize x) s).2 = tail (db_faults s).
Proof. destruct (serialize_ok x) as (b & E & _). unfold insert_row. rewrite E. apply begin_write_faults. Qed.
(** Every method is one transaction. *)
Lemma handle_faults {R} (op : StoreOp R) s : db_faults (handle op s).2 = tail (db_faults s).
Proof. destruct op; first [exact (insert_row_faults _ _ _ s)|exact (begin_write_faults _ s)]. Qed.

#[export] Instance redb_blind : Blind (Database T) redb_rep db_faults.
Proof.
  split.
  - intros R op s s' m m' o. apply redb_answer.
  - intros R op s m. apply redb_effect.
  - intros R op s s' Hf. by rewrite !handle_faults, Hf.
Qed.
End Answers.

(** ** The gateway on redb *)
Section Tenants.
Context `{RedbTableLaws T}.
Context `{SerdeLaws Organization} `{SerdeLaws FormationConfig} `{SerdeLaws EnrollmentToken}
  `{SerdeLaws CdcSinkConfig} `{SerdeLaws IdpConfig} `{SerdeLaws PolicyRule}
  `{SerdeLaws EnrollmentAuditEntry}.
Context `{HexLaws} `{AeadLib} `{MeshLib} `{HttpLib} `{AxumLib}.
Context `{Serde Value} `{Serde Map}.
Context `{Serde CreateOrgRequest} `{Serde UpdateOrgRequest} `{Serde CreateFormationRequest}
  `{Serde CreateTokenRequest} `{Serde CreateSinkRequest} `{Serde ToggleSinkRequest}
  `{Serde CreateIdpRequest} `{Serde ToggleIdpRequest} `{Serde CreatePolicyRuleRequest}
  `{Serde EnrollRequest}.
Context (oidc : bool) (mgr : TenantManager) (admin_token : option string) (orc : oracle).
Context (Hkp : KeyProviderLaws (key_provider mgr)).

(** C8: On the redb backend, what requests for some organizations are answered,
    send and leave behind does not depend on what the tables hold of the other
    organizations. Take two databases with well-formed contents that agree on the
    organizations of the requests (whose decoded paths have no NUL and whose numbers
    fit their fields), and meet the same storage failures: every interleaving of the
    requests' steps gives the same answers and the same outgoing messages on both, and
    leaves contents that agree again. *)
Theorem tenant_noninterference mesh rqs handlers schedule S (w w' : world (Database T)) m m' :
  Forall2 (λ rq h, request_ok rq ∧ works_for S rq ∧ serve mgr mesh oidc admin_token rq = Some h)
    rqs handlers →
  redb_rep (w_store w) m → redb_rep (w_store w') m' → rows_ok m → rows_ok m' →
  (∀ o, S o → same_tenant o m m') → db_faults (w_store w) = db_faults (w_store w') →
  w' = set_store (w_store w') w →
  let out := interleave orc schedule handlers w in
  let out' := interleave orc schedule handlers w' in
  out.1 = out'.1 ∧ w_trace out.2 = w_trace out'.2 ∧
  ∃ m1 m1', redb_rep (w_store out.2) m1 ∧ redb_rep (w_store out'.2) m1' ∧
    ∀ o, S o → same_tenant o m1 m1'.
Proof.
  intros Hrqs Hr Hr' Hm Hm' Ha Hf Ew. cbv zeta.
  destruct (requests_noninterference (rep:=redb_rep (T:=T)) (H27:=redb_storage_spec) oidc mgr admin_token orc Hkp db_faults mesh rqs
    handlers schedule S w w' Hrqs) as [Eans [(m1 & m1' & Hr1 & Hr1' & _ & _ & Ha1) _ _ _ _ Etr]].
  - rewrite Ew in Hf |- *. split; [by exists m, m'|done..].
  - split; [exact Eans|]. split; [exact Etr|]. by exists m1, m1'.
Qed.
End Tenants.
