(* ===== verification/EndToEnd.v ===== *)
(** The gateway running on the redb backend and on the Postgres backend. *)
From S2P Require Import Prelude Text Extern Models Errors Effects Spec Redb RedbSpec Wp Sql Rows Postgres PostgresSpec Crypto Manager Invariant ManagerInv Enroll Concurrency ConcurrencySpec.
From Stdlib Require Import ZArith.

#[local] Open Scope Z_scope.

Section Redb.
Context `{RedbTableLaws T}.
Context `{SerdeLaws Organization} `{SerdeLaws FormationConfig} `{SerdeLaws EnrollmentToken}
  `{SerdeLaws CdcSinkConfig} `{SerdeLaws IdpConfig} `{SerdeLaws PolicyRule}
  `{SerdeLaws EnrollmentAuditEntry}.
Context `{HexLaws} `{AeadLib} `{MeshLib} (mgr : TenantManager) (orc : oracle).


(** ** What the contract's side conditions exclude *)

(** The name of an organization and of one of its formations, joined by NUL,
    passes for the name of an organization: deleting it answers that there is no such
    organization and drops the cursors of the formation. *)
Theorem delete_org_nul (w : world (Database T)) org app doc :
  t_get (open_table (db_tables (w_store w)) ORGS_TABLE) (org +:+ NUL +:+ app) = None →
  db_faults (w_store w) = [] →
  let (r, w') := run orc (Manager.delete_org (org +:+ NUL +:+ app)) w in
  r = Err (OrgNotFound (org +:+ NUL +:+ app)) ∧
  (Redb.get_cursor org app doc (w_store w')).1 = Ok None.
Proof.
  intros Hnone Hf. unfold Manager.delete_org, store.delete_org. rewrite run_mbind, run_call.
  cbn [handle redb_backend]. unfold Redb.delete_org, begin_write. rewrite Hf. cbn [head].
  rewrite Hnone, bool_decide_eq_false_2 by (intros [? [=]]). cbn [negb run bail].
  split; [done|]. unfold Redb.get_cursor, begin_read, begin_write. cbn.
  rewrite remove_prefixed_get.
  replace (starts_with _ _) with true; [done|]. symmetry. apply starts_with_iff. exists doc.
  unfold cursor_key, formation_prefix. change (String Ascii.zero app) with (NUL +:+ app).
  by rewrite !str_app_assoc.
Qed.

(** A query for no entries answers with the newest one. *)
Theorem list_audit_zero (s : Database T) m o app :
  redb_rep s m → nul_free o → db_faults s = [] →
  (∃ k e, d_audit m !! k = Some e ∧ audit_match o app (k, e)) →
  ∃ e, (Redb.list_audit o app 0 s).1 = Ok [e].
Proof.
  intros Hr Ho Hf (k & e & Hk & Hmatch).
  destruct (rep_iter akey oka oka decodes akey_inj (λ _ H, H) _ _ (tr_audit _ _ Hr))
    as (kvs & Hp & Hrows).
  unfold Redb.list_audit, begin_read, begin_write. rewrite Hf. cbn [head].
  rewrite (audit_scan_ok o app Ho 0 _ (reverse kvs) []);
    [|by apply Forall2_reverse|simpl; lia].
  cbn [fst]. change (Z.to_nat (Z.max 1 0)) with 1%nat.
  assert ((k, e) ∈ filter (audit_match o app) (reverse kvs)) as Hin.
  { apply list_elem_of_filter. split; [done|].
    rewrite elem_of_reverse, Hp. by apply elem_of_map_to_list. }
  destruct (filter _ _) as [|[k' e'] l]; [by apply not_elem_of_nil in Hin|].
  exists e'. by rewrite app_nil_l.
Qed.
End Redb.

Section Postgres.
Context {C : Type} `{PgLaws C}.
Context `{SerdeValueLaws Organization pg_jsonb} `{SerdeValueLaws FormationConfig pg_jsonb}
  `{SerdeValueLaws EnrollmentToken pg_jsonb} `{SerdeValueLaws CdcSinkConfig pg_jsonb}
  `{SerdeValueLaws IdpConfig pg_jsonb} `{SerdeValueLaws PolicyRule pg_jsonb}
  `{SerdeValueLaws EnrollmentAuditEntry pg_jsonb}.
Context (orc : oracle).

(** Every row of a table but that of organizations names one that exists. *)
Definition no_orphans (c : C) : Prop :=
  ∀ t k r, t ∈ (schemas.*1) → t ≠ "orgs"%string → pg_rows c t !! k = Some r →
  ∃ o, column_text r "org_id" = Some o ∧ is_Some (pg_rows c "orgs" !! [o]).

Lemma table_no_orphans `{Countable K, OrgKey K} {V} (c : C) m t pk (enc : K → list string) col dec
    extra (mm : gmap K V) k r :
  pg_rep c m → pg_rows c t !! k = Some r →
  rows_rep ("org_id"%string :: pk) enc col dec extra (pg_rows c t) mm →
  under (d_orgs m) mm → (∀ k, head (enc k) = Some (org_of k)) →
  ∃ o, column_text r "org_id" = Some o ∧ is_Some (pg_rows c "orgs" !! [o]).
Proof.
  intros Hm Er Hr Hu Henc.
  destruct (rows_find _ _ _ _ _ _ _ _ _ Hr Er) as (i & v & _ & Ev & Hk%key_of_head & _).
  rewrite Henc in Hk. exists (org_of i). split; [done|]. destruct (Hu _ _ Ev) as [org Eorg].
  destruct (rr_of _ _ _ _ _ _ _ (pr_orgs _ _ Hm) _ _ Eorg) as (p & Ep & _). by exists p.
Qed.

Lemma pg_rep_no_orphans c m : pg_rep c m → no_orphans c.
Proof.
  intros Hm t k r Ht Hne Er. pose proof Hm as Hm'. destruct Hm'.
  unfold owned_rep in *. unfold schemas in Ht. cbn in Ht.
  apply elem_of_cons in Ht as [->|Ht]; [done|]. clear Hne.
  repeat (apply elem_of_cons in Ht as [->|Ht];
    [first [ by eapply (table_no_orphans c m _ _ enc2 _ _ _ _ k r Hm Er); [eassumption|assumption|]
           | by eapply (table_no_orphans c m _ _ enca _ _ _ _ k r Hm Er); [eassumption|assumption|]
           | by eapply (table_no_orphans c m _ _ encc _ _ _ _ k r Hm Er); [eassumption|assumption|] ]|]).
  by apply not_elem_of_nil in Ht.
Qed.

(** C2: A gateway on a Postgres database, whatever calls it is asked for and
    whichever statements fail: the tables always hold well-formed content, every row
    names an organization that exists, and the rows of an organization no call names
    are as they were. *)
Theorem gateway_on_postgres `{HexLaws} `{AeadLib} `{MeshLib} (mgr : TenantManager) cs (w : world C) m :
  KeyProviderLaws (key_provider mgr) → Forall call_ok cs →
  pg_rep (w_store w) m → wf m →
  let w' := (run orc (perform_all mgr cs) w).2 in
  no_orphans (w_store w') ∧
  ∃ m', pg_rep (w_store w') m' ∧ wf m' ∧
    ∀ o, Forall (λ c, call_org c ≠ o) cs → same_tenant o m m'.
Proof.
  intros Hkp Hcs Hr Hwf w'.
  destruct (wp_adequate (H:=postgres_backend) (H0:=pg_storage_spec) orc true (perform_all mgr cs)
              (λ _ w', wf (w_store w') ∧
                 ∀ o, Forall (λ c, call_org c ≠ o) cs → same_tenant o m (w_store w')) w m)
    as (m' & Hr' & Hwf' & Hframe); [done|done| |].
  { by apply (perform_all_good mgr orc true Hkp cs (set_store m w)). }
  split; [by eapply pg_rep_no_orphans|by exists m'].
Qed.

(** C19: On a Postgres database no interleaving of calls leaves a row of an
    organization that does not exist, and every row stays under its own key and
    validated. *)
Theorem concurrent_calls_on_postgres `{HexLaws} `{AeadLib} `{MeshLib} (mgr : TenantManager) cs
    schedule (w : world C) m :
  KeyProviderLaws (key_provider mgr) → Forall call_ok cs →
  pg_rep (w_store w) m → rows_wf m →
  let w' := (interleave orc schedule (perform_call mgr <$> cs) w).2 in
  no_orphans (w_store w') ∧ ∃ m', pg_rep (w_store w') m' ∧ rows_wf m'.
Proof.
  intros Hkp Hcs Hr Hm w'.
  destruct (interleave_sound (H0:=pg_storage_spec) rows_wf orc (λ _, True) schedule
    (perform_call mgr <$> cs) w m Hr Hm) as (_ & m' & Hr' & Hm').
  { apply Forall_fmap. eapply Forall_impl; [exact Hcs|]. intros c Hc. by apply perform_call_safe. }
  split; [by eapply pg_rep_no_orphans|by exists m'].
Qed.

(** *** Programs that change nothing, and programs that fail *)
Definition quiet {A} (p : prog A) : Prop :=
  ∀ w : world C, unchanged (w_store w) (w_store (run orc p w).2).
Definition refused {E A} (p : prog (result E A)) : Prop :=
  quiet p ∧ ∀ w : world C, is_ok (run orc p w).1 = false.

Lemma unchanged_trans (c1 c2 c3 : C) : unchanged c1 c2 → unchanged c2 c3 → unchanged c1 c3.
Proof. intros Hu Hu' t. destruct (Hu t) as [<- <-]. apply Hu'. Qed.

Lemma quiet_bind {E A B} (p : prog (result E A)) (f : A → prog (result E B)) :
  quiet p → (∀ a, quiet (f a)) → quiet (mbind p f).
Proof.
  intros Hp Hf w. rewrite run_mbind. specialize (Hp w). destruct (run orc p w) as [[a|e] w1]; cbn in *.
  - eapply unchanged_trans; [exact Hp|apply Hf].
  - done.
Qed.
Lemma quiet_pbind {A B} (p : prog A) (f : A → prog B) :
  quiet p → (∀ a, quiet (f a)) → quiet (pbind p f).
Proof.
  intros Hp Hf w. rewrite run_pbind. specialize (Hp w). destruct (run orc p w) as [a w1]; cbn in *.
  eapply unchanged_trans; [exact Hp|apply Hf].
Qed.
Lemma quiet_ret {A} (a : A) : quiet (Ret a).
Proof. by intros w t. Qed.

Lemma refused_bind {E A B} (p : prog (result E A)) (f : A → prog (result E B)) :
  quiet p → (∀ a, refused (f a)) → refused (mbind p f).
Proof.
  intros Hp Hf. split; [apply quiet_bind; [done|intros a; apply Hf]|]. intros w.
  rewrite run_mbind. destruct (run orc p w) as [[a|e] w1]; [apply Hf|done].
Qed.
Lemma refused_first {E A B} (p : prog (result E A)) (f : A → prog (result E B)) :
  refused p → refused (mbind p f).
Proof.
  intros [Hq Hp]. assert (∀ w, ∃ e, (run orc p w).1 = Err e) as He.
  { intros w. specialize (Hp w). destruct (run orc p w).1; [done|eauto]. }
  split; intros w; rewrite run_mbind; specialize (Hq w); destruct (He w) as [e Ew];
    destruct (run orc p w) as [r w1]; cbn in Ew; by subst r.
Qed.

(** A query changes nothing. *)
Lemma select_quiet {A} (op : StoreOp A) col t cond order ws lim (k : reply → Result A) :
  (∀ c : C, handle op c = query (SELECT col t cond order (bool_decide (is_Some lim)))
                          ((VText <$> ws) ++ option_list (VInt <$> lim)) k c) →
  quiet (call op).
Proof.
  intros Hop w. rewrite run_call. rewrite Hop. unfold query.
  destruct (pg_run _ _ (w_store w)) as [[rp|e] c'] eqn:E; cbn.
  - by apply pg_select in E as [? _].
  - by apply pg_failed in E.
Qed.

Lemma quiet_mmap_err {E F A} (f : E → F) (p : prog (result E A)) : quiet p → quiet (mmap_err f p).
Proof. intros Hp. unfold mmap_err. apply quiet_pbind; [done|]. intros a. apply quiet_ret. Qed.
Lemma refused_mmap_err {E F A} (f : E → F) (p : prog (result E A)) :
  refused p → refused (mmap_err f p).
Proof.
  intros [Hq Hp]. split; [by apply quiet_mmap_err|]. intros w. unfold mmap_err.
  rewrite run_pbind. specialize (Hp w). by destruct (run orc p w) as [[a|e] w'].
Qed.

Lemma get_org_quiet o : quiet (get_org o).
Proof.
  apply quiet_bind; [|intros a; apply quiet_ret].
  by apply (select_quiet (GetOrg o) "data" "orgs" ["org_id"%string] None [o] None
    (λ r, match rows_of_reply r with
          | v :: _ => result_map Some (get_document v)
          | [] => Ok None
          end)).
Qed.
Lemma get_formation_quiet o a : quiet (get_formation o a).
Proof.
  apply quiet_bind; [|intros f; apply quiet_ret].
  by apply (select_quiet (GetFormation o a) "data" "formations" ["org_id"; "app_id"]%string None
    [o; a] None
    (λ r, match rows_of_reply r with
          | v :: _ => result_map Some (get_document v)
          | [] => Ok None
          end)).
Qed.

(** [usize::MAX as i64] is no limit a query accepts. *)
Lemma count_recent_refused o since : refused (count_recent_enrollments o since).
Proof.
  apply refused_first. split.
  - by apply (select_quiet (ListAudit o None usize_max) "data" "enrollment_audit" ["org_id"%string]
      (Some ("timestamp_ms"%string, true)) [o] (Some (-1))
      (λ r, get_all get_document (rows_of_reply r))).
  - intros w. unfold store.list_audit. rewrite run_call. cbn [handle postgres_backend].
    unfold Postgres.list_audit, fetch_all, query.
    destruct (pg_run _ _ (w_store w)) as [[rp|e] c'] eqn:E; [|done].
    by destruct (pg_select "data" "enrollment_audit" ["org_id"%string]
      (Some ("timestamp_ms"%string, true)) [o] (Some (-1)) _ _ _ E) as (_ & hits & _ & _ & Hneg & _).
Qed.

(** C15: On a Postgres database every enrollment is refused, whatever the request,
    the organization and the policy of the formation, and changes nothing: the count
    of recent enrollments asks for [usize::MAX] audit entries, which the backend binds
    as the limit -1. *)
Theorem enroll_fails_on_postgres `{HexLib} `{AeadLib} `{MeshLib} `{HttpLib} `{Serde Value}
    `{Serde Map} (mgr : TenantManager) org_id app_id headers body (w : world C) :
  let out := run orc (enroll mgr org_id app_id headers body) w in
  is_ok out.1 = false ∧ unchanged (w_store w) (w_store out.2).
Proof.
  cut (refused (enroll mgr org_id app_id headers body)); [intros [Hq He]; by split|].
  apply refused_bind; [apply quiet_mmap_err, get_org_quiet|intros org].
  apply refused_bind; [apply quiet_mmap_err, get_formation_quiet|intros formation].
  apply refused_bind; [apply quiet_ret|intros _].
  split.
  - apply quiet_pbind; [by intros w' t|]. intros now.
    by apply refused_first, refused_mmap_err, count_recent_refused.
  - intros w'. unfold now_ms. cbn [pbind run exec]. 
    by apply refused_first, refused_mmap_err, count_recent_refused.
Qed.
End Postgres.
