(* ===== verification/Examples.v ===== *)
(** A small content for running the model: one organization with a formation, an
    enrollment token that has one use left, a webhook sink and a cursor. *)
From S2P Require Import Prelude Text Extern Models Errors Effects Spec Wp Crypto Concrete Manager Mem Invariant Cdc Watcher MeshIngest.
From Stdlib Require Import ZArith.
From Stdlib.Strings Require Import Byte.

#[local] Open Scope Z_scope.

Definition ex_org : Organization :=
  {| o_org_id := "acme"; o_display_name := "Acme"; o_quotas := default_quotas; o_created_at := 1 |}.
Definition ex_formation : FormationConfig :=
  {| f_app_id := "mesh"; f_mesh_id := "00000000"; f_enrollment_policy := Controlled |}.
Definition ex_token : EnrollmentToken :=
  {| t_token_id := "peat_00"; t_org_id := "acme"; t_app_id := "mesh"; t_label := "field";
     t_max_uses := Some 2; t_uses := 1; t_expires_at := None; t_created_at := 1;
     t_revoked := false |}.
Definition ex_sink : CdcSinkConfig :=
  {| s_sink_id := "s1"; s_org_id := "acme"; s_sink_type := Webhook "https://hook";
     s_enabled := true; s_created_at := 1 |}.
Definition ex_genesis : bytes := [x01; x02].

Definition ex_db : db := {|
  d_orgs := {["acme" := ex_org]};
  d_formations := {[("acme", "mesh") := ex_formation]};
  d_tokens := {[("acme", "peat_00") := ex_token]};
  d_sinks := {[("acme", "s1") := ex_sink]};
  d_idps := ∅; d_rules := ∅; d_audit := ∅;
  d_genesis := {[("acme", "mesh") := ex_genesis]};
  d_cursors := ∅;
|}%string.

Lemma ex_valid s : validate_identifier s "id" = Ok tt → valid_identifier s.
Proof. apply validate_identifier_ok. Qed.

Lemma ex_wf : wf ex_db.
Proof.
  assert (has_org "acme" ex_db) as Horg by (by eexists).
  split; cbn; intros *; rewrite ?lookup_empty; try done.
  - intros [<- <-]%lookup_singleton_Some. split; [done|by apply ex_valid].
  - intros [[= <- <-] <-]%lookup_singleton_Some. split_and!; [done|by apply ex_valid|done].
  - intros [[= <- <-] <-]%lookup_singleton_Some. split_and!; [done..| |done].
    split; [done|]. intros n [= <-]. by cbn.
  - intros [[= <- <-] <-]%lookup_singleton_Some. by split_and!.
  - by intros [[= <- <-] <-]%lookup_singleton_Some.
Qed.

(** A clock that stands, random bytes that are zero, a network that answers 200. *)
Definition ex_oracle : oracle :=
  {| o_clock _ := 1000; o_rng _ := x00; o_net _ _ := NetResp 200 [] |}.
Definition down_oracle : oracle :=
  {| o_clock _ := 1000; o_rng _ := x00; o_net _ _ := NetErr "unreachable" |}.
Definition ex_world : world db := World ex_db 0 0 0 [].
Definition empty_world : world db := World db_empty 0 0 0 [].

Definition ex_key : bytes := replicate 32 x00.
Definition ex_kp : KeyProvider := local.LocalKeyProvider ex_key.
Definition ex_mgr : TenantManager := {| key_provider := ex_kp; encrypt_enabled := true |}.

(** ** Codecs of the remaining types, enough to run the examples *)
#[export] Instance ex_value_serde : Serde Value := {|
  to_vec v := Ok (match v with JString s => as_bytes s | _ => [] end);
  from_slice b := Ok (JString (from_utf8_bytes b));
|}.
#[export] Instance ex_map_serde : Serde Map := {|
  to_vec _ := Ok []; from_slice _ := Err "no claims"%string;
|}.
#[export] Instance ex_event_serde : Serde CdcEvent := {|
  to_vec e := Ok (as_bytes (e_document_id e +:+ " " +:+ e_change_hash e));
  from_slice _ := Err "write only"%string;
|}.
#[export] Instance ex_node_serde : Serde NodeInfoDto := {|
  to_vec _ := Ok []; from_slice _ := Ok {| nd_node_id := "n"; nd_uptime_secs := 1; nd_version := "1" |};
|}.
#[export] Instance ex_topology_serde : Serde TopologyDto := {|
  to_vec _ := Ok []; from_slice _ := Ok {| td_peer_count := 1; td_role := "leader"; td_hierarchy_level := 0 |};
|}.
#[export] Instance ex_ready_serde : Serde ReadinessDto := {|
  to_vec _ := Ok []; from_slice _ := Ok {| rdto_ready := true; rdto_node_id := "n"; rdto_checks := [] |};
|}.
#[export] Instance ex_peers_serde : Serde PeersEnvelope := {|
  to_vec _ := Ok [];
  from_slice _ := Ok {| pe_peers := [{| pd_id := "p"; pd_connected := true; pd_state := "up"; pd_rtt_ms := None |}] |};
|}.
#[export] Instance ex_documents_serde : Serde DocumentsEnvelope := {|
  to_vec _ := Ok [];
  from_slice _ := Ok {| de_documents := [JObject [("_id", JString "d1")]%string] |};
|}.
