(* ===== verification/Harness.v ===== *)
(** The unit tests of the repository, as programs: the harness.

    A [#[test]] function is a [test]: a program that ends in a failure message or
    in nothing.  [unwrap], [unwrap_err] and [assert] are Rust's; [passes] runs a test
    on an empty redb database, with a clock and random bytes that advance. *)
From S2P Require Import Prelude Text Extern Models Errors Effects Redb Crypto Concrete Manager.
From Stdlib Require Import ZArith.
From Stdlib.Strings Require Import Byte.

#[local] Open Scope Z_scope.

Abbreviation test := (prog (result string unit)).

(** [c.await.unwrap()], [c.await.unwrap_err()] *)
Definition unwrap {A} (c : M A) : prog (result string A) := mmap_err to_string c.
Definition unwrap_err {A} (c : M A) : prog (result string error) :=
  pbind c (λ r, match r with
                | Ok _ => bail "called `Result::unwrap_err()` on an `Ok` value"%string
                | Err e => ok e
                end).
(** [option.unwrap()] *)
Definition some {A} (x : option A) : prog (result string A) :=
  lift (ok_or x "called `Option::unwrap()` on a `None` value"%string).
(** [assert!(b)], [assert!(c.await.is_ok())], [assert!(c.await.is_err())] *)
Definition assert (b : bool) : test := if b then ok tt else bail "assertion failed"%string.
Definition assert_ok {A} (c : M A) : test := pbind c (λ r, assert (is_ok r)).
Definition assert_err {A} (c : M A) : test := pbind c (λ r, assert (negb (is_ok r))).
(** [assert_eq!(a, b)] *)
Definition assert_eq {A} `{EqDecision A} (a b : A) : test := assert (bool_decide (a = b)).
Definition assert_ne {A} `{EqDecision A} (a b : A) : test := assert (negb (bool_decide (a = b))).

(** [s.contains(p)] *)
Fixpoint contains (p s : string) : bool :=
  starts_with s p || match s with EmptyString => false | String _ s => contains p s end.
(** [err.to_string().contains(p)] *)
Definition mentions (e : error) (p : string) : test := assert (contains p (to_string e)).
(** ["a".repeat(n)] *)
Fixpoint repeat_str (s : string) (n : nat) : string :=
  match n with O => EmptyString | S n => s +:+ repeat_str s n end.
(** [v.is_empty()], [v.len()] *)
Definition no_items {A} (l : list A) : bool := match l with [] => true | _ => false end.
Definition len {A} (l : list A) : Z := Z.of_nat (length l).
(** [[b; n]] *)
Definition bytes_of (b : byte) (n : nat) : bytes := replicate n b.

(** ** Running a test *)
Definition byte_at (n : nat) : byte := default x00 (Byte.of_N (N.of_nat (n mod 256))).
Definition test_oracle : oracle := {|
  o_clock n := 1700000000000 + Z.of_nat n;
  o_rng n := byte_at n;
  o_net _ _ := NetErr "no network"%string;
|}.
Definition new_database : world (Database gmap_table) := World (Redb.open []) 0 0 0 [].
Definition passes (t : test) : bool := is_ok (run test_oracle t new_database).1.

Lemma passes_all (ts : list test) : forallb passes ts = true → Forall (λ t, passes t = true) ts.
Proof. intros Hts. apply Forall_forall. intros t Ht. by eapply forallb_forall, list_elem_of_In. Qed.
