(* ===== verification/ManagerTests.v ===== *)
(** tenant/manager.rs: its unit tests, under their names, and that the model passes
    them all. *)
From S2P Require Import Prelude Text Extern Models Errors Effects Redb Crypto Concrete Manager Harness.
From Stdlib Require Import ZArith.

#[local] Open Scope string_scope.
#[local] Open Scope Z_scope.

(** A manager with encryption disabled. *)
Definition make_manager : TenantManager :=
  {| key_provider := PlaintextProvider; encrypt_enabled := false |}.

Section Tests.
Abbreviation mgr := make_manager.

(** ** Organization CRUD *)
Definition test_create_org : test :=
  let! org := unwrap (create_org "acme" "Acme Corp") in
  let! _ := assert_eq (o_org_id org) "acme" in
  let! _ := assert_eq (o_display_name org) "Acme Corp" in
  let! _ := assert (0 <? o_created_at org) in
  let! fetched := unwrap (get_org "acme") in
  assert_eq (o_org_id fetched) "acme".

Definition test_create_duplicate_org_fails : test :=
  let! _ := unwrap (create_org "acme" "Acme Corp") in
  let! err := unwrap_err (create_org "acme" "Acme Again") in
  mentions err "already exists".

Definition test_create_org_invalid_id : test :=
  let! _ := assert_err (create_org "" "Name") in
  let! _ := assert_err (create_org "-bad" "Name") in
  let! _ := assert_err (create_org "has spaces" "Name") in
  assert_err (create_org "good-id" "").

Definition test_create_org_id_too_long : test :=
  let long_id := repeat_str "a" (Z.to_nat (MAX_IDENTIFIER_LEN + 1)) in
  let! err := unwrap_err (create_org long_id "Name") in
  mentions err "exceeds maximum length".

Definition test_list_orgs : test :=
  let! orgs := unwrap list_orgs in
  let! _ := assert (no_items orgs) in
  let! _ := unwrap (create_org "alpha" "Alpha") in
  let! _ := unwrap (create_org "beta" "Beta") in
  let! orgs := unwrap list_orgs in
  assert_eq (len orgs) 2.

Definition test_update_org : test :=
  let! _ := unwrap (create_org "acme" "Acme Corp") in
  let! updated := unwrap (update_org "acme" (Some "New Name") None) in
  let! _ := assert_eq (o_display_name updated) "New Name" in
  let custom_quotas :=
    {| max_formations := 50;
       max_peers_per_formation := max_peers_per_formation default_quotas;
       max_documents_per_formation := max_documents_per_formation default_quotas;
       max_cdc_sinks := max_cdc_sinks default_quotas;
       max_enrollments_per_hour := max_enrollments_per_hour default_quotas |} in
  let! updated := unwrap (update_org "acme" None (Some custom_quotas)) in
  let! _ := assert_eq (max_formations (o_quotas updated)) 50 in
  assert_eq (o_display_name updated) "New Name".

Definition test_update_nonexistent_org_fails : test :=
  let! err := unwrap_err (update_org "ghost" (Some "Name") None) in
  mentions err "not found".

Definition test_delete_org : test :=
  let! _ := unwrap (create_org "acme" "Acme Corp") in
  let! _ := unwrap (delete_org "acme") in
  assert_err (get_org "acme").

Definition test_delete_nonexistent_org_fails : test :=
  let! err := unwrap_err (delete_org "ghost") in
  mentions err "not found".

Definition test_get_nonexistent_org_fails : test :=
  let! err := unwrap_err (get_org "ghost") in
  mentions err "not found".

(** ** Formations *)
Definition test_create_formation : test :=
  let! _ := unwrap (create_org "acme" "Acme Corp") in
  let! formation := unwrap (create_formation mgr "acme" "logistics" Open) in
  let! _ := assert_eq (f_app_id formation) "logistics" in
  let! _ := assert (negb (is_empty (f_mesh_id formation))) in
  let! fetched := unwrap (get_formation "acme" "logistics") in
  let! _ := assert_eq (f_app_id fetched) "logistics" in
  assert_eq (f_mesh_id fetched) (f_mesh_id formation).

Definition test_create_duplicate_formation_fails : test :=
  let! _ := unwrap (create_org "acme" "Acme Corp") in
  let! _ := unwrap (create_formation mgr "acme" "logistics" Open) in
  let! err := unwrap_err (create_formation mgr "acme" "logistics" Strict) in
  mentions err "already exists".

Definition test_formation_requires_valid_org : test :=
  let! err := unwrap_err (create_formation mgr "ghost" "app1" Open) in
  mentions err "not found".

Definition test_formation_invalid_app_id : test :=
  let! _ := unwrap (create_org "acme" "Acme Corp") in
  let! _ := assert_err (create_formation mgr "acme" "" Open) in
  assert_err (create_formation mgr "acme" "has spaces" Open).

Definition test_list_formations : test :=
  let! _ := unwrap (create_org "acme" "Acme Corp") in
  let! formations := unwrap (list_formations "acme") in
  let! _ := assert (no_items formations) in
  let! _ := unwrap (create_formation mgr "acme" "app1" Open) in
  let! _ := unwrap (create_formation mgr "acme" "app2" Controlled) in
  let! formations := unwrap (list_formations "acme") in
  assert_eq (len formations) 2.

Definition test_list_formations_requires_valid_org : test :=
  let! err := unwrap_err (list_formations "ghost") in
  mentions err "not found".

Definition test_delete_formation : test :=
  let! _ := unwrap (create_org "acme" "Acme Corp") in
  let! _ := unwrap (create_formation mgr "acme" "logistics" Open) in
  let! _ := unwrap (delete_formation "acme" "logistics") in
  assert_err (get_formation "acme" "logistics").

Definition test_delete_formation_cleans_up_genesis : test :=
  let! _ := unwrap (create_org "acme" "Acme Corp") in
  let! _ := unwrap (create_formation mgr "acme" "logistics" Open) in
  let! _ := assert_ok (load_genesis mgr "acme" "logistics") in
  let! _ := unwrap (delete_formation "acme" "logistics") in
  let! err := unwrap_err (load_genesis mgr "acme" "logistics") in
  mentions err "not found".

Definition test_delete_nonexistent_formation_fails : test :=
  let! err := unwrap_err (delete_formation "acme" "ghost") in
  mentions err "not found".

Definition test_delete_org_cascades_formations : test :=
  let! _ := unwrap (create_org "acme" "Acme Corp") in
  let! _ := unwrap (create_formation mgr "acme" "app1" Open) in
  let! _ := unwrap (create_formation mgr "acme" "app2" Controlled) in
  let! _ := unwrap (delete_org "acme") in
  let! _ := unwrap (create_org "acme" "Acme Corp") in
  let! formations := unwrap (list_formations "acme") in
  assert (no_items formations).

(** ** Enrollment tokens *)
Definition test_create_enrollment_token : test :=
  let! _ := unwrap (create_org "acme" "Acme Corp") in
  let! _ := unwrap (create_formation mgr "acme" "app1" Controlled) in
  let! token := unwrap (create_token "acme" "app1" "Test Token" (Some 10) None) in
  let! _ := assert (starts_with (t_token_id token) "peat_") in
  let! _ := assert_eq (t_org_id token) "acme" in
  let! _ := assert_eq (t_app_id token) "app1" in
  let! _ := assert_eq (t_label token) "Test Token" in
  let! _ := assert_eq (t_max_uses token) (Some 10) in
  let! _ := assert_eq (t_uses token) 0 in
  assert (negb (t_revoked token)).

Definition test_create_token_requires_org_and_formation : test :=
  let! _ := assert_err (create_token "ghost" "app1" "Label" None None) in
  let! _ := unwrap (create_org "acme" "Acme Corp") in
  assert_err (create_token "acme" "ghost-app" "Label" None None).

Definition test_create_token_empty_label_fails : test :=
  let! _ := unwrap (create_org "acme" "Acme Corp") in
  let! _ := unwrap (create_formation mgr "acme" "app1" Open) in
  let! err := unwrap_err (create_token "acme" "app1" "" None None) in
  mentions err "must not be empty".

Definition test_list_tokens : test :=
  let! _ := unwrap (create_org "acme" "Acme Corp") in
  let! _ := unwrap (create_formation mgr "acme" "app1" Open) in
  let! _ := unwrap (create_token "acme" "app1" "Token A" None None) in
  let! _ := unwrap (create_token "acme" "app1" "Token B" None None) in
  let! tokens := unwrap (list_tokens "acme" "app1") in
  assert_eq (len tokens) 2.

Definition test_revoke_token : test :=
  let! _ := unwrap (create_org "acme" "Acme Corp") in
  let! _ := unwrap (create_formation mgr "acme" "app1" Open) in
  let! token := unwrap (create_token "acme" "app1" "Tok" None None) in
  let! revoked := unwrap (revoke_token "acme" (t_token_id token)) in
  let! _ := assert (t_revoked revoked) in
  let! err := unwrap_err (revoke_token "acme" (t_token_id token)) in
  mentions err "already revoked".

Definition test_delete_token : test :=
  let! _ := unwrap (create_org "acme" "Acme Corp") in
  let! _ := unwrap (create_formation mgr "acme" "app1" Open) in
  let! token := unwrap (create_token "acme" "app1" "Tok" None None) in
  let! _ := unwrap (delete_token "acme" (t_token_id token)) in
  let! err := unwrap_err (get_token "acme" (t_token_id token)) in
  mentions err "not found".

Definition test_delete_nonexistent_token_fails : test :=
  let! err := unwrap_err (delete_token "acme" "ghost") in
  mentions err "not found".

Definition test_validate_and_consume_token : test :=
  let! _ := unwrap (create_org "acme" "Acme Corp") in
  let! _ := unwrap (create_formation mgr "acme" "app1" Open) in
  let! token := unwrap (create_token "acme" "app1" "Tok" (Some 2) None) in
  let! consumed := unwrap (validate_and_consume_token "acme" "app1" (t_token_id token)) in
  let! _ := assert_eq (t_uses consumed) 1 in
  let! consumed := unwrap (validate_and_consume_token "acme" "app1" (t_token_id token)) in
  let! _ := assert_eq (t_uses consumed) 2 in
  let! err := unwrap_err (validate_and_consume_token "acme" "app1" (t_token_id token)) in
  mentions err "maximum uses".

Definition test_validate_token_wrong_formation : test :=
  let! _ := unwrap (create_org "acme" "Acme Corp") in
  let! _ := unwrap (create_formation mgr "acme" "app1" Open) in
  let! _ := unwrap (create_formation mgr "acme" "app2" Open) in
  let! token := unwrap (create_token "acme" "app1" "Tok" None None) in
  let! err := unwrap_err (validate_and_consume_token "acme" "app2" (t_token_id token)) in
  mentions err "does not belong to formation".

Definition test_validate_revoked_token_fails : test :=
  let! _ := unwrap (create_org "acme" "Acme Corp") in
  let! _ := unwrap (create_formation mgr "acme" "app1" Open) in
  let! token := unwrap (create_token "acme" "app1" "Tok" None None) in
  let! _ := unwrap (revoke_token "acme" (t_token_id token)) in
  let! err := unwrap_err (validate_and_consume_token "acme" "app1" (t_token_id token)) in
  mentions err "revoked".

Definition test_token_expiration : test :=
  let! _ := unwrap (create_org "acme" "Acme Corp") in
  let! _ := unwrap (create_formation mgr "acme" "app1" Open) in
  try! now := now_ms in
  let! token := unwrap (create_token "acme" "app1" "Expired" None (Some (saturating_sub now 1000))) in
  let! err := unwrap_err (validate_and_consume_token "acme" "app1" (t_token_id token)) in
  mentions err "expired".

Fixpoint consume_in_turn (token_id : string) (turns : list Z) : test :=
  match turns with
  | [] => ok tt
  | i :: turns =>
      let! consumed := unwrap (validate_and_consume_token "acme" "app1" token_id) in
      let! _ := assert_eq (t_uses consumed) i in
      consume_in_turn token_id turns
  end.
Definition test_token_unlimited_uses : test :=
  let! _ := unwrap (create_org "acme" "Acme Corp") in
  let! _ := unwrap (create_formation mgr "acme" "app1" Open) in
  let! token := unwrap (create_token "acme" "app1" "Unlimited" None None) in
  consume_in_turn (t_token_id token) [1; 2; 3; 4; 5].

(** ** Policy rules *)
Definition test_create_policy_rule : test :=
  let! _ := unwrap (create_org "acme" "Acme Corp") in
  let! rule := unwrap (create_policy_rule "acme" "role" "admin" Authority 0x0F 10) in
  let! _ := assert (negb (is_empty (r_rule_id rule))) in
  let! _ := assert_eq (r_org_id rule) "acme" in
  let! _ := assert_eq (r_claim_key rule) "role" in
  let! _ := assert_eq (r_claim_value rule) "admin" in
  let! _ := assert_eq (r_tier rule) Authority in
  let! _ := assert_eq (r_permissions rule) 0x0F in
  assert_eq (r_priority rule) 10.

Definition test_create_policy_rule_requires_org : test :=
  let! err := unwrap_err (create_policy_rule "ghost" "role" "admin" Authority 0x0F 10) in
  mentions err "not found".

Definition test_list_policy_rules : test :=
  let! _ := unwrap (create_org "acme" "Acme Corp") in
  let! _ := unwrap (create_policy_rule "acme" "role" "admin" Authority 0x0F 10) in
  let! _ := unwrap (create_policy_rule "acme" "role" "viewer" Endpoint 0x01 20) in
  let! rules := unwrap (list_policy_rules "acme") in
  assert_eq (len rules) 2.

Definition test_delete_policy_rule : test :=
  let! _ := unwrap (create_org "acme" "Acme Corp") in
  let! rule := unwrap (create_policy_rule "acme" "role" "admin" Authority 0x0F 10) in
  let! _ := unwrap (delete_policy_rule "acme" (r_rule_id rule)) in
  let! rules := unwrap (list_policy_rules "acme") in
  assert (no_items rules).

Definition test_delete_nonexistent_policy_rule_fails : test :=
  let! err := unwrap_err (delete_policy_rule "acme" "ghost") in
  mentions err "not found".

(** ** Quota enforcement *)
Definition test_formation_quota_enforcement : test :=
  let! _ := unwrap (create_org "acme" "Acme Corp") in
  let quotas :=
    {| max_formations := 2;
       max_peers_per_formation := max_peers_per_formation default_quotas;
       max_documents_per_formation := max_documents_per_formation default_quotas;
       max_cdc_sinks := max_cdc_sinks default_quotas;
       max_enrollments_per_hour := max_enrollments_per_hour default_quotas |} in
  let! _ := unwrap (update_org "acme" None (Some quotas)) in
  let! _ := unwrap (create_formation mgr "acme" "app1" Open) in
  let! _ := unwrap (create_formation mgr "acme" "app2" Open) in
  let! err := unwrap_err (create_formation mgr "acme" "app3" Open) in
  mentions err "quota".

Definition test_cdc_sink_quota_enforcement : test :=
  let! _ := unwrap (create_org "acme" "Acme Corp") in
  let quotas :=
    {| max_formations := max_formations default_quotas;
       max_peers_per_formation := max_peers_per_formation default_quotas;
       max_documents_per_formation := max_documents_per_formation default_quotas;
       max_cdc_sinks := 1;
       max_enrollments_per_hour := max_enrollments_per_hour default_quotas |} in
  let! _ := unwrap (update_org "acme" None (Some quotas)) in
  let! _ := unwrap (create_sink "acme" (Webhook "https://example.com/hook")) in
  let! err := unwrap_err (create_sink "acme" (Webhook "https://example.com/hook2")) in
  mentions err "quota".

(** ** Genesis *)
Definition test_load_genesis_plaintext : test :=
  let! _ := unwrap (create_org "acme" "Acme Corp") in
  let! formation := unwrap (create_formation mgr "acme" "app1" Open) in
  let! genesis := unwrap (load_genesis mgr "acme" "app1") in
  assert_eq (genesis_mesh_id genesis) (f_mesh_id formation).

Definition test_load_genesis_nonexistent_fails : test :=
  let! err := unwrap_err (load_genesis mgr "acme" "ghost") in
  mentions err "not found".

(** ** CDC sinks *)
Definition test_create_and_list_sinks : test :=
  let! _ := unwrap (create_org "acme" "Acme Corp") in
  let! sink := unwrap (create_sink "acme" (Webhook "https://example.com/hook")) in
  let! _ := assert (s_enabled sink) in
  let! _ := assert_eq (s_org_id sink) "acme" in
  let! sinks := unwrap (list_sinks "acme") in
  assert_eq (len sinks) 1.

Definition test_toggle_sink : test :=
  let! _ := unwrap (create_org "acme" "Acme Corp") in
  let! sink := unwrap (create_sink "acme" (Nats "peat.cdc")) in
  let! toggled := unwrap (toggle_sink "acme" (s_sink_id sink) false) in
  let! _ := assert (negb (s_enabled toggled)) in
  let! toggled := unwrap (toggle_sink "acme" (s_sink_id sink) true) in
  assert (s_enabled toggled).

Definition test_delete_sink : test :=
  let! _ := unwrap (create_org "acme" "Acme Corp") in
  let! sink := unwrap (create_sink "acme" (Kafka "peat-events")) in
  let! _ := unwrap (delete_sink "acme" (s_sink_id sink)) in
  assert_err (get_sink "acme" (s_sink_id sink)).

Definition test_create_sink_validation : test :=
  let! _ := unwrap (create_org "acme" "Acme Corp") in
  let! _ := assert_err (create_sink "acme" (Webhook "")) in
  let! _ := assert_err (create_sink "acme" (Webhook "ftp://example.com")) in
  let! _ := assert_err (create_sink "acme" (Nats "")) in
  assert_err (create_sink "acme" (Kafka "")).

(** ** Identity providers *)
Definition test_create_and_list_idps : test :=
  let! _ := unwrap (create_org "acme" "Acme Corp") in
  let! idp := unwrap (create_idp "acme" "https://auth.example.com" "client-id" "client-secret") in
  let! _ := assert (i_enabled idp) in
  let! _ := assert_eq (i_issuer_url idp) "https://auth.example.com" in
  let! idps := unwrap (list_idps "acme") in
  assert_eq (len idps) 1.

Definition test_create_idp_validation : test :=
  let! _ := unwrap (create_org "acme" "Acme Corp") in
  let! _ := assert_err (create_idp "acme" "http://auth.example.com" "id" "secret") in
  let! _ := assert_err (create_idp "acme" "" "id" "secret") in
  let! _ := assert_err (create_idp "acme" "https://auth.example.com" "" "secret") in
  assert_err (create_idp "acme" "https://auth.example.com" "id" "").

Definition test_toggle_idp : test :=
  let! _ := unwrap (create_org "acme" "Acme Corp") in
  let! idp := unwrap (create_idp "acme" "https://auth.example.com" "id" "secret") in
  let! toggled := unwrap (toggle_idp "acme" (i_idp_id idp) false) in
  assert (negb (i_enabled toggled)).

Definition test_delete_idp : test :=
  let! _ := unwrap (create_org "acme" "Acme Corp") in
  let! idp := unwrap (create_idp "acme" "https://auth.example.com" "id" "secret") in
  let! _ := unwrap (delete_idp "acme" (i_idp_id idp)) in
  assert_err (get_idp "acme" (i_idp_id idp)).

(** ** The audit log *)
Definition test_audit_log : test :=
  let! _ := unwrap (create_org "acme" "Acme Corp") in
  let entry :=
    {| a_audit_id := "audit-1"; a_org_id := "acme"; a_app_id := "app1"; a_idp_id := "idp-1";
       a_subject := "user@example.com"; a_decision := Approved Endpoint 0x01;
       a_timestamp_ms := 1000 |} in
  let! _ := unwrap (append_audit entry) in
  let! entries := unwrap (list_audit "acme" None 100) in
  let! _ := assert_eq (len entries) 1 in
  let! first := some (entries !! 0%nat) in
  let! _ := assert_eq (a_audit_id first) "audit-1" in
  let! entries := unwrap (list_audit "acme" (Some "app1") 100) in
  let! _ := assert_eq (len entries) 1 in
  let! entries := unwrap (list_audit "acme" (Some "other-app") 100) in
  assert (no_items entries).

Fixpoint append_numbered (numbers : list Z) : test :=
  match numbers with
  | [] => ok tt
  | i :: numbers =>
      let entry :=
        {| a_audit_id := "audit-" +:+ fmt_dec i; a_org_id := "acme"; a_app_id := "app1";
           a_idp_id := "idp-1"; a_subject := "user" +:+ fmt_dec i +:+ "@example.com";
           a_decision := Approved Endpoint 0x01; a_timestamp_ms := 1000 + i * 100 |} in
      let! _ := unwrap (append_audit entry) in
      append_numbered numbers
  end.
Definition test_count_recent_enrollments : test :=
  let! _ := unwrap (create_org "acme" "Acme Corp") in
  let! _ := append_numbered [0; 1; 2; 3; 4] in
  let! count := unwrap (count_recent_enrollments "acme" 1000) in
  let! _ := assert_eq count 5 in
  let! count := unwrap (count_recent_enrollments "acme" 1300) in
  assert_eq count 2.

(** ** Input validation helpers *)
Definition test_validate_identifier : test :=
  let! _ := assert (is_ok (validate_identifier "acme" "test")) in
  let! _ := assert (is_ok (validate_identifier "my-org.v2" "test")) in
  let! _ := assert (is_ok (validate_identifier "A_123" "test")) in
  let! _ := assert (negb (is_ok (validate_identifier "" "test"))) in
  let! _ := assert (negb (is_ok (validate_identifier "-bad" "test"))) in
  let! _ := assert (negb (is_ok (validate_identifier ".bad" "test"))) in
  let! _ := assert (negb (is_ok (validate_identifier "has space" "test"))) in
  let! _ := assert (negb (is_ok (validate_identifier "bad/slash" "test"))) in
  let max := repeat_str "a" (Z.to_nat MAX_IDENTIFIER_LEN) in
  let! _ := assert (is_ok (validate_identifier max "test")) in
  let over := repeat_str "a" (Z.to_nat (MAX_IDENTIFIER_LEN + 1)) in
  assert (negb (is_ok (validate_identifier over "test"))).

Definition test_validate_display_name : test :=
  let! _ := assert (is_ok (validate_display_name "Acme Corp")) in
  let! _ := assert (negb (is_ok (validate_display_name ""))) in
  let long := repeat_str "a" (Z.to_nat (MAX_DISPLAY_NAME_LEN + 1)) in
  assert (negb (is_ok (validate_display_name long))).

Definition test_validate_non_empty : test :=
  let! _ := assert (is_ok (validate_non_empty "hello" "field")) in
  let! _ := assert (negb (is_ok (validate_non_empty "" "field"))) in
  assert (negb (is_ok (validate_non_empty "   " "field"))).

Definition test_validate_http_url : test :=
  let! _ := assert (is_ok (validate_http_url "https://example.com" "url")) in
  let! _ := assert (is_ok (validate_http_url "http://example.com" "url")) in
  let! _ := assert (negb (is_ok (validate_http_url "ftp://example.com" "url"))) in
  assert (negb (is_ok (validate_http_url "" "url"))).

Definition test_validate_issuer_url : test :=
  let! _ := assert (is_ok (validate_issuer_url "https://auth.example.com")) in
  let! _ := assert (negb (is_ok (validate_issuer_url "http://auth.example.com"))) in
  assert (negb (is_ok (validate_issuer_url ""))).
End Tests.

(** ** All of them *)
Definition manager_tests : list test := [
  test_create_org; test_create_duplicate_org_fails; test_create_org_invalid_id;
  test_create_org_id_too_long; test_list_orgs; test_update_org;
  test_update_nonexistent_org_fails; test_delete_org; test_delete_nonexistent_org_fails;
  test_get_nonexistent_org_fails; test_create_formation; test_create_duplicate_formation_fails;
  test_formation_requires_valid_org; test_formation_invalid_app_id; test_list_formations;
  test_list_formations_requires_valid_org; test_delete_formation;
  test_delete_formation_cleans_up_genesis; test_delete_nonexistent_formation_fails;
  test_delete_org_cascades_formations; test_create_enrollment_token;
  test_create_token_requires_org_and_formation; test_create_token_empty_label_fails;
  test_list_tokens; test_revoke_token; test_delete_token; test_delete_nonexistent_token_fails;
  test_validate_and_consume_token; test_validate_token_wrong_formation;
  test_validate_revoked_token_fails; test_token_expiration; test_token_unlimited_uses;
  test_create_policy_rule; test_create_policy_rule_requires_org; test_list_policy_rules;
  test_delete_policy_rule; test_delete_nonexistent_policy_rule_fails;
  test_formation_quota_enforcement; test_cdc_sink_quota_enforcement;
  test_load_genesis_plaintext; test_load_genesis_nonexistent_fails; test_create_and_list_sinks;
  test_toggle_sink; test_delete_sink; test_create_sink_validation; test_create_and_list_idps;
  test_create_idp_validation; test_toggle_idp; test_delete_idp; test_audit_log;
  test_count_recent_enrollments; test_validate_identifier; test_validate_display_name;
  test_validate_non_empty; test_validate_http_url; test_validate_issuer_url].

(** Every test of tenant/manager.rs passes when it is run on the modelled
    manager and redb backend. *)
Lemma manager_tests_pass : Forall (λ t, passes t = true) manager_tests.
Proof. apply passes_all. by vm_compute. Qed.
