(* ===== verification/ComponentTests.v ===== *)
(** The unit tests of the other source files, under their names, one Module a
    file, and that the model passes them all.

    Left out: the tests of watcher.rs that ask two hashes to differ, which is the
    standard hasher's business, and those that exercise the standard library or
    serde alone. *)
From S2P Require Import Prelude Text Extern Models Errors Effects Config Redb Crypto Concrete Manager Auth Enroll Watcher Examples Harness ManagerTests.
From Stdlib Require Import ZArith.
From Stdlib.Strings Require Import Byte.

#[local] Open Scope string_scope.
#[local] Open Scope Z_scope.

(** ** storage/redb_backend.rs *)
Module RedbTests.
Definition acme : Organization :=
  {| o_org_id := "acme"; o_display_name := "Acme Corp"; o_quotas := default_quotas;
     o_created_at := 1000 |}.

Definition test_org_crud : test :=
  let! _ := unwrap (store.create_org acme) in
  let! fetched := unwrap (store.get_org "acme") in
  let! fetched := some fetched in
  let! _ := assert_eq (o_display_name fetched) "Acme Corp" in
  let! orgs := unwrap store.list_orgs in
  let! _ := assert_eq (len orgs) 1 in
  let! deleted := unwrap (store.delete_org "acme") in
  let! _ := assert deleted in
  let! gone := unwrap (store.get_org "acme") in
  let! _ := assert (bool_decide (gone = None)) in
  let! deleted := unwrap (store.delete_org "acme") in
  assert (negb deleted).

Definition test_formation_crud : test :=
  let! _ := unwrap (store.create_org acme) in
  let formation :=
    {| f_app_id := "logistics"; f_mesh_id := "abcd1234"; f_enrollment_policy := Controlled |} in
  let! _ := unwrap (store.create_formation "acme" formation) in
  let! fetched := unwrap (store.get_formation "acme" "logistics") in
  let! fetched := some fetched in
  let! _ := assert_eq (f_mesh_id fetched) "abcd1234" in
  let! formations := unwrap (store.list_formations "acme") in
  let! _ := assert_eq (len formations) 1 in
  let! other := unwrap (store.list_formations "other") in
  let! _ := assert (no_items other) in
  let! deleted := unwrap (store.delete_formation "acme" "logistics") in
  let! _ := assert deleted in
  let! gone := unwrap (store.get_formation "acme" "logistics") in
  assert (bool_decide (gone = None)).

Fixpoint create_formations (app_ids : list string) : test :=
  match app_ids with
  | [] => ok tt
  | app_id :: app_ids =>
      let f := {| f_app_id := app_id; f_mesh_id := "id-" +:+ app_id; f_enrollment_policy := Open |} in
      let! _ := unwrap (store.create_formation "acme" f) in
      create_formations app_ids
  end.
Definition test_delete_org_cascades_formations : test :=
  let! _ := unwrap (store.create_org acme) in
  let! _ := create_formations ["mesh-a"; "mesh-b"; "mesh-c"] in
  let! formations := unwrap (store.list_formations "acme") in
  let! _ := assert_eq (len formations) 3 in
  let! _ := unwrap (store.delete_org "acme") in
  let! formations := unwrap (store.list_formations "acme") in
  assert_eq (len formations) 0.

Definition all : list test :=
  [test_org_crud; test_formation_crud; test_delete_org_cascades_formations].
End RedbTests.

(** ** crypto/local.rs *)
Module LocalTests.
Definition wrap_unwrap_roundtrip : test :=
  let provider := local.LocalKeyProvider (bytes_of x42 32) in
  let dek := bytes_of x99 32 in
  let! wrapped := unwrap (wrap_dek provider dek) in
  let! _ := assert_eq (len wrapped) 60 in
  let! recovered := unwrap (unwrap_dek provider wrapped) in
  assert_eq recovered dek.

Definition from_hex_valid : test :=
  let! p := unwrap (lift (local.from_hex (repeat_str "aa" 32))) in
  assert_eq p (bytes_of xaa 32).
Definition from_hex_wrong_length : test := assert_err (lift (local.from_hex "aabb")).
Definition from_hex_invalid_chars : test := assert_err (lift (local.from_hex (repeat_str "zz" 32))).

Definition all : list test :=
  [wrap_unwrap_roundtrip; from_hex_valid; from_hex_wrong_length;
   from_hex_invalid_chars].
End LocalTests.

(** ** crypto/mod.rs *)
Module CryptoTests.
Definition sealing_key (b : byte) : KeyProvider := local.LocalKeyProvider (bytes_of b 32).
(** [open(..).await.unwrap().unwrap()] *)
Definition opened (provider : KeyProvider) (envelope : bytes) : prog (result string bytes) :=
  let! recovered := unwrap (open provider envelope) in some recovered.

Definition roundtrip_seal_open : test :=
  let provider := sealing_key xab in
  let plaintext := as_bytes "mesh genesis secret key material here" in
  let! envelope := unwrap (seal provider plaintext) in
  let! _ := assert_eq (take 4 envelope) MAGIC in
  let! _ := assert_eq (envelope !! 4%nat) (Some VERSION) in
  let! recovered := opened provider envelope in
  assert_eq recovered plaintext.

Definition open_returns_none_for_plaintext : test :=
  let! result := unwrap (open (sealing_key xab) (as_bytes "not an envelope, just raw genesis bytes")) in
  assert_eq result None.

Definition different_seals_produce_different_envelopes : test :=
  let provider := sealing_key xdd in
  let plaintext := as_bytes "same input" in
  let! e1 := unwrap (seal provider plaintext) in
  let! e2 := unwrap (seal provider plaintext) in
  let! _ := assert_ne e1 e2 in
  let! r1 := opened provider e1 in
  let! _ := assert_eq r1 plaintext in
  let! r2 := opened provider e2 in
  assert_eq r2 plaintext.

Definition empty_plaintext_roundtrip : test :=
  let provider := sealing_key xee in
  let! envelope := unwrap (seal provider []) in
  let! recovered := opened provider envelope in
  assert (no_items recovered).

(** *** build_key_provider *)
#[local] Instance encrypt_request_serde : Serde vault.EncryptRequest :=
  {| to_vec _ := Ok []; from_slice _ := Err "write only" |}.
#[local] Instance encrypt_response_serde : Serde vault.EncryptResponse :=
  {| to_vec _ := Ok []; from_slice _ := Err "no server" |}.
#[local] Instance decrypt_request_serde : Serde vault.DecryptRequest :=
  {| to_vec _ := Ok []; from_slice _ := Err "write only" |}.
#[local] Instance decrypt_response_serde : Serde vault.DecryptResponse :=
  {| to_vec _ := Ok []; from_slice _ := Err "no server" |}.
Definition no_aws : kms.Client := {|
  kms.client_encrypt _ _ := bail "no network"; kms.client_decrypt _ := bail "no network" |}.

Definition test_config (kek kms_key_arn vault_addr : option string) : GatewayConfig := {|
  bind_addr := "127.0.0.1:0"; storage := Redb "/dev/null";
  cdc := {| nats_url := None; kafka_brokers := None |};
  ui_dir := None; kek := kek; kms_key_arn := kms_key_arn; admin_token := None;
  vault_addr := vault_addr; vault_token := None; vault_transit_key := None;
  mesh_brokers := []; mesh_poll_interval_ms := 5000 |}.
(** The features [aws-kms] and [vault] of the build. *)
Definition built (aws_kms vault : bool) (config : GatewayConfig) : M (KeyProvider * bool) :=
  lift (build_key_provider
    {| aws_kms := aws_kms; vault_feature := vault; postgres := false |} no_aws config).

Definition build_provider_plaintext_fallback : test :=
  let! kp := unwrap (built false false (test_config None None None)) in
  assert (negb kp.2).
Definition build_provider_local_kek : test :=
  let! kp := unwrap (built false false (test_config (Some (repeat_str "aa" 32)) None None)) in
  assert kp.2.
Definition build_provider_kms_without_feature : test :=
  let config := test_config None (Some "arn:aws:kms:us-east-1:000:key/test") None in
  let! err := unwrap_err (built false false config) in
  mentions err "aws-kms".
Definition build_provider_vault_without_feature : test :=
  let! err := unwrap_err (built false false (test_config None None (Some "http://127.0.0.1:8200"))) in
  mentions err "vault".
Definition build_provider_vault_addr_without_token : test :=
  let! err := unwrap_err (built false true (test_config None None (Some "http://127.0.0.1:8200"))) in
  mentions err "PEAT_VAULT_TOKEN".

Definition all : list test :=
  [roundtrip_seal_open; open_returns_none_for_plaintext;
   different_seals_produce_different_envelopes;
   empty_plaintext_roundtrip; build_provider_plaintext_fallback; build_provider_local_kek;
   build_provider_kms_without_feature; build_provider_vault_without_feature;
   build_provider_vault_addr_without_token].
End CryptoTests.

(** ** crypto/kms.rs *)
Module KmsTests.
(** A KMS that wraps with a key of its own; [fail_encrypt] is the mock's switch. *)
Definition MockKmsOps (internal_key : bytes) (fail_encrypt : bool) : kms.KmsOps := {|
  kms.encrypt := λ _ plaintext,
    if fail_encrypt then bail (Remote "MockKmsOps: simulated encrypt failure") else
    try! nonce_bytes := random_bytes 12 in
    let! ct := lift (map_err (λ e, Remote ("mock encrypt: " +:+ e))
                       (aead_encrypt internal_key nonce_bytes plaintext)) in
    ok (nonce_bytes ++ ct)%list;
  kms.decrypt := λ ciphertext,
    if len ciphertext <? 12 + 16 then bail (Remote "MockKmsOps: ciphertext too short") else
    lift (map_err (λ e, Remote ("mock decrypt: " +:+ e))
            (aead_decrypt internal_key (take 12 ciphertext) (drop 12 ciphertext)));
|}.

Definition roundtrip_wrap_unwrap : test :=
  let provider := kms.AwsKmsProvider (MockKmsOps (bytes_of xaa 32) false) "test-key" in
  let dek := bytes_of x42 32 in
  let! wrapped := unwrap (wrap_dek provider dek) in
  let! recovered := unwrap (unwrap_dek provider wrapped) in
  assert_eq recovered dek.

Definition encrypt_error_propagates : test :=
  let provider := kms.AwsKmsProvider (MockKmsOps (bytes_of xcc 32) true) "test-key" in
  let! err := unwrap_err (wrap_dek provider (bytes_of x42 32)) in
  mentions err "simulated".

Definition full_seal_open_roundtrip : test :=
  let provider := kms.AwsKmsProvider (MockKmsOps (bytes_of xdd 32) false) "test-key" in
  let plaintext := as_bytes "mesh genesis secret key material" in
  let! envelope := unwrap (seal provider plaintext) in
  let! _ := assert_eq (take 4 envelope) (as_bytes "PENV") in
  let! recovered := CryptoTests.opened provider envelope in
  assert_eq recovered plaintext.

Definition all : list test :=
  [roundtrip_wrap_unwrap; encrypt_error_propagates;
   full_seal_open_roundtrip].
End KmsTests.

(** ** api/auth.rs *)
Module AuthTests.
Definition constant_time_eq_same : test :=
  assert (constant_time_eq (as_bytes "secret") (as_bytes "secret")).
Definition constant_time_eq_different : test :=
  assert (negb (constant_time_eq (as_bytes "secret") (as_bytes "wrong!"))).
Definition constant_time_eq_different_lengths : test :=
  assert (negb (constant_time_eq (as_bytes "short") (as_bytes "longer"))).
Definition constant_time_eq_empty : test := assert (constant_time_eq [] []).
Definition all : list test :=
  [constant_time_eq_same; constant_time_eq_different; constant_time_eq_different_lengths;
   constant_time_eq_empty].
End AuthTests.

(** ** config.rs *)
Module ConfigTests.
Definition parses_mesh_broker_mappings : test :=
  let! mappings := unwrap (lift (parse_mesh_broker_mappings (Some
    "acme|mesh-a|http://127.0.0.1:9001|cot-broadcast,markers;bravo|mesh-b|http://mesh:8081|"))) in
  let! _ := assert_eq (len mappings) 2 in
  let! m0 := some (mappings !! 0%nat) in
  let! m1 := some (mappings !! 1%nat) in
  let! _ := assert_eq (mb_org_id m0) "acme" in
  let! _ := assert_eq (mb_app_id m0) "mesh-a" in
  let! _ := assert_eq (mb_base_url m0) "http://127.0.0.1:9001" in
  let! _ := assert_eq (mb_collections m0) ["cot-broadcast"; "markers"] in
  assert_eq (mb_collections m1) default_mesh_collections.
Definition rejects_invalid_mesh_broker_entry : test :=
  let! err := unwrap_err (lift (parse_mesh_broker_mappings (Some "acme|missing"))) in
  mentions err "base_url".
Definition all : list test := [parses_mesh_broker_mappings; rejects_invalid_mesh_broker_entry].
End ConfigTests.

(** ** api/enroll.rs *)
Module EnrollTests.
Definition rule (claim_key claim_value : string) (tier : MeshTier) (permissions priority : Z) :
    PolicyRule :=
  {| r_rule_id := "test"; r_org_id := "test"; r_claim_key := claim_key;
     r_claim_value := claim_value; r_tier := tier; r_permissions := permissions;
     r_priority := priority |}.
(** [Approved { tier, permissions }] with the tier asserted, and the permissions
    where the test asserts them. *)
Definition approves (rules : list PolicyRule) (c : Map) (expected : MeshTier)
    (expected_permissions : option Z) : test :=
  match evaluate_policy rules c with
  | Approved tier permissions =>
      let! _ := assert_eq tier expected in
      match expected_permissions with
      | Some p => assert_eq permissions p
      | None => ok tt
      end
  | Denied _ => bail "should approve"
  end.
Definition strings (l : list string) : Value := JArray (JString <$> l).

Definition string_claim_match : test :=
  approves [rule "role" "admin" Authority 0x0F 10] [("role", JString "admin")] Authority (Some 0x0F).
Definition string_claim_no_match_defaults_to_endpoint : test :=
  approves [rule "role" "admin" Authority 0x0F 10] [("role", JString "viewer")] Endpoint (Some 0).
Definition bool_claim_true_match : test :=
  approves [rule "email_verified" "true" Infrastructure 0x01 10] [("email_verified", JBool true)]
    Infrastructure None.
Definition bool_claim_false_match : test :=
  approves [rule "disabled" "false" Endpoint 0 10] [("disabled", JBool false)] Endpoint None.
Definition bool_claim_mismatch : test :=
  approves [rule "email_verified" "true" Infrastructure 0 10] [("email_verified", JBool false)]
    Endpoint None.
Definition array_claim_contains_match : test :=
  approves [rule "groups" "operators" Infrastructure 0x03 10]
    [("groups", strings ["users"; "operators"; "viewers"])] Infrastructure (Some 0x03).
Definition array_claim_no_match : test :=
  approves [rule "groups" "admins" Authority 0x0F 10] [("groups", strings ["users"; "viewers"])]
    Endpoint None.
Definition number_claim_match : test :=
  approves [rule "level" "5" Infrastructure 0x01 10] [("level", JNumber (PosInt 5))]
    Infrastructure None.
Definition number_claim_mismatch : test :=
  approves [rule "level" "5" Infrastructure 0x01 10] [("level", JNumber (PosInt 3))] Endpoint None.
Definition priority_ordering_first_match_wins : test :=
  approves [rule "role" "admin" Authority 0x0F 100; rule "role" "admin" Endpoint 0 10]
    [("role", JString "admin")] Endpoint None.
Definition no_rules_defaults_to_endpoint : test :=
  approves [] [("role", JString "anything")] Endpoint (Some 0).
Definition missing_claim_key_skips_rule : test :=
  approves [rule "role" "admin" Authority 0x0F 10] [("email", JString "user@example.com")]
    Endpoint None.

Definition all : list test :=
  [string_claim_match; string_claim_no_match_defaults_to_endpoint; bool_claim_true_match;
   bool_claim_false_match; bool_claim_mismatch; array_claim_contains_match; array_claim_no_match;
   number_claim_match; number_claim_mismatch; priority_ordering_first_match_wins;
   no_rules_defaults_to_endpoint; missing_claim_key_skips_rule].
End EnrollTests.

(** ** cdc/watcher.rs *)
Module WatcherTests.
Definition change_hash_is_lowercase_hex : test :=
  let hex_str := fmt_x (hash_fields "doc-1" ∅ 12345) in
  assert (all_chars (λ c, is_ascii_digit c || ((97 <=? code c) && (code c <=? 102))) hex_str).

(** *** The life of a watcher, on a store that can be observed *)
Definition observe (collection : string) : result string unit := Ok tt.
Definition handle_count (st : Watchers) : Z := Z.of_nat (size (handles st)).

Definition double_watch_returns_ok_without_spawning_second_task : test :=
  let '(r, st) := watch_formation observe "org1" "app1" watchers_new in
  let! _ := unwrap (lift r) in
  let '(result, st) := watch_formation observe "org1" "app1" st in
  let! _ := assert (is_ok result) in
  assert_eq (handle_count st) 1.
Definition different_formations_get_separate_handles : test :=
  let '(r, st) := watch_formation observe "org1" "app1" watchers_new in
  let! _ := unwrap (lift r) in
  let '(r, st) := watch_formation observe "org1" "app2" st in
  let! _ := unwrap (lift r) in
  assert_eq (handle_count st) 2.
Definition unwatch_removes_handle : test :=
  let '(r, st) := watch_formation observe "org1" "app1" watchers_new in
  let! _ := unwrap (lift r) in
  let! _ := assert_eq (handle_count st) 1 in
  assert_eq (handle_count (unwatch_formation "org1" "app1" st)) 0.
Definition unwatch_nonexistent_is_noop : test :=
  assert_eq (handle_count (unwatch_formation "org1" "app1" watchers_new)) 0.
Definition shutdown_clears_all_handles : test :=
  let '(r, st) := watch_formation observe "org1" "app1" watchers_new in
  let! _ := unwrap (lift r) in
  let '(r, st) := watch_formation observe "org2" "app2" st in
  let! _ := unwrap (lift r) in
  let! _ := assert_eq (handle_count st) 2 in
  assert_eq (handle_count (shutdown st)) 0.
Definition watch_after_unwatch_re_registers : test :=
  let '(r, st) := watch_formation observe "org1" "app1" watchers_new in
  let! _ := unwrap (lift r) in
  let st := unwatch_formation "org1" "app1" st in
  let! _ := assert_eq (handle_count st) 0 in
  let '(r, st) := watch_formation observe "org1" "app1" st in
  let! _ := unwrap (lift r) in
  assert_eq (handle_count st) 1.

Definition all : list test :=
  [change_hash_is_lowercase_hex;
   double_watch_returns_ok_without_spawning_second_task;
   different_formations_get_separate_handles; unwatch_removes_handle;
   unwatch_nonexistent_is_noop; shutdown_clears_all_handles; watch_after_unwatch_re_registers].
End WatcherTests.

(** ** All of them *)
Definition component_tests : list test :=
  (RedbTests.all ++ LocalTests.all ++ CryptoTests.all ++ KmsTests.all ++ AuthTests.all ++
   ConfigTests.all ++ EnrollTests.all ++ WatcherTests.all)%list.

Lemma component_tests_pass : Forall (λ t, passes t = true) component_tests.
Proof. apply passes_all. by vm_compute. Qed.

(** Run on the model, the unit tests of tenant/manager.rs, redb_backend.rs, local.rs,
    crypto/mod.rs, kms.rs, auth.rs, config.rs, enroll.rs and watcher.rs pass. Left out
    are the tests of what the model takes from elsewhere: that the cipher rejects a
    wrong key or a changed text, and that the standard hasher is a function. *)
Example unit_tests : Forall (λ t, passes t = true) (manager_tests ++ component_tests)%list.
Proof. apply Forall_app. split; [apply manager_tests_pass|apply component_tests_pass]. Qed.
