(* ===== verification/Witnesses.v ===== *)
(** The theorems at concrete inputs: the laws they assume hold of the instances of
    [Concrete.v], and their other hypotheses hold of the content of
    [Examples.v]. *)
From S2P Require Import Loadtest LoadtestSpec LoadtestRoutes Main Prelude Text Extern Models Errors Effects Spec Redb RedbSpec Wp Sql Rows Postgres PostgresSpec Crypto Concrete PgConcrete Manager Mem Invariant ManagerInv ManagerSpec Auth Enroll EnrollSpec Config Cdc CdcSpec Watcher WatcherSpec Migrate MeshIngest MeshIngestSpec Concurrency ConcurrencySpec RateLimit Calls WatcherEquiv Typing Quota Requests System Isolation RedbIsolation EndToEnd Examples Formations Api ApiSpec.
From Stdlib Require Import ZArith.
From Stdlib.Strings Require Import Byte.

#[local] Open Scope Z_scope.

(** ** Storage *)
Definition new_file : world (Database gmap_table) := World (Redb.open []) 0 0 0 [].


Lemma redb_refines_spec_witness :
  ∃ m', redb_rep (T:=gmap_table) (handle (CreateSink ex_sink) (Redb.open [])).2 m' ∧
        d_sinks m' !! ("acme", "s1")%string = Some ex_sink.
Proof.
  pose proof (proj1 (redb_refines_spec (T:=gmap_table) (CreateSink ex_sink) (Redb.open []) db_empty)
    (redb_rep_open _) (conj eq_refl eq_refl)) as (m' & -> & Hr).
  eexists. split; [exact Hr|]. reflexivity.
Defined.

Lemma concurrent_calls_witness :
  ∃ m', w_store (interleave ex_oracle [0; 1; 0; 1; 0; 1]%nat
                   (perform_call ex_mgr <$> [CallConsumeToken "acme" "mesh" "peat_00";
                                             CallRevokeToken "acme" "peat_00"]) ex_world).2 = m' ∧
        rows_wf m'.
Proof.
  apply (concurrent_calls_rows_wf (rep:=eq) (H0:=mem_storage_spec) ex_mgr ex_oracle _ _ ex_world ex_db);
    [apply local_laws|by repeat constructor|done|apply wf_rows_wf, ex_wf].
Defined.

(** ** Keys *)
Lemma seal_roundtrip_witness :
  wp ex_oracle false (let! data := seal ex_kp ex_genesis in open ex_kp data)
    (λ r _, r = Ok (Some ex_genesis)) ex_world.
Proof.
  refine (proj1 (seal_roundtrip ex_oracle false ex_kp ex_genesis ex_world _ _)); [|by vm_compute].
  apply local_wraps. reflexivity.
Defined.

Lemma open_envelope_guard_witness :
  wp ex_oracle false (open ex_kp (MAGIC ++ [VERSION] ++ replicate 10 x00))
    (λ r _, r = Err EnvelopeTooShort) ex_world.
Proof.
  eapply wp_mono; [apply (open_envelope_guard ex_oracle false); [apply local_laws|done]|].
  intros r w (_ & _ & _ & Hshort). apply Hshort; [done|cbn; lia].
Defined.

(** ** Enrollment *)
Lemma enroll_witness :
  wp ex_oracle false
    (enroll ex_mgr "acme" "mesh" [("authorization", "Bearer peat_00")]%string None)
    (λ r w', match r with
             | Ok resp => resp_decision resp = Approved Endpoint 0
             | Err _ => False
             end) ex_world.
Proof.
  eapply wp_mono; [apply (enroll_spec ex_oracle false); [apply ex_wf|done|apply local_laws]|].
  intros [resp|e] w'.
  - intros (org & f & idp & sub & n & m1 & _ & Hf & _ & _ & Hadm & _).
    change (Some ex_formation = Some f) in Hf. injection Hf as <-.
    destruct Hadm as (b & [= <-] & Hadm). cbn in Hadm. naive_solver.
  - intros [_ Href]. destruct (Href eq_refl) as [?|[?|[Hk|(org & f & Horg & Hf & Hno)]]]; [done|done| |].
    + apply Hk. by intros b pk.
    + change (Some ex_formation = Some f) in Hf. injection Hf as <-.
      change (Some ex_org = Some org) in Horg. injection Horg as <-.
      destruct Hno as [Hrate|[x Hx]]; [by apply Hrate|by vm_compute in Hx].
Defined.

Lemma consume_witness :
  wp ex_oracle false (validate_and_consume_token "acme" "mesh" "peat_00")
    (λ r _, match r with Ok t => t_uses t = 2 | Err _ => False end) ex_world.
Proof.
  eapply wp_mono; [apply (validate_and_consume_spec ex_oracle false), ex_wf|].
  intros [t|e] w'; cbn [outcome].
  - intros (_ & tok & Htok & -> & _). change (Some ex_token = Some tok) in Htok.
    by injection Htok as <-.
  - intros [_ He]. specialize (He eq_refl). by vm_compute in He.
Defined.

Lemma redeem_witness :
  wp ex_oracle false (redeem 5 "acme" "mesh" "peat_00") (λ k _, k ≤ 1) ex_world.
Proof.
  apply (redeem_at_most_max_uses ex_oracle false 5 "acme" "mesh" "peat_00" ex_world ex_token 2);
    [apply ex_wf|done|done].
Defined.

Lemma concurrent_redemptions_witness :
  ∃ w' m', interleave ex_oracle [0; 1; 0; 1]%nat
             [validate_and_consume_token "acme" "mesh" "peat_00";
              validate_and_consume_token "acme" "mesh" "peat_00"] ex_world =
             ([Ret (Ok (consumed ex_token)); Ret (Ok (consumed ex_token))], w') ∧
    w_store w' = m' ∧
    d_tokens m' !! ("acme", "peat_00")%string = Some (consumed ex_token) ∧
    t_uses (consumed ex_token) = 2.
Proof.
  apply (concurrent_redemptions (rep:=eq) (H0:=mem_storage_spec) (Hrel:=mem_reliable) ex_oracle
           "acme" "mesh" "peat_00" ex_token 2 ex_db); try done.
  apply wf_rows_wf, ex_wf.
Defined.

Lemma revocation_lost_witness :
  ∃ w' m', interleave ex_oracle [0; 1; 1; 0]%nat
             [validate_and_consume_token "acme" "mesh" "peat_00"; revoke_token "acme" "peat_00"]
             ex_world =
             ([Ret (Ok (consumed ex_token)); Ret (Ok (with_revoked ex_token))], w') ∧
    w_store w' = m' ∧ ∃ tok', d_tokens m' !! ("acme", "peat_00")%string = Some tok' ∧
      t_revoked tok' = false.
Proof.
  apply (revocation_lost (rep:=eq) (H0:=mem_storage_spec) (Hrel:=mem_reliable) ex_oracle
           "acme" "mesh" "peat_00" ex_token 2 ex_db); try done.
  apply wf_rows_wf, ex_wf.
Defined.

(** ** Formations *)
Lemma ex_genesis_small : genesis_small (new_genesis ex_oracle "mesh2" Open ex_world).
Proof. by vm_compute. Qed.
Lemma ex_key_provider_ok : key_provider_ok ex_mgr ex_oracle.
Proof. intros _. by apply local_wraps. Qed.

Lemma create_formation_witness :
  wp ex_oracle false (create_formation ex_mgr "acme" "mesh2" Open)
    (λ r w', match r with
             | Ok f => f_mesh_id f = "00000000"%string ∧
                 ∃ stored, d_genesis (w_store w') !! ("acme", "mesh2")%string = Some stored ∧
                   is_envelope stored = true
             | Err _ => False
             end) ex_world.
Proof.
  eapply wp_mono.
  { apply (create_formation_spec ex_mgr ex_oracle false "acme" "mesh2" Open ex_world ex_db);
      [done| |apply ex_wf].
    intros _. split; [apply local_laws|by apply local_unwraps]. }
  intros [f|e] w'; cbv beta iota.
  - intros (_ & -> & stored & [Hst _] & ->). split; [by vm_compute|]. exists stored. by split.
  - intros [[_ He]|[Hf _]]; [|done]. specialize (He eq_refl). by vm_compute in He.
Defined.

Lemma create_then_load_witness :
  wp ex_oracle false
    (let! f := create_formation ex_mgr "acme" "mesh2" Open in
     let! g := load_genesis ex_mgr "acme" "mesh2" in ok (f, g))
    (λ r _, match r with
            | Ok (f, g) => f_mesh_id f = genesis_mesh_id g
            | Err _ => False
            end) ex_world.
Proof.
  eapply wp_mono.
  { apply (create_then_load ex_mgr ex_oracle false "acme" "mesh2" Open ex_world);
      [apply ex_key_provider_ok|intros _; apply local_laws|apply ex_genesis_small|apply ex_wf|by vm_compute]. }
  intros [[f g]|e] w'; [by intros [_ ?]|done].
Defined.

(** ** Migration *)
Lemma migrate_store_witness :
  wp ex_oracle false (migrate_store ex_kp false)
    (λ r w', is_ok r = true → sealed_at ("acme", "mesh")%string (w_store w')) ex_world.
Proof.
  assert (Unwraps ex_oracle ex_kp) as Hun by by apply local_unwraps.
  eapply wp_mono;
    [apply (migrate_store_spec (KeyProviderLaws0:=local_laws ex_key) (Unwraps0:=Hun)
              ex_kp ex_oracle false false ex_world), ex_wf|].
  intros r w' (_ & _ & Hs) Hr. apply Hs; [done|done|]. by exists ex_formation.
Defined.

(** ** Delivery *)
Definition ex_event : CdcEvent :=
  {| e_org_id := "acme"; e_app_id := "mesh"; e_document_id := "d1"; e_change_hash := "ff";
     e_actor_id := "a"; e_timestamp_ms := 5; e_patches := JNull |}.

Lemma webhook_publish_witness :
  wp down_oracle false (webhook.publish "https://hook" ex_event)
    (λ _ w', w_store w' = ex_db ∧ ∃ evs, w_trace w' = evs ∧ evs ≠ []) ex_world.
Proof.
  eapply wp_mono; [apply (webhook_publish_spec down_oracle false _ _ (as_bytes "d1 ff")); reflexivity|].
  intros r w' (Hs & rps & rp & Ht & _). split; [done|]. eexists. split; [exact Ht|].
  destruct rps as [|r1 [|r2 rps]]; done.
Defined.

Definition ex_engine : CdcEngine :=
  {| nats_sink := None; nats_feature := false; webhook_feature := true |}.
Definition ex_doc : Document :=
  {| doc_id := Some "d1"%string; doc_fields := {["k"%string := JNull]}; doc_updated_at := 7 |}.

Lemma update_advances_cursor_witness :
  wp ex_oracle false (handle_change ex_engine "acme" "mesh" (Updated ex_doc))
    (λ _ w', d_cursors (w_store w') !! ("acme", "mesh", "d1")%string = Some (update_hash ex_doc))
    ex_world.
Proof.
  eapply wp_mono;
    [apply (update_advances_cursor ex_oracle ex_engine "acme" "mesh" ex_doc ex_world);
       [done|done|by exists ex_org]|].
  by intros _ w' [Hc _].
Defined.

Lemma repeated_update_witness :
  wp ex_oracle false (handle_change ex_engine "acme" "mesh" (Updated ex_doc))
    (λ _ w1, wp ex_oracle false (handle_change ex_engine "acme" "mesh" (Updated ex_doc))
               (λ _ w2, w2 = w1) w1) ex_world.
Proof.
  apply (repeated_update_once ex_oracle ex_engine "acme" "mesh" ex_doc ex_world);
    [done|done|by exists ex_org].
Defined.

(** ** Remote brokers *)
Definition ex_mapping : MeshBrokerMapping :=
  {| mb_org_id := "acme"; mb_app_id := "mesh"; mb_base_url := "http://broker";
     mb_collections := ["markers"] |}.
Definition ex_broker : RemoteBrokerState := RemoteBrokerState_new ex_mapping (Some ex_engine).

Lemma no_known_documents new : no_collision ∅ new.
Proof. intros c docs doc id old _ _ _. unfold last_known. by rewrite lookup_empty. Qed.

(** The first poll of a broker announces the document it reads. *)
Lemma refresh_once_witness :
  let '(r, w') := run ex_oracle (refresh_once ex_broker) ex_world in
  match r with
  | Ok st => sn_last_error (rb_snapshot st) = None ∧
      w' = (run ex_oracle (publish_each ex_engine
              (announcements ex_mapping 1000 ∅ (sn_documents (rb_snapshot st))))
              (ticked (reads ex_oracle ex_mapping (state_paths ++ [doc_path "markers"]) ex_world))).2
  | Err _ => False
  end.
Proof.
  pose proof (refresh_once_spec ex_oracle ex_broker ex_world) as Hspec. cbv zeta in Hspec.
  destruct (run ex_oracle (refresh_once ex_broker) ex_world) as [[st|e] w'].
  - destruct Hspec as ([] & _ & _ & _ & Hw'). split; [done|].
    exact (Hw' (no_known_documents (sn_documents (rb_snapshot st)))).
  - destruct Hspec as (paths & [[E _]|[_ [[E _]|(_ & E & _)]]] & _); by vm_compute in E.
Defined.

Lemma refresh_tick_witness :
  wp down_oracle false (refresh_tick ex_broker) (λ _ w', w_store w' = ex_db) ex_world.
Proof.
  eapply wp_mono; [apply (refresh_tick_spec down_oracle false ex_broker ex_world)|].
  by intros st w' [Hs _].
Defined.

Definition ex_docs (text : string) : gmap string (list Value) :=
  {["markers"%string := [JObject [("_id", JString "d1"); ("text", JString text)]%string]]}.
Definition ex_snapshot (peers : list string) (text : string) : Snapshot := {|
  sn_node_info := sn_node_info (Snapshot_new "n"); sn_topology := sn_topology (Snapshot_new "n");
  sn_readiness := sn_readiness (Snapshot_new "n");
  sn_peers := (λ p, {| ps_id := p; ps_connected := true; ps_state := "up"; ps_rtt_ms := None |}) <$> peers;
  sn_documents := ex_docs text; sn_last_sync_ms := Some 1; sn_last_error := None |}.

(** A snapshot with a new document: one announcement is published. *)
Lemma publish_cdc_diffs_witness :
  run ex_oracle (publish_cdc_diffs ex_broker ex_engine (ex_snapshot [] "x") 5) ex_world =
  run ex_oracle (publish_each ex_engine
    [announcement ex_mapping 5 "markers" "d1" (JObject [("_id", JString "d1"); ("text", JString "x")]%string)])
    ex_world.
Proof.
  exact (proj1 (publish_cdc_diffs_spec ex_broker ex_engine (ex_snapshot [] "x") 5)
    (no_known_documents _) db mem_backend ex_oracle ex_world).
Defined.

Lemma emit_diffs_witness :
  PeerConnected "q" ∈ emit_diffs (ex_snapshot ["p"]%string "x") (ex_snapshot ["q"]%string "x").
Proof. apply emit_diffs_spec. cbn. set_solver. Defined.

Lemma lost_collection_witness :
  wp down_oracle false (refresh_once ex_broker)
    (λ r _, ∀ st', r = Ok st' → MeshIngest.list_documents st' "markers" = None) ex_world.
Proof.
  eapply wp_mono; [apply (lost_collection_republished down_oracle false ex_broker "markers" ex_world)|].
  - by intros n.
  - intros r w' Hr st' E. by destruct (Hr st' E).
Defined.


(** ** Tenants *)
Lemma update_org_witness :
  wp ex_oracle false (update_org "acme" (Some EmptyString) None)
    (λ r _, match r with Ok org => o_display_name org = EmptyString | Err _ => False end) ex_world.
Proof.
  eapply wp_mono; [apply (update_org_spec ex_oracle false), ex_wf|].
  intros [org|e] w'; cbn [outcome]; [by intros (_ & old & _ & -> & _)|].
  intros [_ He]. specialize (He eq_refl). by vm_compute in He.
Defined.


Lemma create_token_witness :
  wp ex_oracle false (create_token "acme" "mesh" "label" (Some 3) None)
    (λ r _, match r with Ok t => t_uses t = 0 ∧ t_max_uses t = Some 3 | Err _ => False end) ex_world.
Proof.
  eapply wp_mono; [apply (create_token_spec ex_oracle false), ex_wf|].
  intros [t|e] w'; cbn [outcome]; [by intros (_ & -> & _)|].
  intros [_ He]. specialize (He eq_refl). by vm_compute in He.
Defined.

Lemma create_sink_witness :
  wp ex_oracle false (create_sink "acme" (Webhook "ftp://x"))
    (λ r w', r = Err (MustUseHttp "webhook url") ∧ w_store w' = ex_db) ex_world.
Proof.
  eapply wp_mono; [apply (create_sink_spec ex_oracle false), ex_wf|].
  intros [t|e] w'; cbn [outcome].
  - intros [He _]. by vm_compute in He.
  - intros [Hs He]. specialize (He eq_refl). vm_compute in He. by injection He as <-.
Defined.

Lemma create_idp_witness :
  wp ex_oracle false (create_idp "acme" "https://idp" "client" "secret")
    (λ r _, match r with Ok i => i_enabled i = true | Err _ => False end) ex_world.
Proof.
  eapply wp_mono; [apply (create_idp_spec ex_oracle false), ex_wf|].
  intros [i|e] w'; cbn [outcome]; [by intros (_ & -> & _)|].
  intros [_ He]. specialize (He eq_refl). by vm_compute in He.
Defined.

Lemma revoke_then_consume_witness :
  wp ex_oracle false (let! _ := revoke_token "acme" "peat_00" in
                      validate_and_consume_token "acme" "mesh" "peat_00")
    (λ r _, is_ok r = false) ex_world.
Proof. apply (revoke_then_consume ex_oracle false "acme" "mesh" "peat_00" ex_world), ex_wf. Defined.

Lemma toggle_sink_witness :
  wp ex_oracle false (toggle_sink "acme" "s1" false)
    (λ r _, match r with Ok s => s_enabled s = false | Err _ => False end) ex_world.
Proof.
  eapply wp_mono; [apply (toggle_sink_spec ex_oracle false), ex_wf|].
  intros [s|e] w'; cbn [outcome]; [by intros (_ & old & _ & -> & _)|].
  intros [_ He]. specialize (He eq_refl). by vm_compute in He.
Defined.

(** ** The limits of the storage contract *)
Lemma delete_org_nul_witness :
  let (r, w') := run ex_oracle (delete_org ("acme" +:+ NUL +:+ "mesh")) new_file in
  is_ok r = false.
Proof.
  pose proof (delete_org_nul (T:=gmap_table) ex_oracle new_file "acme" "mesh" "d1" eq_refl eq_refl) as Hd.
  destruct (run _ _ new_file) as [r w']. by destruct Hd as [-> _].
Defined.

Definition ex_entry : EnrollmentAuditEntry :=
  {| a_audit_id := "00"; a_org_id := "acme"; a_app_id := "mesh"; a_idp_id := "none";
     a_subject := "s"; a_decision := Approved Endpoint 0; a_timestamp_ms := 9 |}.

Lemma list_audit_zero_witness :
  ∃ e, (Redb.list_audit (T:=gmap_table) "acme" None 0
          (Redb.append_audit ex_entry (Redb.open [])).2).1 = Ok [e].
Proof.
  assert (op_ok (AppendAudit ex_entry)) as Hok.
  { split_and!; [reflexivity..|]. unfold u64. cbn. lia. }
  pose proof (redb_outcome (T:=gmap_table) (AppendAudit ex_entry) db_empty (Redb.open [])
    (redb_rep_open _) Hok) as Hout.
  destruct Hout as (m' & -> & Hr).
  apply (list_audit_zero (T:=gmap_table) _ _ _ _ Hr); [reflexivity|reflexivity|].
  exists ("acme", 9, "00")%string, ex_entry. split; [by vm_compute|done].
Defined.

(** ** Watchers *)
Lemma watchers_unique_witness :
  let st := (watch_formation (λ _, Ok tt) "acme" "mesh" watchers_new).2 in
  running st !! 0%nat = Some ("acme", "mesh")%string ∧ running (shutdown st) = ∅.
Proof.
  split; [reflexivity|].
  apply (watchers_unique (λ _, Ok tt)). eapply rtc_l; [apply step_watch|apply rtc_refl].
Defined.

Lemma rewatch_witness :
  let st := (watch_formation (λ _, Ok tt) "acme" "mesh" watchers_new).2 in
  watch_formation (λ _, Ok tt) "acme" "mesh" (stream_ended 0 st) = (Ok tt, stream_ended 0 st).
Proof.
  apply (rewatch_after_end (λ _, Ok tt) "acme" "mesh" 0%nat); [|reflexivity].
  eapply (watchers_ok_step (λ _, Ok tt)); [|apply step_watch].
  split; intros ??; cbn; by rewrite lookup_empty.
Defined.

(** ** The HTTP surface *)
#[local] Instance ex_axum : AxumLib := {|
  extract_json _ _ _ body := map_err (λ e, (BAD_REQUEST, e)) (from_slice body);
  extract_query _ := Ok {| aq_app_id := None; aq_limit := None |};
  wrong_path_arguments := (INTERNAL_SERVER_ERROR, "Wrong number of path arguments")%string;
|}.
(** Bodies that never parse, for requests that have none. *)
#[local] Instance ex_no_serde A : Serde A | 100 := {|
  to_vec _ := Ok []; from_slice _ := Err "no body"%string |}.

Definition ex_idp (secret : string) : IdpConfig :=
  {| i_idp_id := "i1"; i_org_id := "acme"; i_issuer_url := "https://idp"; i_client_id := "c";
     i_client_secret := secret; i_enabled := true; i_created_at := 1 |}.
Definition ex_idp_world (secret : string) : world db :=
  set_store (upd_idps <[("acme", "i1")%string := ex_idp secret]> ex_db) ex_world.
Definition ex_get_idps : Request :=
  {| rq_method := GET; rq_path := ["orgs"; "acme"; "idps"]; rq_query := "";
     rq_headers := []; rq_body := [] |}%string.

Lemma secrets_witness :
  from_option (λ h, (run ex_oracle h (ex_idp_world "s1")).1 = (run ex_oracle h (ex_idp_world "s2")).1)
    False (find_route (admin_routes ex_mgr ∅) ex_get_idps).
Proof.
  cbn [from_option].
  refine (proj1 (secrets_unobservable ex_mgr ∅ ex_oracle (local_laws ex_key) ex_get_idps _
                   (ex_idp_world "s1") (ex_idp_world "s2") eq_refl _)).
  by vm_compute.
Defined.

Lemma routes_witness :
  ∃ i r ps, (admin_routes ex_mgr ∅ ++ public_routes ex_mgr true) !! i = Some r ∧
    match_path r.1 ["orgs"; "acme"; "idps"]%string = Some ps ∧ i = 10%nat.
Proof.
  exists 10%nat. do 2 eexists. split; [reflexivity|split; [vm_compute; reflexivity|]].
  eapply (routes_unambiguous ex_mgr ∅ true ["orgs"; "acme"; "idps"]%string 10 10);
    [reflexivity|reflexivity|vm_compute; reflexivity|vm_compute; reflexivity].
Defined.

(** ** Postgres *)
Definition new_database : server := (Postgres.connect empty_server).2.
Definition pg_world : world server := World new_database 0 0 0 [].
Lemma new_database_rep : pg_rep new_database db_empty.
Proof.
  apply (connect_empty empty_server tt); [by intros t; apply lookup_empty|].
  vm_compute. reflexivity.
Qed.

Lemma pg_refines_spec_witness :
  pg_rep new_database db_empty ∧
  ∃ m', pg_rep (handle (CreateOrg ex_org) new_database).2 m' ∧
        d_orgs m' !! "acme"%string = Some ex_org.
Proof.
  split.
  - apply (proj1 (proj2 (pg_refines_spec (CreateOrg ex_org) empty_server db_empty)));
      [by intros t; apply lookup_empty|by vm_compute].
  - pose proof (proj1 (pg_refines_spec (CreateOrg ex_org) new_database db_empty)
      new_database_rep I) as Hp.
    destruct (handle (CreateOrg ex_org) new_database) as [r c'] eqn:E.
    assert (is_ok r = true) as Hok.
    { replace r with (handle (CreateOrg ex_org) new_database).1 by (by rewrite E). by vm_compute. }
    destruct r; [|done]. destruct Hp as (m' & -> & Hr). eexists. split; [exact Hr|done].
Defined.

Lemma gateway_on_postgres_witness :
  let cs := [CallCreateOrg "acme" "Acme"; CallCreateFormation "acme" "mesh" Open;
             CallCreateOrg "other" "Other"; CallDeleteOrg "acme"] in
  let w' := (run ex_oracle (perform_all ex_mgr cs) pg_world).2 in
  no_orphans (w_store w') ∧ pg_rows (w_store w') "orgs" !! ["other"] ≠ None.
Proof.
  destruct (gateway_on_postgres ex_oracle ex_mgr
    [CallCreateOrg "acme" "Acme"; CallCreateFormation "acme" "mesh" Open;
     CallCreateOrg "other" "Other"; CallDeleteOrg "acme"] pg_world db_empty) as [Hno _].
  - apply local_laws.
  - by repeat constructor.
  - apply new_database_rep.
  - apply wf_empty.
  - split; [exact Hno|]. vm_compute. discriminate.
Defined.

Lemma concurrent_postgres_witness :
  no_orphans (w_store (interleave ex_oracle [0; 1; 0; 1; 0; 1]%nat
    (perform_call ex_mgr <$> [CallCreateOrg "acme" "Acme"; CallDeleteOrg "acme"]) pg_world).2).
Proof.
  apply (concurrent_calls_on_postgres ex_oracle ex_mgr
    [CallCreateOrg "acme" "Acme"; CallDeleteOrg "acme"] [0; 1; 0; 1; 0; 1]%nat pg_world db_empty);
    [apply local_laws|by repeat constructor|apply new_database_rep|apply wf_rows_wf, wf_empty].
Defined.

(** A database with an organization and an open formation. *)
Definition pg_formation_world : world server :=
  (run ex_oracle (perform_all ex_mgr [CallCreateOrg "acme" "Acme";
                                      CallCreateFormation "acme" "mesh" Open]) pg_world).2.
Lemma enroll_postgres_witness :
  (run ex_oracle (get_formation "acme" "mesh") pg_formation_world).1
    = Ok {| f_app_id := "mesh"; f_mesh_id := "00000000"; f_enrollment_policy := Open |} ∧
  is_ok (run ex_oracle (enroll ex_mgr "acme" "mesh" [] None) pg_formation_world).1 = false.
Proof.
  split; [by vm_compute|].
  apply (enroll_fails_on_postgres ex_oracle ex_mgr "acme" "mesh" [] None pg_formation_world).
Defined.

Lemma orphan_token_witness :
  ∃ tok, d_tokens (w_store (interleave ex_oracle [0; 0; 1; 0; 0; 0]%nat
    [let! tok := create_token "acme" "mesh" "l" None None in ok (Some tok);
     let! _ := delete_org "acme" in ok None] ex_world).2) !! ("acme"%string, t_token_id tok) = Some tok.
Proof.
  destruct (orphan_token (rep:=eq) (H0:=mem_storage_spec) (Hrel:=mem_reliable) ex_oracle ex_world
    ex_db "acme" "mesh" "l" None None eq_refl) as (w' & m' & tok & -> & <- & _ & Htok & _);
    [done|by eexists|by eexists|done|]. by exists tok.
Defined.

(** ** The gateway at work *)
Lemma ex_typed : typed ex_db.
Proof.
  split; cbn; try apply map_Forall_empty; apply map_Forall_singleton;
    unfold org_typed, quotas_typed, token_typed, sink_typed, opt, u32, u64; cbn; lia.
Qed.
Definition ex_tasks : list task :=
  [ServeRequest ∅ ex_get_idps; WatchFormation "acme" "mesh" [Updated ex_doc; Removed "d2"];
   PollBroker ex_broker 2; Migration false].
Lemma ex_tasks_ok : Forall task_ok ex_tasks.
Proof.
  repeat constructor; cbn; try done.
  intros q [= <-]. done.
Qed.
Abbreviation ex_start := (task_prog true false ex_mgr ex_engine None (Some "secret"%string) <$> ex_tasks).
Definition ex_schedule : list nat := [3; 0; 1; 2; 3; 1; 2; 0; 1; 3; 3; 1; 1; 2; 2; 1; 3; 0]%nat.

Lemma gateway_invariant_witness :
  ∃ m', w_store (interleave ex_oracle ex_schedule ex_start ex_world).2 = m' ∧ rows_wf m' ∧
    ∀ o a b, d_genesis m' !! (o, a) = Some b → is_envelope b = true ∨ d_genesis ex_db !! (o, a) = Some b.
Proof.
  destruct (gateway_invariant (rep:=eq) (H0:=mem_storage_spec) true false ex_mgr ex_engine None
    (Some "secret"%string) ex_oracle (local_laws ex_key) ex_tasks ex_schedule ex_world ex_db)
    as (m' & Hr & Hm & Hsealed);
    [apply ex_tasks_ok|reflexivity|apply wf_rows_wf, ex_wf|apply ex_typed|].
  exact (ex_intro _ m' (conj Hr (conj Hm (Hsealed eq_refl)))).
Defined.


(** *** Limits *)
(** An organization that may have one of everything. *)
Definition limited_org : Organization := {|
  o_org_id := "acme"; o_display_name := "Acme";
  o_quotas := {| max_formations := 1; max_peers_per_formation := 1; max_documents_per_formation := 1;
                 max_cdc_sinks := 1; max_enrollments_per_hour := 1 |};
  o_created_at := 1 |}.
Definition open_formation : FormationConfig :=
  {| f_app_id := "mesh"; f_mesh_id := "00000000"; f_enrollment_policy := Open |}.
Definition limited_db : db :=
  upd_orgs <["acme"%string := limited_org]>
    (upd_formations <[("acme", "mesh")%string := open_formation]> ex_db).
Lemma limited_orgs : d_orgs limited_db = {["acme"%string := limited_org]}.
Proof. apply insert_singleton_eq. Qed.
Definition limited_world : world db := set_store limited_db ex_world.
Lemma limited_wf : wf limited_db.
Proof.
  assert (wf (upd_orgs <["acme"%string := limited_org]> ex_db)) as Hwf.
  { eapply (spec_wf (UpdateOrg limited_org) ex_db tt); [apply ex_wf| |by left].
    split; [done|by apply ex_valid]. }
  eapply (spec_wf (CreateFormation "acme" open_formation) _ tt); [exact Hwf| |done].
  split; [done|]. split; [by apply ex_valid|by eexists].
Qed.

Lemma rate_limit_kept_witness :
  let reqs := [("acme", "mesh", [], None); ("acme", "mesh", [], None)]%string in
  wp ex_oracle false (enroll_all ex_mgr reqs)
    (λ rs w', rate_ok (w_store w') ∧
       ∃ keys : list entry_key, accepted reqs rs = (λ e, (e.1.1, e.2)) <$> keys ∧
         Forall (has_entry (w_store w')) keys) limited_world.
Proof.
  cbv zeta. eapply wp_mono; [apply (rate_limit_kept ex_oracle false ex_mgr)|].
  - apply local_laws.
  - intros i j _. cbn. lia.
  - apply limited_wf.
  - split; [|by apply map_Forall_empty]. cbn.
    intros o org t Ho. change (d_orgs limited_db !! o = Some org) in Ho.
    rewrite limited_orgs in Ho. apply lookup_singleton_Some in Ho as [<- <-]. by vm_compute.
  - by vm_compute.
  - intros rs w' [Hok Hall]. split; [done|]. destruct (Hall eq_refl) as (keys & E & Hkeys & _).
    exists keys. split; [done|]. eapply Forall_impl; [exact Hkeys|]. by intros e [? _].
Defined.

Definition bare_world : world db := set_store (upd_sinks (λ _, ∅) limited_db) ex_world.
(** The random bytes of the two requests differ. *)
Definition race_oracle : oracle :=
  {| o_clock _ := 1000; o_rng n := if (n <? 8)%nat then x00 else x01; o_net _ _ := NetErr "none" |}.
Lemma rate_limit_race_witness :
  ∃ r1 r2 w', interleave race_oracle [0; 0; 0; 0; 1; 1; 1; 1; 0; 0; 0; 1; 1; 1]%nat
      [enroll ex_mgr "acme" "mesh" [] None; enroll ex_mgr "acme" "mesh" [] None] limited_world =
      ([Ret (Ok r1); Ret (Ok r2)], w') ∧
    recent_enrollments "acme" 0 (w_store w') = 2.
Proof.
  pose proof (rate_limit_race (rep:=eq) (H0:=mem_storage_spec) (Hrel:=mem_reliable) race_oracle ex_mgr
    limited_world limited_db "acme" "mesh" limited_org open_formation 1000 eq_refl) as Hrace.
  specialize (Hrace eq_refl eq_refl eq_refl eq_refl ltac:(by vm_compute) (λ _, eq_refl) ltac:(lia)).
  specialize (Hrace ltac:(by vm_compute) eq_refl eq_refl eq_refl).
  destruct Hrace as (r1 & r2 & w' & m' & E & <- & Hrecent).
  exists r1, r2, w'. split; [exact E|exact Hrecent].
Defined.

Lemma quotas_kept_witness :
  wp ex_oracle true
    (perform_all ex_mgr [CallCreateFormation "acme" "mesh2" Open; CallCreateSink "acme" (Webhook "https://x");
                         CallCreateOrg "o2" "Two"; CallCreateFormation "o2" "mesh" Open])
    (λ _ w', quota_ok (w_store w')) limited_world.
Proof.
  apply (quotas_kept ex_mgr ex_oracle true); [apply local_laws|by repeat constructor..|apply limited_wf|].
  split; intros o org Ho; change (d_orgs limited_db !! o = Some org) in Ho;
    rewrite limited_orgs in Ho; apply lookup_singleton_Some in Ho as [<- <-]; by vm_compute.
Defined.

(** *** Tenants *)
Lemma tenant_isolated_witness :
  ∃ m', w_store (interleave ex_oracle ex_schedule
    (task_prog true false ex_mgr ex_engine None (Some "secret"%string) <$>
       [ServeRequest ∅ ex_get_idps; WatchFormation "acme" "mesh" [Updated ex_doc; Removed "d2"];
        PollBroker ex_broker 2]) ex_world).2 = m' ∧ same_tenant "other" ex_db m'.
Proof.
  apply (tenant_isolated (rep:=eq) (H27:=mem_storage_spec) true false ex_mgr ex_engine None
    (Some "secret"%string) ex_oracle (local_laws ex_key)
    [ServeRequest ∅ ex_get_idps; WatchFormation "acme" "mesh" [Updated ex_doc; Removed "d2"];
     PollBroker ex_broker 2] ex_schedule ex_world ex_db);
    [exact (Forall_take _ 3%nat _ ex_tasks_ok)|reflexivity|apply wf_rows_wf, ex_wf|apply ex_typed|].
  intros (t & Ht & Ho).
  repeat (apply elem_of_cons in Ht as [->|Ht]; [by vm_compute in Ho|]). by apply elem_of_nil in Ht.
Defined.

(** A request of an organization's administrator, on a gateway with a second
    organization and on one without. *)
Definition ex_list_tokens : Request :=
  {| rq_method := GET; rq_path := ["orgs"; "acme"; "formations"; "mesh"; "tokens"]; rq_query := "";
     rq_headers := [("authorization", "Bearer secret")]; rq_body := [] |}%string.
Definition other_org : Organization :=
  {| o_org_id := "other"; o_display_name := "Other"; o_quotas := default_quotas; o_created_at := 2 |}.
Lemma ex_list_tokens_ok : request_ok ex_list_tokens.
Proof. split; try done; [by repeat constructor|]. intros q [= <-]. done. Qed.

(** A redb file with one organization, and one with a second organization. *)
Definition one_org : Database gmap_table := (handle (CreateOrg ex_org) (Redb.open [])).2.
Definition two_orgs : Database gmap_table := (handle (CreateOrg other_org) one_org).2.
Definition one_world : world (Database gmap_table) := World one_org 0 0 0 [].

Lemma create_org_rows_ok org m :
  rows_ok m → valid_identifier (o_org_id org) → org_typed org →
  rows_ok (upd_orgs <[o_org_id org := org]> m).
Proof.
  intros [Hm Ht] Hid Hty. split.
  - by apply (spec_rows_wf (CreateOrg org) m tt).
  - by apply (spec_typed (CreateOrg org) m tt).
Qed.
Lemma empty_rows_ok : rows_ok db_empty.
Proof. split; [apply wf_rows_wf, wf_empty|apply typed_empty]. Qed.
Lemma one_org_ok : rows_ok (effect (CreateOrg ex_org) db_empty).
Proof.
  apply create_org_rows_ok; [apply empty_rows_ok|by apply ex_valid|].
  unfold org_typed, quotas_typed, u32, u64. cbn. lia.
Qed.

Lemma tenant_noninterference_witness :
  from_option (λ h,
    (interleave ex_oracle [0; 1; 0; 1]%nat [h; h] one_world).1 =
    (interleave ex_oracle [0; 1; 0; 1]%nat [h; h] (set_store two_orgs one_world)).1) False
    (serve ex_mgr ∅ true (Some "secret"%string) ex_list_tokens).
Proof.
  destruct (serve ex_mgr ∅ true (Some "secret"%string) ex_list_tokens) as [h|] eqn:Eh;
    [|by vm_compute in Eh].
  cbn [from_option].
  assert (request_ok ex_list_tokens ∧ works_for (λ o, o = "acme"%string) ex_list_tokens ∧
    serve ex_mgr ∅ true (Some "secret"%string) ex_list_tokens = Some h) as Hrq.
  { split; [apply ex_list_tokens_ok|]. split; [by exists "acme"%string|exact Eh]. }
  pose proof (redb_effect (T:=gmap_table) (CreateOrg ex_org) _ _ (redb_rep_open []) I) as Hone.
  pose proof (redb_effect (T:=gmap_table) (CreateOrg other_org) _ _ Hone I) as Htwo.
  apply (tenant_noninterference true ex_mgr (Some "secret"%string) ex_oracle (local_laws ex_key) ∅
    [ex_list_tokens; ex_list_tokens] [h; h] [0; 1; 0; 1]%nat (λ o, o = "acme"%string)
    one_world (set_store two_orgs one_world) _ _) with (2 := Hone) (3 := Htwo).
  - constructor; [exact Hrq|]. constructor; [exact Hrq|constructor].
  - exact one_org_ok.
  - apply create_org_rows_ok; [exact one_org_ok|by apply ex_valid|].
    unfold org_typed, quotas_typed, u32, u64. cbn. lia.
  - intros o ->. split; done.
  - reflexivity.
  - reflexivity.
Defined.

Lemma quota_race_witness :
  ∃ s1 s2 w', interleave race_oracle [0; 0; 1; 1; 0; 0; 0; 1; 1; 1]%nat
      [create_sink "acme" (Webhook "https://x"); create_sink "acme" (Webhook "https://x")] bare_world =
      ([Ret (Ok s1); Ret (Ok s2)], w') ∧ sink_count "acme" (w_store w') = 2.
Proof.
  pose proof (quota_race (rep:=eq) (H0:=mem_storage_spec) (Hrel:=mem_reliable) race_oracle
    bare_world (w_store bare_world) "acme" limited_org (Webhook "https://x") eq_refl) as Hrace.
  specialize (Hrace eq_refl eq_refl eq_refl ltac:(by vm_compute) ltac:(by vm_compute)).
  specialize (Hrace ltac:(by vm_compute) eq_refl eq_refl).
  destruct Hrace as (s1 & s2 & w' & m' & E & <- & Hn). exists s1, s2, w'. split; [exact E|exact Hn].
Defined.

(** *** The watcher and its reference *)
Lemma watch_loop_remembers_witness :
  wp ex_oracle false (watch_loop ex_engine "acme" "mesh" [Updated ex_doc; Updated ex_doc; Initial []])
    (λ _ w', length (w_trace w') = 1%nat ∧
       d_cursors (w_store w') !! ("acme", "mesh", "d1")%string = Some (update_hash ex_doc)) ex_world.
Proof.
  eapply wp_mono.
  { apply (watch_loop_remembers ex_oracle ex_engine "acme" "mesh" _ ∅ ex_world
      (λ seen tr, length tr = 1%nat ∧ seen !! "d1"%string = Some (update_hash ex_doc)));
      [done|done|by intros d|].
    cbn [remembering]. rewrite decide_False by done.
    unfold publish_and_remember, publish, list_sinks, get_org.
    apply wp_pbind, wp_pbind, wp_mbind, wp_mbind, wp_mbind.
    apply wp_call_read; [done|done| |done]. intros r [-> _].
    apply wp_ret, wp_call_read; [done|done| |done]. intros sinks [Hl _].
    assert (sinks = [ex_sink]) as -> by (apply Permutation_singleton_r; exact Hl). by vm_compute. }
  intros _ w' (seen' & [Ht Hs] & Hc). split; [done|]. by rewrite (Hc "d1"%string).
Defined.

(** ** The load test *)
Definition ex_sample (endpoint : string) (status latency : Z) : RequestSample :=
  {| rs_endpoint := endpoint; rs_status := status; rs_latency_us := latency; rs_timestamp_ms := 5 |}.
Lemma aggregate_witness :
  let r := Loadtest.aggregate [ex_sample "GET /orgs" 200 30; ex_sample "POST /orgs" 409 10;
                      ex_sample "GET /orgs" 200 20] "mixed" 1 30 in
  lr_failed r = 1 ∧ es_endpoint <$> lr_endpoints r = ["GET /orgs"; "POST /orgs"]%string ∧
  lr_successful r + lr_failed r = 3.
Proof.
  split; [reflexivity|split; [vm_compute; reflexivity|]].
  apply (aggregate_spec [ex_sample "GET /orgs" 200 30; ex_sample "POST /orgs" 409 10;
                         ex_sample "GET /orgs" 200 20] "mixed" 1 30). by vm_compute.
Defined.

Lemma worker_requests_witness :
  emits (routed ex_mgr ∅ true "http://127.0.0.1:9")
    (run_worker "http://127.0.0.1:9" 0 "worker-org-0" "mixed"
       [{| t_stop := false; t_latency_us := 5; t_timestamp_ms := 1 |};
        {| t_stop := true; t_latency_us := 0; t_timestamp_ms := 0 |}]) (λ _, True).
Proof. apply worker_requests_routed. split; [discriminate|reflexivity]. Defined.

(** ** Start-up *)
Definition ex_env (k : string) : option string :=
  if decide (k = "PEAT_ADMIN_TOKEN"%string) then Some "secret"%string else None.
Definition ex_main (command : option Command) : M command_result :=
  main {| aws_kms := false; vault_feature := false; postgres := false |} false false true false true
    {| kms.client_encrypt := λ _ _, Ret (Err "down"%string); kms.client_decrypt := λ _, Ret (Err "down"%string) |}
    (λ _, Ok tt) (λ _, Ok tt) (λ _, Ok tt) (λ _, Ok tt)
    (Ok "/tmp/t"%string) (Ok "127.0.0.1:4000"%string) ex_env command.
Lemma startup_witness :
  ∃ g w', run ex_oracle (ex_main None) empty_world = (Ok (Serving g), w') ∧
    gw_addr g = "0.0.0.0:8080"%string ∧
    ∃ mgr, encrypt_enabled mgr = false ∧ key_provider mgr = PlaintextProvider.
Proof.
  assert (∃ g w', run ex_oracle (ex_main None) empty_world = (Ok (Serving g), w'))
    as (g & w' & E) by (do 2 eexists; reflexivity).
  exists g, w'. split; [exact E|].
  destruct (startup_spec _ _ _ _ _ _ _ _ _ _ _ (Ok "/tmp/t"%string) (Ok "127.0.0.1:4000"%string) ex_env
    ex_oracle g empty_world w' E)
    as (mgr & engine & mesh & _ & -> & _ & _ & Hkeys & _). split; [reflexivity|]. exists mgr. exact Hkeys.
Defined.
